(* ===== verification/_CoqProject ===== *)
-Q . S2P
Prelude.v
Utf8.v
GoText.v
Calendar.v
Codec.v
TrustDns.v
Crypto.v
Journal.v
ReadLog.v
AdminLog.v
Attest.v
Rfc6962.v
Merkle.v
RefMerkle.v
MerkleProps.v
LogEntry.v
Threshold.v
Fwdsec.v
Forward.v
KeyFiles.v
Hsm.v
Checkpoint.v
Vectors.v
Ops.v
Float64.v
Anchor.v
Badger.v
Storage.v
Core.v
CoreProps.v
StoreTypes.v
StoreOpen.v
WitnessServer.v
Tripwire.v
Verify.v
Auditor.v
Cli.v
AuditPdf.v
Mirror.v
Watcher.v
Ingest.v
Api.v
ApiExec.v
ApiProps.v
Ca.v
Honeylog.v
WitnessApi.v
Wire.v
Cosigning.v
Tools.v
Watchdog.v
Steled.v
Serving.v
Client.v
Loadgen.v
Replica.v
