(* ===== verification/Prelude.v ===== *)
(** * Stele: a verification library for the tamper-evident audit log

    Stele is an append-only audit log.  Producers sign envelopes; the operator's
    log checks them, chains them, stores them in BadgerDB and keeps an RFC 6962
    Merkle tree over them; checkpoints of the tree are signed under a
    forward-secure key chain (or by a t-of-n group), countersigned by witnesses
    that gossip with each other, and anchored in public.  Auditors, mirrors, a
    tripwire and an outside watcher check the operator from their side; every
    read and every administrative action goes to a journal of its own.

    The library follows the Go packages under src/pkg and the programs under
    src/cmd, one file per component, in the order of this list:

    - [Prelude] (this file): bytes, machine integers, errors as values, the
      error and state monads, big-endian, hexadecimal and decimal encodings and
      the length-prefixed fields every canonical encoding is built from, with
      their injectivity; the hint database [stele] and the tactics [res_inv],
      [zmod], [btauto_props].
    - [Utf8], [GoText], [Calendar], [Codec]: what the code uses of Go's text
      libraries: UTF-8 validity, strings through encoding/json, ParseUint,
      TrimSpace, RFC 3339 times, base64 and hexadecimal in both directions, the
      JSON of a map of scalars; [TextCodec] is the interface of an encoding.
      [TrustDns]: pkg/trustdns, the trust root as a DNSSEC text record.
    - [Crypto]: SHA-256, Ed25519 and Dilithium3 as a class of operations
      ([Crypto]) with their functional laws ([CryptoLaws]): sizes, and that an
      honest signature verifies.  No law says that forging or colliding is
      impossible; results that need collision freedom name the collision
      instead.  [toy_crypto] is an instance that satisfies the laws and on which
      the witnesses compute.
    - [Journal], [ReadLog], [AdminLog]: pkg/readlog and pkg/adminlog.  The two
      packages share their journal code; [SealedEvent] is the interface between
      that code and the two event types.
    - [Attest]: pkg/attest, envelopes and attestors.
    - [Rfc6962], [Merkle], [RefMerkle], [MerkleProps]: the tree of RFC 6962 as
      the specification ([MTH], [PATH], [PROOF]); pkg/merkle's bounded tree with
      its two LRU caches over a [LeafStore]; a reference implementation of the
      transparency-dev library, which the code calls and which is otherwise a
      parameter ([CompactRange], [ProofLib] with their laws); the theorems.
    - [LogEntry], [Threshold], [Fwdsec], [Checkpoint], [Anchor]: pkg/logentry,
      pkg/threshold, pkg/fwdsec, pkg/checkpoint, pkg/anchor.  [Forward]: the
      signer of [Fwdsec] with its key directory through rotations, crashes and
      restarts of any outcome.
    - [KeyFiles], [Hsm]: the key stores behind [Fwdsec]: the key files of
      pkg/fwdsec, pkg/attest, pkg/threshold and pkg/hybrid on a file system,
      and pkg/hsm on a PKCS#11 token that is a parameter with its laws.
    - [Vectors]: the tables of cmd/stele-vectors, evaluated on the model and
      compared with the committed test vectors, which ties the encodings here
      to the bytes the program writes.
    - [Ops], [Float64]: pkg/obs's health checks, pkg/httpx, pkg/memlimit,
      pkg/beacon; the float64 product the load generator's percentiles use.
    - [Badger], [Storage]: BadgerDB as a class of transactions, reads and
      prefix scans with its documented laws (instances: a map whose commits
      succeed, and one whose commits fail on request); pkg/storage over it, with
      [Store.expires] for what the passing of time does to replay keys.
    - [Core], [CoreProps]: pkg/core.  [Log.step] is every call a client, an
      operator or a timer can make, and replay keys expiring; [Log.held] is the
      invariant ([Log.ok] without the part that needs replay keys to last);
      [Log.observes] what a caller sees of it, the abstract log.
    - [StoreTypes], [StoreOpen]: the typing of the database as an invariant of
      every log; options and opening of the store, replay keys in time, and
      cmd/stele-backup.
    - [WitnessServer], [Tripwire], [Verify], [Mirror], [Watcher]: pkg/witness,
      pkg/tripwire, pkg/verify, pkg/mirror, pkg/watcher.
    - [Auditor], [Cli], [AuditPdf]: pkg/audit, the commands of cmd/stele that
      verify, and pkg/auditpdf as the calls it makes to the PDF library.  The
      operator is an arbitrary function from URLs to answers ([web]) and the
      JSON decoder a parameter ([Auditor.Wire]).
    - [Ingest], [Api], [ApiExec], [ApiProps]: pkg/api.  Handlers are programs
      of atomic actions on the shared server; [ApiExec] runs any number of them
      interleaved and reduces that to rely/guarantee reasoning about one.
    - [Ca]: pkg/tlsutil and the certificate commands, over x509 as a parameter.
    - [Honeylog], [WitnessApi], [Watchdog]: pkg/honeylog's sinks; the witness's
      HTTP routes and gossip client over [WitnessServer]; pkg/watchdog, whose
      goroutines are the steps of a system around the [Rotator] interface,
      with the log as its instance.
    - [Wire]: the request bodies of pkg/api/types.go and pkg/witness/api.go on
      the wire: their JSON text against the body limits of pkg/api/server.go,
      and what decoding makes of them ([Payload] is the interface the clients
      use).
    - [Cosigning], [Replica], [Serving]: components composed.  The operator's
      checkpoint among the witnesses that countersign it; the mirror against
      the routes of the operator; the ticker loops of the daemons, with the
      tripwire interleaved with everything that changes the log.
    - [Tools], [Steled], [Client], [Loadgen]: the programs.  cmd/stele-tamper,
      -watcher, -export-chain, -cosigner, -witness and -mirror; cmd/steled from
      its flags to its shutdown; the commands of cmd/stele that change
      something, as programs that ask hosts and go on with the answers;
      cmd/stele-loadgen.

    ** How the code is modelled

    A Go function that changes a receiver takes and returns it ([stm]); one that
    fails returns [res], whose error is the chain of messages of the wrapped
    errors without their formatted arguments.  Nil pointers are [None]; nil and
    empty slices are the same list.  Unsigned and signed 64-bit integers are [Z]
    with [wrap64] and [i64] where the code's arithmetic can leave the range.
    What the outside world contributes (clocks, random draws, the outcome of a
    file write, a database commit or an HTTP request, the order of a map's
    iteration or of replies on a channel) is an argument, so a theorem holds for
    all of it.  Files are what their decoder makes of them, including torn
    writes and undecodable bytes.  JSON round trips are the identity on decoded
    values, except for strings, which [Utf8.json_string] coerces.  To a handler a
    body arrives decoded, or as the reason why it does not decode; what a client
    of [Client], [Loadgen] or [Cosigning] posts arrives as [Wire.posted] says:
    refused when its text is longer than the limit, its strings coerced.  The
    answers to these clients arrive as the handlers made them: the strings in
    them were decoded from JSON once already, or are the operator's own.

    Calls on the log are atomic, as its mutex makes them, except for Append,
    whose checks run before the lock and are an action of their own; the
    database write at the end of a checkpoint is part of its one action.  The
    laws of [Badger] speak of one moment; between two calls replay keys may
    expire ([Log.step_expire]), so that no theorem about a running log takes an
    envelope to be unique unless the replay window is unlimited;
    [StoreOpen.ReplayWindow] shows the window on a database with a clock.  The
    goroutine that delivers a honeypot alert is part of the read that starts it.

    ** What the theorems show

    - The tree: whatever the cache bounds and the order of operations, size and
      root are those of the RFC 6962 tree, proofs are complete for every past
      size, and an accepted proof means membership or prefix, or exhibits a
      SHA-256 collision.
    - The log: along any sequence of calls, expiring replay keys, restarts and
      failed writes it only grows, and holds no envelope twice when replay keys
      do not expire; an append has exactly its documented outcomes and is open exactly
      to the producers entitled to it; a restart rebuilds the same log; a
      checkpoint commits to it, whatever the signer, and a single-key one that is
      in step with its chain verifies; entries, chains and envelopes are
      bound by their hashes.  Its database stays well typed, every stored
      checkpoint is over a prefix of the log as it is now, and a backup
      restores the log.
    - Keys: verification of the rotation chain and of checkpoints is exact;
      after a completed rotation the previous key is gone for good, whatever
      clocks, key modes, failing calls and crashes come before or after it; a
      rotation that fails before its commit point changes nothing.  Key files and the token implement the
      abstract key store, and producer certificates name whom they say.
    - Witnesses: no witness ever signs two roots for one size, across restarts,
      gossip and whatever requests arrive over HTTP; cosigning and fork
      detection are exact.  Together: a cohort that can sign does, so that the
      operator's checkpoint is accepted by an auditor who requires all of them,
      and auditors whose quorums overlap in an honest witness are never shown
      two roots for one size - as long as no name has a line break, without which
      a concrete split view is given.
    - Journals, anchors, mirror, tripwire, auditor, watcher: round trips through
      their files, tamper evidence, append-only replication with termination
      against an honest upstream and against the operator's own routes,
      exactness of verdicts, no false alarm while the log is in service.
    - The API under concurrency (every run of the pool of requests is one of the
      single handlers under interference): inclusion proofs stay coherent; accepted appends are
      entitled and in the log; reads and administrative changes are on record
      when the journals take writes; the append semaphore is never exceeded nor leaked; rate limits are per
      producer.
    - Auditor and client: a report passes, and its printed form says PASS,
      exactly when every answer of the operator verifies from the caller's
      trust anchor, and then the sampled positions hold the leaves served; a
      successful audit command pins the whole log to the signed head, and it
      always ends.  Logging and enrolling from the command line have the effect
      they report.
    - Daemons and tools: a daemon that serves enforces its flags, one that fails
      to start leaves nothing open, a restart is the same operator; rotations
      are debounced whatever the goroutines do; exit codes are exact; the report
      of a load test counts its run.
    - Theorems that show where code and documentation part are stated next to
      these, each with a concrete instance.

    Every theorem with hypotheses is followed, at the end of its file, by a
    witness that discharges them on a concrete input.

    ** Fuel and bounds

    [Merkle]'s [subRoot] runs on the number of leaves it covers and its split
    loop on the 64 bits of a size, and [Rfc6962]'s recursions on the length of
    the list, with lemmas that this is enough; [Mirror.sync_loop] on explicit
    fuel, with a theorem that a bounded amount suffices against an honest
    upstream (and one that none suffices against a hostile one);
    [Cli.fetch_entries] on one unit per chunk, enough below [2^64 - 256].  The
    loops over texts (runes, fields, lines, base64 quanta, PEM blocks) run on
    the length of their input, which every round shortens.  Theorems about the
    log assume fewer than [2^63] entries, the range of its index; those about
    the percentiles of [Loadgen] at most [2^53] samples, the integers a float64
    holds exactly.  [Vectors] defines every table in full and evaluates the
    cases that stay small inside the kernel: all but the payload of a mebibyte,
    trees of up to eight leaves, and every proof against its root.

    ** Not modelled

    Metrics, tracing and log lines (pkg/obs but its health checks), which no
    operation reads; HTTP transports, and JSON wire formats but those of [Wire],
    whose outcomes are inputs; flag parsing, usage texts and the printing of human-readable
    output; the drawing inside the PDF library; pkg/keyguard's memory locks.
    Libraries the code calls (BadgerDB, transparency-dev/merkle, circl,
    x509, PKCS#11, fsnotify, x/time/rate) are parameters with the laws their
    documentation gives. *)

From stdpp Require Import base numbers list gmap strings sorting.
From Stdlib Require Import ZArith Lia.
From Stdlib Require Strings.Byte Strings.String.
From Stdlib Require Import DecimalString DecimalFacts DecimalPos DecimalZ.

#[local] Open Scope Z_scope.

(** ** Bytes *)

(** A Go [[]byte] is a list of bytes; the nil slice and the empty slice are the
    same list, since the code only ever looks at the length of either.  A Go
    [string] is an immutable byte sequence, so it is the same type. *)
Abbreviation bytes := (list Byte.byte).

Declare Scope stele_scope.
Delimit Scope stele_scope with stele.

#[export] Instance byte_eq_dec : EqDecision Byte.byte := Byte.byte_eq_dec.

#[export] Program Instance byte_countable : Countable Byte.byte :=
  inj_countable' Byte.to_N (fun n => default Byte.x00 (Byte.of_N n)) _.
Next Obligation. intros b. cbv beta. by rewrite Byte.of_to_N. Qed.

(** String literals of the source. *)
Definition str (s : string) : bytes := String.list_byte_of_string s.

(** ** Machine integers

    Unsigned and signed integers are [Z] with their ranges; the conversions and
    the wrap-around of [uint64] and [uint32] arithmetic are written out. *)
Definition u64_max : Z := 2 ^ 64.
Definition is_u64 (z : Z) : Prop := 0 <= z < 2 ^ 64.
Definition is_i64 (z : Z) : Prop := - 2 ^ 63 <= z < 2 ^ 63.
Definition wrap64 (z : Z) : Z := z mod 2 ^ 64.
Definition wrap32 (z : Z) : Z := z mod 2 ^ 32.

(** [uint64(x)] for an [int64] [x]. *)
Definition u64_of_i64 (z : Z) : Z := wrap64 z.

(** [len(b)] as an integer. *)
Definition len {A} (l : list A) : Z := Z.of_nat (length l).

(** ** Errors

    A Go error is the chain of its messages, outermost first, without the
    formatted arguments: [fmt.Errorf("a: %w", err)] is ["a" :: err]. *)
Abbreviation error := (list string).

Inductive res (A : Type) : Type :=
| Ok (a : A)
| Err (e : error).
Arguments Ok {A} _.
Arguments Err {A} _.

Definition errorf {A} (m : string) : res A := Err [m].

(** [if err != nil { return fmt.Errorf("m: %w", err) }] *)
Definition wrap_err {A} (m : string) (r : res A) : res A :=
  match r with Ok a => Ok a | Err e => Err (m :: e) end.

Definition res_bind {A B} (r : res A) (k : A -> res B) : res B :=
  match r with Ok a => k a | Err e => Err e end.

Definition is_ok {A} (r : res A) : bool :=
  match r with Ok _ => true | Err _ => false end.

Notation "'let!' x ':=' r 'in' k" := (res_bind r (fun x => k))
  (at level 10, x pattern, r at level 100, k at level 200) : stele_scope.
(** [if c { return err }] followed by the rest of the body. *)
Notation "'fail_if' c 'with' m ';;' k" :=
  (if c then Err [m%string] else k)
  (at level 10, c at level 99, m at level 0, k at level 200) : stele_scope.

#[global] Open Scope stele_scope.

(** *** State and errors

    A method that mutates its receiver and may fail: the new state is returned
    with the result, whatever the result is, since a Go error undoes nothing. *)
Definition stm (S A : Type) : Type := S -> S * res A.

Definition st_ret {S A} (a : A) : stm S A := fun s => (s, Ok a).
Definition st_err {S A} (e : error) : stm S A := fun s => (s, Err e).
Definition st_bind {S A B} (m : stm S A) (k : A -> stm S B) : stm S B := fun s =>
  match m s with
  | (s', Ok a) => k a s'
  | (s', Err e) => (s', Err e)
  end.
(** [if err != nil { return fmt.Errorf("m: %w", err) }] *)
Definition st_wrap {S A} (m : string) (x : stm S A) : stm S A := fun s =>
  let '(s', r) := x s in (s', wrap_err m r).

Notation "'do!' x '<-' m ';' k" := (st_bind m (fun x => k))
  (at level 10, x pattern, m at level 99, k at level 200) : stele_scope.

(** A run that returned normally, in the form step relations state it. *)
Lemma run_ok {S A} (x : S * res A) : is_ok (snd x) = true -> exists a, x = (fst x, Ok a).
Proof. destruct x as [s [a|e]]; [by exists a|done]. Qed.

(** ** Tactics *)

(** Linear arithmetic with [/] and [mod] by constants. *)
Ltac zmod := Z.div_mod_to_equations; lia.

(** Case analysis on every [if] and [match] of a hypothesis [H : ... = Ok _],
    keeping the branches that can be [Ok]. *)
Ltac res_inv H :=
  repeat match type of H with
  | res_bind ?r _ = Ok _ =>
      let E := fresh "E" in destruct r eqn:E; cbn [res_bind] in H; [|discriminate H]
  | wrap_err _ ?r = Ok _ =>
      let E := fresh "E" in destruct r eqn:E; cbn [wrap_err] in H; [|discriminate H]
  | (if ?c then Err _ else _) = Ok _ =>
      let E := fresh "E" in destruct c eqn:E; [discriminate H|]
  | (if ?c then _ else Err _) = Ok _ =>
      let E := fresh "E" in destruct c eqn:E; [|discriminate H]
  | match ?o with Some _ => _ | None => Err _ end = Ok _ =>
      let E := fresh "E" in destruct o eqn:E; [|discriminate H]
  | Ok _ = Ok _ => injection H as H
  end.

(** Boolean conditions of the code as propositions. *)
Ltac btauto_props :=
  repeat match goal with
  | H : orb _ _ = false |- _ => apply orb_false_iff in H as [? ?]
  | H : orb _ _ = true |- _ => apply orb_true_iff in H
  | H : andb _ _ = true |- _ => apply andb_true_iff in H as [? ?]
  | H : negb _ = false |- _ => apply negb_false_iff in H
  | H : negb _ = true |- _ => apply negb_true_iff in H
  | H : Z.eqb _ _ = true |- _ => apply Z.eqb_eq in H
  | H : Z.eqb _ _ = false |- _ => apply Z.eqb_neq in H
  | H : Z.ltb _ _ = true |- _ => apply Z.ltb_lt in H
  | H : Z.ltb _ _ = false |- _ => apply Z.ltb_ge in H
  | H : Z.leb _ _ = true |- _ => apply Z.leb_le in H
  | H : Z.leb _ _ = false |- _ => apply Z.leb_gt in H
  end.

Lemma len_pos {A} (l : list A) : (0 <? len l) = true <-> l <> [].
Proof. unfold len. destruct l; simpl; [done|]. by rewrite Z.ltb_lt. Qed.

Lemma len_zero {A} (l : list A) : (0 <? len l) = false <-> l = [].
Proof. unfold len. destruct l; simpl; [done|]. split; [|done]. by intros ?%Z.ltb_ge. Qed.

(** Split [(if c then Err _ else k) = Ok x <-> P]: the guard refutes [P], or
    the rest decides it. *)
Lemma guard_iff {A} (c : bool) (m : string) (k : res A) (x : A) (P Q : Prop) :
  (c = false <-> P) -> (k = Ok x <-> Q) ->
  (if c then Err [m] else k) = Ok x <-> P /\ Q.
Proof. intros HP HQ. destruct c; naive_solver. Qed.

Lemma wrap_err_ok {A} m (r : res A) x : wrap_err m r = Ok x <-> r = Ok x.
Proof. destruct r; simpl; naive_solver. Qed.

Lemma len_map {A B} (f : A -> B) (l : list A) : len (map f l) = len l.
Proof. unfold len. by rewrite length_map. Qed.

Lemma filter_all {A} (P : A -> Prop) `{forall x, Decision (P x)} (l : list A) : Forall P l -> filter P l = l.
Proof. induction 1; [done|]. by rewrite filter_cons_True, IHForall. Qed.

Lemma eqb_guard x y : negb (x =? y) = false <-> x = y.
Proof. rewrite negb_false_iff. apply Z.eqb_eq. Qed.

(** ** Byte comparison loops *)

(** The body of the loop of [bytesEqual] / [equalBytes]: the index of the
    first difference ends it. *)
Fixpoint bytes_loop (a b : bytes) : bool :=
  match a, b with
  | x :: a', y :: b' => if Byte.eqb x y then bytes_loop a' b' else false
  | [], _ => true
  | _ :: _, [] => false
  end.

Definition bytesEqual (a b : bytes) : bool :=
  if negb (Nat.eqb (length a) (length b)) then false else bytes_loop a b.

Lemma bytes_loop_spec a b :
  length a = length b -> bytes_loop a b = true <-> a = b.
Proof.
  revert b; induction a as [|x a IH]; intros [|y b] Hl; simpl in *; try done.
  destruct (Byte.eqb x y) eqn:E.
  - apply Byte.byte_dec_bl in E as ->. rewrite IH by lia. naive_solver.
  - split; [done|]. intros [= -> ->]. by rewrite Byte.byte_dec_lb in E.
Qed.

Lemma bytesEqual_spec a b : bytesEqual a b = true <-> a = b.
Proof.
  unfold bytesEqual. destruct (Nat.eqb_spec (length a) (length b)) as [E|E]; simpl.
  - by apply bytes_loop_spec.
  - split; [done|]. by intros ->.
Qed.

Lemma bytesEqual_false a b : bytesEqual a b = false <-> a <> b.
Proof. rewrite <- bytesEqual_spec. destruct (bytesEqual a b); naive_solver. Qed.

Lemma bytesEqual_refl a : bytesEqual a a = true.
Proof. by apply bytesEqual_spec. Qed.

(** [allZeros]: every byte of the slice is 0. *)
Fixpoint allZeros (b : bytes) : bool :=
  match b with
  | [] => true
  | x :: b' => if negb (Byte.eqb x Byte.x00) then false else allZeros b'
  end.

Lemma allZeros_spec b : allZeros b = true <-> b = replicate (length b) Byte.x00.
Proof.
  induction b as [|x b IH]; simpl; [done|].
  destruct (Byte.eqb x Byte.x00) eqn:E; simpl.
  - apply Byte.byte_dec_bl in E as ->. rewrite IH. split; congruence.
  - split; [done|]. intros [= -> _]. done.
Qed.

(** ** Big-endian integers ([binary.BigEndian]) *)

Definition byte_to_Z (b : Byte.byte) : Z := Z.of_N (Byte.to_N b).
Definition byte_of_Z (z : Z) : Byte.byte :=
  default Byte.x00 (Byte.of_N (Z.to_N (z mod 256))).

Lemma byte_to_Z_range b : 0 <= byte_to_Z b < 256.
Proof. unfold byte_to_Z. pose proof (Byte.to_N_bounded b). lia. Qed.

Lemma byte_to_of_Z z : byte_to_Z (byte_of_Z z) = z mod 256.
Proof.
  unfold byte_to_Z, byte_of_Z. pose proof (Z.mod_pos_bound z 256 ltac:(lia)).
  destruct (Byte.of_N (Z.to_N (z mod 256))) as [b|] eqn:E; simpl.
  - apply Byte.to_of_N in E. rewrite E. lia.
  - apply Byte.of_N_None_iff in E. lia.
Qed.

Lemma byte_of_to_Z b : byte_of_Z (byte_to_Z b) = b.
Proof.
  unfold byte_of_Z. rewrite Z.mod_small by apply byte_to_Z_range.
  unfold byte_to_Z. rewrite N2Z.id, Byte.of_to_N. done.
Qed.

Lemma byte_to_Z_inj a b : byte_to_Z a = byte_to_Z b -> a = b.
Proof. intros E. by rewrite <- (byte_of_to_Z a), <- (byte_of_to_Z b), E. Qed.

(** [binary.BigEndian.PutUint64] and [PutUint32] write the low bytes of the
    value, most significant first. *)
Fixpoint be_enc (n : nat) (z : Z) : bytes :=
  match n with
  | O => []
  | S n => be_enc n (z / 256) ++ [byte_of_Z z]
  end.

Definition be_dec (b : bytes) : Z :=
  foldl (fun acc x => acc * 256 + byte_to_Z x) 0 b.

Definition put_u64 (z : Z) : bytes := be_enc 8 z.
Definition put_u32 (z : Z) : bytes := be_enc 4 z.

Lemma be_enc_length n z : length (be_enc n z) = n.
Proof. revert z; induction n; intros; simpl; [done|]. rewrite length_app, IHn. simpl; lia. Qed.

Lemma be_dec_app b x : be_dec (b ++ [x]) = be_dec b * 256 + byte_to_Z x.
Proof. unfold be_dec. by rewrite foldl_app. Qed.

Lemma be_dec_enc n z : be_dec (be_enc n z) = z mod 256 ^ Z.of_nat n.
Proof.
  revert z; induction n as [|n IH]; intros z; cbn [be_enc].
  - rewrite Z.mod_1_r. done.
  - rewrite be_dec_app, IH, byte_to_of_Z, Nat2Z.inj_succ, Z.pow_succ_r by lia.
    rewrite (Z.rem_mul_r z 256) by lia. lia.
Qed.

Lemma be_enc_inj n x y :
  0 <= x < 256 ^ Z.of_nat n -> 0 <= y < 256 ^ Z.of_nat n ->
  be_enc n x = be_enc n y -> x = y.
Proof.
  intros Hx Hy E. apply (f_equal be_dec) in E.
  by rewrite !be_dec_enc, !Z.mod_small in E.
Qed.

Lemma be_dec_bound b : 0 <= be_dec b < 256 ^ Z.of_nat (length b).
Proof.
  induction b as [|x b IH] using rev_ind; [done|].
  rewrite be_dec_app, length_app. simpl. pose proof (byte_to_Z_range x).
  rewrite Nat.add_1_r, Nat2Z.inj_succ, Z.pow_succ_r by lia. lia.
Qed.

Lemma be_enc_dec b : be_enc (length b) (be_dec b) = b.
Proof.
  induction b as [|x b IH] using rev_ind; [done|].
  rewrite length_app, be_dec_app. simpl. rewrite Nat.add_1_r. cbn [be_enc].
  pose proof (byte_to_Z_range x).
  rewrite Z.div_add_l by lia. rewrite (Z.div_small (byte_to_Z x)) by lia.
  rewrite Z.add_0_r, IH. f_equal. f_equal.
  unfold byte_of_Z. rewrite Z.add_comm, Z.mod_add by lia.
  apply byte_of_to_Z.
Qed.

Lemma put_u64_length z : length (put_u64 z) = 8%nat.
Proof. apply be_enc_length. Qed.
Lemma put_u32_length z : length (put_u32 z) = 4%nat.
Proof. apply be_enc_length. Qed.

Lemma put_u64_inj x y : is_u64 x -> is_u64 y -> put_u64 x = put_u64 y -> x = y.
Proof. apply (be_enc_inj 8). Qed.

Lemma be_dec_put_u64 x : is_u64 x -> be_dec (put_u64 x) = x.
Proof. intros H. unfold put_u64. rewrite be_dec_enc. by apply Z.mod_small. Qed.

(** [uint64] of an [int64] loses nothing. *)
Lemma u64_of_i64_inj x y :
  is_i64 x -> is_i64 y -> u64_of_i64 x = u64_of_i64 y -> x = y.
Proof. unfold is_i64, u64_of_i64, wrap64. intros. zmod. Qed.

Lemma u64_of_i64_range x : is_u64 (u64_of_i64 x).
Proof. unfold is_u64, u64_of_i64, wrap64. zmod. Qed.

(** ** Length-prefixed fields

    The [put] closures of the canonical encoders: the length as a big-endian
    [uint32] (truncated), then the bytes. *)
Definition put (b : bytes) : bytes := put_u32 (len b) ++ b.

(** A field short enough for its length prefix. *)
Definition fits32 (b : bytes) : Prop := len b < 2 ^ 32.

Lemma app_inj_len {A} (a b c d : list A) :
  length a = length b -> a ++ c = b ++ d -> a = b /\ c = d.
Proof. intros Hl E. by apply app_inj_1. Qed.

Lemma put_inj a b r s :
  fits32 a -> fits32 b -> put a ++ r = put b ++ s -> a = b /\ r = s.
Proof.
  unfold put, fits32, len. rewrite <- !app_assoc. intros Ha Hb E.
  apply app_inj_len in E as [E1 E2]; [|by rewrite !put_u32_length].
  apply (be_enc_inj 4) in E1; [|lia|lia].
  apply app_inj_len; [lia|done].
Qed.

Lemma put_u64_app_inj x y r s :
  is_u64 x -> is_u64 y -> put_u64 x ++ r = put_u64 y ++ s -> x = y /\ r = s.
Proof.
  intros Hx Hy E. apply app_inj_len in E as [E1 E2]; [|by rewrite !put_u64_length].
  split; [by apply put_u64_inj|done].
Qed.

(** ** Text fields: [hex.EncodeToString] and [%d] *)

Definition hexdigits : bytes := str "0123456789abcdef".
Definition nibble (z : Z) : Byte.byte := default Byte.x30 (hexdigits !! Z.to_nat z).
Definition hex1 (b : Byte.byte) : bytes :=
  [nibble (byte_to_Z b / 16); nibble (byte_to_Z b mod 16)].

Fixpoint hex (b : bytes) : bytes :=
  match b with
  | [] => []
  | x :: b' => hex1 x ++ hex b'
  end.

(** A byte that can occur in neither a hex nor a decimal field; the canonical
    encodings use two of them as separators. *)
Definition is_sep (x : Byte.byte) : Prop := x = Byte.x0a \/ x = Byte.x3a.

Lemma hex1_inj a b : hex1 a = hex1 b -> a = b.
Proof.
  intros E. apply byte_to_Z_inj.
  assert (forall x, exists y z, hex1 x = [y; z] /\
    byte_to_Z x = Z.of_nat (default 0%nat (fst <$> list_find (eq y) hexdigits)) * 16
                + Z.of_nat (default 0%nat (fst <$> list_find (eq z) hexdigits))) as D.
  { intros x. eexists _, _. split; [done|]. destruct x; vm_compute; done. }
  destruct (D a) as (y & z & Ha & ->), (D b) as (y' & z' & Hb & ->).
  rewrite Ha, Hb in E. by injection E as -> ->.
Qed.

Lemma hex_cons x b : hex (x :: b) = hex1 x ++ hex b.
Proof. done. Qed.

Lemma hex_length b : length (hex b) = (2 * length b)%nat.
Proof. induction b as [|x b IH]; [done|]. rewrite hex_cons, length_app, IH. simpl. lia. Qed.

Lemma hex_inj a b : hex a = hex b -> a = b.
Proof.
  revert b; induction a as [|x a IH]; intros [|y b] E; try done.
  rewrite !hex_cons in E. apply app_inj_len in E as [E1 E2]; [|done].
  f_equal; [by apply hex1_inj|by apply IH].
Qed.

Lemma hex_sep x b : is_sep x -> x ∉ hex b.
Proof.
  intros Hx. induction b as [|y b IH]; [apply not_elem_of_nil|].
  rewrite hex_cons, elem_of_app. intros [H|H]; [|by apply IH]. revert H.
  destruct Hx as [-> | ->]; destruct y; vm_compute; intros H;
    repeat (apply elem_of_cons in H as [H|H]; [discriminate H|]);
    by apply elem_of_nil in H.
Qed.

(** [fmt.Sprintf("%d", z)] *)
Definition fmt_d (z : Z) : bytes :=
  str (NilZero.string_of_int (Z.to_int z)).

Lemma str_inj a b : str a = str b -> a = b.
Proof.
  unfold str. intros E. apply (f_equal String.string_of_list_byte) in E.
  by rewrite !String.string_of_list_byte_of_string in E.
Qed.

Lemma str_cons c s : str (String c s) = Ascii.byte_of_ascii c :: str s.
Proof. done. Qed.

Lemma fmt_d_inj x y : fmt_d x = fmt_d y -> x = y.
Proof.
  unfold fmt_d. intros E%str_inj. apply (f_equal NilZero.int_of_string) in E.
  assert (forall z, Z.to_int z <> Decimal.Pos Decimal.Nil /\
                    Z.to_int z <> Decimal.Neg Decimal.Nil) as D.
  { intros [|p|p]; cbn; split; try discriminate; intros [= H];
      pose proof (DecimalPos.Unsigned.to_uint_nonnil p); done. }
  rewrite !NilZero.isi in E by apply D.
  injection E as E. apply (f_equal Z.of_int) in E.
  by rewrite !DecimalZ.of_to in E.
Qed.

Lemma uint_sep x d : is_sep x -> x ∉ str (NilEmpty.string_of_uint d).
Proof.
  intros Hx. induction d; cbn [NilEmpty.string_of_uint];
    [apply not_elem_of_nil|..];
    rewrite str_cons;
    intros H; apply elem_of_cons in H as [H|H]; try done;
    destruct Hx as [-> | ->]; discriminate H.
Qed.

Lemma fmt_d_sep x z : is_sep x -> x ∉ fmt_d z.
Proof.
  intros Hx. unfold fmt_d.
  assert (forall d, x ∉ str (NilZero.string_of_uint d)) as U.
  { intros d. destruct d; try apply (uint_sep x _ Hx). cbn.
    intros H. apply elem_of_cons in H as [H|H]; [|by apply elem_of_nil in H].
    destruct Hx as [-> | ->]; discriminate H. }
  destruct (Z.to_int z) as [d|d]; cbn [NilZero.string_of_int]; [apply U|].
  rewrite str_cons.
  intros H. apply elem_of_cons in H as [H|H]; [|by apply (U d)].
  destruct Hx as [-> | ->]; discriminate H.
Qed.

(** A text line ends at its first newline, so two texts with equal bytes have
    equal first lines: the splitting lemma of every canonical text format. *)
Lemma sep_inj (x : Byte.byte) a b r s :
  x ∉ a -> x ∉ b -> a ++ x :: r = b ++ x :: s -> a = b /\ r = s.
Proof.
  revert b; induction a as [|y a IH]; intros [|z b] Ha Hb E; simpl in *.
  - by injection E as ->.
  - injection E as -> _. exfalso. apply Hb. left.
  - injection E as -> _. exfalso. apply Ha. left.
  - injection E as -> E. apply IH in E as [-> ->]; [done|set_solver|set_solver].
Qed.

Lemma prefix_inj {A} (p a b : list A) : p ++ a = p ++ b -> a = b.
Proof. apply app_inv_head. Qed.

(** One line [prefix value newline] of a canonical text. *)
Definition nl : Byte.byte := Byte.x0a.
Definition line (p : string) (v : bytes) : bytes := str p ++ v ++ [nl].

(** A value that stays within its line. *)
Definition one_line (v : bytes) : Prop := nl ∉ v.

Lemma line_inj p a b r s :
  one_line a -> one_line b -> line p a ++ r = line p b ++ s -> a = b /\ r = s.
Proof.
  unfold line, one_line. rewrite <- !app_assoc. intros Ha Hb E%prefix_inj. by apply sep_inj in E.
Qed.

Lemma one_line_hex b : one_line (hex b).
Proof. apply hex_sep. by left. Qed.
Lemma one_line_fmt z : one_line (fmt_d z).
Proof. apply fmt_d_sep. by left. Qed.

(** ["none"], the placeholder of absent fields, is not a hex field. *)
Lemma hex_not_none b : hex b <> str "none".
Proof.
  intros E. destruct b as [|x b]; [done|]. rewrite hex_cons in E.
  injection E as E _. revert E. destruct x; vm_compute; discriminate.
Qed.

(** ** The order of keys ([bytes.Compare]) *)

Fixpoint bytes_cmp (a b : bytes) : comparison :=
  match a, b with
  | [], [] => Eq
  | [], _ :: _ => Lt
  | _ :: _, [] => Gt
  | x :: a', y :: b' =>
      match byte_to_Z x ?= byte_to_Z y with Eq => bytes_cmp a' b' | c => c end
  end.

Lemma bytes_cmp_eq a b : bytes_cmp a b = Eq <-> a = b.
Proof.
  revert b; induction a as [|x a IH]; intros [|y b]; simpl; try done.
  destruct (Z.compare_spec (byte_to_Z x) (byte_to_Z y)) as [E|E|E].
  - apply byte_to_Z_inj in E as ->. rewrite IH. naive_solver.
  - split; [done|]. intros [= -> _]. lia.
  - split; [done|]. intros [= -> _]. lia.
Qed.

Lemma bytes_cmp_prefix p a b : bytes_cmp (p ++ a) (p ++ b) = bytes_cmp a b.
Proof. induction p as [|x p IH]; simpl; [done|]. by rewrite Z.compare_refl. Qed.

Lemma bytes_cmp_snoc a b x y :
  length a = length b ->
  bytes_cmp (a ++ [x]) (b ++ [y]) =
    match bytes_cmp a b with Eq => byte_to_Z x ?= byte_to_Z y | c => c end.
Proof.
  revert b; induction a as [|w a IH]; intros [|z b] Hl; simpl in *; try done.
  - by destruct (byte_to_Z x ?= byte_to_Z y).
  - destruct (byte_to_Z w ?= byte_to_Z z); [apply IH; lia|done|done].
Qed.

Lemma bytes_cmp_opp a b : bytes_cmp b a = CompOpp (bytes_cmp a b).
Proof.
  revert b; induction a as [|x a IH]; intros [|y b]; simpl; try done.
  rewrite (Z.compare_antisym (byte_to_Z x)). destruct (byte_to_Z x ?= byte_to_Z y); simpl; [apply IH|done|done].
Qed.

Lemma bytes_cmp_lt_trans a b c : bytes_cmp a b = Lt -> bytes_cmp b c = Lt -> bytes_cmp a c = Lt.
Proof.
  revert b c; induction a as [|x a IH]; intros [|y b] [|z c]; simpl; try done.
  destruct (Z.compare_spec (byte_to_Z x) (byte_to_Z y)), (Z.compare_spec (byte_to_Z y) (byte_to_Z z)),
    (Z.compare_spec (byte_to_Z x) (byte_to_Z z)); try done; try lia. apply IH.
Qed.

(** [a <= b] on Go strings and byte keys. *)
Definition bytes_le (a b : bytes) : Prop := bytes_cmp a b <> Gt.

#[export] Instance bytes_le_dec : RelDecision bytes_le.
Proof. intros a b. unfold bytes_le. apply _. Defined.
#[export] Instance bytes_le_refl : Reflexive bytes_le.
Proof. intros a. unfold bytes_le. by rewrite (proj2 (bytes_cmp_eq a a)). Qed.
#[export] Instance bytes_le_total : Total bytes_le.
Proof.
  intros a b. unfold bytes_le. rewrite (bytes_cmp_opp a b). destruct (bytes_cmp a b); auto.
Qed.
#[export] Instance bytes_le_trans : Transitive bytes_le.
Proof.
  intros a b c. unfold bytes_le. intros H1 H2.
  destruct (bytes_cmp a b) eqn:E1; [apply bytes_cmp_eq in E1 as ->; done| |done].
  destruct (bytes_cmp b c) eqn:E2; [apply bytes_cmp_eq in E2 as <-; by rewrite E1| |done].
  by rewrite (bytes_cmp_lt_trans a b c).
Qed.
#[export] Instance bytes_le_antisymm : AntiSymm (=) bytes_le.
Proof.
  intros a b. unfold bytes_le. rewrite (bytes_cmp_opp a b). intros H1 H2.
  apply bytes_cmp_eq. by destruct (bytes_cmp a b).
Qed.

(** Big-endian keys sort as the integers they encode. *)
Lemma bytes_cmp_be n x y :
  0 <= x < 256 ^ Z.of_nat n -> 0 <= y < 256 ^ Z.of_nat n ->
  bytes_cmp (be_enc n x) (be_enc n y) = (x ?= y).
Proof.
  revert x y; induction n as [|n IH]; intros x y Hx Hy; cbn [be_enc].
  - simpl in *. assert (x = 0) as -> by lia. assert (y = 0) as -> by lia. done.
  - rewrite Nat2Z.inj_succ, Z.pow_succ_r in Hx, Hy by lia.
    rewrite bytes_cmp_snoc by by rewrite !be_enc_length.
    rewrite IH by (split; [apply Z.div_pos; lia|apply Z.div_lt_upper_bound; lia]).
    rewrite !byte_to_of_Z.
    destruct (Z.compare_spec (x / 256) (y / 256)) as [E|E|E];
      symmetry; [|apply Z.compare_lt_iff; zmod|apply Z.compare_gt_iff; zmod].
    destruct (Z.compare_spec (x mod 256) (y mod 256)) as [F|F|F];
      [apply Z.compare_eq_iff|apply Z.compare_lt_iff|apply Z.compare_gt_iff]; zmod.
Qed.

(** ** Automation

    [stele] resolves the side conditions of the encoders (lengths, ranges,
    separators) and rewrites lengths. *)
Create HintDb stele.
Create Rewrite HintDb stele.
#[export] Hint Resolve bytesEqual_refl u64_of_i64_range put_u64_length put_u32_length
  hex_sep fmt_d_sep be_enc_length one_line_hex one_line_fmt : stele.
#[export] Hint Rewrite @length_app be_enc_length put_u64_length put_u32_length hex_length
  @length_replicate : stele.
