(* ===== verification/Utf8.v ===== *)
(** * Go strings through [encoding/json]

    A Go string may hold any bytes; [json.Marshal] replaces every byte that
    does not start a valid UTF-8 sequence by U+FFFD, so a string that is
    written to a JSON file and read back is [json_string] of what it was. *)

From S2P Require Import Prelude.
From stdpp Require Import base numbers list strings.
From Stdlib Require Import ZArith Lia.

#[local] Open Scope Z_scope.

Definition between (lo hi : Z) (b : Byte.byte) : bool := (lo <=? byte_to_Z b) && (byte_to_Z b <=? hi).
Definition cont (b : Byte.byte) : bool := between 0x80 0xBF b.

(** The width of the rune a string starts with ([utf8.DecodeRuneInString]);
    0 where Go reports [RuneError] with width 1. *)
Definition rune_width (s : bytes) : nat :=
  match s with
  | [] => 0%nat
  | b0 :: r =>
      let z := byte_to_Z b0 in
      if z <? 0x80 then 1%nat
      else if between 0xC2 0xDF b0 then
        match r with b1 :: _ => if cont b1 then 2%nat else 0%nat | _ => 0%nat end
      else if between 0xE0 0xEF b0 then
        let lo := if z =? 0xE0 then 0xA0 else 0x80 in
        let hi := if z =? 0xED then 0x9F else 0xBF in
        match r with b1 :: b2 :: _ => if between lo hi b1 && cont b2 then 3%nat else 0%nat | _ => 0%nat end
      else if between 0xF0 0xF4 b0 then
        let lo := if z =? 0xF0 then 0x90 else 0x80 in
        let hi := if z =? 0xF4 then 0x8F else 0xBF in
        match r with
        | b1 :: b2 :: b3 :: _ => if between lo hi b1 && cont b2 && cont b3 then 4%nat else 0%nat
        | _ => 0%nat
        end
      else 0%nat
  end.

(** U+FFFD in UTF-8. *)
Definition replacement : bytes := [Byte.xef; Byte.xbf; Byte.xbd].

(** Both loops walk the string rune by rune; its length bounds the runes. *)
Fixpoint json_loop (n : nat) (s : bytes) : bytes :=
  match n, s with
  | S n, b :: r =>
      match rune_width s with
      | O => replacement ++ json_loop n r
      | w => take w s ++ json_loop n (drop w s)
      end
  | _, _ => []
  end.
Definition json_string (s : bytes) : bytes := json_loop (length s) s.

(** [utf8.ValidString] *)
Fixpoint valid_loop (n : nat) (s : bytes) : bool :=
  match n, s with
  | S n, b :: r =>
      match rune_width s with
      | O => false
      | w => valid_loop n (drop w s)
      end
  | _, _ => true
  end.
Definition valid_utf8 (s : bytes) : bool := valid_loop (length s) s.

Lemma rune_width_le s : (rune_width s <= length s)%nat.
Proof. unfold rune_width. repeat (case_match; simpl; try lia). Qed.

Lemma loop_valid n s : (length s <= n)%nat -> valid_loop n s = true -> json_loop n s = s.
Proof.
  revert s; induction n as [|n IH]; intros [|b r] L V; try (done || (simpl in L; lia)).
  cbn [json_loop valid_loop] in *. pose proof (rune_width_le (b :: r)) as W.
  destruct (rune_width (b :: r)) as [|w] eqn:E; [done|].
  rewrite (IH (drop (S w) (b :: r))); [apply take_drop| |done].
  simpl in *. rewrite length_drop. lia.
Qed.

Lemma loop_length n s : (length s <= n)%nat -> (length s <= length (json_loop n s))%nat.
Proof.
  revert s; induction n as [|n IH]; intros [|b r] L; try (done || (simpl in L; lia)).
  cbn [json_loop]. pose proof (rune_width_le (b :: r)) as W.
  destruct (rune_width (b :: r)) as [|w] eqn:E.
  - rewrite length_app. cbn [length] in *. specialize (IH r ltac:(lia)). cbn. lia.
  - specialize (IH (drop (S w) (b :: r)) ltac:(rewrite length_drop; simpl in *; lia)).
    rewrite length_app, length_take. rewrite length_drop in IH. lia.
Qed.

Lemma loop_fixed n s : (length s <= n)%nat -> json_loop n s = s -> valid_loop n s = true.
Proof.
  revert s; induction n as [|n IH]; intros [|b r] L F; try (done || (simpl in L; lia)).
  cbn [json_loop valid_loop] in *. pose proof (rune_width_le (b :: r)) as W.
  destruct (rune_width (b :: r)) as [|w] eqn:E.
  - apply (f_equal length) in F. rewrite length_app in F. cbn [length] in *.
    pose proof (loop_length n r ltac:(lia)). cbn in F. lia.
  - apply IH; [rewrite length_drop; simpl in *; lia|].
    apply (f_equal (drop (S w))) in F. rewrite drop_app_length' in F; [done|].
    rewrite length_take. lia.
Qed.

(** JSON keeps exactly the valid strings. *)
Lemma json_string_valid s : valid_utf8 s = true <-> json_string s = s.
Proof. unfold valid_utf8, json_string. split; [by apply loop_valid|by apply loop_fixed]. Qed.

Lemma json_string_length s : (length s <= length (json_string s))%nat.
Proof. by apply loop_length. Qed.

(** A coerced string is longer: each bad byte became three. *)
Lemma json_string_longer s : valid_utf8 s = false -> (length s < length (json_string s))%nat.
Proof.
  unfold valid_utf8, json_string. generalize (le_n (length s)). generalize (length s) at 2 3 5 as n.
  intros n; revert s; induction n as [|n IH]; intros [|b r] L V; try (done || (simpl in L; lia)).
  cbn [json_loop valid_loop] in *. pose proof (rune_width_le (b :: r)) as W.
  destruct (rune_width (b :: r)) as [|w] eqn:E.
  - rewrite length_app. cbn [length] in *. pose proof (loop_length n r ltac:(lia)). cbn. lia.
  - specialize (IH (drop (S w) (b :: r)) ltac:(rewrite length_drop; simpl in *; lia) V).
    rewrite length_app, length_take. rewrite length_drop in IH. lia.
Qed.

Lemma json_string_id s : valid_utf8 s = true -> json_string s = s.
Proof. apply json_string_valid. Qed.

Example json_string_ascii : json_string (str "curl/8.1") = str "curl/8.1".
Proof. reflexivity. Qed.
Example json_string_bad : json_string [Byte.x61; Byte.xff] = [Byte.x61; Byte.xef; Byte.xbf; Byte.xbd].
Proof. reflexivity. Qed.
Example json_string_surrogate : valid_utf8 [Byte.xed; Byte.xa0; Byte.x80] = false.
Proof. reflexivity. Qed.
