(* ===== verification/GoText.v ===== *)
(** * Go's text routines

    What the HTTP layer uses of the Go standard library on strings:
    [strconv.ParseUint], [strings.TrimSpace], [TrimPrefix], [Contains] and
    [LastIndex], and [json.Marshal] of a [map[string]any] of scalars. *)

From S2P Require Import Prelude Utf8.
From stdpp Require Import base numbers list strings sorting.
From Stdlib Require Import ZArith Lia.

#[local] Open Scope Z_scope.

(** ** Numbers *)

Definition digit (b : Byte.byte) : option Z :=
  if Utf8.between 0x30 0x39 b then Some (byte_to_Z b - 0x30) else None.

(** The loop of [ParseUint(s, 10, 64)]: a non-digit is a syntax error wherever
    it stands, a value of 2^64 or more a range error as soon as it is reached. *)
Fixpoint parse_loop (n : Z) (s : bytes) : res Z :=
  match s with
  | [] => Ok n
  | b :: s' =>
      match digit b with
      | None => Err ["invalid syntax"%string]
      | Some d => fail_if 2 ^ 64 <=? n * 10 + d with "value out of range" ;; parse_loop (n * 10 + d) s'
      end
  end.

Definition ParseUint (s : bytes) : res Z :=
  fail_if bool_decide (s = []) with "invalid syntax" ;; parse_loop 0 s.

Lemma parse_loop_range s : forall n z, is_u64 n -> parse_loop n s = Ok z -> is_u64 z.
Proof.
  induction s as [|b s IH]; intros n z N P; cbn [parse_loop] in P; [by injection P as <-|].
  destruct (digit b) as [d|] eqn:D; [|done].
  destruct (Z.leb_spec (2 ^ 64) (n * 10 + d)); cbn in P; [done|]. eapply IH; [|exact P].
  unfold digit, Utf8.between in D. destruct (Z.leb_spec 0x30 (byte_to_Z b)); [|done]. destruct (byte_to_Z b <=? 0x39); [|done].
  injection D as <-. unfold is_u64 in *. lia.
Qed.

Lemma ParseUint_u64 s z : ParseUint s = Ok z -> is_u64 z.
Proof. unfold ParseUint. intros P. res_inv P. eapply parse_loop_range; [|exact P]. unfold is_u64. lia. Qed.

(** The value of a numeral after [acc]. *)
Fixpoint uval (acc : Z) (d : Decimal.uint) : Z :=
  match d with
  | Decimal.Nil => acc
  | Decimal.D0 d => uval (acc * 10) d | Decimal.D1 d => uval (acc * 10 + 1) d | Decimal.D2 d => uval (acc * 10 + 2) d
  | Decimal.D3 d => uval (acc * 10 + 3) d | Decimal.D4 d => uval (acc * 10 + 4) d | Decimal.D5 d => uval (acc * 10 + 5) d
  | Decimal.D6 d => uval (acc * 10 + 6) d | Decimal.D7 d => uval (acc * 10 + 7) d | Decimal.D8 d => uval (acc * 10 + 8) d
  | Decimal.D9 d => uval (acc * 10 + 9) d
  end.

Lemma uval_ge d : forall acc, 0 <= acc -> acc <= uval acc d.
Proof. induction d as [|d IH|d IH|d IH|d IH|d IH|d IH|d IH|d IH|d IH|d IH]; intros acc A; cbn [uval]; [lia|..]; (etrans; [|apply IH]; lia). Qed.

Lemma uval_acc d : forall p, uval (Zpos p) d = Zpos (Pos.of_uint_acc d p).
Proof. induction d as [|d IH|d IH|d IH|d IH|d IH|d IH|d IH|d IH|d IH|d IH]; intros p; cbn [uval Pos.of_uint_acc]; [done|..]; rewrite <- IH; f_equal; lia. Qed.

Lemma uval_of_uint d : uval 0 d = Z.of_N (Pos.of_uint d).
Proof. induction d as [|d IH|d _|d _|d _|d _|d _|d _|d _|d _|d _]; cbn [uval Pos.of_uint]; [done|exact IH|..]; cbn [Z.add Z.mul]; apply uval_acc. Qed.

Lemma parse_loop_digits d : forall acc, 0 <= acc -> uval acc d < 2 ^ 64 ->
  parse_loop acc (str (DecimalString.NilEmpty.string_of_uint d)) = Ok (uval acc d).
Proof.
  induction d as [|d IH|d IH|d IH|d IH|d IH|d IH|d IH|d IH|d IH|d IH]; intros acc A L; cbn [uval DecimalString.NilEmpty.string_of_uint] in *; [done|..];
    rewrite str_cons; cbn [parse_loop]; (match goal with |- context [digit ?b] => let v := eval vm_compute in (digit b) in change (digit b) with v end); cbv iota beta;
    (match goal with |- context [2 ^ 64 <=? ?x] =>
       assert (x <= uval x d) by (apply uval_ge; lia); rewrite ?Z.add_0_r in *; rewrite (proj2 (Z.leb_gt _ _)) by lia; cbn [res_bind]; apply IH; lia end).
Qed.

(** What [%d] prints, [ParseUint] reads. *)
Lemma ParseUint_fmt_d n : is_u64 n -> ParseUint (fmt_d n) = Ok n.
Proof.
  intros [N0 N1]. unfold ParseUint, fmt_d. assert (exists d, Z.to_int n = Decimal.Pos d /\ uval 0 d = n /\ d <> Decimal.Nil) as (d & -> & V & Nn).
  { destruct n as [|p|p]; [by exists (Decimal.D0 Decimal.Nil)| |lia]. exists (Pos.to_uint p). split; [done|].
    rewrite uval_of_uint, DecimalPos.Unsigned.of_to. split; [done|apply DecimalPos.Unsigned.to_uint_nonnil]. }
  cbn [DecimalString.NilZero.string_of_int].
  assert (DecimalString.NilZero.string_of_uint d = DecimalString.NilEmpty.string_of_uint d) as -> by (by destruct d).
  rewrite bool_decide_eq_false_2 by (by destruct d). etrans; [apply parse_loop_digits; lia|by rewrite V].
Qed.

(** ** Strings *)

(** The UTF-8 encodings of the runes [unicode.IsSpace] accepts. *)
Definition spaces : list bytes :=
  [[Byte.x09]; [Byte.x0a]; [Byte.x0b]; [Byte.x0c]; [Byte.x0d]; [Byte.x20]; [Byte.xc2; Byte.x85]; [Byte.xc2; Byte.xa0];
   [Byte.xe1; Byte.x9a; Byte.x80]; [Byte.xe2; Byte.x80; Byte.x80]; [Byte.xe2; Byte.x80; Byte.x81];
   [Byte.xe2; Byte.x80; Byte.x82]; [Byte.xe2; Byte.x80; Byte.x83]; [Byte.xe2; Byte.x80; Byte.x84];
   [Byte.xe2; Byte.x80; Byte.x85]; [Byte.xe2; Byte.x80; Byte.x86]; [Byte.xe2; Byte.x80; Byte.x87];
   [Byte.xe2; Byte.x80; Byte.x88]; [Byte.xe2; Byte.x80; Byte.x89]; [Byte.xe2; Byte.x80; Byte.x8a];
   [Byte.xe2; Byte.x80; Byte.xa8]; [Byte.xe2; Byte.x80; Byte.xa9]; [Byte.xe2; Byte.x80; Byte.xaf];
   [Byte.xe2; Byte.x81; Byte.x9f]; [Byte.xe3; Byte.x80; Byte.x80]].

Definition starts_with (p s : bytes) : bool := bool_decide (take (length p) s = p).

(** The length of the first of [ps] that [s] starts with. *)
Fixpoint head_match (ps : list bytes) (s : bytes) : nat :=
  match ps with
  | [] => 0
  | p :: ps' => if starts_with p s then length p else head_match ps' s
  end.

(** Every pass strips a rune, so the length of the string is fuel enough. *)
Fixpoint strip (ps : list bytes) (n : nat) (s : bytes) : bytes :=
  match n with
  | O => s
  | S n => match head_match ps s with O => s | w => strip ps n (drop w s) end
  end.

Definition TrimLeft (s : bytes) : bytes := strip spaces (length s) s.
Definition TrimRight (s : bytes) : bytes := reverse (strip (reverse <$> spaces) (length s) (reverse s)).
Definition TrimSpace (s : bytes) : bytes := TrimRight (TrimLeft s).

Definition TrimPrefix (s p : bytes) : bytes := if starts_with p s then drop (length p) s else s.

(** [s[:i]] for [i = strings.LastIndex(s, sep)] of a one-byte separator: what
    stands before its last occurrence. *)
Fixpoint before_last (sep : Byte.byte) (s : bytes) : option bytes :=
  match s with
  | [] => None
  | b :: s' =>
      match before_last sep s' with
      | Some p => Some (b :: p)
      | None => if bool_decide (b = sep) then Some [] else None
      end
  end.

(** ** [json.Marshal] of a map of scalars *)

Definition base64_digits : bytes := str "ABCDEFGHIJKLMNOPQRSTUVWXYZabcdefghijklmnopqrstuvwxyz0123456789+/".
Definition base64_digit (z : Z) : Byte.byte := default Byte.x3d (base64_digits !! Z.to_nat (Z.land z 63)).

(** [base64.StdEncoding] *)
Fixpoint base64 (b : bytes) : bytes :=
  match b with
  | x :: y :: z :: b' =>
      let n := byte_to_Z x * 65536 + byte_to_Z y * 256 + byte_to_Z z in
      [base64_digit (Z.shiftr n 18); base64_digit (Z.shiftr n 12); base64_digit (Z.shiftr n 6); base64_digit n] ++ base64 b'
  | [x; y] =>
      let n := byte_to_Z x * 65536 + byte_to_Z y * 256 in
      [base64_digit (Z.shiftr n 18); base64_digit (Z.shiftr n 12); base64_digit (Z.shiftr n 6); Byte.x3d]
  | [x] =>
      let n := byte_to_Z x * 65536 in
      [base64_digit (Z.shiftr n 18); base64_digit (Z.shiftr n 12); Byte.x3d; Byte.x3d]
  | [] => []
  end.

Definition quote : Byte.byte := Byte.x22.
Definition backslash : Byte.byte := Byte.x5c.

(** A byte of a JSON string, with HTML escaping. *)
Definition escape_byte (b : Byte.byte) : bytes :=
  let z := byte_to_Z b in
  if (z =? 0x22) || (z =? 0x5c) then [backslash; b]
  else if z =? 0x08 then backslash :: str "b"
  else if z =? 0x0c then backslash :: str "f"
  else if z =? 0x0a then backslash :: str "n"
  else if z =? 0x0d then backslash :: str "r"
  else if z =? 0x09 then backslash :: str "t"
  else if (z <? 0x20) || (z =? 0x3c) || (z =? 0x3e) || (z =? 0x26) then backslash :: str "u00" ++ hex1 b
  else [b].

Definition escape_rune (r : bytes) : bytes :=
  if bool_decide (r = [Byte.xe2; Byte.x80; Byte.xa8]) then backslash :: str "u2028"
  else if bool_decide (r = [Byte.xe2; Byte.x80; Byte.xa9]) then backslash :: str "u2029"
  else match r with [b] => escape_byte b | _ => r end.

(** Rune by rune, as [json_loop] of [Utf8]. *)
Fixpoint escape_loop (n : nat) (s : bytes) : bytes :=
  match n, s with
  | S n, _ :: s' =>
      match rune_width s with
      | O => backslash :: str "ufffd" ++ escape_loop n s'
      | w => escape_rune (take w s) ++ escape_loop n (drop w s)
      end
  | _, _ => []
  end.

Definition json_quote (s : bytes) : bytes := quote :: escape_loop (length s) s ++ [quote].

(** The scalars that occur in the details: a [[]byte] is base64, nil is null.
    Byte lists do not tell nil from the empty slice, so an empty key is always
    written as null. *)
Inductive scalar := JStr (s : bytes) | JBytes (b : bytes) | JBool (b : bool) | JNum (z : Z).

Definition json_scalar (v : scalar) : bytes :=
  match v with
  | JStr s => json_quote s
  | JBytes [] => str "null"
  | JBytes b => quote :: base64 b ++ [quote]
  | JBool true => str "true"
  | JBool false => str "false"
  | JNum z => fmt_d z
  end.

Fixpoint json_members (l : list (bytes * scalar)) : bytes :=
  match l with
  | [] => []
  | [(k, v)] => json_quote k ++ str ":" ++ json_scalar v
  | (k, v) :: l' => json_quote k ++ str ":" ++ json_scalar v ++ str "," ++ json_members l'
  end.

(** The members are listed with their keys in increasing order, the order
    [json.Marshal] writes a map in. *)
Definition json_object (l : list (bytes * scalar)) : bytes := str "{" ++ json_members l ++ str "}".

Example ParseUint_max : ParseUint (str "18446744073709551615") = Ok (2 ^ 64 - 1).
Proof. reflexivity. Qed.
Example ParseUint_over : is_ok (ParseUint (str "18446744073709551616")) = false.
Proof. reflexivity. Qed.
Example TrimSpace_cn : TrimSpace (str "  alice	") = str "alice".
Proof. reflexivity. Qed.
Example before_last_addr : before_last Byte.x3a (str "[::1]:8080") = Some (str "[::1]").
Proof. reflexivity. Qed.
Example json_rotate : json_object [(str "from_epoch", JNum 3); (str "k", JBytes (str "hi!?"))] =
  str "{" ++ [quote] ++ str "from_epoch" ++ [quote] ++ str ":3," ++ [quote] ++ str "k" ++ [quote] ++ str ":" ++
  [quote] ++ str "aGkhPw==" ++ [quote] ++ str "}".
Proof. reflexivity. Qed.
