(* ===== verification/Calendar.v ===== *)
(** * Times as text

    [time.Unix(0, ns).UTC().Format(time.RFC3339)], which the reports and the
    exports print: the civil date of a day, the text, and that the text of
    every time an int64 of nanoseconds can say determines its second. *)

From stdpp Require Import base numbers list strings.
From Stdlib Require Import ZArith Lia.
From S2P Require Import Prelude GoText.

#[local] Open Scope Z_scope.

Module Calendar.

(** ** Dates *)

Record date := mk_date { year : Z; month : Z; day : Z }.
#[export] Instance date_eq_dec : EqDecision date.
Proof. solve_decision. Defined.

(** The date of the day [n] days after 1970-01-01, by eras of 400 years that
    start on the first of March. *)
Definition civil (n : Z) : date :=
  let z := n + 719468 in
  let era := z / 146097 in
  let doe := z mod 146097 in
  let yoe := (doe - doe / 1460 + doe / 36524 - doe / 146096) / 365 in
  let doy := doe - (365 * yoe + yoe / 4 - yoe / 100) in
  let mp := (5 * doy + 2) / 153 in
  let m := if mp <? 10 then mp + 3 else mp - 9 in
  mk_date (yoe + era * 400 + (if m <=? 2 then 1 else 0)) m (doy - (153 * mp + 2) / 5 + 1).

(** The rules of the calendar. *)
Definition leap (y : Z) : bool := (y mod 4 =? 0) && (negb (y mod 100 =? 0) || (y mod 400 =? 0)).
Definition month_days (y m : Z) : Z :=
  if m =? 2 then (if leap y then 29 else 28) else if (m =? 4) || (m =? 6) || (m =? 9) || (m =? 11) then 30 else 31.
Definition next_day (d : date) : date :=
  if day d <? month_days (year d) (month d) then mk_date (year d) (month d) (day d + 1)
  else if month d <? 12 then mk_date (year d) (month d + 1) 1
  else mk_date (year d + 1) 1 1.

(** Days before a date. *)
Definition days_of (d : date) : Z :=
  let y := if month d <=? 2 then year d - 1 else year d in
  let era := y / 400 in
  let yoe := y mod 400 in
  let doy := (153 * (if 2 <? month d then month d - 3 else month d + 9) + 2) / 5 + day d - 1 in
  era * 146097 + yoe * 365 + yoe / 4 - yoe / 100 + doy - 719468.

(** ** Text *)

(** [appendInt]: a decimal with at least [w] digits. *)
Definition append_int (x : Z) (w : nat) : bytes :=
  let s := fmt_d (Z.abs x) in
  (if x <? 0 then str "-" else []) ++ replicate (w - length s) Byte.x30 ++ s.

Definition second_ns : Z := 1000000000.
Definition text (d : date) (h m s : Z) : bytes :=
  append_int (year d) 4 ++ str "-" ++ append_int (month d) 2 ++ str "-" ++ append_int (day d) 2 ++ str "T" ++
  append_int h 2 ++ str ":" ++ append_int m 2 ++ str ":" ++ append_int s 2 ++ str "Z".

(** [ns]: nanoseconds since 1970. *)
Definition rfc3339 (ns : Z) : bytes :=
  let s := ns / second_ns in
  let t := s mod 86400 in
  text (civil (s / 86400)) (t / 3600) (t / 60 mod 60) (t mod 60).

(** The zero [time.Time] is no count of nanoseconds. *)
Definition format_time (t : option Z) : bytes := match t with Some ns => rfc3339 ns | None => text (mk_date 1 1 1) 0 0 0 end.

(** ** The date of every day

    The year of a day within its era is found by monotonicity from the first
    and the last day of each of the 400 years, month and day within a year by
    looking at its 366 days. *)

(** [P] on the [n] numbers from [a]. *)
Fixpoint all_from (P : Z -> bool) (n : nat) (a : Z) : bool :=
  match n with O => true | S n => if P a then all_from P n (a + 1) else false end.

Lemma all_from_spec P n : forall a x, all_from P n a = true -> a <= x < a + Z.of_nat n -> P x = true.
Proof.
  induction n as [|n IH]; intros a x E B; [lia|]. cbn [all_from] in E. destruct (P a) eqn:Pa; [|done].
  destruct (decide (x = a)) as [->|]; [done|]. apply (IH (a + 1)); [done|lia].
Qed.

Definition year_of (doe : Z) : Z := (doe - doe / 1460 + doe / 36524 - doe / 146096) / 365.
(** The first day of a year of the era, and the length of the year. *)
Definition start (y : Z) : Z := 365 * y + y / 4 - y / 100 + y / 400.
Definition year_days (y : Z) : Z := if leap (y + 1) then 366 else 365.

Lemma year_of_mono a b : a <= b -> year_of a <= year_of b.
Proof.
  intros L. replace b with (a + Z.of_nat (Z.to_nat (b - a))) by lia. induction (Z.to_nat (b - a)) as [|n IH]; [by rewrite Z.add_0_r|].
  etransitivity; [apply IH|]. replace (a + Z.of_nat (S n)) with (a + Z.of_nat n + 1) by lia. generalize (a + Z.of_nat n) as d. clear.
  intros d. apply Z.div_le_mono; [done|]. zmod.
Qed.

Definition year_checked (y : Z) : bool :=
  (year_of (start y) =? y) && (year_of (start (y + 1) - 1) =? y) && (start (y + 1) - start y =? year_days y).
Lemma years_checked : all_from year_checked 400 0 = true.
Proof. vm_compute. reflexivity. Qed.

Lemma year_exists d (n : nat) : 0 <= d < start (Z.of_nat n) -> exists y, 0 <= y < Z.of_nat n /\ start y <= d < start (y + 1).
Proof.
  induction n as [|n IH]; intros B; [change (start (Z.of_nat 0)) with 0 in B; lia|].
  destruct (decide (d < start (Z.of_nat n))) as [L|G].
  - destruct IH as (y & Y & D); [lia|]. exists y. split; [lia|done].
  - exists (Z.of_nat n). replace (Z.of_nat n + 1) with (Z.of_nat (S n)) by lia. lia.
Qed.

(** A day of an era is a day of one of its years. *)
Lemma year_of_spec doe : 0 <= doe < 146097 ->
  0 <= year_of doe < 400 /\ 0 <= doe - start (year_of doe) < year_days (year_of doe) /\
  start (year_of doe + 1) - start (year_of doe) = year_days (year_of doe).
Proof.
  intros B. destruct (year_exists doe 400) as (y & Y & D); [done|].
  pose proof (all_from_spec _ _ _ y years_checked ltac:(lia)) as C. unfold year_checked in C.
  apply andb_prop in C as [[C1 C2]%andb_prop C3]. btauto_props.
  assert (year_of doe = y) as -> by (pose proof (year_of_mono (start y) doe ltac:(lia)); pose proof (year_of_mono doe (start (y + 1) - 1) ltac:(lia)); lia).
  lia.
Qed.

Definition month_of (doy : Z) : Z := let mp := (5 * doy + 2) / 153 in if mp <? 10 then mp + 3 else mp - 9.
Definition day_of (doy : Z) : Z := doy - (153 * ((5 * doy + 2) / 153) + 2) / 5 + 1.

(** Within the year of [doy]: month and day are in range, and the next day is
    next; [l]: the coming February has 29 days. *)
Definition doy_checked (l : bool) (doy : Z) : bool :=
  let m := month_of doy in
  let d := day_of doy in
  let y := if l then 4 else 1 in
  let e := next_day (mk_date y m d) in
  (1 <=? m) && (m <=? 12) && (1 <=? d) && (d <=? 31) && ((5 * doy + 2) / 153 =? (if 2 <? m then m - 3 else m + 9)) &&
  (if doy + 1 <? (if l then 366 else 365) then
     (month e =? month_of (doy + 1)) && (day e =? day_of (doy + 1)) &&
     (year e =? y + (if month_of (doy + 1) <=? 2 then 1 else 0) - (if m <=? 2 then 1 else 0))
   else bool_decide (e = mk_date y 3 1) && (m =? 2)).
Lemma doys_checked : all_from (doy_checked true) 366 0 && all_from (doy_checked false) 365 0 = true.
Proof. vm_compute. reflexivity. Qed.

Lemma doy_spec y doy : 0 <= doy < year_days y -> doy_checked (leap (y + 1)) doy = true.
Proof.
  unfold year_days. destruct (andb_prop _ _ doys_checked) as [T F].
  destruct (leap (y + 1)); intros B; [apply (all_from_spec _ _ _ _ T)|apply (all_from_spec _ _ _ _ F)]; lia.
Qed.

(** A day by its era, the year of the era and the day of the year. *)
Lemma civil_at era y doy : 0 <= y < 400 -> 0 <= doy < year_days y ->
  civil (era * 146097 + start y + doy - 719468) =
  mk_date (y + era * 400 + (if month_of doy <=? 2 then 1 else 0)) (month_of doy) (day_of doy).
Proof.
  intros Y D. pose proof (all_from_spec _ _ _ y years_checked ltac:(lia)) as C. unfold year_checked in C.
  apply andb_prop in C as [[C1 C2]%andb_prop C3]. btauto_props.
  assert (0 <= start y /\ start y + doy < 146097) as [S0 S1].
  { assert (start (y + 1) <= start 400 /\ 0 <= start y) as [? ?] by (unfold start; zmod). change (start 400) with 146097 in *. lia. }
  assert (year_of (start y + doy) = y) as Yo
    by (pose proof (year_of_mono (start y) (start y + doy) ltac:(lia)); pose proof (year_of_mono (start y + doy) (start (y + 1) - 1) ltac:(lia)); lia).
  unfold civil. replace (era * 146097 + start y + doy - 719468 + 719468) with (start y + doy + era * 146097) by lia.
  assert (0 <= start y + doy < 146097) as Sm by lia.
  rewrite Z.div_add, Z.mod_add, (Z.div_small _ _ Sm), (Z.mod_small _ _ Sm) by done. rewrite Z.add_0_l. fold (year_of (start y + doy)). rewrite Yo.
  replace (start y + doy - (365 * y + y / 4 - y / 100)) with doy by (unfold start; zmod). reflexivity.
Qed.

Lemma civil_view n : exists era y doy, 0 <= y < 400 /\ 0 <= doy < year_days y /\ n = era * 146097 + start y + doy - 719468 /\
  start (y + 1) - start y = year_days y.
Proof.
  pose proof (Z.mod_pos_bound (n + 719468) 146097 ltac:(lia)) as B. destruct (year_of_spec _ B) as (Y & D & L).
  exists ((n + 719468) / 146097), (year_of ((n + 719468) mod 146097)), ((n + 719468) mod 146097 - start (year_of ((n + 719468) mod 146097))).
  split_and!; try done; try lia. pose proof (Z.div_mod (n + 719468) 146097 ltac:(lia)). lia.
Qed.

Lemma leap_era y era : leap (y + era * 400) = leap y.
Proof.
  unfold leap. replace (era * 400) with (era * 100 * 4) at 1 by lia. rewrite Z.mod_add by done.
  replace (era * 400) with (era * 4 * 100) at 1 by lia. by rewrite !Z.mod_add.
Qed.

(** The next day depends on the year only through its leap day. *)
Lemma next_day_shift a b m d : (m = 2 -> leap a = leap b) ->
  next_day (mk_date a m d) =
  mk_date (a + (year (next_day (mk_date b m d)) - b)) (month (next_day (mk_date b m d))) (day (next_day (mk_date b m d))).
Proof.
  intros L. assert (month_days a m = month_days b m) as E.
  { unfold month_days. destruct (Z.eqb_spec m 2) as [M|]; [by rewrite (L M)|done]. }
  unfold next_day. cbn [year month day]. rewrite E. destruct (d <? month_days b m); [|destruct (m <? 12)]; cbn [year month day]; f_equal; lia.
Qed.

(** The dates run through the calendar: each day is followed by the next. *)
Theorem civil_next n : civil (n + 1) = next_day (civil n).
Proof.
  destruct (civil_view n) as (era & y & doy & Y & D & -> & L). rewrite (civil_at era y doy Y D).
  pose proof (doy_spec y doy D) as C. unfold doy_checked in C. cbv zeta in C. apply andb_prop in C as [_ C].
  rewrite (next_day_shift _ (if leap (y + 1) then 4 else 1)).
  2: { intros M. rewrite M. cbn. replace (y + era * 400 + 1) with (y + 1 + era * 400) by lia. rewrite leap_era. by destruct (leap (y + 1)). }
  fold (year_days y) in C. destruct (Z.ltb_spec (doy + 1) (year_days y)) as [S|S].
  - apply andb_prop in C as [[C1 C2]%andb_prop C3]. btauto_props. rewrite C1, C2, C3.
    replace (era * 146097 + start y + doy - 719468 + 1) with (era * 146097 + start y + (doy + 1) - 719468) by lia.
    rewrite civil_at by lia. f_equal. destruct (month_of (doy + 1) <=? 2), (month_of doy <=? 2); lia.
  - apply andb_prop in C as [C1%bool_decide_eq_true_1 C2]. btauto_props. rewrite C1, C2. cbn [year month day Z.leb Z.compare Pos.compare Pos.compare_cont].
    assert (0 < year_days (y + 1) /\ 0 < year_days 0) as [P P0] by (unfold year_days; by destruct (leap (y + 1 + 1)), (leap (0 + 1))).
    destruct (decide (y = 399)) as [->|N].
    + pose proof (civil_at (era + 1) 0 0 ltac:(lia) ltac:(lia)) as E. change (start 0) with 0 in E. change (start 399) with 145731 in *. change (year_days 399) with 366 in *.
      replace (era * 146097 + 145731 + doy - 719468 + 1) with ((era + 1) * 146097 + 0 + 0 - 719468) by lia. rewrite E. change (month_of 0) with 3. cbn. f_equal. lia.
    + replace (era * 146097 + start y + doy - 719468 + 1) with (era * 146097 + start (y + 1) + 0 - 719468) by lia.
      rewrite civil_at by lia. change (month_of 0) with 3. cbn. f_equal. lia.
Qed.

Example epoch_date : civil 0 = mk_date 1970 1 1.
Proof. reflexivity. Qed.

Lemma civil_fields n : 1 <= month (civil n) <= 12 /\ 1 <= day (civil n) <= 31 /\ days_of (civil n) = n.
Proof.
  destruct (civil_view n) as (era & y & doy & Y & D & -> & L). rewrite (civil_at era y doy Y D). unfold days_of. cbn [year month day].
  pose proof (doy_spec y doy D) as C. unfold doy_checked in C. cbv zeta in C. apply andb_prop in C as [C _].
  repeat match goal with H : andb _ _ = true |- _ => apply andb_prop in H as [? ?] end. btauto_props.
  split; [lia|split; [lia|]].
  match goal with H : (5 * doy + 2) / 153 = ?mp |- _ => assert ((153 * mp + 2) / 5 + day_of doy - 1 = doy) as Dd by (unfold day_of; rewrite H; lia) end.
  assert ((if month_of doy <=? 2 then y + era * 400 + (if month_of doy <=? 2 then 1 else 0) - 1 else y + era * 400 + (if month_of doy <=? 2 then 1 else 0)) = y + era * 400) as Yy
    by (destruct (month_of doy <=? 2); lia).
  rewrite Yy, Z.div_add, Z.mod_add, (Z.div_small y 400 Y), (Z.mod_small y 400 Y) by done.
  assert (start y = 365 * y + y / 4 - y / 100) as Sy by (unfold start; rewrite (Z.div_small y 400 Y); lia). lia.
Qed.

(** The years an int64 of nanoseconds can reach. *)
Lemma year_bounds n : -106752 <= n < 106752 -> 1677 <= year (civil n) <= 2262.
Proof.
  destruct (civil_view n) as (era & y & doy & Y & D & -> & L). rewrite (civil_at era y doy Y D). cbn [year].
  assert (year_days y <= 366) by (unfold year_days; destruct (leap (y + 1)); lia). unfold start. intros B.
  pose proof (doy_spec y doy D) as C. destruct (Z.leb_spec (month_of doy) 2) as [M|M].
  all: unfold month_of in M; destruct (Z.ltb_spec ((5 * doy + 2) / 153) 10); zmod.
Qed.

(** ** The text of a time *)

Definition fixed_width (w : nat) (x : Z) : bool :=
  bool_decide (length (append_int x w) = w) && match ParseUint (append_int x w) with Ok y => x =? y | Err _ => false end.
Lemma widths_checked : all_from (fixed_width 2) (Z.to_nat 100) 0 && all_from (fixed_width 4) (Z.to_nat 9000) 1000 = true.
Proof. vm_compute. reflexivity. Qed.

Lemma width2 x : 0 <= x < 100 -> fixed_width 2 x = true.
Proof. intros B. apply (all_from_spec _ (Z.to_nat 100) 0); [by destruct (andb_prop _ _ widths_checked)|rewrite Z2Nat.id; lia]. Qed.
Lemma width4 x : 1000 <= x < 10000 -> fixed_width 4 x = true.
Proof. intros B. apply (all_from_spec _ (Z.to_nat 9000) 1000); [by destruct (andb_prop _ _ widths_checked)|rewrite Z2Nat.id; lia]. Qed.

Lemma field_length w x : fixed_width w x = true -> length (append_int x w) = w.
Proof. unfold fixed_width. intros [L%bool_decide_eq_true_1 _]%andb_prop. done. Qed.

(** Two texts that start with a field of the same width. *)
Lemma field_inj w x y r s : fixed_width w x = true -> fixed_width w y = true ->
  append_int x w ++ r = append_int y w ++ s -> x = y /\ r = s.
Proof.
  intros X Y E. apply app_inj_len in E as [E ->]; [|by rewrite !field_length]. split; [|done].
  unfold fixed_width in *. apply andb_prop in X as [_ X], Y as [_ Y]. rewrite E in X. destruct (ParseUint (append_int y w)); [|done].
  btauto_props. lia.
Qed.

(** Nothing of the time but the fraction of its second is lost in the text,
    which is 20 bytes long, for every int64 of nanoseconds. *)
Theorem rfc3339_inj a b : is_i64 a -> is_i64 b -> rfc3339 a = rfc3339 b -> a / second_ns = b / second_ns.
Proof.
  intros A B E. unfold rfc3339, text in E.
  pose proof (year_bounds (a / second_ns / 86400) ltac:(unfold is_i64, second_ns in *; zmod)) as Ya.
  pose proof (year_bounds (b / second_ns / 86400) ltac:(unfold is_i64, second_ns in *; zmod)) as Yb.
  destruct (civil_fields (a / second_ns / 86400)) as (Ma & Da & Ia), (civil_fields (b / second_ns / 86400)) as (Mb & Db & Ib).
  set (x := a / second_ns) in *. set (y := b / second_ns) in *.
  apply field_inj in E as [E1 E]; [|apply width4; lia..]. apply prefix_inj in E.
  apply field_inj in E as [E2 E]; [|apply width2; lia..]. apply prefix_inj in E.
  apply field_inj in E as [E3 E]; [|apply width2; lia..]. apply prefix_inj in E.
  apply field_inj in E as [E4 E]; [|apply width2; zmod..]. apply prefix_inj in E.
  apply field_inj in E as [E5 E]; [|apply width2; zmod..]. apply prefix_inj in E.
  apply field_inj in E as [E6 _]; [|apply width2; zmod..].
  assert (x / 86400 = y / 86400) as Ed by (rewrite <- Ia, <- Ib; destruct (civil (x / 86400)), (civil (y / 86400)); cbn in *; congruence).
  zmod.
Qed.

Lemma rfc3339_length a : is_i64 a -> length (rfc3339 a) = 20%nat.
Proof.
  intros A. unfold rfc3339, text. pose proof (year_bounds (a / second_ns / 86400) ltac:(unfold is_i64, second_ns in *; zmod)) as Ya.
  destruct (civil_fields (a / second_ns / 86400)) as (Ma & Da & _).
  rewrite !length_app, !field_length by first [apply width4; lia | apply width2; lia | apply width2; zmod]. reflexivity.
Qed.

Example rfc3339_demo : rfc3339 1700000000123456789 = str "2023-11-14T22:13:20Z".
Proof. vm_compute. reflexivity. Qed.
Example rfc3339_before : rfc3339 (- 1) = str "1969-12-31T23:59:59Z".
Proof. vm_compute. reflexivity. Qed.
Example zero_time : format_time None = str "0001-01-01T00:00:00Z".
Proof. vm_compute. reflexivity. Qed.
End Calendar.

Lemma rfc3339_inj_witness : 1700000000123456789 / Calendar.second_ns = 1700000000999999999 / Calendar.second_ns.
Proof. apply Calendar.rfc3339_inj; [done..|vm_compute; reflexivity]. Defined.
