(* ===== verification/Codec.v ===== *)
(** * Text codecs of Go's standard library

    The decoders behind the key files, the trust-root record and the
    command-line flags: [base64.StdEncoding.DecodeString],
    [hex.DecodeString], [strings.Split], [SplitN], [Join], [ToLower] and
    [Contains], [net.SplitHostPort] and [fmt.Sscanf] with the one verb the
    code uses, [%s].  The class [TextCodec] is what the users of a codec rely
    on: decoding inverts encoding, and encoded text is made of graphic ASCII
    characters, so it survives trimming, splitting and scanning. *)

From S2P Require Import Prelude Utf8 GoText.
From stdpp Require Import base numbers list sets strings.
From Stdlib Require Import ZArith Lia.

#[local] Open Scope Z_scope.

(** ** Base64 *)

(** [decodeMap] of the standard alphabet. *)
Definition base64_value (b : Byte.byte) : option Z :=
  let z := byte_to_Z b in
  if Utf8.between 0x41 0x5a b then Some (z - 0x41)
  else if Utf8.between 0x61 0x7a b then Some (z - 0x61 + 26)
  else if Utf8.between 0x30 0x39 b then Some (z - 0x30 + 52)
  else if z =? 0x2b then Some 62
  else if z =? 0x2f then Some 63
  else None.

Definition corrupt {A} : res A := errorf "illegal base64 data".

(** The decoder drops line ends wherever they stand. *)
Definition is_line_end (b : Byte.byte) : bool := bool_decide (b = Byte.x0a) || bool_decide (b = Byte.x0d).

(** A quantum of four characters is three bytes; padding is legal in the last
    quantum only, where the spare bits are ignored (the decoder is not
    strict). *)
Fixpoint decode_quanta (s : bytes) : res bytes :=
  match s with
  | [] => Ok []
  | a :: b :: c :: d :: s' =>
      match base64_value a, base64_value b, base64_value c, base64_value d with
      | Some va, Some vb, Some vc, Some vd =>
          let n := va * 262144 + vb * 4096 + vc * 64 + vd in
          let! r := decode_quanta s' in
          Ok (byte_of_Z (Z.shiftr n 16) :: byte_of_Z (Z.shiftr n 8) :: byte_of_Z n :: r)
      | Some va, Some vb, Some vc, None =>
          if bool_decide (d = Byte.x3d) && bool_decide (s' = [])
          then let n := va * 262144 + vb * 4096 + vc * 64 in
               Ok [byte_of_Z (Z.shiftr n 16); byte_of_Z (Z.shiftr n 8)]
          else corrupt
      | Some va, Some vb, None, _ =>
          if bool_decide (c = Byte.x3d) && bool_decide (d = Byte.x3d) && bool_decide (s' = [])
          then let n := va * 262144 + vb * 4096 in Ok [byte_of_Z (Z.shiftr n 16)]
          else corrupt
      | _, _, _, _ => corrupt
      end
  | _ => corrupt
  end.

(** [base64.StdEncoding.DecodeString] *)
Definition base64_decode (s : bytes) : res bytes :=
  decode_quanta (filter (fun b => is_line_end b = false) s).

(** ** Hexadecimal *)

(** [reverseHexTable]: both cases are digits. *)
Definition hex_value (b : Byte.byte) : option Z :=
  let z := byte_to_Z b in
  if Utf8.between 0x30 0x39 b then Some (z - 0x30)
  else if Utf8.between 0x61 0x66 b then Some (z - 0x61 + 10)
  else if Utf8.between 0x41 0x46 b then Some (z - 0x41 + 10)
  else None.

(** [hex.DecodeString]: a character that is no digit is reported before an odd
    length. *)
Fixpoint hex_decode (s : bytes) : res bytes :=
  match s with
  | [] => Ok []
  | [a] => match hex_value a with
           | Some _ => errorf "encoding/hex: odd length hex string"
           | None => errorf "encoding/hex: invalid byte"
           end
  | a :: b :: s' =>
      match hex_value a, hex_value b with
      | Some va, Some vb => let! r := hex_decode s' in Ok (byte_of_Z (va * 16 + vb) :: r)
      | _, _ => errorf "encoding/hex: invalid byte"
      end
  end.

(** ** Splitting and joining *)

(** [strings.Split(s, sep)] of a one-byte separator: never empty. *)
Fixpoint Split (sep : Byte.byte) (s : bytes) : list bytes :=
  match s with
  | [] => [[]]
  | b :: s' =>
      if bool_decide (b = sep) then [] :: Split sep s'
      else match Split sep s' with
           | [] => [[b]]
           | p :: ps => (b :: p) :: ps
           end
  end.

(** [strings.SplitN(s, sep, 2)]: the text before and after the first separator,
    or [None] when there is none (a slice of one element). *)
Fixpoint cut (sep : Byte.byte) (s : bytes) : option (bytes * bytes) :=
  match s with
  | [] => None
  | b :: s' =>
      if bool_decide (b = sep) then Some ([], s')
      else match cut sep s' with
           | None => None
           | Some (p, q) => Some (b :: p, q)
           end
  end.

(** [strings.Join] *)
Fixpoint Join (sep : bytes) (l : list bytes) : bytes :=
  match l with
  | [] => []
  | [s] => s
  | s :: l' => s ++ sep ++ Join sep l'
  end.

(** [strings.ToLower] as far as a comparison with an ASCII word can tell:
    besides the capital letters, two runes have an ASCII lower case, the Kelvin
    sign U+212A and the dotted capital I U+0130; every other rune beyond ASCII
    maps beyond ASCII and is left as it is here. *)
Definition lower_byte (b : Byte.byte) : Byte.byte :=
  if Utf8.between 0x41 0x5a b then byte_of_Z (byte_to_Z b + 0x20) else b.

Fixpoint ToLower (s : bytes) : bytes :=
  match s with
  | Byte.xe2 :: Byte.x84 :: Byte.xaa :: s' => Byte.x6b :: ToLower s'
  | Byte.xc4 :: Byte.xb0 :: s' => Byte.x69 :: ToLower s'
  | b :: s' => lower_byte b :: ToLower s'
  | [] => []
  end.

(** ** Addresses *)

Definition contains (b : Byte.byte) (s : bytes) : bool := bool_decide (b ∈ s).

(** [net.SplitHostPort(hostport)] returns no error. *)
Definition has_port (hostport : bytes) : bool :=
  match before_last Byte.x3a hostport with
  | None => false
  | Some p =>
      match hostport with
      | Byte.x5b :: h =>
          match cut Byte.x5d h with
          | None => false
          | Some (host, port) =>
              (* the closing bracket must be followed by the last colon *)
              bool_decide (length p = S (S (length host))) &&
              negb (contains Byte.x5b h) && negb (contains Byte.x5d port)
          end
      | _ => negb (contains Byte.x3a p) && negb (contains Byte.x5b hostport) && negb (contains Byte.x5d hostport)
      end
  end.

(** ** Scanning

    [fmt.Sscanf] with literals, white space and the verb [%s].  Input is read
    by runes; the only runes that matter are the white ones, which
    [GoText.head_match] of [spaces] recognises at the head of a string. *)

Definition space_width (s : bytes) : nat := head_match spaces s.

Definition at_newline (s : bytes) : bool := match s with b :: _ => bool_decide (b = nl) | [] => false end.

(** Skip white space other than newlines.  Every pass drops a rune, so the
    length is fuel enough. *)
Fixpoint skip_blanks (n : nat) (s : bytes) : bytes :=
  match n with
  | O => s
  | S n => if at_newline s then s else match space_width s with O => s | w => skip_blanks n (drop w s) end
  end.

(** [ss.SkipSpace] with [nlIsSpace] false: a carriage return before a newline is
    skipped, a newline is an error. *)
Fixpoint SkipSpace (n : nat) (s : bytes) : res bytes :=
  match n with
  | O => Ok s
  | S n => fail_if at_newline s with "unexpected newline" ;;
           match space_width s with
           | O => Ok s
           | w => match s with
                  | Byte.x0d :: Byte.x0a :: s' => SkipSpace n s'
                  | _ => SkipSpace n (drop w s)
                  end
           end
  end.

(** [s.token(true, notSpace)]: up to the next white rune. *)
Fixpoint word (n : nat) (s : bytes) : bytes * bytes :=
  match n, s with
  | S n, _ :: _ =>
      match space_width s with
      | O => match rune_width s with
             | O => let '(t, r) := word n (drop 1 s) in (replacement ++ t, r)
             | w => let '(t, r) := word n (drop w s) in (take w s ++ t, r)
             end
      | _ => ([], s)
      end
  | _, _ => ([], s)
  end.

(** A format: its literals, its runs of white space and its verbs.  A run
    counts its newlines and says whether blanks follow the last of them. *)
Inductive item := Lit (b : Byte.byte) | Space (newlines : nat) (trailing : bool) | Verb.

(** One newline of a run: blanks, then a newline or the end of the input. *)
Fixpoint newline_run (k : nat) (s : bytes) : res bytes :=
  match k with
  | O => Ok s
  | S k => match skip_blanks (length s) s with
           | [] => newline_run k []
           | b :: s' => if bool_decide (b = nl) then newline_run k s'
                        else errorf "newline in format does not match input"
           end
  end.

Definition space_run (k : nat) (trailing : bool) (s : bytes) : res bytes :=
  let! s := newline_run k s in
  if trailing then
    fail_if (k =? 0)%nat && negb (bool_decide (s = [])) && (space_width s =? 0)%nat with "expected space in input to match format" ;;
    fail_if (k =? 0)%nat && at_newline s with "newline in input does not match format" ;;
    Ok (skip_blanks (length s) s)
  else Ok s.

Fixpoint scan (f : list item) (s : bytes) : res (list bytes) :=
  match f with
  | [] => Ok []
  | Lit b :: f' =>
      match s with
      | [] => errorf "unexpected EOF"
      | c :: s' => if bool_decide (b = c) then scan f' s' else errorf "input does not match format"
      end
  | Space k t :: f' => let! s := space_run k t s in scan f' s
  | Verb :: f' =>
      let! s := SkipSpace (length s) s in
      fail_if bool_decide (s = []) with "unexpected EOF" ;;
      let '(t, r) := word (length s) s in
      let! ts := scan f' r in
      Ok (t :: ts)
  end.

(** ** Graphic text *)

(** A visible ASCII character. *)
Definition graphic (b : Byte.byte) : bool := Utf8.between 0x21 0x7e b.
Definition is_graphic (s : bytes) : Prop := Forall (fun b => graphic b = true) s.

(** What a user of a codec relies on. *)
Class TextCodec (enc : bytes -> bytes) (dec : bytes -> res bytes) : Prop := {
  dec_enc : forall b, dec (enc b) = Ok b;
  enc_graphic : forall b, is_graphic (enc b);
}.

Lemma enc_inj enc dec `{TextCodec enc dec} a b : enc a = enc b -> a = b.
Proof. intros E. apply (f_equal dec) in E. rewrite !dec_enc in E. by injection E. Qed.

Lemma byte_forall (P : Byte.byte -> bool) :
  forallb (fun n => P (byte_of_Z (Z.of_nat n))) (seq 0 256) = true -> forall b, P b = true.
Proof.
  intros H b. rewrite forallb_forall in H. specialize (H (Z.to_nat (byte_to_Z b))).
  pose proof (byte_to_Z_range b). rewrite Z2Nat.id, byte_of_to_Z in H by lia. apply H, in_seq. lia.
Qed.

(** A statement about every byte, decided by enumeration. *)
Ltac all_bytes b := revert b; apply byte_forall; vm_compute; reflexivity.

Lemma head_match_none ps b s :
  Forall (fun p => match p with [] => False | c :: _ => c <> b end) ps -> head_match ps (b :: s) = O.
Proof.
  induction 1 as [|p ps Hp _ IH]; [done|]. cbn [head_match]. destruct p as [|c p]; [done|].
  unfold starts_with. rewrite bool_decide_false; [done|]. cbn. by intros [= ->].
Qed.

Lemma space_width_graphic b s : graphic b = true -> space_width (b :: s) = O.
Proof.
  intros G. apply head_match_none. unfold spaces.
  repeat (constructor; [intros <-; vm_compute in G; discriminate G|]). constructor.
Qed.

Lemma rune_width_graphic b s : graphic b = true -> rune_width (b :: s) = 1%nat.
Proof.
  intros G. unfold graphic, Utf8.between in G. unfold rune_width. btauto_props.
  replace (byte_to_Z b <? 0x80) with true by lia. done.
Qed.

(** *** Base64 *)

Lemma base64_digit_spec z :
  base64_value (base64_digit z) = Some (z mod 64) /\ graphic (base64_digit z) = true.
Proof.
  unfold base64_digit. change 63 with (Z.ones 6). rewrite Z.land_ones by lia. change (2 ^ 6) with 64.
  pose proof (Z.mod_pos_bound z 64 ltac:(lia)) as R. rewrite <- (Z2Nat.id (z mod 64)) at 2 by lia.
  assert (Z.to_nat (z mod 64) < 64)%nat as L by lia. revert L. generalize (Z.to_nat (z mod 64)). clear.
  do 64 (destruct n as [|n]; [by vm_compute|]). lia.
Qed.

Lemma base64_digit_value z : base64_value (base64_digit z) = Some (z mod 64).
Proof. apply base64_digit_spec. Qed.
Lemma base64_digit_graphic z : graphic (base64_digit z) = true.
Proof. apply base64_digit_spec. Qed.

Lemma list_ind3 {A} (P : list A -> Prop) :
  P [] -> (forall x, P [x]) -> (forall x y, P [x; y]) -> (forall x y z l, P l -> P (x :: y :: z :: l)) -> forall l, P l.
Proof.
  intros H0 H1 H2 H3. fix IH 1. intros [|x [|y [|z l]]]; [done|apply H1|apply H2|]. apply H3, IH.
Qed.

Lemma base64_graphic b : is_graphic (base64 b).
Proof.
  unfold is_graphic. induction b using list_ind3; cbn [base64 app];
    repeat (constructor; [try apply base64_digit_graphic; done|]); try constructor. done.
Qed.

(** The alphabet: digits and the padding sign. *)
Lemma base64_alphabet b x : x ∈ base64 b -> is_Some (base64_value x) \/ x = Byte.x3d.
Proof.
  assert (forall z, is_Some (base64_value (base64_digit z))) as D by (intros z; rewrite base64_digit_value; by eexists).
  induction b as [|y|y z|y z w b IH] using list_ind3; cbn [base64 app]; intros I;
    repeat (apply elem_of_cons in I as [->|I]; [by auto|]); try (by apply elem_of_nil in I). by apply IH.
Qed.

Lemma graphic_no_line_end b : graphic b = true -> is_line_end b = false.
Proof.
  intros G. unfold is_line_end. apply orb_false_iff.
  split; apply bool_decide_eq_false_2; intros ->; vm_compute in G; discriminate G.
Qed.

Lemma filter_graphic s : is_graphic s -> filter (fun b => is_line_end b = false) s = s.
Proof.
  induction 1 as [|b s G _ IH]; [done|]. rewrite filter_cons_True by by apply graphic_no_line_end. by f_equal.
Qed.

Lemma byte_of_Z_eq z b : z mod 256 = byte_to_Z b -> byte_of_Z z = b.
Proof. intros E. apply byte_to_Z_inj. by rewrite byte_to_of_Z. Qed.

Lemma decode_quanta_encode b : decode_quanta (base64 b) = Ok b.
Proof.
  induction b as [|x|x y|x y z b IH] using list_ind3; cbn [base64 app decode_quanta]; [done|..];
    rewrite !base64_digit_value, ?Z.shiftr_div_pow2 by lia; change (2 ^ 18) with 262144; change (2 ^ 12) with 4096; change (2 ^ 6) with 64.
  - vm_compute (base64_value Byte.x3d). cbn [bool_decide]. rewrite !bool_decide_true by done. cbn [andb].
    repeat f_equal. apply byte_of_Z_eq. pose proof (byte_to_Z_range x). change (2 ^ 16) with 65536. zmod.
  - vm_compute (base64_value Byte.x3d). rewrite !bool_decide_true by done. cbn [andb].
    pose proof (byte_to_Z_range x). pose proof (byte_to_Z_range y).
    change (2 ^ 16) with 65536. change (2 ^ 8) with 256.
    f_equal. f_equal; [|f_equal]; apply byte_of_Z_eq; zmod.
  - pose proof (byte_to_Z_range x). pose proof (byte_to_Z_range y). pose proof (byte_to_Z_range z).
    rewrite IH. cbn [res_bind]. change (2 ^ 16) with 65536. change (2 ^ 8) with 256.
    f_equal. f_equal; [|f_equal; [|f_equal]]; apply byte_of_Z_eq; zmod.
Qed.

#[export] Instance base64_codec : TextCodec base64 base64_decode.
Proof.
  split; [|apply base64_graphic]. intros b. unfold base64_decode.
  rewrite filter_graphic by apply base64_graphic. apply decode_quanta_encode.
Qed.

(** *** Hexadecimal *)

Lemma hex_decode_encode b : hex_decode (hex b) = Ok b.
Proof.
  induction b as [|x b IH]; [done|]. rewrite hex_cons. unfold hex1. cbn [app hex_decode]. rewrite IH. clear IH.
  cut (match hex_value (nibble (byte_to_Z x / 16)), hex_value (nibble (byte_to_Z x mod 16)) with
       | Some va, Some vb => Byte.eqb (byte_of_Z (va * 16 + vb)) x | _, _ => false end = true).
  - destruct (hex_value _); [|done]. destruct (hex_value _); [|done]. intros E%Byte.byte_dec_bl. cbn. by rewrite E.
  - all_bytes x.
Qed.

Lemma hex_graphic b : is_graphic (hex b).
Proof.
  unfold is_graphic. induction b as [|x b IH]; [constructor|]. rewrite hex_cons. apply Forall_app. split; [|done].
  unfold hex1. clear IH. repeat constructor; all_bytes x.
Qed.

#[export] Instance hex_codec : TextCodec hex hex_decode.
Proof. split; [apply hex_decode_encode|apply hex_graphic]. Qed.

(** *** Trimming, splitting *)

Lemma strip_graphic ps n b s :
  Forall (fun p => match p with [] => False | c :: _ => c <> b end) ps -> strip ps n (b :: s) = b :: s.
Proof. intros H. destruct n; [done|]. cbn [strip]. by rewrite head_match_none. Qed.

Lemma graphic_not_space b (ps : list bytes) :
  graphic b = true -> ps = spaces \/ ps = reverse <$> spaces ->
  Forall (fun p => match p with [] => False | c :: _ => c <> b end) ps.
Proof.
  intros G [-> | ->]; (unfold spaces; cbn [fmap list_fmap]; unfold reverse, rev_append;
    repeat (constructor; [intros <-; vm_compute in G; discriminate G|])); constructor.
Qed.

Lemma TrimLeft_graphic s : is_graphic s -> TrimLeft s = s.
Proof.
  intros G. destruct s as [|b s]; [done|]. apply Forall_cons in G as [G _]. apply strip_graphic, graphic_not_space; auto.
Qed.

Lemma TrimRight_graphic s : is_graphic s -> TrimRight s = s.
Proof.
  intros G. unfold TrimRight. rewrite <- (reverse_involutive s) at 3. f_equal.
  apply Forall_reverse in G. rewrite <- (length_reverse s). destruct (reverse s) as [|b r]; [done|].
  apply Forall_cons in G as [G _]. apply strip_graphic, graphic_not_space; auto.
Qed.

Lemma TrimSpace_graphic s : is_graphic s -> TrimSpace s = s.
Proof. intros G. unfold TrimSpace. by rewrite TrimLeft_graphic, TrimRight_graphic. Qed.

(** A blank before graphic text goes. *)
Lemma TrimSpace_blank s : is_graphic s -> TrimSpace (Byte.x20 :: s) = s.
Proof.
  intros G. assert (TrimLeft (Byte.x20 :: s) = TrimLeft s) as E.
  { unfold TrimLeft. cbn [length strip]. by change (head_match spaces (Byte.x20 :: s)) with 1%nat. }
  unfold TrimSpace. rewrite E. exact (TrimSpace_graphic s G).
Qed.

(** A newline after graphic text goes. *)
Lemma TrimSpace_newline s : is_graphic s -> TrimSpace (s ++ [nl]) = s.
Proof.
  intros G. unfold TrimSpace. assert (TrimLeft (s ++ [nl]) = match s with [] => [] | _ => s ++ [nl] end) as ->.
  { destruct s as [|b s]; [done|]. apply Forall_cons in G as [G _]. apply strip_graphic, graphic_not_space; auto. }
  destruct s as [|b s]; [done|]. set (t := b :: s) in *. unfold TrimRight.
  rewrite reverse_app, length_app, Nat.add_1_r. cbn [app reverse rev_append strip].
  change (reverse [nl] ++ reverse t) with (nl :: reverse t).
  change (head_match (reverse <$> spaces) (nl :: reverse t)) with 1%nat. cbn [drop].
  exact (TrimRight_graphic t G).
Qed.

Lemma Split_no sep s : sep ∉ s -> Split sep s = [s].
Proof.
  induction s as [|b s IH]; [done|]. intros N. cbn [Split]. rewrite bool_decide_false by set_solver. by rewrite IH by set_solver.
Qed.

Lemma Split_app sep s t : sep ∉ s -> Split sep (s ++ sep :: t) = s :: Split sep t.
Proof.
  induction s as [|b s IH]; intros N; cbn [app Split]; [by rewrite bool_decide_true|].
  rewrite bool_decide_false by set_solver. by rewrite IH by set_solver.
Qed.

(** Splitting undoes joining at a separator that the items do not contain. *)
Lemma Split_Join sep (rest : bytes) (l : list bytes) : l <> [] ->
  sep ∉ rest -> Forall (fun s => sep ∉ s) l ->
  Split sep (Join (sep :: rest) l) = match l with [] => [] | s :: l' => s :: (map (app rest) l') end.
Proof.
  intros L R F. destruct l as [|s l]; [done|]. clear L. apply Forall_cons in F as [S F].
  assert (forall p s, sep ∉ p -> sep ∉ s -> Forall (fun s => sep ∉ s) l ->
    Split sep (p ++ Join (sep :: rest) (s :: l)) = (p ++ s) :: map (app rest) l) as K.
  { clear -R. induction l as [|t l IH]; intros p s P S F.
    - cbn [Join]. apply Split_no. set_solver.
    - change (Join (sep :: rest) (s :: t :: l)) with (s ++ sep :: rest ++ Join (sep :: rest) (t :: l)).
      rewrite app_assoc, Split_app by set_solver. apply Forall_cons in F as [T F]. by rewrite IH. }
  by apply (K []); [set_solver|..].
Qed.

Lemma cut_app sep s t : sep ∉ s -> cut sep (s ++ sep :: t) = Some (s, t).
Proof.
  induction s as [|b s IH]; intros N; cbn [app cut]; [by rewrite bool_decide_true|].
  rewrite bool_decide_false by set_solver. by rewrite IH by set_solver.
Qed.

(** *** Scanning graphic words *)

Lemma word_graphic n s c r : (length s < n)%nat -> is_graphic s -> space_width (c :: r) <> O ->
  word n (s ++ c :: r) = (s, c :: r).
Proof.
  intros L G W. revert n L. induction G as [|b s G _ IH]; intros [|n] L; cbn [length] in L; try lia; cbn [app word].
  - by destruct (space_width (c :: r)).
  - rewrite space_width_graphic, rune_width_graphic by done. cbn [drop take]. rewrite drop_0, IH by lia. done.
Qed.

Lemma SkipSpace_graphic n b s : graphic b = true -> SkipSpace n (b :: s) = Ok (b :: s).
Proof.
  intros G. destruct n; [done|]. cbn [SkipSpace]. rewrite space_width_graphic by done.
  unfold at_newline. rewrite bool_decide_false; [done|]. intros ->. vm_compute in G. discriminate G.
Qed.

Lemma scan_verb f s c r ts : s <> [] -> is_graphic s -> space_width (c :: r) <> O -> scan f (c :: r) = Ok ts ->
  scan (Verb :: f) (s ++ c :: r) = Ok (s :: ts).
Proof.
  intros N G W E. cbn [scan]. destruct s as [|b s]; [done|]. pose proof (Forall_inv G) as Gb. cbn beta in Gb.
  rewrite <- app_comm_cons, SkipSpace_graphic by done. cbn [res_bind]. rewrite bool_decide_false by done.
  rewrite app_comm_cons, word_graphic; [|rewrite length_app; cbn; lia|done|done]. by rewrite E.
Qed.

Lemma scan_lits p f s : scan (map Lit p ++ f) (p ++ s) = scan f s.
Proof. induction p as [|b p IH]; [done|]. cbn. by rewrite bool_decide_true. Qed.

Lemma skip_blanks_graphic n b s : graphic b = true -> skip_blanks n (b :: s) = b :: s.
Proof. intros G. destruct n; [done|]. cbn [skip_blanks]. rewrite space_width_graphic by done. by destruct (at_newline _). Qed.

Example base64_decode_pad : base64_decode (str "c3RlbGU=") = Ok (str "stele").
Proof. reflexivity. Qed.
Example base64_decode_newlines : base64_decode (str "c3Rl" ++ [nl] ++ str "bGU=" ++ [nl]) = Ok (str "stele").
Proof. reflexivity. Qed.
Example base64_decode_unpadded : is_ok (base64_decode (str "c3RlbGU")) = false.
Proof. reflexivity. Qed.
Example hex_decode_upper : hex_decode (str "DEADbeef") = Ok [Byte.xde; Byte.xad; Byte.xbe; Byte.xef].
Proof. reflexivity. Qed.
Example Split_ex : Split Byte.x3b (str "a;b;;c") = [str "a"; str "b"; []; str "c"].
Proof. reflexivity. Qed.
Example has_port_ex :
  (has_port (str "1.1.1.1:53"), has_port (str "1.1.1.1"), has_port (str "[::1]:53"), has_port (str "::1"), has_port (str "[::1]")) =
  (true, false, true, false, false).
Proof. reflexivity. Qed.
