(* ===== verification/TrustDns.v ===== *)
(** * Trust roots over DNSSEC (pkg/trustdns)

    An auditor learns the operator's root key from the TXT record at
    [_stele.<origin>], through a resolver that validates DNSSEC.  The package
    has the record ([Record_]), its text form ([FormatTXT], [ParseTXT]) and the
    lookup ([Fetch]).  The DNS library is not part of the repository: the name
    it makes of an origin ([Fqdn]) and the exchange with the resolver are
    arguments of [Fetch]. *)

From stdpp Require Import base numbers list sets strings.
From Stdlib Require Import ZArith Lia.
From S2P Require Import Prelude Utf8 GoText Codec.

#[local] Open Scope Z_scope.

Module TrustDns.

Record Record_ := mkRecord {
  Origin : bytes;
  RootPublicKey : bytes;
  RootQuantumPublicKey : bytes;
  ChainDigest : bytes;
  Witnesses : list bytes;
  Version : bytes;
}.

Definition empty_record : Record_ := mkRecord [] [] [] [] [] [].

Definition set_origin (o : bytes) (r : Record_) : Record_ :=
  mkRecord o (RootPublicKey r) (RootQuantumPublicKey r) (ChainDigest r) (Witnesses r) (Version r).
Definition set_version (v : bytes) (r : Record_) : Record_ :=
  mkRecord (Origin r) (RootPublicKey r) (RootQuantumPublicKey r) (ChainDigest r) (Witnesses r) v.
Definition set_root (k : bytes) (r : Record_) : Record_ :=
  mkRecord (Origin r) k (RootQuantumPublicKey r) (ChainDigest r) (Witnesses r) (Version r).
Definition set_qroot (k : bytes) (r : Record_) : Record_ :=
  mkRecord (Origin r) (RootPublicKey r) k (ChainDigest r) (Witnesses r) (Version r).
Definition set_digest (d : bytes) (r : Record_) : Record_ :=
  mkRecord (Origin r) (RootPublicKey r) (RootQuantumPublicKey r) d (Witnesses r) (Version r).
Definition add_witness (w : bytes) (r : Record_) : Record_ :=
  mkRecord (Origin r) (RootPublicKey r) (RootQuantumPublicKey r) (ChainDigest r) (Witnesses r ++ [w]) (Version r).

(** ** codec.go *)

Definition decodeBase64 (s : bytes) : res bytes := base64_decode (TrimSpace s).
Definition encodeBase64 (b : bytes) : bytes := base64 b.
Definition decodeHex (s : bytes) : res bytes := hex_decode (TrimSpace s).
Definition encodeHex (b : bytes) : bytes := hex b.

(** ** ParseTXT *)

Definition semicolon : Byte.byte := Byte.x3b.
Definition equals : Byte.byte := Byte.x3d.
Definition comma : Byte.byte := Byte.x2c.

(** The loop over the comma-separated witnesses. *)
Fixpoint parse_witnesses (ws : list bytes) (rec : Record_) : res Record_ :=
  match ws with
  | [] => Ok rec
  | w :: ws' =>
      let w := TrimSpace w in
      if bool_decide (w = []) then parse_witnesses ws' rec
      else let! b := wrap_err "trustdns: witness" (decodeBase64 w) in
           parse_witnesses ws' (add_witness b rec)
  end.

(** One part between semicolons: a part without [=], or with a key that is not
    known, is skipped. *)
Definition parse_part (part : bytes) (rec : Record_) : res Record_ :=
  match cut equals (TrimSpace part) with
  | None => Ok rec
  | Some (kv0, kv1) =>
      let k := ToLower (TrimSpace kv0) in
      let v := TrimSpace kv1 in
      if bool_decide (k = str "v") || bool_decide (k = str "version") then Ok (set_version v rec)
      else if bool_decide (k = str "root_pubkey") then
        let! b := wrap_err "trustdns: root_pubkey" (decodeBase64 v) in Ok (set_root b rec)
      else if bool_decide (k = str "root_qpubkey") then
        let! b := wrap_err "trustdns: root_qpubkey" (decodeBase64 v) in Ok (set_qroot b rec)
      else if bool_decide (k = str "chain_digest") then
        let! b := wrap_err "trustdns: chain_digest" (decodeHex v) in Ok (set_digest b rec)
      else if bool_decide (k = str "witnesses") then parse_witnesses (Split comma v) rec
      else Ok rec
  end.

Fixpoint parse_parts (parts : list bytes) (rec : Record_) : res Record_ :=
  match parts with
  | [] => Ok rec
  | part :: parts' => let! rec := parse_part part rec in parse_parts parts' rec
  end.

Definition ParseTXT (raw : bytes) : res Record_ :=
  fail_if bool_decide (raw = []) with "trustdns: empty TXT body" ;;
  let! rec := parse_parts (Split semicolon raw) empty_record in
  fail_if len (RootPublicKey rec) =? 0 with "trustdns: TXT record missing root_pubkey" ;;
  fail_if negb (bool_decide (Version rec = [])) && negb (starts_with (str "stele/v") (Version rec))
    with "trustdns: unrecognised version" ;;
  Ok rec.

(** ** FormatTXT *)

Definition field (k : string) (v : bytes) : bytes := str k ++ equals :: v.

(** The parts in the order they are appended; the optional ones only when they
    have content. *)
Definition format_parts (r : Record_) : list bytes :=
  [field "v" (str "stele/v1"); field "root_pubkey" (encodeBase64 (RootPublicKey r))]
  ++ (if 0 <? len (RootQuantumPublicKey r) then [field "root_qpubkey" (encodeBase64 (RootQuantumPublicKey r))] else [])
  ++ (if 0 <? len (ChainDigest r) then [field "chain_digest" (encodeHex (ChainDigest r))] else [])
  ++ (if 0 <? len (Witnesses r) then [field "witnesses" (Join [comma] (map encodeBase64 (Witnesses r)))] else []).

Definition FormatTXT (r : Record_) : bytes := Join [semicolon; Byte.x20] (format_parts r).

(** ** Fetch *)

(** A resource record of an answer: the character strings of a TXT record, or a
    record of another type. *)
Inductive rr := TXT (txt : list bytes) | OtherRR.

Record reply := mkReply { Rcode : Z; AuthenticatedData : bool; Answer : list rr }.

Definition RcodeSuccess : Z := 0.

(** [ensurePort] *)
Definition ensurePort (host : bytes) : bytes := if has_port host then host else host ++ str ":53".

Record Config := mkConfig { Resolver : bytes; Timeout : Z }.

Definition second : Z := 1000000000.

(** What the client is configured with: the server it queries and the timeout,
    with their defaults. *)
Definition resolver_of (cfg : Config) : bytes := if bool_decide (Resolver cfg = []) then str "1.1.1.1:53" else Resolver cfg.
Definition timeout_of (cfg : Config) : Z := if Timeout cfg <=? 0 then 5 * second else Timeout cfg.

Record question := mkQuestion { q_name : bytes; q_edns_size : Z; q_do : bool; q_ad : bool; q_server : bytes; q_timeout : Z }.

(** The loop over the answers: the first TXT record that parses. *)
Fixpoint first_record (origin : bytes) (answer : list rr) : option Record_ :=
  match answer with
  | [] => None
  | OtherRR :: answer' => first_record origin answer'
  | TXT txt :: answer' =>
      match ParseTXT (Join [] txt) with
      | Ok rec => Some (set_origin origin rec)
      | Err _ => first_record origin answer'
      end
  end.

Definition Fetch (Fqdn : bytes -> bytes) (exchange : question -> res reply) (cfg : Config) (origin : bytes) : res Record_ :=
  fail_if bool_decide (origin = []) with "trustdns: origin required" ;;
  let name := Fqdn (str "_stele." ++ origin) in
  let q := mkQuestion name 4096 true true (ensurePort (resolver_of cfg)) (timeout_of cfg) in
  let! resp := wrap_err "trustdns: query" (exchange q) in
  fail_if negb (Rcode resp =? RcodeSuccess) with "trustdns: query: rcode" ;;
  fail_if negb (AuthenticatedData resp) with "trustdns: response lacks AD bit" ;;
  match first_record origin (Answer resp) with
  | Some rec => Ok rec
  | None => errorf "trustdns: no parseable stele TXT records"
  end.

(** ** The text form round-trips *)

Lemma b64_decode b : decodeBase64 (encodeBase64 b) = Ok b.
Proof. unfold decodeBase64, encodeBase64. rewrite TrimSpace_graphic by apply enc_graphic. apply dec_enc. Qed.
Lemma hex_decode_ok b : decodeHex (encodeHex b) = Ok b.
Proof. unfold decodeHex, encodeHex. rewrite TrimSpace_graphic by apply enc_graphic. apply dec_enc. Qed.

Lemma base64_nonempty b : b <> [] -> base64 b <> [].
Proof. intros N E. apply N. apply (enc_inj base64 base64_decode). by rewrite E. Qed.

(** No separator of the format is a base64 or hex digit. *)
Lemma base64_no_sep b x : x ∈ base64 b -> x <> semicolon /\ x <> comma.
Proof. intros I. split; intros ->; apply base64_alphabet in I as [[v I]|I]; discriminate I. Qed.

Lemma hex_alphabet b x : x ∈ hex b -> x <> semicolon.
Proof.
  intros H ->. assert (forall b, match hex_decode b with Ok _ => semicolon ∉ b | Err _ => True end) as D.
  { fix IH 1. intros [|y [|z r]]; [apply not_elem_of_nil|cbn; by destruct (hex_value y)|]. cbn [hex_decode].
    specialize (IH r). destruct (hex_value y) eqn:Y; [|done]. destruct (hex_value z) eqn:Z; [|done].
    destruct (hex_decode r); [|done]. cbn. rewrite !elem_of_cons.
    intros [E|[E|E]]; [rewrite <- E in Y|rewrite <- E in Z|done]; discriminate. }
  specialize (D (hex b)). rewrite dec_enc in D. done.
Qed.

Lemma Join_graphic ws : Forall is_graphic ws -> is_graphic (Join [comma] ws).
Proof.
  induction 1 as [|w ws W F IH]; [constructor|]. cbn [Join]. destruct ws; [done|].
  apply Forall_app. split; [done|]. by constructor.
Qed.

Lemma encoded_graphic (l : list bytes) : Forall is_graphic (map encodeBase64 l).
Proof. apply Forall_map, Forall_forall. intros w _. apply base64_graphic. Qed.

(** A field parses to its key and value, with or without the blank the
    separator leaves in front of it. *)
Lemma field_cut (k : string) v : is_graphic (str k) -> is_graphic v -> equals ∉ str k -> forall p, p = field k v \/ p = Byte.x20 :: field k v ->
  cut equals (TrimSpace p) = Some (str k, v) /\ TrimSpace (str k) = str k /\ TrimSpace v = v.
Proof.
  intros K V N p E. assert (is_graphic (field k v)) as F by (apply Forall_app; by repeat constructor).
  split; [|split; by apply TrimSpace_graphic].
  destruct E as [-> | ->]; [rewrite TrimSpace_graphic by done|rewrite TrimSpace_blank by done]; by apply cut_app.
Qed.

(** Decides which branch of [parse_part] a field with a literal key takes. *)
Ltac field_step :=
  match goal with
  | |- context [parse_part ?p _] =>
      match p with context [field ?k ?v] =>
        let C := fresh "C" in
        assert (cut equals (TrimSpace p) = Some (str k, v) /\ TrimSpace (str k) = str k /\ TrimSpace v = v) as C
          by (apply field_cut; [repeat constructor|first [apply base64_graphic|apply hex_graphic|apply Join_graphic, encoded_graphic|repeat constructor]
             |by apply (bool_decide_eq_true_1 _)|by (left + right)]);
        unfold parse_part at 1; rewrite (proj1 C); cbn [fst snd]; rewrite (proj1 (proj2 C)), (proj2 (proj2 C)); clear C;
        repeat match goal with |- context [bool_decide (ToLower ?a = ?b)] =>
          let c := eval vm_compute in (bool_decide (ToLower a = b)) in change (bool_decide (ToLower a = b)) with c end; cbn [orb]
      end
  end.

Lemma parse_witnesses_ok l : Forall (fun w => w <> []) l -> forall rec,
  parse_witnesses (map encodeBase64 l) rec =
  Ok (mkRecord (Origin rec) (RootPublicKey rec) (RootQuantumPublicKey rec) (ChainDigest rec) (Witnesses rec ++ l) (Version rec)).
Proof.
  induction 1 as [|w l W _ IH]; intros rec; cbn [map parse_witnesses]; [rewrite app_nil_r; by destruct rec|].
  rewrite TrimSpace_graphic by apply base64_graphic. rewrite bool_decide_false by by apply base64_nonempty.
  rewrite b64_decode. cbn [wrap_err res_bind]. rewrite IH. cbn. by rewrite <- app_assoc.
Qed.

Lemma split_witnesses l : l <> [] -> Split comma (Join [comma] (map encodeBase64 l)) = map encodeBase64 l.
Proof.
  intros N. rewrite Split_Join.
  - destruct l as [|w l]; [done|]. cbn. by rewrite map_id.
  - by destruct l.
  - apply not_elem_of_nil.
  - apply Forall_map, Forall_forall. intros w _ H. apply base64_no_sep in H as [_ H]. by apply H.
Qed.

Lemma part_not_semicolon r p : p ∈ format_parts r -> semicolon ∉ p.
Proof.
  assert (forall k v, semicolon ∉ str k -> semicolon ∉ v -> semicolon ∉ field k v) as F.
  { intros k v K V. unfold field. rewrite elem_of_app, elem_of_cons. intros [H|[H|H]]; done. }
  assert (forall b, semicolon ∉ encodeBase64 b) as B by (intros b H; apply base64_no_sep in H as [H _]; by apply H).
  assert (forall b, semicolon ∉ encodeHex b) as X by (intros b H; by apply hex_alphabet in H).
  assert (forall l, semicolon ∉ Join [comma] (map encodeBase64 l)) as J.
  { induction l as [|w l IH]; [apply not_elem_of_nil|]. cbn [map Join]. destruct (map encodeBase64 l) eqn:E; [apply B|].
    rewrite <- E in IH |- *. rewrite !elem_of_app, list_elem_of_singleton. intros [H|[H|H]]; [by apply B in H|done|done]. }
  unfold format_parts. rewrite !elem_of_app, !elem_of_cons.
  intros [[->|[->|H]]|[H|[H|H]]]; [| |by apply elem_of_nil in H|..];
    try (destruct (0 <? _) in H; [apply list_elem_of_singleton in H as ->|by apply elem_of_nil in H]);
    apply F; first [apply B|apply X|apply J|by apply (bool_decide_eq_true_1 _)].
Qed.

(** The fields one after the other, whatever optional ones there are. *)
Lemma parse_format r : Forall (fun w => w <> []) (Witnesses r) ->
  parse_parts (match format_parts r with [] => [] | p :: ps => p :: map (app [Byte.x20]) ps end) empty_record =
  Ok (set_origin [] (set_version (str "stele/v1") r)).
Proof.
  intros W. unfold format_parts. cbn [app map parse_parts].
  field_step. cbn [res_bind]. field_step. rewrite b64_decode. cbn [wrap_err res_bind].
  destruct r as [o k q d ws v]; cbn [RootPublicKey RootQuantumPublicKey ChainDigest Witnesses] in *.
  destruct (0 <? len q) eqn:Q; cbn [app map parse_parts];
    [field_step; rewrite b64_decode; cbn [wrap_err res_bind]|apply len_zero in Q as ->];
  (destruct (0 <? len d) eqn:D; cbn [app map parse_parts];
    [field_step; rewrite hex_decode_ok; cbn [wrap_err res_bind]|apply len_zero in D as ->]);
  (destruct (0 <? len ws) eqn:S; cbn [app map parse_parts];
    [apply len_pos in S; field_step; rewrite split_witnesses, parse_witnesses_ok by done|apply len_zero in S as ->]);
  reflexivity.
Qed.

Lemma read_back r : RootPublicKey r <> [] -> Forall (fun w => w <> []) (Witnesses r) ->
  ParseTXT (FormatTXT r) = Ok (set_origin [] (set_version (str "stele/v1") r)).
Proof.
  intros K W. unfold ParseTXT, FormatTXT. rewrite Split_Join.
  - rewrite parse_format by done. rewrite bool_decide_false by done. cbn [res_bind RootPublicKey set_origin set_version Version].
    destruct (RootPublicKey r) eqn:E; [done|]. by rewrite bool_decide_false.
  - done.
  - rewrite list_elem_of_singleton. done.
  - apply Forall_forall. intros p. apply part_not_semicolon.
Qed.

(** The text an operator publishes is read back as what was published: with
    a root key and no empty witness key, [ParseTXT] of [FormatTXT] is the record
    itself, whichever optional fields it has (the version is the one
    [FormatTXT] always writes, and the origin is not part of the text). *)
Theorem ParseTXT_FormatTXT r : RootPublicKey r <> [] -> Forall (fun w => w <> []) (Witnesses r) ->
  ParseTXT (FormatTXT r) = Ok (set_origin [] (set_version (str "stele/v1") r)).
Proof. apply read_back. Qed.

(** ** What an accepted record means *)

Lemma first_record_spec origin answer rec : first_record origin answer = Some rec <->
  exists pre txt rec0 post, answer = pre ++ TXT txt :: post /\ ParseTXT (Join [] txt) = Ok rec0 /\ rec = set_origin origin rec0 /\
    Forall (fun a => match a with TXT t => is_ok (ParseTXT (Join [] t)) = false | OtherRR => True end) pre.
Proof.
  induction answer as [|[t|] answer IH]; cbn [first_record].
  - split; [done|]. by intros ([|] & ? & ? & ? & ? & _).
  - destruct (ParseTXT (Join [] t)) as [rec0|e] eqn:P.
    + split; [intros [= <-]; exists [], t, rec0, answer; by repeat constructor|].
      intros (pre & txt & rec1 & post & E & P1 & -> & F). destruct pre as [|a pre]; [injection E as -> ->; congruence|].
      injection E as <- E. apply Forall_cons in F as [F _]. by rewrite P in F.
    + rewrite IH. split.
      * intros (pre & txt & rec1 & post & -> & P1 & -> & F). exists (TXT t :: pre), txt, rec1, post.
        repeat split; [done|]. constructor; [by rewrite P|done].
      * intros (pre & txt & rec1 & post & E & P1 & -> & F). destruct pre as [|a pre]; [injection E as -> ->; congruence|].
        injection E as <- ->. apply Forall_cons in F as [_ F]. by exists pre, txt, rec1, post.
  - rewrite IH. split.
    + intros (pre & txt & rec1 & post & -> & P1 & -> & F). exists (OtherRR :: pre), txt, rec1, post. repeat split; [done|]. by constructor.
    + intros (pre & txt & rec1 & post & E & P1 & -> & F). destruct pre as [|a pre]; [done|].
      injection E as <- ->. apply Forall_cons in F as [_ F]. by exists pre, txt, rec1, post.
Qed.

(** A trust root is accepted exactly when the resolver answered without
    error, vouched for DNSSEC with the AD bit, and some TXT record of the answer
    parses; the root is the first of those, under the origin asked for. *)
Theorem Fetch_exact Fqdn exchange cfg origin rec :
  Fetch Fqdn exchange cfg origin = Ok rec <->
  origin <> [] /\ exists resp,
    exchange (mkQuestion (Fqdn (str "_stele." ++ origin)) 4096 true true (ensurePort (resolver_of cfg)) (timeout_of cfg)) = Ok resp /\
    Rcode resp = RcodeSuccess /\ AuthenticatedData resp = true /\
    exists pre txt rec0 post, Answer resp = pre ++ TXT txt :: post /\ ParseTXT (Join [] txt) = Ok rec0 /\ rec = set_origin origin rec0 /\
      Forall (fun a => match a with TXT t => is_ok (ParseTXT (Join [] t)) = false | OtherRR => True end) pre.
Proof.
  unfold Fetch. apply guard_iff; [by rewrite bool_decide_eq_false|].
  destruct (exchange _) as [resp|e]; cbn [wrap_err res_bind]; [|split; [done|by intros (? & ? & _)]].
  assert (forall P : reply -> Prop, (exists r, Ok resp = Ok r /\ P r) <-> P resp) as -> by (intros P; naive_solver).
  apply guard_iff; [apply eqb_guard|]. apply guard_iff; [by rewrite negb_false_iff|].
  rewrite <- first_record_spec. destruct (first_record origin (Answer resp)); naive_solver.
Qed.

(** A parsed record has a root key, and a version of this protocol or none. *)
Lemma ParseTXT_root raw rec : ParseTXT raw = Ok rec ->
  RootPublicKey rec <> [] /\ (Version rec = [] \/ starts_with (str "stele/v") (Version rec) = true).
Proof.
  unfold ParseTXT. intros P. res_inv P. subst. split.
  - intros K. rewrite K in *. done.
  - apply andb_false_iff in E2 as [V|V]; apply negb_false_iff in V; [left; by apply bool_decide_eq_true in V|by right].
Qed.

(** ** Where the documentation and the code part

    The root key is not held to a length: any non-empty base64 is a root. *)
Example ParseTXT_short_root :
  ParseTXT (str "v=stele/v1; root_pubkey=QQ==") = Ok (set_root (str "A") (set_version (str "stele/v1") empty_record)).
Proof. reflexivity. Qed.

(** The record is split at semicolons; space-separated pairs, the format the
    package documentation names first, are one field. *)
Example ParseTXT_space_separated : is_ok (ParseTXT (str "root_pubkey=QQ== v=stele/v1")) = false.
Proof. reflexivity. Qed.

(** A field may be repeated, and the last one counts. *)
Example ParseTXT_last_wins :
  RootPublicKey <$> (match ParseTXT (str "root_pubkey=QQ==; root_pubkey=Qg==") with Ok r => Some r | Err _ => None end) = Some (str "B").
Proof. reflexivity. Qed.

(** ** Witnesses *)

Definition demo_record : Record_ :=
  mkRecord (str "example.org") (replicate 32 Byte.x07) [] (replicate 32 Byte.xab) [replicate 32 Byte.x01; replicate 32 Byte.xff] [].

Lemma ParseTXT_FormatTXT_witness :
  ParseTXT (FormatTXT demo_record) = Ok (set_origin [] (set_version (str "stele/v1") demo_record)).
Proof. apply ParseTXT_FormatTXT; [done|repeat constructor; done]. Defined.

End TrustDns.
