(* ===== verification/Crypto.v ===== *)
(** * Cryptographic primitives

    [crypto/sha256] is written out after FIPS 180-4, so that the hashes of the
    model are the hashes of the program and the repository's test vectors can
    be evaluated.  [crypto/ed25519] and [circl]'s Dilithium mode3 are the
    operations of the class [Crypto]; what the code relies on of them is the
    class [CryptoLaws], which a concrete pair of schemes inhabits
    ([toy_crypto]). *)

From S2P Require Import Prelude.
From stdpp Require Import base numbers list gmap strings.
From Stdlib Require Import ZArith Lia.

#[local] Open Scope Z_scope.

(** ** SHA-256 ([sha256.Sum256]) *)
Module Sha256.

(** Addition modulo [2^32]; the mask is a literal so that it is not computed at
    every step. *)
Definition low32 (x : Z) : Z := Z.land x 0xffffffff.
Definition add (x y : Z) : Z := low32 (x + y).
Definition rotr (n x : Z) : Z :=
  Z.lor (Z.shiftr x n) (low32 (Z.shiftl x (32 - n))).
Definition xor3 (x y z : Z) : Z := Z.lxor x (Z.lxor y z).
Definition bsig0 (x : Z) : Z := xor3 (rotr 2 x) (rotr 13 x) (rotr 22 x).
Definition bsig1 (x : Z) : Z := xor3 (rotr 6 x) (rotr 11 x) (rotr 25 x).
Definition ssig0 (x : Z) : Z := xor3 (rotr 7 x) (rotr 18 x) (Z.shiftr x 3).
Definition ssig1 (x : Z) : Z := xor3 (rotr 17 x) (rotr 19 x) (Z.shiftr x 10).
Definition ch (x y z : Z) : Z := Z.lxor (Z.land x y) (Z.land (Z.lxor x 0xffffffff) z).
Definition maj (x y z : Z) : Z := xor3 (Z.land x y) (Z.land x z) (Z.land y z).

(** Round constants and initial state, as big-endian hexadecimal words. *)
Definition hexval (x : Byte.byte) : Z :=
  Z.of_nat (default 0%nat (fst <$> list_find (eq x) hexdigits)).
Fixpoint unhex (s : bytes) : bytes :=
  match s with
  | h :: l :: s' => byte_of_Z (hexval h * 16 + hexval l) :: unhex s'
  | _ => []
  end.
Fixpoint words (n : nat) (b : bytes) : list Z :=
  match n with
  | O => []
  | S n => be_dec (take 4 b) :: words n (drop 4 b)
  end.

Definition kconst : list Z := Eval vm_compute in words 64 (unhex (str
  "428a2f9871374491b5c0fbcfe9b5dba53956c25b59f111f1923f82a4ab1c5ed5d807aa9812835b01243185be550c7dc372be5d7480deb1fe9bdc06a7c19bf174e49b69c1efbe47860fc19dc6240ca1cc2de92c6f4a7484aa5cb0a9dc76f988da983e5152a831c66db00327c8bf597fc7c6e00bf3d5a7914706ca63511429296727b70a852e1b21384d2c6dfc53380d13650a7354766a0abb81c2c92e92722c85a2bfe8a1a81a664bc24b8b70c76c51a3d192e819d6990624f40e3585106aa07019a4c1161e376c082748774c34b0bcb5391c0cb34ed8aa4a5b9cca4f682e6ff3748f82ee78a5636f84c878148cc7020890befffaa4506cebbef9a3f7c67178f2")).

Record st := St { sa : Z; sb : Z; sc : Z; sd : Z; se : Z; sf : Z; sg : Z; sh : Z }.

Definition init : st :=
  St 0x6a09e667 0xbb67ae85 0x3c6ef372 0xa54ff53a
     0x510e527f 0x9b05688c 0x1f83d9ab 0x5be0cd19.

Definition round (k w : Z) (s : st) : st :=
  let t1 := low32 (sh s + bsig1 (se s) + ch (se s) (sf s) (sg s) + k + w) in
  let t2 := low32 (bsig0 (sa s) + maj (sa s) (sb s) (sc s)) in
  St (add t1 t2) (sa s) (sb s) (sc s) (add (sd s) t1) (se s) (sf s) (sg s).

(** The next word of the message schedule from the window of the last 16. *)
Definition next_word (w : list Z) : Z :=
  low32 (ssig1 (nth 14 w 0) + nth 9 w 0 + ssig0 (nth 1 w 0) + nth 0 w 0).

Fixpoint rounds (ks w : list Z) (s : st) : st :=
  match ks with
  | [] => s
  | k :: ks' => rounds ks' (tail w ++ [next_word w]) (round k (nth 0 w 0) s)
  end.

Definition add_st (x y : st) : st :=
  St (add (sa x) (sa y)) (add (sb x) (sb y)) (add (sc x) (sc y)) (add (sd x) (sd y))
     (add (se x) (se y)) (add (sf x) (sf y)) (add (sg x) (sg y)) (add (sh x) (sh y)).

Definition block (s : st) (b : bytes) : st := add_st s (rounds kconst (words 16 b) s).

Fixpoint blocks (n : nat) (s : st) (b : bytes) : st :=
  match n with
  | O => s
  | S n => blocks n (block s (take 64 b)) (drop 64 b)
  end.

Definition pad (m : bytes) : bytes :=
  m ++ Byte.x80 :: replicate (Z.to_nat ((55 - len m) mod 64)) Byte.x00
    ++ be_enc 8 (8 * len m).

Definition out (s : st) : bytes :=
  be_enc 4 (sa s) ++ be_enc 4 (sb s) ++ be_enc 4 (sc s) ++ be_enc 4 (sd s) ++
  be_enc 4 (se s) ++ be_enc 4 (sf s) ++ be_enc 4 (sg s) ++ be_enc 4 (sh s).

Definition sum256 (m : bytes) : bytes :=
  let p := pad m in out (blocks (length p / 64) init p).

Lemma sum256_length m : length (sum256 m) = 32%nat.
Proof. unfold sum256, out. by rewrite !length_app, !be_enc_length. Qed.

(** The two FIPS 180-4 example messages and the empty string. *)
Example sum256_empty :
  hex (sum256 []) = str "e3b0c44298fc1c149afbf4c8996fb92427ae41e4649b934ca495991b7852b855".
Proof. vm_compute. reflexivity. Qed.
Example sum256_abc :
  hex (sum256 (str "abc")) = str "ba7816bf8f01cfea414140de5dae2223b00361a396177a9cb410ff61f20015ad".
Proof. vm_compute. reflexivity. Qed.
Example sum256_two_blocks :
  hex (sum256 (str "abcdbcdecdefdefgefghfghighijhijkijkljklmklmnlmnomnopnopq"))
  = str "248d6a61d20638b8e5c026930c3e6039a33ce45964ff2167f6ecedd419db06c1".
Proof. vm_compute. reflexivity. Qed.

End Sha256.

Definition sha256 (m : bytes) : bytes := Sha256.sum256 m.

Lemma sha256_length m : length (sha256 m) = 32%nat.
Proof. apply Sha256.sum256_length. Qed.

Arguments sha256 : simpl never.
#[global] Opaque sha256.
#[export] Hint Resolve sha256_length : stele.
#[export] Hint Rewrite sha256_length : stele.

(** A collision located at two given messages. *)
Definition collision (x y : bytes) : Prop := x <> y /\ sha256 x = sha256 y.

Lemma sha256_eq_or_collision x y : sha256 x = sha256 y -> x = y \/ collision x y.
Proof. intros E. destruct (decide (x = y)); [by left|by right]. Qed.

(** ** Signatures *)

Definition PublicKeySize : Z := 32.       (* ed25519.PublicKeySize *)
Definition PrivateKeySize : Z := 64.      (* ed25519.PrivateKeySize *)
Definition SignatureSize : Z := 64.       (* ed25519.SignatureSize *)
Definition d3_PublicKeySize : Z := 1952.  (* mode3.PublicKeySize *)
Definition d3_SignatureSize : Z := 3293.  (* mode3.SignatureSize *)

(** The operations the code calls.  Private keys are their packed bytes. *)
Class Crypto := {
  ed_public : bytes -> bytes;                    (* priv.Public() *)
  ed_sign : bytes -> bytes -> bytes;             (* ed25519.Sign(priv, msg) *)
  ed_verify : bytes -> bytes -> bytes -> bool;   (* ed25519.Verify(pub, msg, sig) *)
  D3Pub : Type;                                  (* *mode3.PublicKey *)
  d3_public : bytes -> bytes;                    (* packed public key of a private key *)
  d3_unmarshal : bytes -> option D3Pub;          (* PublicKey.UnmarshalBinary *)
  d3_sign : bytes -> bytes -> bytes;             (* mode3.SignTo *)
  d3_verify : D3Pub -> bytes -> bytes -> bool;   (* mode3.Verify *)
}.

(** Documented behaviour of the two schemes: sizes, and that what the holder
    of a key signs verifies under its public key. *)
Class CryptoLaws (C : Crypto) : Prop := {
  ed_public_length : forall k, len (ed_public k) = PublicKeySize;
  ed_sign_length : forall k m, len (ed_sign k m) = SignatureSize;
  ed_sign_verify : forall k m, ed_verify (ed_public k) m (ed_sign k m) = true;
  d3_public_length : forall k, len (d3_public k) = d3_PublicKeySize;
  d3_sign_length : forall k m, len (d3_sign k m) = d3_SignatureSize;
  d3_sign_verify : forall k m, exists p,
    d3_unmarshal (d3_public k) = Some p /\ d3_verify p m (d3_sign k m) = true;
}.

(** The check every hybrid site makes once it has both quantum fields: decode
    the public key, then verify. *)
Definition d3_check `{Crypto} (pub msg sig : bytes) (edec ever : string) : res unit :=
  match d3_unmarshal pub with
  | None => Err [edec]
  | Some qp => if negb (d3_verify qp msg sig) then Err [ever] else Ok tt
  end.

Definition d3_good `{Crypto} (pub msg sig : bytes) : Prop :=
  exists p, d3_unmarshal pub = Some p /\ d3_verify p msg sig = true.

Lemma d3_check_ok `{Crypto} pub msg sig e1 e2 :
  d3_check pub msg sig e1 e2 = Ok tt <-> d3_good pub msg sig.
Proof.
  unfold d3_check, d3_good. split.
  - intros E. destruct (d3_unmarshal pub) as [p|]; [|done].
    exists p. split; [done|]. by destruct (d3_verify p msg sig).
  - by intros (p & -> & ->).
Qed.

Lemma d3_check_sign `{Crypto, !CryptoLaws _} k m e1 e2 :
  d3_check (d3_public k) m (d3_sign k m) e1 e2 = Ok tt.
Proof. apply d3_check_ok, d3_sign_verify. Qed.

(** *** A concrete instance

    Deterministic checksums in place of signatures: [CryptoLaws] can hold, and
    the development can be evaluated on concrete inputs. *)
Definition toy_sum (m : bytes) : Z :=
  foldl (fun a b => a + byte_to_Z b + 1) 0 m.
Definition toy_public (k : bytes) : bytes := be_enc 32 (toy_sum k).
Definition toy_tag (pub msg : bytes) : bytes := be_enc 32 (toy_sum (pub ++ msg)).
Definition toy_sig (pub msg : bytes) : bytes := pub ++ toy_tag pub msg.
Definition toy_d3_public (k : bytes) : bytes := toy_public k ++ replicate 1920 Byte.x00.
Definition toy_d3_tag (pub msg : bytes) : bytes := toy_tag pub msg ++ replicate 3261 Byte.x00.

#[export] Instance toy_crypto : Crypto := {|
  ed_public := toy_public;
  ed_sign k m := toy_sig (toy_public k) m;
  ed_verify p m s := bool_decide (s = toy_sig p m);
  D3Pub := bytes;
  d3_public := toy_d3_public;
  d3_unmarshal b := if len b =? d3_PublicKeySize then Some b else None;
  d3_sign k m := toy_d3_tag (toy_d3_public k) m;
  d3_verify p m s := bool_decide (s = toy_d3_tag p m);
|}.

#[export] Instance toy_crypto_laws : CryptoLaws toy_crypto.
Proof.
  assert (forall k, len (toy_d3_public k) = d3_PublicKeySize) as L.
  { intros k. unfold toy_d3_public, toy_public, len.
    by rewrite length_app, be_enc_length, length_replicate. }
  split; intros; cbn [ed_public ed_sign ed_verify d3_public d3_sign d3_unmarshal
    d3_verify toy_crypto].
  - unfold toy_public, len. by rewrite be_enc_length.
  - unfold toy_sig, toy_public, toy_tag, len. by rewrite length_app, !be_enc_length.
  - by apply bool_decide_eq_true.
  - apply L.
  - unfold toy_d3_tag, toy_tag, len. by rewrite length_app, be_enc_length, length_replicate.
  - exists (toy_d3_public k). split; [by rewrite L|by apply bool_decide_eq_true].
Qed.

#[global] Opaque toy_crypto.
