(* ===== verification/Journal.v ===== *)
(** * Hash-chained journals (the part pkg/readlog and pkg/adminlog share)

    Both packages keep a file of JSON events, each signed and chained to its
    predecessor, verified from the start when the journal is opened.  Their
    [openJournal], [replay], key loading and file writes are the same code over
    two event types; [SealedEvent] is what that code uses of an event, and
    [SealedEventLaws] what the two event types promise. *)

From S2P Require Import Prelude Crypto.
From stdpp Require Import base numbers list strings.
From Stdlib Require Import ZArith Lia.

#[local] Open Scope Z_scope.

Class SealedEvent `{Crypto} (E : Type) := {
  ev_index : E -> Z;
  ev_prev : E -> bytes;
  ev_hash : E -> bytes;
  ev_canonical : E -> bytes;
  ev_verify : E -> res unit;
  (** What decoding the event's JSON line gives. *)
  ev_json : E -> E;
}.

Class SealedEventLaws `{Crypto} (E : Type) `{!SealedEvent E} := {
  ev_content : Type;
  ev_fields : E -> ev_content;
  ev_wf : E -> Prop;
  ev_verify_hash e : ev_verify e = Ok tt -> ev_hash e = sha256 (ev_canonical e);
  ev_canonical_inj e1 e2 : ev_wf e1 -> ev_wf e2 ->
    ev_canonical e1 = ev_canonical e2 -> ev_fields e1 = ev_fields e2;
  ev_fields_link e1 e2 : ev_fields e1 = ev_fields e2 ->
    ev_index e1 = ev_index e2 /\ ev_prev e1 = ev_prev e2;
}.

Module Journal.
Section Journal.
Context `{Crypto} {E : Type} `{!SealedEvent E}.

(** *** Files *)

(** A key file: absent (or unreadable), not decodable, or what it encodes. *)
Inductive keyfile := Missing | Corrupt | Contents (raw : bytes).

(** The journal file as the JSON decoder reads it: a value that decodes into an
    event, bytes on which [Decode] fails, or a stray closing bracket, at which
    [dec.More] reports that there is nothing more. *)
Inductive item := Line (e : E) | Junk | Closer.

Record disk := mk_disk { key_file : keyfile; qkey_file : keyfile; log_file : option (list item) }.

Definition items (d : disk) : list item := default [] (log_file d).

Record t := mk {
  dir : disk;
  priv : bytes;
  qPriv : option bytes;  (* nil = classical *)
  size : Z;
  prev : bytes;
}.

(** Fields the code derives from the private keys. *)
Definition pub (j : t) : bytes := ed_public (priv j).
Definition qPub (j : t) : bytes := match qPriv j with Some q => d3_public q | None => [] end.
Definition IsHybrid (j : t) : bool := match qPriv j with Some _ => true | None => false end.

(** *** Opening *)

(** The draws and file writes of a first start, and whether [os.Open] of an
    existing journal works. *)
Record start_io := mk_start {
  gen_key : res bytes; gen_qkey : res bytes; wr_keys : bool * bool; wr_qkeys : bool * bool; readable : bool }.

Definition loadOrCreateKey (io : start_io) (j : t) : t * res unit :=
  match key_file (dir j) with
  | Contents raw =>
      if negb (len raw =? PrivateKeySize) then (j, Err ["bad key length"%string])
      else (mk (dir j) raw (qPriv j) (size j) (prev j), Ok tt)
  | Corrupt => (j, Err ["decode"%string])
  | Missing =>
      match gen_key io with
      | Err e => (j, Err e)
      | Ok k =>
          if negb (wr_keys io).1 then (mk (dir j) k (qPriv j) (size j) (prev j), Err ["write"%string])
          else (mk (mk_disk (Contents k) (qkey_file (dir j)) (log_file (dir j))) k (qPriv j) (size j) (prev j),
                if (wr_keys io).2 then Ok tt else Err ["write"%string])
      end
  end.

Definition loadOrCreateQuantum (hybrid : bool) (io : start_io) (j : t) : t * res unit :=
  match qkey_file (dir j) with
  | Contents raw => (mk (dir j) (priv j) (Some raw) (size j) (prev j), Ok tt)
  | Corrupt => (j, Err ["quantum key"%string])
  | Missing =>
      if negb hybrid then (j, Ok tt)
      else match gen_qkey io with
      | Err e => (j, Err e)
      | Ok q =>
          if negb (wr_qkeys io).1 then (mk (dir j) (priv j) (Some q) (size j) (prev j), Err ["write"%string])
          else (mk (mk_disk (key_file (dir j)) (Contents q) (log_file (dir j))) (priv j) (Some q) (size j) (prev j),
                if (wr_qkeys io).2 then Ok tt else Err ["write"%string])
      end
  end.

(** The checks [replay] makes of one event against the one before it. *)
Definition follows (p : option E) (ev : E) : res unit :=
  match p with
  | None =>
      fail_if negb (allZeros (ev_prev ev)) with "first event PrevHash must be zero" ;;
      fail_if negb (ev_index ev =? 0) with "first event index must be 0" ;;
      Ok tt
  | Some p =>
      fail_if negb (ev_index ev =? wrap64 (ev_index p + 1)) with "index gap" ;;
      fail_if negb (bytesEqual (hex (ev_prev ev)) (hex (ev_hash p))) with "PrevHash does not chain" ;;
      Ok tt
  end.

(** The loop over the decoder: the last event, or the first failure. *)
Fixpoint replay_loop (p : option E) (l : list item) : res (option E) :=
  match l with
  | [] | Closer :: _ => Ok p
  | Junk :: _ => Err ["replay: decode"%string]
  | Line ev :: l' =>
      let! _ := wrap_err "replay" (ev_verify ev) in
      let! _ := wrap_err "replay" (follows p ev) in
      replay_loop (Some ev) l'
  end.

Definition replay (io : start_io) (j : t) : t * res unit :=
  match log_file (dir j) with
  | None => (j, Ok tt)
  | Some l =>
      if negb (readable io) then (j, Err ["open"%string])
      else match replay_loop None l with
      | Err e => (j, Err e)
      | Ok None => (j, Ok tt)
      | Ok (Some p) => (mk (dir j) (priv j) (qPriv j) (wrap64 (ev_index p + 1)) (ev_hash p), Ok tt)
      end
  end.

Definition openJournal (d : disk) (hybrid : bool) (io : start_io) : t * res unit :=
  let j := mk d [] None 0 (replicate 32 Byte.x00) in
  (do! _ <- loadOrCreateKey io;
   do! _ <- loadOrCreateQuantum hybrid io;
   replay io) j.

Definition Open (d : disk) (io : start_io) : t * res unit := openJournal d false io.
Definition OpenHybrid (d : disk) (io : start_io) : t * res unit := openJournal d true io.

(** *** Writing an event *)

(** What a failed [f.Write] left in the file: nothing, some of the line, or the
    whole object without its newline. *)
Inductive torn := Nothing | Fragment | Whole.

(** [wrote = None]: the line was written. *)
Record append_io := mk_aio { opened : bool; wrote : option torn; synced : bool; closed : bool }.

Definition landed (io : append_io) (ev : E) : list item :=
  match wrote io with
  | None | Some Whole => [Line (ev_json ev)]
  | Some Fragment => [Junk]
  | Some Nothing => []
  end.

(** [os.OpenFile], [f.Write], [f.Sync] (and, in the admin log, a checked
    [f.Close]), then the in-memory state. *)
Definition persist (check_close : bool) (io : append_io) (ev : E) (j : t) : t * res unit :=
  if negb (opened io) then (j, Err ["open"%string])
  else
    let d := dir j in
    let j := mk (mk_disk (key_file d) (qkey_file d) (Some (items d ++ landed io ev)))
               (priv j) (qPriv j) (size j) (prev j) in
    match wrote io with
    | Some _ => (j, Err ["write"%string])
    | None =>
        if negb (synced io) then (j, Err ["fsync"%string])
        else if check_close && negb (closed io) then (j, Err ["close"%string])
        else (mk (dir j) (priv j) (qPriv j) (wrap64 (size j + 1)) (ev_hash ev), Ok tt)
    end.

(** The loop of [Range]: skip below [from], stop at [to]. *)
Fixpoint range_loop (from to : Z) (l : list item) : res (list E) :=
  match l with
  | [] | Closer :: _ => Ok []
  | Junk :: _ => Err ["decode"%string]
  | Line ev :: l' =>
      if ev_index ev <? from then range_loop from to l'
      else if to <=? ev_index ev then Ok []
      else let! out := range_loop from to l' in Ok (ev :: out)
  end.

(** *** What [replay] accepts *)

Lemma lines_inj (l1 l2 : list E) : Line <$> l1 = Line <$> l2 -> l1 = l2.
Proof.
  revert l2. induction l1 as [|x l1 IH]; intros [|y l2] L; try done.
  rewrite !fmap_cons in L. injection L as -> L. f_equal. by apply IH.
Qed.


(** Every event verifies and follows the one before it. *)
Fixpoint chain (p : option E) (evs : list E) : Prop :=
  match evs with
  | [] => True
  | ev :: evs' => ev_verify ev = Ok tt /\ follows p ev = Ok tt /\ chain (Some ev) evs'
  end.

Definition last_or (p : option E) (evs : list E) : option E :=
  match last evs with Some e => Some e | None => p end.

Lemma last_or_cons p ev evs : last_or p (ev :: evs) = last_or (Some ev) evs.
Proof.
  unfold last_or. destruct evs as [|x evs]; [done|]. simpl.
  by destruct (last (x :: evs)) eqn:L; [|apply last_None in L].
Qed.

Lemma chain_app p evs evs' : chain p (evs ++ evs') <-> chain p evs /\ chain (last_or p evs) evs'.
Proof.
  revert p. induction evs as [|e evs IH]; intros p; simpl; [naive_solver|].
  rewrite IH, last_or_cons. naive_solver.
Qed.

Lemma chain_snoc evs e :
  chain None (evs ++ [e]) <-> chain None evs /\ ev_verify e = Ok tt /\ follows (last evs) e = Ok tt.
Proof. rewrite chain_app. simpl. unfold last_or. destruct (last evs); naive_solver. Qed.

(** Where the loop over the decoder ends. *)
Definition stops (l : list item) : Prop := l = [] \/ exists l', l = Closer :: l'.

Lemma replay_loop_iff p l q :
  replay_loop p l = Ok q <-> exists evs r, l = (Line <$> evs) ++ r /\ stops r /\ chain p evs /\ q = last_or p evs.
Proof.
  split.
  - revert p. induction l as [|[ev| |] l IH]; intros p R; cbn [replay_loop] in R; [|res_inv R|done|].
    + exists [], []. split_and!; [done|by left|done|cbn; congruence].
    + destruct a, a0. apply IH in R as (evs & r & -> & St & Ch & ->). exists (ev :: evs), r.
      rewrite last_or_cons. cbn [chain]. by rewrite !wrap_err_ok in *.
    + exists [], (Closer :: l). split_and!; [done|right; eauto|done|cbn; congruence].
  - intros (evs & r & -> & St & Ch & ->). revert p Ch.
    induction evs as [|e evs IH]; intros p; [by destruct St as [->|[l' ->]]|]. intros (V & F & Ch).
    rewrite fmap_cons, last_or_cons. cbn [replay_loop app]. rewrite V, F. by apply IH.
Qed.

Lemma stops_lines (evs evs' : list E) r : (Line <$> evs) ++ r = Line <$> evs' -> stops r -> evs = evs'.
Proof.
  intros L [->|[l' ->]]; [rewrite app_nil_r in L; by apply lines_inj|]. exfalso.
  assert (Closer ∈ Line <$> evs') as In by (rewrite <- L; apply elem_of_app; right; apply list_elem_of_here).
  apply list_elem_of_fmap in In as (x & ? & _). done.
Qed.

Lemma follows_iff p ev :
  follows p ev = Ok tt <->
  match p with
  | None => ev_prev ev = replicate (length (ev_prev ev)) Byte.x00 /\ ev_index ev = 0
  | Some p => ev_index ev = wrap64 (ev_index p + 1) /\ ev_prev ev = ev_hash p
  end.
Proof.
  unfold follows. destruct p as [p|].
  - etrans; [eapply guard_iff; [apply eqb_guard|];
      eapply guard_iff; [rewrite negb_false_iff; apply bytesEqual_spec|reflexivity]|].
    split; [intros (? & ?%hex_inj & _); done|intros [? ->]; done].
  - etrans; [eapply guard_iff; [rewrite negb_false_iff; apply allZeros_spec|];
      eapply guard_iff; [apply eqb_guard|reflexivity]|]. naive_solver.
Qed.

Lemma chain_index evs e : chain None (evs ++ [e]) -> ev_index e = wrap64 (len evs).
Proof.
  revert e. induction evs as [|x evs IH] using rev_ind; intros e C.
  - apply chain_snoc in C as (_ & _ & [_ ->]%follows_iff). done.
  - apply chain_snoc in C as (C & _ & F). rewrite last_snoc in F. apply follows_iff in F as [-> _].
    rewrite (IH x C). unfold len, wrap64. rewrite length_app. simpl.
    rewrite Nat2Z.inj_add, Zplus_mod_idemp_l. done.
Qed.

(** *** The invariant *)

Definition head (evs : list E) : bytes :=
  match last evs with Some e => ev_hash e | None => replicate 32 Byte.x00 end.

(** The file holds exactly the chained events, and the memory state is their
    head; the key files hold the keys. *)
Record ok (j : t) (evs : list E) : Prop := {
  ok_log : items (dir j) = Line <$> evs;
  ok_chain : chain None evs;
  ok_size : size j = wrap64 (len evs);
  ok_prev : prev j = head evs;
  ok_key : key_file (dir j) = Contents (priv j) /\ len (priv j) = PrivateKeySize;
  ok_qkey : match qPriv j with Some q => qkey_file (dir j) = Contents q | None => qkey_file (dir j) = Missing end;
}.

(** The event the journal would seal next. *)
Definition next (j : t) (ev : E) : Prop :=
  ev_index ev = size j /\ ev_prev ev = prev j /\ ev_verify ev = Ok tt.

Lemma follows_next j evs ev : ok j evs -> next j ev -> follows (last evs) ev = Ok tt.
Proof.
  intros O (I & P & V). apply follows_iff. rewrite P, I, (ok_size _ _ O), (ok_prev _ _ O). unfold head.
  destruct evs as [|x evs _] using rev_ind; [done|].
  rewrite last_snoc. pose proof (chain_index _ _ (ok_chain _ _ O)) as ->. split; [|done].
  unfold len, wrap64. rewrite length_app, Zplus_mod_idemp_l. f_equal. simpl. lia.
Qed.

(** The journal's state is a function of its file, so a failed write that left
    nothing is as if it had not happened, and a successful one extends it. *)
Lemma persist_ok cc io ev j evs j' r :
  ok j evs -> next j ev -> ev_json ev = ev -> persist cc io ev j = (j', r) ->
  (r = Ok tt -> ok j' (evs ++ [ev])) /\
  (r <> Ok tt -> landed io ev = [] -> ok j' evs).
Proof.
  intros O N J P. pose proof (follows_next _ _ _ O N) as F. destruct N as (I & PR & V). unfold persist in P.
  destruct (opened io); simpl in P; [|injection P as <- <-; split; [done|by intros _ _]].
  unfold landed in *. rewrite J in *. destruct (wrote io) as [w|].
  - injection P as <- <-. split; [done|]. intros _ L. destruct w; try done.
    destruct O. split; try done. cbn. by rewrite app_nil_r.
  - destruct (synced io); simpl in P; [|injection P as <- <-; by split].
    destruct (cc && negb (closed io)); injection P as <- <-; split; try done.
    intros _. destruct O. split; try done; cbn.
    + by rewrite ok_log0, fmap_app.
    + by apply chain_snoc.
    + rewrite ok_size0. unfold len, wrap64. rewrite length_app, Zplus_mod_idemp_l. f_equal. simpl. lia.
    + unfold head. by rewrite last_snoc.
Qed.

(** Opening the directory again gives the same journal. *)
Lemma reopen_same j evs io :
  ok j evs -> readable io = true -> openJournal (dir j) (IsHybrid j) io = (j, Ok tt).
Proof.
  intros O Rd. unfold openJournal, st_bind, loadOrCreateKey. cbn [dir].
  destruct (ok_key _ _ O) as [-> L]. rewrite L, Z.eqb_refl. cbn [negb]. unfold loadOrCreateQuantum. cbn [dir].
  pose proof (ok_qkey _ _ O) as Q. unfold IsHybrid.
  assert (replay io (mk (dir j) (priv j) (qPriv j) 0 (replicate 32 Byte.x00)) = (j, Ok tt)) as R.
  { unfold replay. cbn [dir]. pose proof (ok_log _ _ O) as Li. unfold items in Li.
    pose proof (ok_size _ _ O) as S. pose proof (ok_prev _ _ O) as P.
    destruct (log_file (dir j)) as [l|] eqn:Lf; simpl in Li.
    - rewrite Rd. cbn [negb].
      rewrite (proj2 (replay_loop_iff None l (last evs))).
      + unfold head in P. destruct evs as [|x evs _] using rev_ind.
        * simpl. destruct j; cbn in *. by rewrite S, P.
        * rewrite last_snoc in *. cbn. rewrite (chain_index _ _ (ok_chain _ _ O)).
          unfold len, wrap64 in *. rewrite length_app in S. rewrite Zplus_mod_idemp_l.
          destruct j; cbn in *. rewrite S, P. do 2 f_equal. f_equal. simpl. lia.
      + exists evs, []. rewrite app_nil_r. split_and!; [done|by left|apply O|]. unfold last_or. by destruct (last evs).
    - destruct evs; [|done]. destruct j; cbn in *. by rewrite S, P. }
  destruct (qPriv j) as [q|]; rewrite Q; exact R.
Qed.

(** [ed25519.GenerateKey] draws keys of the documented size. *)
Definition gen_ok (io : start_io) : Prop := forall k, gen_key io = Ok k -> len k = PrivateKeySize.

(** Whatever [openJournal] accepts is a chained file. *)
Lemma key_opened io j j' :
  gen_ok io -> loadOrCreateKey io j = (j', Ok tt) ->
  (key_file (dir j') = Contents (priv j') /\ len (priv j') = PrivateKeySize) /\
  qkey_file (dir j') = qkey_file (dir j) /\ log_file (dir j') = log_file (dir j) /\
  qPriv j' = qPriv j /\ size j' = size j /\ prev j' = prev j.
Proof.
  unfold loadOrCreateKey. intros G L. destruct (key_file (dir j)) eqn:K; [|done|].
  - destruct (gen_key io) as [k|] eqn:Gk; [|done]. destruct (wr_keys io).1; cbn in L; [|done].
    destruct (wr_keys io).2; [|done]. injection L as <-. cbn. split; [split; [done|by apply G]|done].
  - destruct (Z.eqb_spec (len raw) PrivateKeySize) as [Hl|]; cbn in L; [|done].
    injection L as <-. cbn. by rewrite K.
Qed.

Lemma qkey_opened hyb io j j' :
  qPriv j = None -> loadOrCreateQuantum hyb io j = (j', Ok tt) ->
  (match qPriv j' with Some q => qkey_file (dir j') = Contents q | None => qkey_file (dir j') = Missing end) /\
  key_file (dir j') = key_file (dir j) /\ log_file (dir j') = log_file (dir j) /\
  priv j' = priv j /\ size j' = size j /\ prev j' = prev j.
Proof.
  unfold loadOrCreateQuantum. intros N L. destruct (qkey_file (dir j)) eqn:K; [|done|].
  - destruct hyb; cbn in L; [|injection L as <-; rewrite N; done].
    destruct (gen_qkey io) as [k|]; [|done]. destruct (wr_qkeys io).1; cbn in L; [|done].
    destruct (wr_qkeys io).2; [|done]. by injection L as <-.
  - injection L as <-. done.
Qed.

Lemma open_ok d hyb io j evs :
  gen_ok io -> items d = Line <$> evs -> openJournal d hyb io = (j, Ok tt) -> ok j evs.
Proof.
  unfold openJournal, st_bind. intros G I L.
  destruct (loadOrCreateKey io _) as [j1 [[]|]] eqn:L1; [|done]. apply (key_opened _ _ _ G) in L1 as (K1 & Q1 & F1 & N1 & S1 & P1).
  destruct (loadOrCreateQuantum hyb io j1) as [j2 [[]|]] eqn:L2; [|done].
  apply qkey_opened in L2 as (Q2 & K2 & F2 & R2 & S2 & P2); [|done]. cbn in *.
  unfold items in I. rewrite <- F1, <- F2 in I.
  unfold replay in L. destruct (log_file (dir j2)) as [l|] eqn:Lf; cbn in I; cycle 1.
  { injection L as <-. destruct evs; [|done].
    split; try done; cbn; [unfold items; by rewrite Lf|by rewrite S2, S1|by rewrite P2, P1|by rewrite K2, R2]. }
  destruct (readable io); cbn in L; [|done]. destruct (replay_loop None l) as [q|] eqn:R; [|done].
  apply replay_loop_iff in R as (evs' & r & E1 & St & Ch & ->). rewrite I in E1. symmetry in E1.
  pose proof (stops_lines _ _ _ E1 St) as ->. subst l. clear E1 St.
  destruct evs as [|e evs _] using rev_ind; cbn in L.
  - injection L as <-. split; try done; cbn; [unfold items; by rewrite Lf|by rewrite S2, S1|by rewrite P2, P1|by rewrite K2, R2].
  - unfold last_or in L. rewrite last_snoc in L. injection L as <-.
    split; try done; cbn; [unfold items; by rewrite Lf| | |by rewrite K2, R2].
    + rewrite (chain_index _ _ Ch). unfold len, wrap64. rewrite length_app, Zplus_mod_idemp_l. f_equal. simpl. lia.
    + unfold head. by rewrite last_snoc.
Qed.

(** A stray closing bracket ends the file: what follows it is not read. *)
Definition cut (j : t) (evs rest : list E) : t :=
  mk (mk_disk (key_file (dir j)) (qkey_file (dir j)) (Some ((Line <$> evs) ++ Closer :: (Line <$> rest))))
    (priv j) (qPriv j) (wrap64 (len evs)) (head evs).

Lemma opens_cut j all evs rest io :
  ok j all -> chain None evs -> readable io = true ->
  openJournal (dir (cut j evs rest)) (IsHybrid j) io = (cut j evs rest, Ok tt).
Proof.
  intros O Ch Rd. unfold openJournal, st_bind, loadOrCreateKey, cut. cbn [dir key_file].
  destruct (ok_key _ _ O) as [-> L]. rewrite L, Z.eqb_refl. cbn [negb]. unfold loadOrCreateQuantum. cbn [dir qkey_file].
  pose proof (ok_qkey _ _ O) as Q. unfold IsHybrid.
  assert (forall q k, replay io (mk (mk_disk k q (Some ((Line <$> evs) ++ Closer :: (Line <$> rest)))) (priv j) (qPriv j) 0
    (replicate 32 Byte.x00)) =
    (mk (mk_disk k q (Some ((Line <$> evs) ++ Closer :: (Line <$> rest)))) (priv j) (qPriv j) (wrap64 (len evs)) (head evs), Ok tt)) as R.
  { intros q k. unfold replay. cbn [dir log_file]. rewrite Rd. cbn [negb].
    rewrite (proj2 (replay_loop_iff None _ (last evs))); cycle 1.
    { exists evs, (Closer :: (Line <$> rest)). split_and!; [done|right; eauto|done|]. unfold last_or. by destruct (last evs). }
    unfold head. destruct evs as [|x evs _] using rev_ind; [done|]. rewrite last_snoc. cbn [dir priv qPriv].
    rewrite (chain_index _ _ Ch). unfold len, wrap64. rewrite length_app, Zplus_mod_idemp_l. do 3 f_equal. simpl. lia. }
  destruct (qPriv j) as [q|]; rewrite Q; apply R.
Qed.

(** An event appended behind the bracket is on disk and yet never read. *)
Lemma persist_cut cc io ev j evs rest j' :
  ev_json ev = ev -> persist cc io ev (cut j evs rest) = (j', Ok tt) -> dir j' = dir (cut j evs (rest ++ [ev])).
Proof.
  intros J P. unfold persist, landed in P. destruct (opened io); [|done]. destruct (wrote io); [done|].
  destruct (synced io); [|done]. cbn [negb] in P. destruct (cc && _); [done|]. injection P as <-.
  unfold cut. cbn. by rewrite J, fmap_app, <- app_assoc.
Qed.

(** An event that reached the file although its append failed takes the index
    of the next one: the file no longer opens. *)
Lemma duplicate_stuck d hyb io evs ev1 ev2 :
  gen_ok io -> items d = (Line <$> evs) ++ [Line ev1; Line ev2] -> ev_index ev1 = ev_index ev2 ->
  is_u64 (ev_index ev1) -> is_ok (openJournal d hyb io).2 = false.
Proof.
  intros G I X U. destruct (openJournal d hyb io) as [j [[]|]] eqn:O; [|done]. exfalso.
  change [Line ev1; Line ev2] with (Line <$> [ev1; ev2]) in I. rewrite <- fmap_app in I.
  apply (open_ok _ _ _ _ _ G I) in O. replace (evs ++ [ev1; ev2]) with ((evs ++ [ev1]) ++ [ev2]) in O by by rewrite <- app_assoc.
  pose proof (ok_chain _ _ O) as (C & _ & F)%chain_snoc. rewrite last_snoc in F. apply follows_iff in F as [F _].
  rewrite <- X in F. unfold is_u64, wrap64 in *. zmod.
Qed.

(** Nothing ties the events to the journal's own key: another journal's file
    under these keys opens as well. *)
Lemma foreign_opens j1 evs1 j2 evs2 io :
  ok j1 evs1 -> ok j2 evs2 -> readable io = true ->
  openJournal (mk_disk (key_file (dir j1)) (qkey_file (dir j1)) (log_file (dir j2))) (IsHybrid j1) io =
    (mk (mk_disk (key_file (dir j1)) (qkey_file (dir j1)) (log_file (dir j2))) (priv j1) (qPriv j1)
       (size j2) (prev j2), Ok tt).
Proof.
  intros O1 O2 Rd.
  apply (reopen_same (mk (mk_disk (key_file (dir j1)) (qkey_file (dir j1)) (log_file (dir j2))) (priv j1) (qPriv j1)
    (size j2) (prev j2)) evs2 io); [|done]. destruct O1, O2. by split.
Qed.

(** [Range] finds the events by position. *)
Definition numbered (n : Z) (evs : list E) : Prop :=
  forall i e, evs !! i = Some e -> ev_index e = n + Z.of_nat i.

Lemma numbered_cons n e evs : numbered n (e :: evs) -> ev_index e = n /\ numbered (n + 1) evs.
Proof.
  intros N. split; [rewrite (N 0%nat e eq_refl); lia|].
  intros i x Hx. rewrite (N (S i) x Hx). lia.
Qed.

Lemma range_from n from to evs :
  numbered n evs -> from <= n -> range_loop from to (Line <$> evs) = Ok (take (Z.to_nat (to - n)) evs).
Proof.
  revert n. induction evs as [|e evs IH]; intros n N Hn; [by rewrite take_nil|].
  apply numbered_cons in N as [E0 N]. rewrite fmap_cons. cbn [range_loop]. rewrite E0.
  destruct (Z.ltb_spec n from); [lia|]. destruct (Z.leb_spec to n).
  - by replace (Z.to_nat (to - n)) with 0%nat by lia.
  - rewrite (IH (n + 1) N) by lia. replace (Z.to_nat (to - n)) with (S (Z.to_nat (to - (n + 1)))) by lia. done.
Qed.

Lemma range_positions n from to evs :
  numbered n evs -> n <= from ->
  range_loop from to (Line <$> evs) = Ok (take (Z.to_nat (to - from)) (drop (Z.to_nat (from - n)) evs)).
Proof.
  revert n. induction evs as [|e evs IH]; intros n N Hn; [by rewrite drop_nil, take_nil|].
  destruct (decide (n = from)) as [->|Hne].
  - rewrite (range_from from) by (done || lia). by rewrite Z.sub_diag.
  - apply numbered_cons in N as [E0 N]. rewrite fmap_cons. cbn [range_loop]. rewrite E0.
    destruct (Z.ltb_spec n from); [|lia]. rewrite (IH (n + 1) N) by lia.
    replace (Z.to_nat (from - n)) with (S (Z.to_nat (from - (n + 1)))) by lia. done.
Qed.

Lemma chain_numbered evs : chain None evs -> len evs < 2 ^ 64 -> numbered 0 evs.
Proof.
  intros C B i e Hi. pose proof (lookup_lt_Some _ _ _ Hi) as L.
  rewrite <- (take_drop_middle evs i e Hi), cons_middle, app_assoc in C. apply chain_app in C as [C _].
  rewrite (chain_index _ _ C). unfold len, wrap64 in *. rewrite length_take.
  rewrite Z.mod_small; lia.
Qed.

(** *** Tamper evidence *)
Section Binding.
Context `{!SealedEventLaws E}.

Definition journals_collide (c1 c2 : list E) : Prop :=
  exists e1 e2, e1 ∈ c1 /\ e2 ∈ c2 /\ collision (ev_canonical e1) (ev_canonical e2).

Lemma journals_collide_app c1 c2 d1 d2 :
  journals_collide c1 c2 -> journals_collide (c1 ++ d1) (c2 ++ d2).
Proof. intros (e1 & e2 & ? & ? & ?). exists e1, e2. rewrite !elem_of_app. auto. Qed.

(** One step back along two journals. *)
Lemma last_binds c1 c2 e1 e2 :
  chain None (c1 ++ [e1]) -> chain None (c2 ++ [e2]) -> ev_wf e1 -> ev_wf e2 ->
  len c1 < 2 ^ 64 -> len c2 < 2 ^ 64 -> ev_hash e1 = ev_hash e2 ->
  (ev_fields e1 = ev_fields e2 /\ length c1 = length c2 /\ ev_prev e1 = ev_prev e2) \/
  journals_collide (c1 ++ [e1]) (c2 ++ [e2]).
Proof.
  intros C1 C2 W1 W2 B1 B2 HE.
  pose proof (chain_index _ _ C1) as X1. pose proof (chain_index _ _ C2) as X2.
  apply chain_snoc in C1 as (_ & V1%ev_verify_hash & _). apply chain_snoc in C2 as (_ & V2%ev_verify_hash & _).
  rewrite V1, V2 in HE. apply sha256_eq_or_collision in HE as [HE|HE].
  - left. apply ev_canonical_inj in HE; [|done|done]. pose proof (ev_fields_link _ _ HE) as [I P].
    split_and!; [done| |done]. rewrite X1, X2 in I. unfold len, wrap64 in *. rewrite !Z.mod_small in I by lia. lia.
  - right. exists e1, e2. rewrite !elem_of_app, !list_elem_of_singleton. auto.
Qed.

Lemma chain_binds c1 c2 e1 e2 :
  chain None (c1 ++ [e1]) -> chain None (c2 ++ [e2]) ->
  Forall ev_wf (c1 ++ [e1]) -> Forall ev_wf (c2 ++ [e2]) ->
  len c1 < 2 ^ 64 -> len c2 < 2 ^ 64 -> ev_hash e1 = ev_hash e2 ->
  map ev_fields (c1 ++ [e1]) = map ev_fields (c2 ++ [e2]) \/ journals_collide (c1 ++ [e1]) (c2 ++ [e2]).
Proof.
  revert e1 e2 c2. induction c1 as [|x c1 IH] using rev_ind; intros e1 e2 c2 C1 C2 W1 W2 B1 B2 HE;
    apply Forall_app in W1 as [F1 W1]; apply Forall_app in W2 as [F2 W2];
    (destruct (last_binds _ _ e1 e2 C1 C2) as [(Ef & El & Ep)|X];
      [by apply Forall_inv in W1|by apply Forall_inv in W2|done|done|done| |by right]).
  - destruct c2 as [|y c2]; [|done]. left. simpl. by rewrite Ef.
  - destruct c2 as [|y c2 _] using rev_ind; [by rewrite length_app in El; simpl in El; lia|].
    apply chain_snoc in C1 as (C1 & _ & L1). apply chain_snoc in C2 as (C2 & _ & L2).
    rewrite last_snoc in L1, L2. apply follows_iff in L1 as [_ L1], L2 as [_ L2]. rewrite L1, L2 in Ep.
    destruct (IH x y c2 C1 C2 F1 F2) as [Em|X];
      [unfold len in *; rewrite length_app in *; simpl in *; lia..|done| |].
    + left. rewrite map_app, (map_app _ (c2 ++ [y])), Em. simpl. by rewrite Ef.
    + right. by apply journals_collide_app.
Qed.
End Binding.
End Journal.
Arguments item E : clear implicits.
Arguments disk E : clear implicits.
Arguments t E : clear implicits.
End Journal.
