(* ===== verification/ReadLog.v ===== *)
(** * The read log (pkg/readlog)

    The journal of every read the operator's API serves: the event type with
    its canonical bytes, [Verify] and [Append], over the shared journal of
    [Journal]. *)

From S2P Require Import Prelude Utf8 Crypto Journal.
From stdpp Require Import base numbers list strings.
From Stdlib Require Import ZArith Lia.

#[local] Open Scope Z_scope.

Module ReadEvent.
Record t := mk {
  Index : Z;
  TimeNanos : Z;
  PrevHash : bytes;
  EntryIdx : Z;
  LeafHash : bytes;
  Operation : bytes;
  CallerIP : bytes;
  UserAgent : bytes;
  EventHash : bytes;
  Signature : bytes;
  PubKey : bytes;
  QuantumPubKey : bytes;
  QuantumSignature : bytes;
}.

Definition Canonical (e : t) : bytes :=
  put_u64 (Index e) ++
  put_u64 (u64_of_i64 (TimeNanos e)) ++
  put (PrevHash e) ++
  put_u64 (EntryIdx e) ++
  put (LeafHash e) ++
  put (Operation e) ++
  put (CallerIP e) ++
  put (UserAgent e) ++
  put (QuantumPubKey e).

Section Verify.
Context `{Crypto}.

Definition Verify (e : t) : res unit :=
  let canon := Canonical e in
  fail_if negb (bytesEqual (hex (EventHash e)) (hex (sha256 canon))) with "EventHash mismatch" ;;
  fail_if negb (len (PubKey e) =? PublicKeySize) with "bad pubkey length" ;;
  fail_if negb (len (Signature e) =? SignatureSize) with "bad sig length" ;;
  fail_if negb (ed_verify (PubKey e) canon (Signature e)) with "classical signature invalid" ;;
  if (0 <? len (QuantumPubKey e)) || (0 <? len (QuantumSignature e)) then
    fail_if negb (len (QuantumPubKey e) =? d3_PublicKeySize) with "bad quantum pubkey length" ;;
    fail_if negb (len (QuantumSignature e) =? d3_SignatureSize) with "bad quantum sig length" ;;
    d3_check (QuantumPubKey e) canon (QuantumSignature e) "decode quantum pubkey" "quantum signature invalid"
  else Ok tt.

(** The event after [json.Marshal] and [Decode]: the three string fields are
    coerced to UTF-8, numbers and base64 byte fields come back as they were. *)
Definition json (e : t) : t :=
  mk (Index e) (TimeNanos e) (PrevHash e) (EntryIdx e) (LeafHash e) (json_string (Operation e))
     (json_string (CallerIP e)) (json_string (UserAgent e)) (EventHash e) (Signature e) (PubKey e)
     (QuantumPubKey e) (QuantumSignature e).

Definition text_ok (e : t) : Prop :=
  valid_utf8 (Operation e) = true /\ valid_utf8 (CallerIP e) = true /\ valid_utf8 (UserAgent e) = true.

Lemma json_id e : text_ok e -> json e = e.
Proof. intros (O & C & U). unfold json. rewrite !json_string_id by done. by destruct e. Qed.

(** The sealing steps of [Append]: hash and signatures over the canonical bytes
    of the draft, whose quantum public key is already in place. *)
Definition seal (priv : bytes) (qPriv : option bytes) (e : t) : t :=
  let canon := Canonical e in
  mk (Index e) (TimeNanos e) (PrevHash e) (EntryIdx e) (LeafHash e) (Operation e) (CallerIP e) (UserAgent e)
     (sha256 canon) (ed_sign priv canon) (PubKey e) (QuantumPubKey e)
     match qPriv with Some q => d3_sign q canon | None => QuantumSignature e end.

Definition fields (e : t) :=
  (Index e, TimeNanos e, PrevHash e, EntryIdx e, LeafHash e, Operation e, CallerIP e, UserAgent e, QuantumPubKey e).

Definition wf (e : t) : Prop :=
  is_u64 (Index e) /\ is_i64 (TimeNanos e) /\ is_u64 (EntryIdx e) /\
  fits32 (PrevHash e) /\ fits32 (LeafHash e) /\ fits32 (Operation e) /\ fits32 (CallerIP e) /\
  fits32 (UserAgent e) /\ fits32 (QuantumPubKey e).

Lemma Canonical_inj e1 e2 : wf e1 -> wf e2 -> Canonical e1 = Canonical e2 -> fields e1 = fields e2.
Proof.
  intros (?&?&?&?&?&?&?&?&?) (?&?&?&?&?&?&?&?&?) E. unfold Canonical in E.
  apply put_u64_app_inj in E as [? E]; [|done|done].
  apply put_u64_app_inj in E as [?%u64_of_i64_inj E]; auto with stele.
  apply put_inj in E as [? E]; [|done|done].
  apply put_u64_app_inj in E as [? E]; [|done|done].
  do 4 (apply put_inj in E as [? E]; [|done|done]).
  rewrite <- (app_nil_r (put (QuantumPubKey e1))), <- (app_nil_r (put (QuantumPubKey e2))) in E.
  apply put_inj in E as [? _]; [|done|done]. unfold fields. congruence.
Qed.

Lemma Verify_hash e : Verify e = Ok tt -> EventHash e = sha256 (Canonical e).
Proof. unfold Verify. intros V. res_inv V. btauto_props. by apply bytesEqual_spec, hex_inj in E. Qed.

(** A sealed event verifies: under its own key, whole or classical. *)
Lemma seal_verifies `{!CryptoLaws _} priv qPriv e :
  PubKey e = ed_public priv -> QuantumSignature e = [] ->
  QuantumPubKey e = match qPriv with Some q => d3_public q | None => [] end ->
  Verify (seal priv qPriv e) = Ok tt.
Proof.
  intros P QS Q. unfold Verify.
  replace (Canonical (seal priv qPriv e)) with (Canonical e) by done. cbn [seal EventHash PubKey Signature QuantumPubKey QuantumSignature].
  rewrite bytesEqual_refl, P, ed_public_length, ed_sign_length, ed_sign_verify, Q. cbn [negb Z.eqb].
  rewrite !Z.eqb_refl. cbn [negb]. destruct qPriv as [q|].
  - rewrite d3_public_length, d3_sign_length, !Z.eqb_refl. cbn [negb orb Z.ltb]. apply d3_check_sign.
  - by rewrite QS.
Qed.
End Verify.
End ReadEvent.

#[export] Instance read_event `{Crypto} : SealedEvent ReadEvent.t := {|
  ev_index := ReadEvent.Index;
  ev_prev := ReadEvent.PrevHash;
  ev_hash := ReadEvent.EventHash;
  ev_canonical := ReadEvent.Canonical;
  ev_verify := ReadEvent.Verify;
  ev_json := ReadEvent.json;
|}.

#[export] Instance read_event_laws `{Crypto} : SealedEventLaws ReadEvent.t.
Proof.
  refine {| ev_content := _; ev_fields := ReadEvent.fields; ev_wf := ReadEvent.wf |}.
  - apply ReadEvent.Verify_hash.
  - apply ReadEvent.Canonical_inj.
  - unfold ReadEvent.fields. intros e1 e2. cbn. by intros [= -> _ -> _ _ _ _ _ _].
Defined.

Module ReadLog.
Section ReadLog.
Context `{Crypto}.

Abbreviation journal := (Journal.t ReadEvent.t).

(** [now]: the clock; the nil quantum public key of a classical journal is the
    empty field. *)
Definition next_event (now entryIdx : Z) (leafHash op callerIP userAgent : bytes) (j : journal) : ReadEvent.t :=
  ReadEvent.seal (Journal.priv j) (Journal.qPriv j)
    (ReadEvent.mk (Journal.size j) now (Journal.prev j) entryIdx leafHash op callerIP userAgent
       [] [] (Journal.pub j) (Journal.qPub j) []).

Definition Append (now : Z) (io : Journal.append_io) (entryIdx : Z) (leafHash op callerIP userAgent : bytes)
  (j : journal) : journal * res ReadEvent.t :=
  let ev := next_event now entryIdx leafHash op callerIP userAgent j in
  let '(j', r) := Journal.persist false io ev j in
  (j', let! _ := r in Ok ev).

Definition Size (j : journal) : Z := Journal.size j.

Definition Range (readable : bool) (from to : Z) (j : journal) : res (list ReadEvent.t) :=
  fail_if to <=? from with "readlog: to <= from" ;;
  fail_if 10000 <? to - from with "readlog: range too large (max 10000)" ;;
  match Journal.log_file (Journal.dir j) with
  | None => Ok []
  | Some l => if negb readable then Err ["open"%string] else Journal.range_loop from to l
  end.

Lemma next_event_next `{!CryptoLaws _} now i lh op ip ua j :
  Journal.next j (next_event now i lh op ip ua j).
Proof.
  unfold Journal.next. split_and!; [done|done|]. by apply ReadEvent.seal_verifies.
Qed.
End ReadLog.
End ReadLog.

(** ** Properties *)

(** The life of a read log: opened, appended to (an append that fails before
    any byte reaches the file changes nothing), opened again. *)
Inductive read_run `{Crypto} : Journal.t ReadEvent.t -> list ReadEvent.t -> Prop :=
| read_opened d hybrid io j evs :
    Journal.gen_ok io -> Journal.openJournal d hybrid io = (j, Ok tt) ->
    Journal.items d = Journal.Line <$> evs -> read_run j evs
| read_appended now io i lh op ip ua j evs j' ev :
    read_run j evs -> ReadEvent.text_ok ev ->
    ReadLog.Append now io i lh op ip ua j = (j', Ok ev) -> read_run j' (evs ++ [ev])
| read_failed now io i lh op ip ua j evs j' e :
    read_run j evs -> valid_utf8 op = true -> valid_utf8 ip = true -> valid_utf8 ua = true ->
    ReadLog.Append now io i lh op ip ua j = (j', Err e) -> Journal.wrote io = Some Journal.Nothing ->
    read_run j' evs.

Lemma read_run_ok `{Crypto, !CryptoLaws _} j evs : read_run j evs -> Journal.ok j evs.
Proof.
  induction 1 as [d hyb io j evs G O I|now io i lh op ip ua j evs j' ev R IH T A|now io i lh op ip ua j evs j' e R IH T1 T2 T3 A L].
  - by eapply Journal.open_ok.
  - unfold ReadLog.Append in A. destruct (Journal.persist _ _ _ _) as [j1 r] eqn:P.
    destruct r as [[]|]; [|done]. injection A as <- <-.
    by apply (Journal.persist_ok _ _ _ _ _ _ _ IH (ReadLog.next_event_next _ _ _ _ _ _ _) (ReadEvent.json_id _ T)) in P as [P _]; apply P.
  - unfold ReadLog.Append in A. destruct (Journal.persist _ _ _ _) as [j1 r] eqn:P.
    destruct r as [[]|]; [done|]. injection A as <- _.
    apply (Journal.persist_ok _ _ _ _ _ _ _ IH (ReadLog.next_event_next _ _ _ _ _ _ _)) in P as [_ P];
      [|by apply ReadEvent.json_id].
    apply P; [done|]. unfold Journal.landed. by rewrite L.
Qed.

(** A read log can be opened again: after any sequence of opens, appends of
    events whose strings are UTF-8 and writes that fail leaving nothing behind,
    opening the directory succeeds and gives the very same journal, whose
    [Range] returns the appended events by position. *)
Theorem readlog_reopens `{Crypto, !CryptoLaws _} j evs io from to :
  read_run j evs -> Journal.readable io = true -> len evs < 2 ^ 64 ->
  0 <= from < to -> to - from <= 10000 ->
  Journal.openJournal (Journal.dir j) (Journal.IsHybrid j) io = (j, Ok tt) /\
  ReadLog.Size j = len evs /\
  ReadLog.Range true from to j = Ok (take (Z.to_nat (to - from)) (drop (Z.to_nat from) evs)).
Proof.
  intros O%read_run_ok Rd B F1 F2. split_and!; [by apply (Journal.reopen_same _ evs)|..].
  - unfold ReadLog.Size. rewrite (Journal.ok_size _ _ O). apply Z.mod_small. unfold len in *. lia.
  - unfold ReadLog.Range. destruct (Z.leb_spec to from); [lia|]. destruct (Z.ltb_spec 10000 (to - from)); [lia|].
    pose proof (Journal.ok_log _ _ O) as L. unfold Journal.items in L.
    destruct (Journal.log_file (Journal.dir j)) as [l|]; simpl in L.
    + rewrite L. cbn [negb]. rewrite (Journal.range_positions 0); [by rewrite Z.sub_0_r| |lia].
      apply Journal.chain_numbered; [apply O|done].
    + destruct evs; [|done]. by rewrite drop_nil, take_nil.
Qed.

(** The read log is tamper-evident: two files that both open, and whose
    journals have the same head hash, hold the same events - same number, same
    signed fields at every position - unless a collision sits between an event
    of one and an event of the other. *)
Theorem readlog_tamper_evident `{Crypto} d1 d2 hyb1 hyb2 io1 io2 j1 j2 c1 c2 e1 e2 :
  Journal.gen_ok io1 -> Journal.gen_ok io2 ->
  Journal.openJournal d1 hyb1 io1 = (j1, Ok tt) -> Journal.openJournal d2 hyb2 io2 = (j2, Ok tt) ->
  Journal.items d1 = Journal.Line <$> (c1 ++ [e1]) -> Journal.items d2 = Journal.Line <$> (c2 ++ [e2]) ->
  Forall ReadEvent.wf (c1 ++ [e1]) -> Forall ReadEvent.wf (c2 ++ [e2]) ->
  len c1 < 2 ^ 64 -> len c2 < 2 ^ 64 -> Journal.prev j1 = Journal.prev j2 ->
  map ReadEvent.fields (c1 ++ [e1]) = map ReadEvent.fields (c2 ++ [e2]) \/
  Journal.journals_collide (c1 ++ [e1]) (c2 ++ [e2]).
Proof.
  intros G1 G2 O1 O2 I1 I2 W1 W2 B1 B2 P.
  apply (Journal.open_ok _ _ _ _ _ G1 I1) in O1.
  apply (Journal.open_ok _ _ _ _ _ G2 I2) in O2.
  rewrite (Journal.ok_prev _ _ O1), (Journal.ok_prev _ _ O2) in P. unfold Journal.head in P. rewrite !last_snoc in P.
  exact (Journal.chain_binds (SealedEventLaws0 := read_event_laws) c1 c2 e1 e2 (Journal.ok_chain _ _ O1)
    (Journal.ok_chain _ _ O2) W1 W2 B1 B2 P).
Qed.

Lemma json_longer e :
  ~ ReadEvent.text_ok e -> length (ReadEvent.Canonical (ReadEvent.json e)) <> length (ReadEvent.Canonical e).
Proof.
  intros T. unfold ReadEvent.Canonical, put. rewrite !length_app, !put_u64_length, !put_u32_length.
  cbn [ReadEvent.json ReadEvent.Operation ReadEvent.CallerIP ReadEvent.UserAgent ReadEvent.PrevHash ReadEvent.LeafHash
    ReadEvent.QuantumPubKey].
  pose proof (json_string_length (ReadEvent.Operation e)). pose proof (json_string_length (ReadEvent.CallerIP e)).
  pose proof (json_string_length (ReadEvent.UserAgent e)).
  destruct (valid_utf8 (ReadEvent.Operation e)) eqn:E1; [|apply json_string_longer in E1; lia].
  destruct (valid_utf8 (ReadEvent.CallerIP e)) eqn:E2; [|apply json_string_longer in E2; lia].
  destruct (valid_utf8 (ReadEvent.UserAgent e)) eqn:E3; [|apply json_string_longer in E3; lia].
  by destruct T.
Qed.

(** A caller's bytes can stop the next start: [Append] hashes the raw
    strings but stores them as JSON, so one served read whose operation, address
    or User-Agent is not valid UTF-8 is appended without an error and makes
    every later opening of the journal fail (or a collision is at hand). *)
Theorem readlog_invalid_text_stops_restart `{Crypto, !CryptoLaws _} now aio i lh op ip ua j evs j' ev hyb io :
  Journal.ok j evs -> ReadLog.Append now aio i lh op ip ua j = (j', Ok ev) ->
  valid_utf8 op && valid_utf8 ip && valid_utf8 ua = false -> Journal.gen_ok io ->
  is_ok (Journal.openJournal (Journal.dir j') hyb io).2 = false \/
  collision (ReadEvent.Canonical ev) (ReadEvent.Canonical (ReadEvent.json ev)).
Proof.
  intros O A T G. unfold ReadLog.Append in A. destruct (Journal.persist _ _ _ _) as [j1 r] eqn:P.
  destruct r as [[]|]; [|done]. injection A as <- <-.
  set (ev := ReadLog.next_event now i lh op ip ua j) in *.
  assert (Journal.items (Journal.dir j1) = Journal.Line <$> (evs ++ [ReadEvent.json ev])) as I.
  { unfold Journal.persist, Journal.landed in P. destruct (Journal.opened aio); [|done].
    destruct (Journal.wrote aio); [done|]. destruct (Journal.synced aio); [|done].
    injection P as <-. cbn. by rewrite (Journal.ok_log _ _ O), fmap_app. }
  destruct (Journal.openJournal (Journal.dir j1) hyb io) as [j2 [[]|]] eqn:R; [|by left]. right.
  apply (Journal.open_ok _ _ _ _ _ G I) in R.
  pose proof (Journal.ok_chain _ _ R) as (_ & V & _)%Journal.chain_snoc. apply ReadEvent.Verify_hash in V.
  split; [|done]. intros E. apply (f_equal length) in E. symmetry in E. revert E. apply json_longer.
  intros (T1 & T2 & T3). change (valid_utf8 op = true) in T1. change (valid_utf8 ip = true) in T2.
  change (valid_utf8 ua = true) in T3. by rewrite T1, T2, T3 in T.
Qed.

(** One stray bracket silences the journal: with a single closing bracket put
    into the file, the next start succeeds and sees only the events before it,
    and every read recorded from then on is acknowledged, written behind the
    bracket and gone again at the start after - no opening ever fails. *)
Theorem readlog_bracket_hides `{Crypto, !CryptoLaws _} j evs rest io now aio i lh op ip ua j' ev :
  read_run j (evs ++ rest) -> Journal.readable io = true ->
  let jc := Journal.cut j evs rest in
  Journal.openJournal (Journal.dir jc) (Journal.IsHybrid j) io = (jc, Ok tt) /\
  ReadLog.Size jc = wrap64 (len evs) /\
  (ReadLog.Append now aio i lh op ip ua jc = (j', Ok ev) -> ReadEvent.text_ok ev ->
   Journal.openJournal (Journal.dir j') (Journal.IsHybrid j) io = (Journal.cut j evs (rest ++ [ev]), Ok tt)).
Proof.
  intros O%read_run_ok Rd jc. pose proof (Journal.ok_chain _ _ O) as [Ch _]%Journal.chain_app.
  split; [by apply (Journal.opens_cut j (evs ++ rest))|]. split; [done|]. intros A T.
  unfold ReadLog.Append in A. destruct (Journal.persist _ _ _ _) as [j1 r] eqn:P. destruct r as [[]|]; [|done].
  injection A as <- <-. apply Journal.persist_cut in P; [|exact (ReadEvent.json_id _ T)]. rewrite P.
  by apply (Journal.opens_cut j (evs ++ rest)).
Qed.

(** A failed fsync is fatal to the journal: the event is in the file but the
    index is not advanced, so the next successful append reuses it and no later
    opening succeeds. *)
Theorem readlog_unsynced_append_stuck `{Crypto, !CryptoLaws _}
  now1 aio1 i1 lh1 op1 ip1 ua1 now2 aio2 i2 lh2 op2 ip2 ua2 j evs j1 e j2 ev hyb io :
  Journal.ok j evs -> ReadLog.Append now1 aio1 i1 lh1 op1 ip1 ua1 j = (j1, Err e) ->
  Journal.opened aio1 = true -> Journal.wrote aio1 = None ->
  ReadLog.Append now2 aio2 i2 lh2 op2 ip2 ua2 j1 = (j2, Ok ev) -> Journal.gen_ok io ->
  is_ok (Journal.openJournal (Journal.dir j2) hyb io).2 = false.
Proof.
  intros O A1 Op W A2 G. unfold ReadLog.Append in A1, A2.
  set (ev1 := ReadLog.next_event now1 i1 lh1 op1 ip1 ua1 j) in *.
  unfold Journal.persist, Journal.landed in A1. rewrite Op, W in A1. cbn [negb andb] in A1.
  destruct (Journal.synced aio1); [done|]. cbn [negb] in A1. injection A1 as <- _.
  set (ev2 := ReadLog.next_event now2 i2 lh2 op2 ip2 ua2 _) in *.
  unfold Journal.persist, Journal.landed in A2. destruct (Journal.opened aio2); [|done].
  destruct (Journal.wrote aio2); [done|]. destruct (Journal.synced aio2); [|done]. cbn [negb andb] in A2.
  injection A2 as <- _.
  eapply (Journal.duplicate_stuck _ _ _ evs (ReadEvent.json ev1) (ReadEvent.json ev2)); [done| |done|].
  - cbn. by rewrite (Journal.ok_log _ _ O), <- app_assoc.
  - cbn. rewrite (Journal.ok_size _ _ O). apply u64_of_i64_range.
Qed.

(** *** Witnesses *)

Definition fresh_io (k : bytes) : Journal.start_io :=
  Journal.mk_start (Ok k) (Ok (str "q")) (true, true) (true, true) true.
Definition write_fine : Journal.append_io := Journal.mk_aio true None true true.
Definition key_a : bytes := replicate 64 Byte.x01.
Definition key_b : bytes := replicate 64 Byte.x02.
Definition no_journal {E} : Journal.disk E := Journal.mk_disk Journal.Missing Journal.Missing None.

Lemma fresh_gen_ok k : len k = PrivateKeySize -> Journal.gen_ok (fresh_io k).
Proof. by intros L k' [= <-]. Qed.

Definition read0 : Journal.t ReadEvent.t := (Journal.Open no_journal (fresh_io key_a)).1.
Definition read_ev1 : ReadEvent.t := ReadLog.next_event 5 0 (str "leaf") (str "get_entry") (str "::1") (str "curl") read0.
Definition read1 : Journal.t ReadEvent.t :=
  (ReadLog.Append 5 write_fine 0 (str "leaf") (str "get_entry") (str "::1") (str "curl") read0).1.

Lemma read1_run : read_run read1 [read_ev1].
Proof.
  apply (read_appended 5 write_fine 0 (str "leaf") (str "get_entry") (str "::1") (str "curl") read0 []); [|done|done].
  by apply (read_opened no_journal false (fresh_io key_a)); [apply fresh_gen_ok|..].
Qed.

Lemma readlog_reopens_witness :
  Journal.openJournal (Journal.dir read1) false (fresh_io key_b) = (read1, Ok tt) /\
  ReadLog.Size read1 = 1 /\ ReadLog.Range true 0 5 read1 = Ok [read_ev1].
Proof. apply (readlog_reopens read1 [read_ev1] (fresh_io key_b) 0 5 read1_run); done. Defined.

Lemma readlog_tamper_evident_witness :
  map ReadEvent.fields [read_ev1] = map ReadEvent.fields [read_ev1] \/
  Journal.journals_collide [read_ev1] [read_ev1].
Proof.
  assert (Journal.openJournal (Journal.dir read1) false (fresh_io key_b) = (read1, Ok tt)) as O
    by (apply (Journal.reopen_same read1 [read_ev1] (fresh_io key_b)); [apply read_run_ok, read1_run|reflexivity]).
  assert (Journal.items (Journal.dir read1) = Journal.Line <$> ([] ++ [read_ev1])) as I
    by apply (Journal.ok_log _ _ (read_run_ok _ _ read1_run)).
  assert (Journal.gen_ok (fresh_io key_b)) as G by by apply fresh_gen_ok.
  assert (Forall ReadEvent.wf ([] ++ [read_ev1])) as W
    by (constructor; [unfold ReadEvent.wf; split_and!; vm_compute; split; done || done|constructor]).
  exact (readlog_tamper_evident (Journal.dir read1) (Journal.dir read1) false false (fresh_io key_b) (fresh_io key_b)
    read1 read1 [] [] read_ev1 read_ev1 G G O O I I W W eq_refl eq_refl eq_refl).
Defined.

Definition bad_agent : bytes := [Byte.xff].
Definition read_bad : Journal.t ReadEvent.t * res ReadEvent.t :=
  ReadLog.Append 6 write_fine 0 (str "leaf") (str "get_entry") (str "::1") bad_agent read1.

Lemma readlog_invalid_text_stops_restart_witness :
  is_ok read_bad.2 = true /\
  (is_ok (Journal.openJournal (Journal.dir read_bad.1) false (fresh_io key_b)).2 = false \/
   exists ev, collision (ReadEvent.Canonical ev) (ReadEvent.Canonical (ReadEvent.json ev))).
Proof.
  split; [reflexivity|]. destruct (run_ok read_bad ltac:(reflexivity)) as [ev E].
  destruct (readlog_invalid_text_stops_restart 6 write_fine 0 (str "leaf") (str "get_entry") (str "::1") bad_agent
    read1 [read_ev1] read_bad.1 ev false (fresh_io key_b)) as [F|F];
    [apply read_run_ok, read1_run|exact E|reflexivity|by apply fresh_gen_ok|by left|right; by exists ev].
Defined.

Definition write_unsynced : Journal.append_io := Journal.mk_aio true None false true.
Definition read_torn : Journal.t ReadEvent.t :=
  (ReadLog.Append 6 write_unsynced 0 (str "leaf") (str "get_entry") (str "::1") (str "curl") read1).1.
Definition read_after : Journal.t ReadEvent.t * res ReadEvent.t :=
  ReadLog.Append 7 write_fine 0 (str "leaf") (str "get_entry") (str "::1") (str "curl") read_torn.

Lemma readlog_unsynced_append_stuck_witness :
  is_ok (Journal.openJournal (Journal.dir read_after.1) false (fresh_io key_b)).2 = false.
Proof.
  destruct (run_ok read_after ltac:(reflexivity)) as [ev E].
  eapply (readlog_unsynced_append_stuck 6 write_unsynced 0 (str "leaf") (str "get_entry") (str "::1") (str "curl")
    7 write_fine 0 (str "leaf") (str "get_entry") (str "::1") (str "curl") read1 [read_ev1] read_torn _ read_after.1 ev);
    [apply read_run_ok, read1_run|reflexivity|reflexivity|reflexivity|exact E|by apply fresh_gen_ok].
Defined.

Lemma readlog_bracket_hides_witness :
  let jc := Journal.cut read1 [] [read_ev1] in
  Journal.openJournal (Journal.dir jc) false (fresh_io key_b) = (jc, Ok tt) /\ ReadLog.Size jc = 0.
Proof.
  destruct (readlog_bracket_hides read1 [] [read_ev1] (fresh_io key_b) 7 write_fine 0 (str "leaf") (str "get_entry")
    (str "::1") (str "curl") read1 read_ev1 read1_run eq_refl) as (O & S & _). split; [exact O|exact S].
Defined.
