(* ===== verification/AdminLog.v ===== *)
(** * The admin log (pkg/adminlog)

    The journal of the actions that change the rules: rotations, enrolments,
    revocations, witnesses.  The event type with its canonical bytes, [Verify]
    and [Action], over the shared journal of [Journal]. *)

From S2P Require Import Prelude Utf8 Crypto Journal.
From stdpp Require Import base numbers list strings.
From Stdlib Require Import ZArith Lia.

#[local] Open Scope Z_scope.

Module AdminEvent.
Record t := mk {
  Index : Z;
  TimeNanos : Z;
  PrevHash : bytes;
  Action : bytes;
  Subject : bytes;
  Outcome : bytes;
  Err : bytes;
  Details : bytes;
  Actor : bytes;
  CallerIP : bytes;
  UserAgent : bytes;
  EventHash : bytes;
  PubKey : bytes;
  Signature : bytes;
  QuantumPubKey : bytes;
  QuantumSignature : bytes;
}.

Definition Canonical (e : t) : bytes :=
  put_u64 (Index e) ++
  put_u64 (u64_of_i64 (TimeNanos e)) ++
  put (PrevHash e) ++
  put (Action e) ++
  put (Subject e) ++
  put (Outcome e) ++
  put (Err e) ++
  put (Details e) ++
  put (Actor e) ++
  put (CallerIP e) ++
  put (UserAgent e) ++
  put (QuantumPubKey e).

Section Verify.
Context `{Crypto}.

Definition Verify (e : t) : res unit :=
  let canon := Canonical e in
  fail_if negb (bytesEqual (hex (EventHash e)) (hex (sha256 canon))) with "EventHash mismatch" ;;
  fail_if negb (len (PubKey e) =? PublicKeySize) with "bad pubkey length" ;;
  fail_if negb (len (Signature e) =? SignatureSize) with "bad sig length" ;;
  fail_if negb (ed_verify (PubKey e) canon (Signature e)) with "classical signature invalid" ;;
  if (0 <? len (QuantumPubKey e)) || (0 <? len (QuantumSignature e)) then
    fail_if negb (len (QuantumPubKey e) =? d3_PublicKeySize) with "bad quantum pubkey length" ;;
    fail_if negb (len (QuantumSignature e) =? d3_SignatureSize) with "bad quantum sig length" ;;
    d3_check (QuantumPubKey e) canon (QuantumSignature e) "decode quantum pubkey" "quantum signature invalid"
  else Ok tt.

(** The event after [json.Marshal] and [Decode]; [Details] is raw JSON that
    [json.Marshal] produced, which marshalling again leaves as it is. *)
Definition json (e : t) : t :=
  mk (Index e) (TimeNanos e) (PrevHash e) (json_string (Action e)) (json_string (Subject e)) (json_string (Outcome e))
     (json_string (Err e)) (Details e) (json_string (Actor e)) (json_string (CallerIP e)) (json_string (UserAgent e))
     (EventHash e) (PubKey e) (Signature e) (QuantumPubKey e) (QuantumSignature e).

Definition texts (e : t) : list bytes := [Action e; Subject e; Outcome e; Err e; Actor e; CallerIP e; UserAgent e].
Definition text_ok (e : t) : bool := forallb valid_utf8 (texts e).

Lemma admin_json_id e : text_ok e = true -> json e = e.
Proof.
  unfold text_ok, texts, json. cbn [forallb]. rewrite !andb_true_iff. intros (? & ? & ? & ? & ? & ? & ? & _).
  rewrite !json_string_id by done. by destruct e.
Qed.

(** The sealing steps of [Action]. *)
Definition seal (priv : bytes) (qPriv : option bytes) (e : t) : t :=
  let canon := Canonical e in
  mk (Index e) (TimeNanos e) (PrevHash e) (Action e) (Subject e) (Outcome e) (Err e) (Details e) (Actor e)
     (CallerIP e) (UserAgent e) (sha256 canon) (PubKey e) (ed_sign priv canon) (QuantumPubKey e)
     match qPriv with Some q => d3_sign q canon | None => QuantumSignature e end.

Definition fields (e : t) :=
  (Index e, TimeNanos e, PrevHash e, Action e, Subject e, Outcome e, Err e, Details e, Actor e, CallerIP e,
   UserAgent e, QuantumPubKey e).

Definition wf (e : t) : Prop :=
  is_u64 (Index e) /\ is_i64 (TimeNanos e) /\
  fits32 (PrevHash e) /\ fits32 (Action e) /\ fits32 (Subject e) /\ fits32 (Outcome e) /\ fits32 (Err e) /\
  fits32 (Details e) /\ fits32 (Actor e) /\ fits32 (CallerIP e) /\ fits32 (UserAgent e) /\ fits32 (QuantumPubKey e).

Lemma admin_Canonical_inj e1 e2 : wf e1 -> wf e2 -> Canonical e1 = Canonical e2 -> fields e1 = fields e2.
Proof.
  intros (?&?&?&?&?&?&?&?&?&?&?&?) (?&?&?&?&?&?&?&?&?&?&?&?) E. unfold Canonical in E.
  apply put_u64_app_inj in E as [? E]; [|done|done].
  apply put_u64_app_inj in E as [?%u64_of_i64_inj E]; auto with stele.
  do 9 (apply put_inj in E as [? E]; [|done|done]).
  rewrite <- (app_nil_r (put (QuantumPubKey e1))), <- (app_nil_r (put (QuantumPubKey e2))) in E.
  apply put_inj in E as [? _]; [|done|done]. unfold fields. congruence.
Qed.

Lemma admin_Verify_hash e : Verify e = Ok tt -> EventHash e = sha256 (Canonical e).
Proof. unfold Verify. intros V. res_inv V. btauto_props. by apply bytesEqual_spec, hex_inj in E. Qed.

Lemma admin_seal_verifies `{!CryptoLaws _} priv qPriv e :
  PubKey e = ed_public priv -> QuantumSignature e = [] ->
  QuantumPubKey e = match qPriv with Some q => d3_public q | None => [] end ->
  Verify (seal priv qPriv e) = Ok tt.
Proof.
  intros P QS Q. unfold Verify.
  replace (Canonical (seal priv qPriv e)) with (Canonical e) by done.
  cbn [seal EventHash PubKey Signature QuantumPubKey QuantumSignature].
  rewrite bytesEqual_refl, P, ed_public_length, ed_sign_length, ed_sign_verify, Q, !Z.eqb_refl. cbn [negb].
  destruct qPriv as [q|].
  - rewrite d3_public_length, d3_sign_length, !Z.eqb_refl. cbn [negb orb Z.ltb]. apply d3_check_sign.
  - by rewrite QS.
Qed.
End Verify.
End AdminEvent.

#[export] Instance admin_event `{Crypto} : SealedEvent AdminEvent.t := {|
  ev_index := AdminEvent.Index;
  ev_prev := AdminEvent.PrevHash;
  ev_hash := AdminEvent.EventHash;
  ev_canonical := AdminEvent.Canonical;
  ev_verify := AdminEvent.Verify;
  ev_json := AdminEvent.json;
|}.

#[export] Instance admin_event_laws `{Crypto} : SealedEventLaws AdminEvent.t.
Proof.
  refine {| ev_content := _; ev_fields := AdminEvent.fields; ev_wf := AdminEvent.wf |}.
  - apply AdminEvent.admin_Verify_hash.
  - apply AdminEvent.admin_Canonical_inj.
  - unfold AdminEvent.fields. intros e1 e2. cbn. by intros [= -> _ -> _ _ _ _ _ _ _ _ _].
Defined.

Module AdminLog.
Section AdminLog.
Context `{Crypto}.

Abbreviation journal := (Journal.t AdminEvent.t).

(** Opening, over the shared journal code: admin.key, admin-quantum.key and
    admin.log take the place of the read log's files. *)
Definition loadOrCreateKey : Journal.start_io -> journal -> journal * res unit := Journal.loadOrCreateKey.
Definition loadOrCreateQuantum : bool -> Journal.start_io -> journal -> journal * res unit := Journal.loadOrCreateQuantum.
Definition replay : Journal.start_io -> journal -> journal * res unit := Journal.replay.
Definition openJournal : Journal.disk AdminEvent.t -> bool -> Journal.start_io -> journal * res unit := Journal.openJournal.
Definition Open (d : Journal.disk AdminEvent.t) (io : Journal.start_io) : journal * res unit := openJournal d false io.
Definition OpenHybrid (d : Journal.disk AdminEvent.t) (io : Journal.start_io) : journal * res unit := openJournal d true io.

(** What one call of [Action] says. *)
Record action := mk_action {
  a_action : bytes; a_subject : bytes; a_outcome : bytes; a_err : bytes;
  a_actor : bytes; a_ip : bytes; a_ua : bytes }.

Definition next_event (now : Z) (a : action) (raw : bytes) (j : journal) : AdminEvent.t :=
  AdminEvent.seal (Journal.priv j) (Journal.qPriv j)
    (AdminEvent.mk (Journal.size j) now (Journal.prev j) (a_action a) (a_subject a) (a_outcome a) (a_err a) raw
       (a_actor a) (a_ip a) (a_ua a) [] (Journal.pub j) [] (Journal.qPub j) []).

(** [details]: [None] is nil, otherwise what [json.Marshal] gives for it. *)
Definition Action (now : Z) (io : Journal.append_io) (a : action) (details : option (res bytes)) (j : journal) :
  journal * res AdminEvent.t :=
  match details with
  | Some (Err e) => (j, Err ("adminlog: marshal details"%string :: e))
  | _ =>
      let raw := match details with Some (Ok body) => body | _ => [] end in
      let ev := next_event now a raw j in
      let '(j', r) := Journal.persist true io ev j in
      (j', let! _ := r in Ok ev)
  end.

Definition Size (j : journal) : Z := Journal.size j.

Definition Range (readable : bool) (from to : Z) (j : journal) : res (list AdminEvent.t) :=
  let to := if (to =? 0) || (Journal.size j <? to) then Journal.size j else to in
  if to <=? from then Ok []
  else match Journal.log_file (Journal.dir j) with
  | None => Ok []
  | Some l => if negb readable then Err ["open"%string] else wrap_err "adminlog range" (Journal.range_loop from to l)
  end.

Lemma admin_next_event_next `{!CryptoLaws _} now a raw j : Journal.next j (next_event now a raw j).
Proof. unfold Journal.next. split_and!; [done|done|]. by apply AdminEvent.admin_seal_verifies. Qed.

(** A successful [Action] is one event written through. *)
Lemma Action_ok now io a details j j' ev :
  Action now io a details j = (j', Ok ev) ->
  exists raw, ev = next_event now a raw j /\ Journal.persist true io ev j = (j', Ok tt).
Proof.
  unfold Action. intros A. exists match details with Some (Ok body) => body | _ => [] end.
  destruct details as [[body|]|]; [|done|];
    (destruct (Journal.persist _ _ _ _) as [j1 [[]|]] eqn:P; [|done]; injection A as <- <-; by split).
Qed.

(** An [Action] that failed before a byte reached the file left the journal as
    it was, up to an empty file. *)
Lemma Action_nothing `{!CryptoLaws _} now io a details j j' e evs :
  Journal.ok j evs -> Action now io a details j = (j', Err e) -> Journal.wrote io = Some Journal.Nothing ->
  Journal.ok j' evs.
Proof.
  intros O A W. unfold Action in A.
  destruct details as [[body|]|]; [|by injection A as <- _|];
    (unfold Journal.persist, Journal.landed in A; rewrite W in A; destruct (Journal.opened io); cbn in A;
     [|by injection A as <- _]; injection A as <- _; destruct O; split; try done; cbn; by rewrite app_nil_r).
Qed.
End AdminLog.
End AdminLog.

(** ** Properties *)

(** The life of an admin log. *)
Inductive admin_run `{Crypto} : Journal.t AdminEvent.t -> list AdminEvent.t -> Prop :=
| admin_opened d hybrid io j evs :
    Journal.gen_ok io -> AdminLog.openJournal d hybrid io = (j, Ok tt) ->
    Journal.items d = Journal.Line <$> evs -> admin_run j evs
| admin_recorded now io a details j evs j' ev :
    admin_run j evs -> AdminEvent.text_ok ev = true ->
    AdminLog.Action now io a details j = (j', Ok ev) -> admin_run j' (evs ++ [ev])
| admin_failed now io a details j evs j' e :
    admin_run j evs -> AdminLog.Action now io a details j = (j', Err e) ->
    Journal.wrote io = Some Journal.Nothing -> admin_run j' evs.

Lemma admin_run_ok `{Crypto, !CryptoLaws _} j evs : admin_run j evs -> Journal.ok j evs.
Proof.
  induction 1 as [d hyb io j evs G O I|now io a det j evs j' ev R IH T A|now io a det j evs j' e R IH A L].
  - by eapply Journal.open_ok.
  - apply AdminLog.Action_ok in A as (raw & -> & P).
    by apply (Journal.persist_ok _ _ _ _ _ _ _ IH (AdminLog.admin_next_event_next _ _ _ _) (AdminEvent.admin_json_id _ T)) in P
      as [P _]; apply P.
  - by eapply AdminLog.Action_nothing.
Qed.

(** The admin log can be opened again: after any sequence of opens, recorded
    actions with UTF-8 texts and writes that fail leaving nothing behind,
    opening the directory gives the very same journal, and [Range] with
    [to = 0] returns every recorded action from [from] on. *)
Theorem adminlog_reopens `{Crypto, !CryptoLaws _} j evs io from :
  admin_run j evs -> Journal.readable io = true -> len evs < 2 ^ 64 -> 0 <= from ->
  AdminLog.openJournal (Journal.dir j) (Journal.IsHybrid j) io = (j, Ok tt) /\
  AdminLog.Size j = len evs /\
  AdminLog.Range true from 0 j = Ok (drop (Z.to_nat from) evs).
Proof.
  intros O%admin_run_ok Rd B F. split; [by apply (Journal.reopen_same _ evs)|].
  assert (Journal.size j = len evs) as S
    by (rewrite (Journal.ok_size _ _ O); apply Z.mod_small; unfold len in *; lia).
  split; [done|]. unfold AdminLog.Range. rewrite S. cbn [Z.eqb orb].
  destruct (Z.leb_spec (len evs) from) as [L|L].
  - unfold len in L. by rewrite drop_ge by lia.
  - pose proof (Journal.ok_log _ _ O) as Li. unfold Journal.items in Li.
    destruct (Journal.log_file (Journal.dir j)) as [l|]; simpl in Li.
    + rewrite Li. cbn [negb]. rewrite (Journal.range_positions 0); [|by apply Journal.chain_numbered; [apply O|]|lia].
      cbn [wrap_err]. rewrite Z.sub_0_r. f_equal. apply take_ge. rewrite length_drop. unfold len in *. lia.
    + destruct evs; [|done]. by rewrite drop_nil.
Qed.

(** The admin log is tamper-evident: two files that both open, and whose
    journals have the same head hash, record the same actions - same number,
    same signed fields at every position - unless a collision sits between an
    event of one and an event of the other. *)
Theorem adminlog_tamper_evident `{Crypto} d1 d2 hyb1 hyb2 io1 io2 j1 j2 c1 c2 e1 e2 :
  Journal.gen_ok io1 -> Journal.gen_ok io2 ->
  AdminLog.openJournal d1 hyb1 io1 = (j1, Ok tt) -> AdminLog.openJournal d2 hyb2 io2 = (j2, Ok tt) ->
  Journal.items d1 = Journal.Line <$> (c1 ++ [e1]) -> Journal.items d2 = Journal.Line <$> (c2 ++ [e2]) ->
  Forall AdminEvent.wf (c1 ++ [e1]) -> Forall AdminEvent.wf (c2 ++ [e2]) ->
  len c1 < 2 ^ 64 -> len c2 < 2 ^ 64 -> Journal.prev j1 = Journal.prev j2 ->
  map AdminEvent.fields (c1 ++ [e1]) = map AdminEvent.fields (c2 ++ [e2]) \/
  Journal.journals_collide (c1 ++ [e1]) (c2 ++ [e2]).
Proof.
  intros G1 G2 O1 O2 I1 I2 W1 W2 B1 B2 P.
  apply (Journal.open_ok _ _ _ _ _ G1 I1) in O1.
  apply (Journal.open_ok _ _ _ _ _ G2 I2) in O2.
  rewrite (Journal.ok_prev _ _ O1), (Journal.ok_prev _ _ O2) in P. unfold Journal.head in P. rewrite !last_snoc in P.
  exact (Journal.chain_binds (SealedEventLaws0 := admin_event_laws) c1 c2 e1 e2 (Journal.ok_chain _ _ O1)
    (Journal.ok_chain _ _ O2) W1 W2 B1 B2 P).
Qed.

(** Replay does not check whose events it reads: the file of any other admin
    log, written under keys of its own, put in place of this journal's file is
    accepted at the next start, and the journal continues from its head. *)
Theorem adminlog_foreign_file_opens `{Crypto, !CryptoLaws _} j1 evs1 j2 evs2 io :
  admin_run j1 evs1 -> admin_run j2 evs2 -> Journal.readable io = true ->
  let d := Journal.mk_disk (Journal.key_file (Journal.dir j1)) (Journal.qkey_file (Journal.dir j1))
             (Journal.log_file (Journal.dir j2)) in
  exists j, AdminLog.openJournal d (Journal.IsHybrid j1) io = (j, Ok tt) /\
    Journal.pub j = Journal.pub j1 /\ Journal.size j = Journal.size j2 /\ Journal.prev j = Journal.prev j2.
Proof.
  intros R1%admin_run_ok R2%admin_run_ok Rd d.
  eexists. unfold AdminLog.openJournal. by rewrite (Journal.foreign_opens j1 evs1 j2 evs2 io).
Qed.

(** *** Witnesses *)

Definition admin_io (k : bytes) : Journal.start_io :=
  Journal.mk_start (Ok k) (Ok (str "q")) (true, true) (true, true) true.
Definition admin_write : Journal.append_io := Journal.mk_aio true None true true.
Definition admin_key (b : Byte.byte) : bytes := replicate 64 b.
Definition no_admin_log : Journal.disk AdminEvent.t := Journal.mk_disk Journal.Missing Journal.Missing None.
Definition a_rotate : AdminLog.action :=
  AdminLog.mk_action (str "rotate") [] (str "ok") [] (str "alice") (str "::1") (str "curl").

Definition admin0 (b : Byte.byte) : Journal.t AdminEvent.t := (AdminLog.Open no_admin_log (admin_io (admin_key b))).1.
Definition admin_ev (b : Byte.byte) : AdminEvent.t := AdminLog.next_event 5 a_rotate [] (admin0 b).
Definition admin1 (b : Byte.byte) : Journal.t AdminEvent.t := (AdminLog.Action 5 admin_write a_rotate None (admin0 b)).1.

Lemma admin_gen_ok b : Journal.gen_ok (admin_io (admin_key b)).
Proof. by intros k' [= <-]. Qed.

Lemma admin1_run b : admin_run (admin1 b) [admin_ev b].
Proof.
  apply (admin_recorded 5 admin_write a_rotate None (admin0 b) []); [|reflexivity|reflexivity].
  by apply (admin_opened no_admin_log false (admin_io (admin_key b))); [apply admin_gen_ok|..].
Qed.

Lemma adminlog_reopens_witness :
  AdminLog.openJournal (Journal.dir (admin1 Byte.x01)) false (admin_io []) = (admin1 Byte.x01, Ok tt) /\
  AdminLog.Size (admin1 Byte.x01) = 1 /\ AdminLog.Range true 0 0 (admin1 Byte.x01) = Ok [admin_ev Byte.x01].
Proof. apply (adminlog_reopens _ [admin_ev Byte.x01] (admin_io []) 0 (admin1_run Byte.x01)); done. Defined.

Lemma adminlog_tamper_evident_witness :
  map AdminEvent.fields [admin_ev Byte.x01] = map AdminEvent.fields [admin_ev Byte.x01] \/
  Journal.journals_collide [admin_ev Byte.x01] [admin_ev Byte.x01].
Proof.
  pose (j := admin1 Byte.x01). pose (e := admin_ev Byte.x01). pose (io := admin_io (admin_key Byte.x02)).
  assert (AdminLog.openJournal (Journal.dir j) false io = (j, Ok tt)) as O
    by (apply (Journal.reopen_same j [e] io); [apply admin_run_ok, admin1_run|reflexivity]).
  assert (Journal.items (Journal.dir j) = Journal.Line <$> ([] ++ [e])) as I
    by apply (Journal.ok_log _ _ (admin_run_ok _ _ (admin1_run Byte.x01))).
  assert (Forall AdminEvent.wf ([] ++ [e])) as W
    by (constructor; [unfold AdminEvent.wf; split_and!; vm_compute; split; done || done|constructor]).
  exact (adminlog_tamper_evident (Journal.dir j) (Journal.dir j) false false io io j j [] [] e e
    (admin_gen_ok Byte.x02) (admin_gen_ok Byte.x02) O O I I W W eq_refl eq_refl eq_refl).
Defined.

Lemma adminlog_foreign_file_opens_witness :
  exists j, AdminLog.openJournal (Journal.mk_disk (Journal.Contents (admin_key Byte.x01)) Journal.Missing
      (Journal.log_file (Journal.dir (admin1 Byte.x02)))) false (admin_io []) = (j, Ok tt) /\
    Journal.pub j = Journal.pub (admin1 Byte.x01) /\ Journal.size j = 1 /\
    Journal.prev j = AdminEvent.EventHash (admin_ev Byte.x02).
Proof.
  apply (adminlog_foreign_file_opens (admin1 Byte.x01) [admin_ev Byte.x01] (admin1 Byte.x02) [admin_ev Byte.x02]
    (admin_io []) (admin1_run Byte.x01) (admin1_run Byte.x02) eq_refl).
Defined.
