(* ===== verification/Attest.v ===== *)
(** * Producer attestation (pkg/attest)

    [Envelope] is what a producer sends to the operator: its canonical bytes,
    hash and verification, and the two attestors that build one. *)

From S2P Require Import Prelude Crypto.
From stdpp Require Import base numbers list gmap strings.
From Stdlib Require Import ZArith Lia.

#[local] Open Scope Z_scope.

(** ** Attestation types *)
Definition TypeSoftware : bytes := str "software".
Definition TypeKeychain : bytes := str "keychain".
Definition TypeTPM2 : bytes := str "tpm2".
Definition TypeSecureEnclave : bytes := str "secure_enclave".
Definition TypeSGX : bytes := str "sgx".
Definition TypeSEV : bytes := str "sev_snp".

(** ** The envelope *)
Module Envelope.

Record t := mk {
  ProducerID : bytes;
  TimeNanos : Z;
  Source : bytes;
  Data : bytes;
  PublicKey : bytes;
  Type_ : bytes;
  EvidenceHash : bytes;
  Evidence : bytes;
  Signature : bytes;
  QuantumPublicKey : bytes;
  QuantumSignature : bytes;
}.

#[export] Instance eq_dec : EqDecision t.
Proof. solve_decision. Defined.

Definition Canonical (e : t) : bytes :=
  put (ProducerID e) ++
  put_u64 (u64_of_i64 (TimeNanos e)) ++
  put (Source e) ++
  put (Data e) ++
  put (PublicKey e) ++
  put (Type_ e) ++
  put (EvidenceHash e) ++
  put (QuantumPublicKey e).

Definition Hash (e : t) : bytes := sha256 (Canonical e).

(** The fields [Canonical] covers. *)
Definition signed_fields (e : t) :=
  (ProducerID e, TimeNanos e, Source e, Data e, PublicKey e, Type_ e,
   EvidenceHash e, QuantumPublicKey e).

(** Field sizes within the [uint32] prefixes, and an [int64] timestamp. *)
Definition wf (e : t) : Prop :=
  is_i64 (TimeNanos e) /\
  fits32 (ProducerID e) /\ fits32 (Source e) /\ fits32 (Data e) /\
  fits32 (PublicKey e) /\ fits32 (Type_ e) /\ fits32 (EvidenceHash e) /\
  fits32 (QuantumPublicKey e).

Definition set_signature (e : t) (s : bytes) : t :=
  mk (ProducerID e) (TimeNanos e) (Source e) (Data e) (PublicKey e) (Type_ e)
     (EvidenceHash e) (Evidence e) s (QuantumPublicKey e) (QuantumSignature e).
Definition set_quantum_signature (e : t) (s : bytes) : t :=
  mk (ProducerID e) (TimeNanos e) (Source e) (Data e) (PublicKey e) (Type_ e)
     (EvidenceHash e) (Evidence e) (Signature e) (QuantumPublicKey e) s.
(** The envelope a downgrading relay would forward. *)
Definition strip_quantum (e : t) : t :=
  mk (ProducerID e) (TimeNanos e) (Source e) (Data e) (PublicKey e) (Type_ e)
     (EvidenceHash e) (Evidence e) (Signature e) [] [].
Definition set_evidence (e : t) (ty h ev : bytes) : t :=
  mk (ProducerID e) (TimeNanos e) (Source e) (Data e) (PublicKey e) ty
     h ev (Signature e) (QuantumPublicKey e) (QuantumSignature e).

Section Verify.
Context `{Crypto}.

Definition Verify (e : t) : res unit :=
  fail_if negb (len (PublicKey e) =? PublicKeySize)
    with "envelope: bad public key length" ;;
  fail_if negb (len (Signature e) =? SignatureSize)
    with "envelope: bad signature length" ;;
  fail_if (0 <? len (Evidence e)) && negb (bytesEqual (sha256 (Evidence e)) (EvidenceHash e))
    with "envelope: EvidenceHash does not match Evidence" ;;
  let canon := Canonical e in
  fail_if negb (ed_verify (PublicKey e) canon (Signature e))
    with "envelope: invalid producer signature (classical)" ;;
  if (0 <? len (QuantumPublicKey e)) || (0 <? len (QuantumSignature e)) then
    fail_if negb (len (QuantumPublicKey e) =? d3_PublicKeySize)
      with "envelope: bad quantum public key length" ;;
    fail_if negb (len (QuantumSignature e) =? d3_SignatureSize)
      with "envelope: bad quantum signature length" ;;
    d3_check (QuantumPublicKey e) canon (QuantumSignature e)
      "envelope: decode quantum pubkey" "envelope: invalid producer signature (quantum)"
  else Ok tt.

(** What an accepted envelope is. *)
Definition valid (e : t) : Prop :=
  len (PublicKey e) = PublicKeySize /\
  len (Signature e) = SignatureSize /\
  (Evidence e = [] \/ EvidenceHash e = sha256 (Evidence e)) /\
  ed_verify (PublicKey e) (Canonical e) (Signature e) = true /\
  ((QuantumPublicKey e = [] /\ QuantumSignature e = []) \/
   (len (QuantumPublicKey e) = d3_PublicKeySize /\
    len (QuantumSignature e) = d3_SignatureSize /\
    d3_good (QuantumPublicKey e) (Canonical e) (QuantumSignature e))).

Lemma Verify_valid e : Verify e = Ok tt <-> valid e.
Proof.
  unfold Verify, valid. repeat (apply guard_iff; [try apply eqb_guard|]).
  - rewrite andb_false_iff, negb_false_iff, bytesEqual_spec, len_zero. naive_solver.
  - apply negb_false_iff.
  - destruct (0 <? len (QuantumPublicKey e)) eqn:E1; simpl.
    + apply len_pos in E1.
      etrans; [repeat (eapply guard_iff; [apply eqb_guard|]); apply d3_check_ok|].
      naive_solver.
    + apply len_zero in E1. rewrite E1.
      destruct (0 <? len (QuantumSignature e)) eqn:E2.
      * apply len_pos in E2. split; [by intros ?|naive_solver].
      * apply len_zero in E2. naive_solver.
Qed.
(** Neither signature field nor the evidence blob enters the canonical bytes. *)
Lemma Canonical_signed e1 e2 :
  signed_fields e1 = signed_fields e2 -> Canonical e1 = Canonical e2.
Proof. unfold signed_fields, Canonical. by intros [= -> -> -> -> -> -> -> ->]. Qed.
End Verify.

Lemma Canonical_fields e1 e2 :
  wf e1 -> wf e2 -> Canonical e1 = Canonical e2 -> signed_fields e1 = signed_fields e2.
Proof.
  intros (?&?&?&?&?&?&?&?) (?&?&?&?&?&?&?&?) E. unfold Canonical in E.
  apply put_inj in E as [E1 E]; [|done|done].
  apply put_u64_app_inj in E as [E2%u64_of_i64_inj E];
    [|done|done|apply u64_of_i64_range|apply u64_of_i64_range].
  do 5 (apply put_inj in E as [? E]; [|done|done]).
  rewrite <- (app_nil_r (put (QuantumPublicKey e1))),
    <- (app_nil_r (put (QuantumPublicKey e2))) in E.
  apply put_inj in E as [? _]; [|done|done].
  unfold signed_fields. congruence.
Qed.

Lemma Canonical_set_signature e s : Canonical (set_signature e s) = Canonical e.
Proof. done. Qed.

Lemma strip_quantum_wf e : wf e -> wf (strip_quantum e).
Proof. intros (?&?&?&?&?&?&?&?). unfold wf. cbn. by split_and!. Qed.

Lemma Hash_length e : length (Hash e) = 32%nat.
Proof. apply sha256_length. Qed.
End Envelope.
#[export] Existing Instance Envelope.eq_dec.

(** ** Attestors *)

(** JSON string literals of the evidence blobs. *)
Definition jstr (s : bytes) : bytes := [Byte.x22] ++ s ++ [Byte.x22].
Definition jbool (b : bool) : bytes := if b then str "true" else str "false".

Module SoftwareAttestor.
Section Sign.
Context `{Crypto}.

Record t := mk {
  id : bytes;
  priv : bytes;
  pub : bytes;
  qPriv : option bytes;  (* nil = classical-only *)
  qPub : bytes;
}.

(** The constructors draw fresh keys; the keys are arguments. *)
Definition NewSoftwareAttestor (producerID k : bytes) : t :=
  mk producerID k (ed_public k) None [].
Definition NewHybridSoftwareAttestor (producerID k qk : bytes) : t :=
  mk producerID k (ed_public k) (Some qk) (d3_public qk).

Definition evidence : bytes :=
  str "{" ++ jstr (str "attestor") ++ str ":" ++ jstr (str "software") ++ str "}".

Definition Sign (s : t) (now : Z) (source data : bytes) : res Envelope.t :=
  fail_if bool_decide (priv s = []) with "software attestor: no key loaded" ;;
  let env := Envelope.mk (id s) now source data (pub s) TypeSoftware
               (sha256 evidence) evidence [] (qPub s) [] in
  let canon := Envelope.Canonical env in
  let env := Envelope.set_signature env (ed_sign (priv s) canon) in
  Ok (match qPriv s with
      | Some qk => Envelope.set_quantum_signature env (d3_sign qk canon)
      | None => env
      end).

Definition SignChallenge (s : t) (challenge : bytes) : res (bytes * bytes) :=
  fail_if bool_decide (priv s = []) with "software attestor: no key loaded" ;;
  Ok (ed_sign (priv s) challenge,
      match qPriv s with Some qk => d3_sign qk challenge | None => [] end).

(** Key fields as the constructors and the loaders leave them. *)
Definition keys_ok (s : t) : Prop :=
  priv s <> [] /\ pub s = ed_public (priv s) /\
  qPub s = match qPriv s with Some qk => d3_public qk | None => [] end.

Context `{!CryptoLaws _}.

Lemma Sign_valid s now source data :
  keys_ok s -> exists e, Sign s now source data = Ok e /\ Envelope.valid e /\
    Envelope.Source e = source /\ Envelope.Data e = data.
Proof.
  intros (Hk & Hp & Hq). unfold Sign. rewrite bool_decide_eq_false_2 by done.
  eexists; split; [done|]. split; [|by destruct (qPriv s)]. unfold Envelope.valid.
  destruct (qPriv s) as [qk|];
    cbn [Envelope.set_signature Envelope.set_quantum_signature Envelope.PublicKey
      Envelope.Signature Envelope.Evidence Envelope.EvidenceHash
      Envelope.QuantumPublicKey Envelope.QuantumSignature];
    rewrite Hp, Hq;
    (split_and!; [apply ed_public_length|apply ed_sign_length|by right|apply ed_sign_verify|]).
  - right. split_and!; [apply d3_public_length|apply d3_sign_length|apply d3_sign_verify].
  - by left.
Qed.
End Sign.
Arguments t : clear implicits.
End SoftwareAttestor.

Module KeychainAttestor.
Section Sign.
Context `{Crypto}.

Record t := mk { id : bytes; soft : SoftwareAttestor.t; exists_ : bool }.

Definition Type_ (k : t) : bytes := if exists_ k then TypeKeychain else TypeSoftware.

(** [json.Marshal] of the evidence map: keys in sorted order. *)
Definition evidence (k : t) (goos goarch : bytes) : bytes :=
  str "{" ++ jstr (str "arch") ++ str ":" ++ jstr goarch ++
  str "," ++ jstr (str "attestor") ++ str ":" ++ jstr (Type_ k) ++
  str "," ++ jstr (str "keychain") ++ str ":" ++ jbool (exists_ k) ++
  str "," ++ jstr (str "os") ++ str ":" ++ jstr goos ++
  str "," ++ jstr (str "se_backed") ++ str ":" ++ jbool false ++ str "}".

Definition Sign (k : t) (goos goarch : bytes) (now : Z) (source data : bytes)
    : res Envelope.t :=
  let! env := SoftwareAttestor.Sign (soft k) now source data in
  let body := evidence k goos goarch in
  let env := Envelope.set_evidence env (Type_ k) (sha256 body) body in
  Ok (Envelope.set_signature env
        (ed_sign (SoftwareAttestor.priv (soft k)) (Envelope.Canonical env))).

Context `{!CryptoLaws _}.

(** The constructor only ever wraps a classical software attestor. *)
Lemma keychain_Sign_valid s now source data id ex goos goarch :
  SoftwareAttestor.keys_ok s -> SoftwareAttestor.qPriv s = None ->
  exists e, Sign (mk id s ex) goos goarch now source data = Ok e /\ Envelope.valid e /\
    Envelope.Source e = source /\ Envelope.Data e = data.
Proof.
  intros (Hk & Hp & Hq) Hn. unfold Sign, SoftwareAttestor.Sign. cbn [soft].
  rewrite Hn in Hq |- *. rewrite bool_decide_eq_false_2 by done.
  eexists; split; [done|]. split; [|done]. unfold Envelope.valid.
  cbn [Envelope.set_signature Envelope.set_evidence Envelope.PublicKey
      Envelope.Signature Envelope.Evidence Envelope.EvidenceHash
      Envelope.QuantumPublicKey Envelope.QuantumSignature].
  rewrite Hp, Hq.
  split; [apply ed_public_length|].
  split; [apply ed_sign_length|].
  split; [right; reflexivity|].
  split; [|by left].
  rewrite Envelope.Canonical_set_signature. apply ed_sign_verify.
Qed.
End Sign.
Arguments t : clear implicits.
End KeychainAttestor.

(** ** Properties *)

(** The canonical encoding is injective on the fields it covers: two
    well-formed envelopes with the same canonical bytes agree on every signed
    field, so a signature cannot be carried over to another message. *)
Theorem envelope_canonical_injective e1 e2 :
  Envelope.wf e1 -> Envelope.wf e2 ->
  Envelope.Canonical e1 = Envelope.Canonical e2 <->
  Envelope.signed_fields e1 = Envelope.signed_fields e2.
Proof.
  intros W1 W2. split; [by apply Envelope.Canonical_fields|by apply Envelope.Canonical_signed].
Qed.

(** Two envelopes used by the witnesses. *)
Definition env_a : Envelope.t :=
  Envelope.mk (str "svc-1") 1700000000000000000 (str "db") (str "row") (sha256 (str "k"))
    TypeSoftware (sha256 (str "ev")) (str "ev") (str "sig1") [] [].
Definition env_b : Envelope.t :=
  Envelope.mk (str "svc-1") 1700000000000000000 (str "db") (str "row") (sha256 (str "k"))
    TypeSoftware (sha256 (str "ev")) [] (str "sig2") [] [].

Lemma env_a_wf : Envelope.wf env_a.
Proof. unfold Envelope.wf, is_i64, fits32, len. cbn -[Z.pow]. rewrite !sha256_length. by split_and!. Qed.
Lemma env_b_wf : Envelope.wf env_b.
Proof. unfold Envelope.wf, is_i64, fits32, len. cbn -[Z.pow]. rewrite !sha256_length. by split_and!. Qed.

Lemma envelope_canonical_injective_witness :
  Envelope.Canonical env_a = Envelope.Canonical env_b.
Proof.
  apply (envelope_canonical_injective env_a env_b env_a_wf env_b_wf). reflexivity.
Defined.

(** An envelope's hash identifies its signed content: two well-formed
    envelopes with the same hash agree on every signed field, or their
    canonical encodings are an explicit SHA-256 collision. *)
Theorem envelope_hash_binds e1 e2 :
  Envelope.wf e1 -> Envelope.wf e2 -> Envelope.Hash e1 = Envelope.Hash e2 ->
  Envelope.signed_fields e1 = Envelope.signed_fields e2 \/
  collision (Envelope.Canonical e1) (Envelope.Canonical e2).
Proof.
  intros W1 W2 [E|C]%sha256_eq_or_collision; [left|by right].
  by apply Envelope.Canonical_fields.
Qed.

Lemma envelope_hash_binds_witness :
  Envelope.signed_fields env_a = Envelope.signed_fields env_b \/
  collision (Envelope.Canonical env_a) (Envelope.Canonical env_b).
Proof. apply (envelope_hash_binds env_a env_b env_a_wf env_b_wf). reflexivity. Defined.

(** [Envelope.Verify] accepts exactly the valid envelopes: key and
    signature sizes, evidence bound by its hash, the classical signature over
    the canonical bytes, and either no quantum field at all or a quantum
    signature of the right size that verifies. *)
Theorem envelope_verify_correct `{Crypto} e :
  Envelope.Verify e = Ok tt <-> Envelope.valid e.
Proof. apply Envelope.Verify_valid. Qed.

(** No downgrade: when the quantum fields of an accepted hybrid envelope
    are stripped in transit the result is refused, unless the producer's one
    classical signature verifies for two different messages. *)
Theorem envelope_no_downgrade `{Crypto} e :
  Envelope.wf e -> Envelope.Verify e = Ok tt -> Envelope.QuantumPublicKey e <> [] ->
  let m := Envelope.Canonical e in
  let m' := Envelope.Canonical (Envelope.strip_quantum e) in
  is_ok (Envelope.Verify (Envelope.strip_quantum e)) = false \/
  (m <> m' /\ ed_verify (Envelope.PublicKey e) m (Envelope.Signature e) = true /\
   ed_verify (Envelope.PublicKey e) m' (Envelope.Signature e) = true).
Proof.
  intros W V%Envelope.Verify_valid Hq m m'.
  destruct (Envelope.Verify (Envelope.strip_quantum e)) as [[]|] eqn:V'; [right|by left].
  apply Envelope.Verify_valid in V'. split_and!; [|apply V|apply V'].
  intros E. apply Envelope.Canonical_fields in E; [by injection E|done|].
  by apply Envelope.strip_quantum_wf.
Qed.

(** A hybrid producer and one of its envelopes. *)
Definition hybrid_producer : SoftwareAttestor.t :=
  SoftwareAttestor.NewHybridSoftwareAttestor (str "svc-1") (str "seed") (str "qseed").
Definition hybrid_env : Envelope.t :=
  match SoftwareAttestor.Sign hybrid_producer 1700000000000000000 (str "db") (str "row") with
  | Ok e => e
  | Err _ => env_a
  end.

Definition classical_producer : SoftwareAttestor.t :=
  SoftwareAttestor.NewSoftwareAttestor (str "svc-2") (str "seed-2").
Definition plain_env : Envelope.t :=
  match SoftwareAttestor.Sign classical_producer 1700000000000000000 (str "db") (str "row") with
  | Ok e => e
  | Err _ => env_a
  end.

Lemma plain_env_wf : Envelope.wf plain_env.
Proof. unfold Envelope.wf, is_i64, fits32. vm_compute. done. Qed.
Lemma plain_env_ok : Envelope.Verify plain_env = Ok tt.
Proof. vm_compute. reflexivity. Qed.

Lemma hybrid_env_wf : Envelope.wf hybrid_env.
Proof. unfold Envelope.wf, is_i64, fits32. vm_compute. done. Qed.

Lemma envelope_no_downgrade_witness :
  is_ok (Envelope.Verify (Envelope.strip_quantum hybrid_env)) = false \/
  (Envelope.Canonical hybrid_env <> Envelope.Canonical (Envelope.strip_quantum hybrid_env) /\
   ed_verify (Envelope.PublicKey hybrid_env) (Envelope.Canonical hybrid_env)
     (Envelope.Signature hybrid_env) = true /\
   ed_verify (Envelope.PublicKey hybrid_env)
     (Envelope.Canonical (Envelope.strip_quantum hybrid_env)) (Envelope.Signature hybrid_env) = true).
Proof.
  apply (envelope_no_downgrade hybrid_env); [apply hybrid_env_wf|vm_compute; reflexivity|].
  vm_compute. discriminate.
Defined.

(** What a software or keychain producer signs is accepted: for well-formed
    keys [Sign] returns a valid envelope carrying the given source and data,
    whether the key pair is classical or hybrid (the keychain attestor, which
    signs again after rewriting the evidence, is built on a classical one). *)
Theorem attestor_sign_verifies `{C : Crypto, !CryptoLaws C} s now source data :
  SoftwareAttestor.keys_ok s ->
  (exists e, SoftwareAttestor.Sign s now source data = Ok e /\
    Envelope.Verify e = Ok tt /\ Envelope.Source e = source /\ Envelope.Data e = data) /\
  (SoftwareAttestor.qPriv s = None -> forall id ex goos goarch,
    exists e, KeychainAttestor.Sign (KeychainAttestor.mk id s ex) goos goarch now source data = Ok e /\
      Envelope.Verify e = Ok tt /\ Envelope.Source e = source /\ Envelope.Data e = data).
Proof.
  intros K. destruct (SoftwareAttestor.Sign_valid s now source data K) as (e & E & V & Hs & Hd).
  split.
  - exists e. by rewrite Envelope.Verify_valid.
  - intros Hq id ex goos goarch. setoid_rewrite Envelope.Verify_valid.
    by apply KeychainAttestor.keychain_Sign_valid.
Qed.

Lemma attestor_sign_verifies_witness :
  exists e, SoftwareAttestor.Sign hybrid_producer 5 (str "db") (str "row") = Ok e /\
    Envelope.Verify e = Ok tt /\ Envelope.Source e = str "db" /\ Envelope.Data e = str "row".
Proof.
  apply (attestor_sign_verifies hybrid_producer 5 (str "db") (str "row")).
  split; [discriminate|split; reflexivity].
Defined.

(** The hash does not cover the evidence blob: stripping [Evidence] from an
    accepted envelope leaves [Hash] unchanged, and the envelope without its
    evidence is still accepted. *)
Theorem envelope_evidence_detachable `{Crypto} e :
  Envelope.Verify e = Ok tt ->
  let e' := Envelope.set_evidence e (Envelope.Type_ e) (Envelope.EvidenceHash e) [] in
  Envelope.Verify e' = Ok tt /\ Envelope.Hash e' = Envelope.Hash e.
Proof.
  intros V%Envelope.Verify_valid e'. split; [|done]. apply Envelope.Verify_valid.
  destruct V as (?&?&?&?&?). split; [done|]. split; [done|]. split; [by left|done].
Qed.

Lemma envelope_evidence_detachable_witness :
  Envelope.Hash (Envelope.set_evidence hybrid_env (Envelope.Type_ hybrid_env)
    (Envelope.EvidenceHash hybrid_env) []) = Envelope.Hash hybrid_env.
Proof. apply (envelope_evidence_detachable hybrid_env). vm_compute. reflexivity. Defined.
