(* ===== verification/Rfc6962.v ===== *)
(** * RFC 6962 Merkle trees, and the merkle library's interface

    [pkg/merkle] wraps [github.com/transparency-dev/merkle], which is not part
    of the repository.  Its hasher interface ([LogHasher]), its compact range
    ([CompactRange]) and its proof package ([ProofLib]) are classes here; their
    laws are the RFC 6962 definitions below, which that library documents as
    its contract: the tree hash [MTH], the audit path [PATH], the consistency
    proof [SUBPROOF], and the verifiers that recompute roots from them. *)

From S2P Require Import Prelude Crypto.
From stdpp Require Import base numbers list gmap strings.
From Stdlib Require Import ZArith Lia.

(** ** The hasher ([tdmerkle.LogHasher]) *)
Class LogHasher := {
  EmptyRoot : bytes;
  HashLeaf : bytes -> bytes;
  HashChildren : bytes -> bytes -> bytes;
}.

(** [rfc6962.DefaultHasher]: SHA-256 with the RFC's domain separation. *)
#[export] Instance rfc6962_hasher : LogHasher := {|
  EmptyRoot := sha256 [];
  HashLeaf d := sha256 (Byte.x00 :: d);
  HashChildren l r := sha256 (Byte.x01 :: l ++ r);
|}.

(** ** Tree hash, proofs and verifiers over leaf hashes *)

(** The largest power of two below [n], for [2 <= n]. *)
Definition ksplit (n : nat) : nat := 2 ^ Nat.log2 (n - 1).

Lemma ksplit_spec n : 2 <= n -> 1 <= ksplit n /\ ksplit n < n /\ n <= 2 * ksplit n.
Proof.
  intros Hn. unfold ksplit.
  destruct (Nat.log2_spec (n - 1) ltac:(lia)) as [H1 H2].
  rewrite Nat.pow_succ_r' in H2. pose proof (Nat.pow_nonzero 2 (Nat.log2 (n - 1))). lia.
Qed.

(** [ksplit n] is the only power of two with these bounds. *)
Lemma ksplit_unique n j : 2 ^ j < n -> n <= 2 * 2 ^ j -> ksplit n = 2 ^ j.
Proof.
  intros H1 H2. unfold ksplit. f_equal. pose proof (Nat.pow_nonzero 2 j).
  apply Nat.log2_unique; [lia|]. rewrite Nat.pow_succ_r'. lia.
Qed.

Section Tree.
Context `{LogHasher}.

Fixpoint mth_aux (fuel : nat) (l : list bytes) : bytes :=
  match fuel with
  | O => EmptyRoot
  | S f =>
      match l with
      | [] => EmptyRoot
      | [x] => x
      | _ => let k := ksplit (length l) in
             HashChildren (mth_aux f (take k l)) (mth_aux f (drop k l))
      end
  end.

(** The Merkle tree hash of a list of leaf hashes. *)
Definition MTH (l : list bytes) : bytes := mth_aux (length l) l.

Lemma mth_aux_S f l :
  2 <= length l ->
  mth_aux (S f) l = HashChildren (mth_aux f (take (ksplit (length l)) l))
                                 (mth_aux f (drop (ksplit (length l)) l)).
Proof. destruct l as [|x [|y l]]; simpl; lia || done. Qed.

Lemma mth_aux_fuel f l : length l <= f -> mth_aux f l = MTH l.
Proof.
  unfold MTH. remember (length l) as n eqn:Hn. revert f l Hn.
  induction (lt_wf n) as [n _ IH]; intros f l Hn Hf.
  destruct l as [|x [|y l]]; [by subst; destruct f|by subst; destruct f; simpl in *; [lia|]|].
  destruct n as [|n]; [done|]. destruct f as [|f]; [simpl in *; lia|].
  rewrite !mth_aux_S by (simpl; lia). set (l' := x :: y :: l) in *.
  destruct (ksplit_spec (length l')) as (K1 & K2 & K3); [simpl; lia|].
  assert (length (take (ksplit (length l')) l') = ksplit (length l')) as L1
    by (rewrite length_take; lia).
  assert (length (drop (ksplit (length l')) l') = length l' - ksplit (length l')) as L2
    by (rewrite length_drop; lia).
  f_equal.
  - rewrite (IH (ksplit (length l')) ltac:(lia) f) by lia.
    by rewrite (IH (ksplit (length l')) ltac:(lia) n) by lia.
  - rewrite (IH (length l' - ksplit (length l')) ltac:(lia) f) by lia.
    by rewrite (IH (length l' - ksplit (length l')) ltac:(lia) n) by lia.
Qed.

Lemma MTH_nil : MTH [] = EmptyRoot.
Proof. done. Qed.
Lemma MTH_one x : MTH [x] = x.
Proof. done. Qed.
Lemma MTH_split l :
  2 <= length l ->
  MTH l = HashChildren (MTH (take (ksplit (length l)) l)) (MTH (drop (ksplit (length l)) l)).
Proof.
  intros Hl. destruct (ksplit_spec (length l) Hl) as (K1 & K2 & K3).
  rewrite <- (mth_aux_fuel (S (length l)) l) by lia. rewrite mth_aux_S by done.
  f_equal; apply mth_aux_fuel; rewrite ?length_take, ?length_drop; lia.
Qed.

(** The split at any point that is a power of two in range is the RFC split. *)
Lemma MTH_app a b j :
  length a = 2 ^ j -> 0 < length b <= 2 ^ j ->
  MTH (a ++ b) = HashChildren (MTH a) (MTH b).
Proof.
  intros Ha Hb. pose proof (Nat.pow_nonzero 2 j).
  rewrite MTH_split by (rewrite length_app; lia).
  rewrite length_app, (ksplit_unique _ j) by lia.
  by rewrite take_app_length', drop_app_length' by lia.
Qed.

(** The audit path of leaf [i] (RFC 6962, 2.1.1), leaf side first. *)
Fixpoint path_aux (fuel i : nat) (l : list bytes) : list bytes :=
  match fuel with
  | O => []
  | S f =>
      let n := length l in
      if decide (n <= 1) then []
      else
        let k := ksplit n in
        if decide (i < k) then path_aux f i (take k l) ++ [MTH (drop k l)]
        else path_aux f (i - k) (drop k l) ++ [MTH (take k l)]
  end.
Definition PATH (i : nat) (l : list bytes) : list bytes := path_aux (length l) i l.

(** The root an inclusion proof leads to; the proof is read from the root. *)
Fixpoint inclusion_root (fuel i n : nat) (h : bytes) (rp : list bytes) : option bytes :=
  match fuel with
  | O => None
  | S f =>
      if decide (n <= 1) then match rp with [] => Some h | _ => None end
      else
        let k := ksplit n in
        match rp with
        | [] => None
        | s :: rp' =>
            if decide (i < k)
            then r ← inclusion_root f i k h rp'; Some (HashChildren r s)
            else r ← inclusion_root f (i - k) (n - k) h rp'; Some (HashChildren s r)
        end
  end.
Definition RootFromInclusion (i n : nat) (h : bytes) (p : list bytes) : option bytes :=
  if decide (i < n) then inclusion_root n i n h (rev p) else None.

(** The consistency proof between the first [m] leaves and all (RFC 6962,
    2.1.2); [b] says whether the old root is known to the verifier. *)
Fixpoint subproof (fuel m : nat) (l : list bytes) (b : bool) : list bytes :=
  match fuel with
  | O => []
  | S f =>
      let n := length l in
      if decide (n <= m) then (if b then [] else [MTH l])
      else
        let k := ksplit n in
        if decide (m <= k) then subproof f m (take k l) b ++ [MTH (drop k l)]
        else subproof f (m - k) (drop k l) false ++ [MTH (take k l)]
  end.
Definition PROOF (m : nat) (l : list bytes) : list bytes := subproof (length l) m l true.

(** Both roots a consistency proof leads to, from the claimed old root. *)
Fixpoint consistency_roots (fuel m n : nat) (b : bool) (old : bytes) (rp : list bytes)
    : option (bytes * bytes) :=
  match fuel with
  | O => None
  | S f =>
      if decide (n <= m) then
        match b, rp with
        | true, [] => Some (old, old)
        | false, [h] => Some (h, h)
        | _, _ => None
        end
      else
        let k := ksplit n in
        match rp with
        | [] => None
        | s :: rp' =>
            if decide (m <= k)
            then '(o, w) ← consistency_roots f m k b old rp'; Some (o, HashChildren w s)
            else '(o, w) ← consistency_roots f (m - k) (n - k) false old rp';
                 Some (HashChildren s o, HashChildren s w)
        end
  end.
Definition RootsFromConsistency (m n : nat) (old : bytes) (p : list bytes)
    : option (bytes * bytes) :=
  if decide (1 <= m <= n) then consistency_roots n m n true old (rev p) else None.

(** *** Where a collision would have to be

    The pairs of child hashes that the tree hash of [l], or a verifier, feeds
    to [HashChildren]. *)
Fixpoint tree_pairs (fuel : nat) (l : list bytes) : list (bytes * bytes) :=
  match fuel with
  | O => []
  | S f =>
      let n := length l in
      if decide (n <= 1) then []
      else
        let k := ksplit n in
        (MTH (take k l), MTH (drop k l)) ::
          tree_pairs f (take k l) ++ tree_pairs f (drop k l)
  end.

Fixpoint inclusion_pairs (fuel i n : nat) (h : bytes) (rp : list bytes) : list (bytes * bytes) :=
  match fuel with
  | O => []
  | S f =>
      if decide (n <= 1) then []
      else
        let k := ksplit n in
        match rp with
        | [] => []
        | s :: rp' =>
            if decide (i < k)
            then match inclusion_root f i k h rp' with
                 | Some r => (r, s) :: inclusion_pairs f i k h rp'
                 | None => []
                 end
            else match inclusion_root f (i - k) (n - k) h rp' with
                 | Some r => (s, r) :: inclusion_pairs f (i - k) (n - k) h rp'
                 | None => []
                 end
        end
  end.

Definition hc (p : bytes * bytes) : bytes := HashChildren (fst p) (snd p).

(** Two different pairs, one from each list, with the same hash. *)
Definition collides (ps qs : list (bytes * bytes)) : Prop :=
  exists p q, p ∈ ps /\ q ∈ qs /\ p <> q /\ hc p = hc q.

Lemma hc_inj_or (a b c d : bytes) ps qs :
  HashChildren a b = HashChildren c d ->
  (a, b) ∈ ps -> (c, d) ∈ qs -> (a = c /\ b = d) \/ collides ps qs.
Proof.
  intros E Hp Hq. destruct (decide ((a, b) = (c, d))) as [[= -> ->]|N]; [by left|].
  right. by exists (a, b), (c, d).
Qed.

Lemma collides_mono ps qs ps' qs' :
  collides ps qs -> ps ⊆ ps' -> qs ⊆ qs' -> collides ps' qs'.
Proof. intros (p & q & Hp & Hq & N & E) S1 S2. exists p, q. set_solver. Qed.

(** *** Audit paths lead to the root, and to no other leaf *)

Lemma inclusion_root_path f g i l h :
  length l <= f -> length l <= g -> l !! i = Some h ->
  inclusion_root f i (length l) h (rev (path_aux g i l)) = Some (MTH l).
Proof.
  remember (length l) as n eqn:Hn. revert f g i l Hn.
  induction (lt_wf n) as [n _ IH]; intros f g i l Hn Hf Hg Hi.
  assert (i < n) by (subst; by eapply lookup_lt_Some).
  destruct f as [|f]; [lia|]. destruct g as [|g]; [lia|].
  cbn [inclusion_root path_aux]. rewrite <- Hn.
  destruct (decide (n <= 1)).
  { destruct l as [|x [|y l]]; simpl in *; try lia. destruct i; [by injection Hi as ->|lia]. }
  destruct (ksplit_spec n ltac:(lia)) as (K1 & K2 & K3). set (k := ksplit n) in *.
  destruct (decide (i < k)); rewrite rev_app_distr; simpl.
  - rewrite (IH k) by (rewrite ?length_take, ?lookup_take_lt; lia || done). simpl.
    rewrite (MTH_split l), <- Hn by lia. done.
  - rewrite (IH (n - k)); try lia.
    + simpl. rewrite (MTH_split l), <- Hn by lia. done.
    + rewrite length_drop. lia.
    + rewrite lookup_drop. by replace (k + (i - k)) with i by lia.
Qed.

Lemma inclusion_root_sound f g i l h rp :
  i < length l -> length l <= f -> length l <= g ->
  inclusion_root f i (length l) h rp = Some (MTH l) ->
  l !! i = Some h \/ collides (inclusion_pairs f i (length l) h rp) (tree_pairs g l).
Proof.
  remember (length l) as n eqn:Hn. revert f g i l rp Hn.
  induction (lt_wf n) as [n _ IH]; intros f g i l rp Hn Hi Hf Hg E.
  destruct f as [|f]; [lia|]. destruct g as [|g]; [lia|].
  cbn [inclusion_root inclusion_pairs tree_pairs] in *. rewrite <- Hn.
  destruct (decide (n <= 1)).
  { destruct l as [|x [|y l]]; simpl in *; try lia. destruct rp; [|done].
    injection E as ->. destruct i; [by left|lia]. }
  destruct (ksplit_spec n ltac:(lia)) as (K1 & K2 & K3). set (k := ksplit n) in *.
  destruct rp as [|s rp]; [done|].
  rewrite (MTH_split l), <- Hn in E by lia. fold k in E.
  destruct (decide (i < k)).
  - destruct (inclusion_root f i k h rp) as [r|] eqn:R; [|done]. injection E as E.
    destruct (hc_inj_or _ _ _ _ ((r, s) :: inclusion_pairs f i k h rp)
      ((MTH (take k l), MTH (drop k l)) :: tree_pairs g (take k l) ++ tree_pairs g (drop k l)) E)
      as [[-> ->]|C]; [set_solver|set_solver| |by right].
    destruct (IH k ltac:(lia) f g i (take k l) rp) as [L|C]; try lia; try done.
    + rewrite length_take. lia.
    + left. by rewrite lookup_take_lt in L by lia.
    + right. eapply collides_mono; [exact C|set_solver|set_solver].
  - destruct (inclusion_root f (i - k) (n - k) h rp) as [r|] eqn:R; [|done]. injection E as E.
    destruct (hc_inj_or _ _ _ _ ((s, r) :: inclusion_pairs f (i - k) (n - k) h rp)
      ((MTH (take k l), MTH (drop k l)) :: tree_pairs g (take k l) ++ tree_pairs g (drop k l)) E)
      as [[-> ->]|C]; [set_solver|set_solver| |by right].
    destruct (IH (n - k) ltac:(lia) f g (i - k) (drop k l) rp) as [L|C]; try lia; try done.
    + rewrite length_drop. lia.
    + left. rewrite lookup_drop in L. by replace (k + (i - k)) with i in L by lia.
    + right. eapply collides_mono; [exact C|set_solver|set_solver].
Qed.

(** The root determines the leaves. *)
Lemma MTH_inj f g l1 l2 :
  length l1 = length l2 -> length l1 <= f -> length l1 <= g -> MTH l1 = MTH l2 ->
  l1 = l2 \/ collides (tree_pairs f l1) (tree_pairs g l2).
Proof.
  remember (length l1) as n eqn:Hn. revert f g l1 l2 Hn.
  induction (lt_wf n) as [n _ IH]; intros f g l1 l2 Hn1 Hn2 Hf Hg E.
  destruct (decide (n <= 1)) as [Hle|Hgt].
  { left. destruct l1 as [|x [|y l1]], l2 as [|x' [|y' l2]]; simpl in *; try lia; [done|].
    by rewrite !MTH_one in E; subst. }
  destruct f as [|f]; [lia|]. destruct g as [|g]; [lia|].
  cbn [tree_pairs]. rewrite <- Hn1, <- Hn2, !decide_False by done.
  destruct (ksplit_spec n ltac:(lia)) as (K1 & K2 & K3).
  rewrite (MTH_split l1), (MTH_split l2), <- Hn1, <- Hn2 in E by lia. set (k := ksplit n) in *.
  destruct (hc_inj_or _ _ _ _
    ((MTH (take k l1), MTH (drop k l1)) :: tree_pairs f (take k l1) ++ tree_pairs f (drop k l1))
    ((MTH (take k l2), MTH (drop k l2)) :: tree_pairs g (take k l2) ++ tree_pairs g (drop k l2)) E)
    as [[E1 E2]|C]; [set_solver|set_solver| |by right].
  destruct (IH k ltac:(lia) f g (take k l1) (take k l2)) as [L1|C];
    rewrite ?length_take; try lia; try done;
    [|right; eapply collides_mono; [exact C|set_solver|set_solver]].
  destruct (IH (n - k) ltac:(lia) f g (drop k l1) (drop k l2)) as [L2|C];
    rewrite ?length_drop; try lia; try done;
    [|right; eapply collides_mono; [exact C|set_solver|set_solver]].
  left. by rewrite <- (take_drop k l1), <- (take_drop k l2), L1, L2.
Qed.

(** *** Consistency proofs *)

Fixpoint consistency_pairs (fuel m n : nat) (b : bool) (old : bytes) (rp : list bytes)
    : list (bytes * bytes) :=
  match fuel with
  | O => []
  | S f =>
      if decide (n <= m) then []
      else
        let k := ksplit n in
        match rp with
        | [] => []
        | s :: rp' =>
            if decide (m <= k)
            then match consistency_roots f m k b old rp' with
                 | Some (o, w) => (w, s) :: consistency_pairs f m k b old rp'
                 | None => []
                 end
            else match consistency_roots f (m - k) (n - k) false old rp' with
                 | Some (o, w) => (s, w) :: consistency_pairs f (m - k) (n - k) false old rp'
                 | None => []
                 end
        end
  end.

(** The pairs the verifier hashes on its way to the old root. *)
Fixpoint old_pairs (fuel m n : nat) (b : bool) (old : bytes) (rp : list bytes) : list (bytes * bytes) :=
  match fuel with
  | O => []
  | S f =>
      if decide (n <= m) then []
      else
        let k := ksplit n in
        match rp with
        | [] => []
        | s :: rp' =>
            if decide (m <= k) then old_pairs f m k b old rp'
            else match consistency_roots f (m - k) (n - k) false old rp' with
                 | Some (o, w) => (s, o) :: old_pairs f (m - k) (n - k) false old rp'
                 | None => []
                 end
        end
  end.

(** The root of a prefix that ends right of the split. *)
Lemma MTH_take_right m l :
  let k := ksplit (length l) in
  2 <= length l -> k < m <= length l ->
  MTH (take m l) = HashChildren (MTH (take k l)) (MTH (take (m - k) (drop k l))).
Proof.
  intros k Hl Hm. destruct (ksplit_spec _ Hl) as (K1 & K2 & K3). fold k in K1, K2, K3.
  rewrite <- (MTH_app _ _ (Nat.log2 (length l - 1))).
  - f_equal. rewrite <- (take_drop k (take m l)), take_take, Nat.min_l by lia.
    f_equal. by rewrite skipn_firstn_comm.
  - rewrite length_take. change (2 ^ Nat.log2 (length l - 1)) with k. lia.
  - rewrite length_take, length_drop. change (2 ^ Nat.log2 (length l - 1)) with k. lia.
Qed.

Lemma consistency_roots_proof f g m l b old :
  1 <= m <= length l -> length l <= f -> length l <= g ->
  (b = true -> old = MTH (take m l)) ->
  consistency_roots f m (length l) b old (rev (subproof g m l b))
  = Some (MTH (take m l), MTH l).
Proof.
  remember (length l) as n eqn:Hn. revert f g m l b Hn.
  induction (lt_wf n) as [n _ IH]; intros f g m l b Hn Hm Hf Hg Hb.
  destruct f as [|f]; [lia|]. destruct g as [|g]; [lia|].
  cbn [consistency_roots subproof]. rewrite <- Hn.
  destruct (decide (n <= m)).
  { assert (take m l = l) as T by (apply take_ge; lia). rewrite T in *.
    destruct b; [|done]. by rewrite Hb. }
  destruct (ksplit_spec n ltac:(lia)) as (K1 & K2 & K3). set (k := ksplit n) in *.
  rewrite (MTH_split l), <- Hn by lia. fold k.
  destruct (decide (m <= k)); rewrite rev_app_distr; simpl.
  - rewrite (IH k ltac:(lia) f g m (take k l) b); rewrite ?length_take; try lia.
    + simpl. by rewrite take_take, Nat.min_l by lia.
    + intros ->. by rewrite take_take, Nat.min_l, Hb by lia.
  - rewrite (IH (n - k) ltac:(lia) f g (m - k) (drop k l) false)
      by (rewrite ?length_drop; lia || done).
    simpl. do 2 f_equal. rewrite (MTH_take_right m l); rewrite <- ?Hn; fold k; try lia. done.
Qed.

Lemma consistency_roots_sound f g m l b old o rp :
  1 <= m <= length l -> length l <= f -> length l <= g ->
  consistency_roots f m (length l) b old rp = Some (o, MTH l) ->
  o = MTH (take m l) \/
  collides (consistency_pairs f m (length l) b old rp) (tree_pairs g l).
Proof.
  remember (length l) as n eqn:Hn. revert f g m l b o rp Hn.
  induction (lt_wf n) as [n _ IH]; intros f g m l b o rp Hn Hm Hf Hg E.
  destruct f as [|f]; [lia|]. destruct g as [|g]; [lia|].
  cbn [consistency_roots consistency_pairs tree_pairs] in *. rewrite <- Hn.
  destruct (decide (n <= m)).
  { left. assert (take m l = l) as -> by (apply take_ge; lia).
    destruct b, rp as [|h [|? ?]]; try done; injection E as <- ->; done. }
  rewrite decide_False by lia.
  destruct (ksplit_spec n ltac:(lia)) as (K1 & K2 & K3). set (k := ksplit n) in *.
  destruct rp as [|s rp]; [done|]. rewrite (MTH_split l), <- Hn in E by lia. fold k in E.
  destruct (decide (m <= k)).
  - destruct (consistency_roots f m k b old rp) as [[o' w]|] eqn:R; [|done].
    injection E as <- E.
    destruct (hc_inj_or _ _ _ _ ((w, s) :: consistency_pairs f m k b old rp)
      ((MTH (take k l), MTH (drop k l)) :: tree_pairs g (take k l) ++ tree_pairs g (drop k l)) E)
      as [[-> ->]|C]; [set_solver|set_solver| |by right].
    destruct (IH k ltac:(lia) f g m (take k l) b o' rp) as [L|C];
      rewrite ?length_take; try lia; try done.
    + left. by rewrite take_take, Nat.min_l in L by lia.
    + right. eapply collides_mono; [exact C|set_solver|set_solver].
  - destruct (consistency_roots f (m - k) (n - k) false old rp) as [[o' w]|] eqn:R; [|done].
    injection E as <- E.
    destruct (hc_inj_or _ _ _ _ ((s, w) :: consistency_pairs f (m - k) (n - k) false old rp)
      ((MTH (take k l), MTH (drop k l)) :: tree_pairs g (take k l) ++ tree_pairs g (drop k l)) E)
      as [[-> ->]|C]; [set_solver|set_solver| |by right].
    destruct (IH (n - k) ltac:(lia) f g (m - k) (drop k l) false o' rp) as [->|C];
      rewrite ?length_drop; try lia; try done.
    + left. rewrite (MTH_take_right m l); rewrite <- ?Hn; fold k; try lia. done.
    + right. eapply collides_mono; [exact C|set_solver|set_solver].
Qed.
End Tree.

(** ** Nodes ([compact.NodeID]) *)

Record NodeID := NewNodeID { Level : nat; Index : Z }.

#[export] Instance NodeID_eq_dec : EqDecision NodeID.
Proof. solve_decision. Defined.
#[export] Program Instance NodeID_countable : Countable NodeID :=
  inj_countable' (fun id => (Level id, Index id)) (fun p => NewNodeID p.1 p.2) _.
Next Obligation. by intros []. Qed.

#[local] Open Scope Z_scope.

(** [NodeID.Coverage]: the leaves [begin, end) below the node. *)
Definition Coverage (id : NodeID) : Z * Z :=
  (Index id * 2 ^ Z.of_nat (Level id), (Index id + 1) * 2 ^ Z.of_nat (Level id)).

(** Leaves [b, e) of a list. *)
Definition slice {A} (b e : Z) (l : list A) : list A :=
  take (Z.to_nat (e - b)) (drop (Z.to_nat b) l).

(** A node whose leaves are all among the first [n]. *)
Definition perfect (n : Z) (id : NodeID) : Prop :=
  0 <= Index id /\ snd (Coverage id) <= n.

Lemma slice_length {A} b e (l : list A) :
  0 <= b <= e -> e <= len l -> len (slice b e l) = e - b.
Proof. unfold slice, len. intros. rewrite length_take, length_drop. lia. Qed.

Lemma slice_take {A} b e n (l : list A) :
  0 <= b -> e <= n -> slice b e (take (Z.to_nat n) l) = slice b e l.
Proof.
  intros Hb He. unfold slice. rewrite skipn_firstn_comm, take_take.
  f_equal. lia.
Qed.

Lemma slice_app {A} b m e (l : list A) :
  0 <= b <= m -> m <= e -> slice b e l = slice b m l ++ slice m e l.
Proof.
  intros Hb Hm. unfold slice.
  replace (Z.to_nat (e - b)) with (Z.to_nat (m - b) + Z.to_nat (e - m))%nat by lia.
  replace (Z.to_nat m) with (Z.to_nat b + Z.to_nat (m - b))%nat by lia.
  by rewrite <- drop_drop, take_take_drop.
Qed.

Lemma slice_one {A} b (l : list A) x :
  0 <= b -> l !! Z.to_nat b = Some x -> slice b (b + 1) l = [x].
Proof.
  intros Hb Hx. unfold slice. replace (Z.to_nat (b + 1 - b)) with 1%nat by lia.
  by rewrite (drop_S _ x) by done.
Qed.

Lemma slice_snoc {A} b e (l : list A) x :
  0 <= b -> e <= len l -> slice b e (l ++ [x]) = slice b e l.
Proof.
  intros Hb He. rewrite <- (slice_take b e (len l) (l ++ [x])) by lia.
  unfold len. by rewrite Nat2Z.id, take_app_length.
Qed.

Lemma slice_all {A} (l : list A) : slice 0 (len l) l = l.
Proof. unfold slice, len. rewrite drop_0. apply take_ge. lia. Qed.

Section Interfaces.
Context `{LogHasher}.

(** The hash of a node over a list of leaf hashes. *)
Definition node_hash (leaves : list bytes) (id : NodeID) : bytes :=
  MTH (slice (fst (Coverage id)) (snd (Coverage id)) leaves).

(** *** [compact.Range] from leaf 0

    [RangeAppend] returns the extended range and the nodes it reports to the
    visitor; an error of either call, on which the caller panics, is [None]. *)
Class CompactRange := {
  Range : Type;
  NewEmptyRange : Range;
  RangeEnd : Range -> Z;
  RangeAppend : Range -> bytes -> option (Range * list (NodeID * bytes));
  GetRootHash : Range -> option bytes;
}.

Class CompactRangeLaws (R : CompactRange) := {
  range_of : Range -> list bytes -> Prop;
  range_of_empty : range_of NewEmptyRange [];
  range_of_end : forall r l, range_of r l -> RangeEnd r = len l;
  range_of_append : forall r l h, range_of r l -> exists r' vis,
    RangeAppend r h = Some (r', vis) /\ range_of r' (l ++ [h]) /\
    (forall id x, (id, x) ∈ vis ->
       perfect (len l + 1) id /\ x = node_hash (l ++ [h]) id);
  range_of_root : forall r l, range_of r l -> l <> [] -> GetRootHash r = Some (MTH l);
}.

(** *** The [proof] package

    [proof.Inclusion] and [proof.Consistency] describe which nodes to fetch,
    [Nodes.Rehash] folds the fetched hashes into the proof; [None] is an error.
    The verifiers are [true] when they return a nil error. *)
Class ProofLib := {
  Nodes : Type;
  IDs : Nodes -> list NodeID;
  Inclusion : Z -> Z -> option Nodes;
  Consistency : Z -> Z -> option Nodes;
  Rehash : Nodes -> list bytes -> option (list bytes);
  lib_VerifyInclusion : Z -> Z -> bytes -> list bytes -> bytes -> bool;
  lib_VerifyConsistency : Z -> Z -> list bytes -> bytes -> bytes -> bool;
}.

Definition HashSize : Z := 32.

Class ProofLibLaws (P : ProofLib) : Prop := {
  inclusion_defined : forall i n, 0 <= i < n -> exists nd, Inclusion i n = Some nd;
  inclusion_range : forall i n nd, Inclusion i n = Some nd -> 0 <= i < n;
  inclusion_perfect : forall i n nd,
    Inclusion i n = Some nd -> Forall (perfect n) (IDs nd);
  inclusion_rehash : forall i n nd leaves,
    Inclusion i n = Some nd -> len leaves = n ->
    Rehash nd (map (node_hash leaves) (IDs nd)) = Some (PATH (Z.to_nat i) leaves);
  consistency_defined : forall m n, 0 < m < n -> exists nd, Consistency m n = Some nd;
  consistency_perfect : forall m n nd,
    0 < m < n -> Consistency m n = Some nd -> Forall (perfect n) (IDs nd);
  consistency_rehash : forall m n nd leaves,
    0 < m < n -> Consistency m n = Some nd -> len leaves = n ->
    Rehash nd (map (node_hash leaves) (IDs nd)) = Some (PROOF (Z.to_nat m) leaves);
  verify_inclusion_sound : forall i n h p root, 0 <= i -> 0 <= n ->
    lib_VerifyInclusion i n h p root = true ->
    RootFromInclusion (Z.to_nat i) (Z.to_nat n) h p = Some root;
  verify_inclusion_complete : forall i n h p root, 0 <= i -> 0 <= n ->
    len h = HashSize ->
    RootFromInclusion (Z.to_nat i) (Z.to_nat n) h p = Some root ->
    lib_VerifyInclusion i n h p root = true;
  verify_consistency_spec : forall m n p r1 r2, 0 < m -> 0 <= n ->
    lib_VerifyConsistency m n p r1 r2 = true <->
    RootsFromConsistency (Z.to_nat m) (Z.to_nat n) r1 p = Some (r1, r2);
}.
End Interfaces.
