(* ===== verification/Merkle.v ===== *)
(** * The Merkle tree (pkg/merkle)

    The tree keeps a compact range, a bounded LRU of leaf hashes in front of a
    [LeafStore], and a bounded LRU of internal node hashes; proofs read the
    caches, fall back to the store, and recompute evicted nodes. *)

From S2P Require Import Prelude Crypto Rfc6962.
From stdpp Require Import base numbers list gmap strings.
From Stdlib Require Import ZArith Lia.

#[local] Open Scope Z_scope.

(** ** LRU caches

    A [container/list] of entries, front first, and the map from a key to its
    list element.  An element is named by its key, so the map is the set of
    keys that have an element; both are updated by each operation as the code
    updates them. *)
Module Lru.
Section Lru.
Context {K V : Type} `{Countable K}.

Record t := mk {
  order : list (K * V);
  index : gset K;
  cap : Z;  (* 0 = unbounded *)
}.

Definition empty (c : Z) : t := mk [] ∅ c.

Fixpoint find (k : K) (l : list (K * V)) : option V :=
  match l with
  | [] => None
  | (k', v) :: l' => if decide (k = k') then Some v else find k l'
  end.

Definition remove (k : K) (l : list (K * V)) : list (K * V) :=
  filter (fun p => p.1 <> k) l.

(** Insert or refresh; evict the back element when the cap is exceeded. *)
Definition put (c : t) (k : K) (v : V) : t :=
  if decide (k ∈ index c) then
    mk ((k, v) :: remove k (order c)) (index c) (cap c)
  else
    let order' := (k, v) :: order c in
    let index' := {[k]} ∪ index c in
    if (0 <? cap c) && (cap c <? len order') then
      match last order' with
      | Some oldest => mk (removelast order') (index' ∖ {[oldest.1]}) (cap c)
      | None => mk order' index' (cap c)
      end
    else mk order' index' (cap c).

(** Look up and move to the front. *)
Definition hit (c : t) (k : K) : option (V * t) :=
  if decide (k ∈ index c) then
    match find k (order c) with
    | Some v => Some (v, mk ((k, v) :: remove k (order c)) (index c) (cap c))
    | None => None
    end
  else None.

(** The map and the list agree, keys are unique, the cap holds, and every
    cached value satisfies [P]. *)
Record ok (P : K -> V -> Prop) (c : t) : Prop := {
  ok_nodup : NoDup (order c).*1;
  ok_index : index c = list_to_set (order c).*1;
  ok_cap : 0 < cap c -> len (order c) <= cap c;
  ok_values : forall k v, (k, v) ∈ order c -> P k v;
}.

Lemma empty_ok P c : ok P (empty c).
Proof.
  split; simpl; [constructor|done|unfold len; simpl; lia|].
  intros k v Hin. by apply elem_of_nil in Hin.
Qed.

Lemma remove_in k l x : x ∈ remove k l <-> x ∈ l /\ x.1 <> k.
Proof. unfold remove. rewrite list_elem_of_filter. naive_solver. Qed.

Lemma remove_keys k l j : j ∈ (remove k l).*1 <-> j ∈ l.*1 /\ j <> k.
Proof. rewrite !list_elem_of_fmap. setoid_rewrite remove_in. naive_solver. Qed.

Lemma remove_nodup k l : NoDup l.*1 -> NoDup (remove k l).*1.
Proof.
  induction l as [|[j w] l IH]; [done|]. simpl. rewrite NoDup_cons. intros [Hj Hl].
  unfold remove. rewrite filter_cons. case_decide; [|by apply IH].
  simpl. apply NoDup_cons. split; [|by apply IH].
  intros Hin. by apply (remove_keys k l j) in Hin as [? _].
Qed.

Lemma remove_length k v l :
  (k, v) ∈ l -> NoDup l.*1 -> length l = S (length (remove k l)).
Proof.
  intros Hin. induction l as [|[j w] l IH]; [by apply elem_of_nil in Hin|].
  simpl. rewrite NoDup_cons. intros [Hj Hl]. unfold remove. simpl.
  rewrite filter_cons. simpl. apply elem_of_cons in Hin as [[= -> ->]|Hin].
  - rewrite decide_False by auto. f_equal.
    fold (remove j l). symmetry. clear -Hj. induction l as [|[i u] l IH]; [done|].
    unfold remove. rewrite filter_cons. simpl in *. rewrite decide_True by set_solver.
    simpl. f_equal. apply IH. set_solver.
  - rewrite decide_True.
    + simpl. f_equal. by apply IH.
    + intros ->. apply Hj. apply list_elem_of_fmap. by exists (k, v).
Qed.

Lemma find_in k l v : find k l = Some v -> (k, v) ∈ l.
Proof.
  induction l as [|[j w] l IH]; simpl; [done|].
  destruct (decide (k = j)) as [->|]; [intros [= ->]; left|intros ?; right; auto].
Qed.

Lemma find_some k l : k ∈ l.*1 -> exists v, find k l = Some v.
Proof.
  induction l as [|[j w] l IH]; simpl; [by intros ?%elem_of_nil|].
  destruct (decide (k = j)); [eauto|]. intros [?|?]%elem_of_cons; [done|auto].
Qed.

(** Refreshing a cached key keeps the cache coherent. *)
Lemma refresh_ok (P : K -> V -> Prop) c k v w :
  ok P c -> (k, w) ∈ order c -> P k v ->
  ok P (mk ((k, v) :: remove k (order c)) (index c) (cap c)).
Proof.
  intros [N I C F] Hin HP. split; simpl.
  - apply NoDup_cons. split; [|by apply remove_nodup]. rewrite remove_keys. naive_solver.
  - rewrite I. apply set_eq. intros j. rewrite elem_of_union, !elem_of_list_to_set,
      remove_keys, elem_of_singleton. split; [|intros [->|[? _]]; [|done]].
    + intros Hj. destruct (decide (j = k)); [by left|by right].
    + apply list_elem_of_fmap. by exists (k, w).
  - intros Hc. specialize (C Hc). unfold len in *. simpl.
    rewrite (remove_length k w) in C by done. lia.
  - intros j u [[= -> ->]|Hj]%elem_of_cons; [done|].
    apply remove_in in Hj as [Hj _]. by apply F.
Qed.

Lemma index_in (P : K -> V -> Prop) c k : ok P c -> k ∈ index c -> exists v, (k, v) ∈ order c.
Proof.
  intros O Hk. rewrite (ok_index _ _ O), elem_of_list_to_set in Hk.
  apply find_some in Hk as [v Hv]. exists v. by apply find_in.
Qed.

Lemma put_ok (P : K -> V -> Prop) c k v : ok P c -> P k v -> ok P (put c k v).
Proof.
  intros O HP. unfold put. destruct (decide (k ∈ index c)) as [Hk|Hk].
  { destruct (index_in P c k O Hk) as [w Hw]. by apply (refresh_ok P c k v w). }
  destruct O as [N I C F]. rewrite I, elem_of_list_to_set in Hk.
  set (order' := (k, v) :: order c).
  assert (NoDup order'.*1) as N' by (simpl; apply NoDup_cons; done).
  assert (forall j u, (j, u) ∈ order' -> P j u) as F'.
  { intros j u [[= -> ->]|Hj]%elem_of_cons; auto. }
  assert ({[k]} ∪ index c = list_to_set order'.*1) as I' by (rewrite I; done).
  destruct ((0 <? cap c) && (cap c <? len order')) eqn:Hcap.
  - destruct (last order') as [[k0 v0]|] eqn:Hlast; [|by apply last_None in Hlast].
    apply last_Some in Hlast as [l Hl]. rewrite Hl, removelast_last.
    rewrite Hl in N', F', I'. rewrite fmap_app in N', I'. simpl in N', I'.
    apply NoDup_app in N' as (N1 & N2 & _).
    split; cbn [order index cap fst].
    + done.
    + rewrite I'. apply set_eq. intros j. rewrite list_to_set_app_L. simpl.
      specialize (N2 j). set_solver.
    + btauto_props. intros _. specialize (C ltac:(done)). unfold len in *.
      apply (f_equal length) in Hl. rewrite length_app in Hl. unfold order' in Hl.
      simpl in Hl. lia.
    + intros j u Hj. apply F', elem_of_app. by left.
  - split; cbn [order index cap]; [done|done| |done].
    intros Hc. apply andb_false_iff in Hcap as [Hcap|Hcap]; btauto_props; lia.
Qed.

Lemma hit_ok (P : K -> V -> Prop) c k v c' :
  ok P c -> hit c k = Some (v, c') -> P k v /\ ok P c' /\ cap c' = cap c.
Proof.
  intros O. unfold hit. destruct (decide (k ∈ index c)); [|done].
  destruct (find k (order c)) as [w|] eqn:Hf; [|done]. intros [= <- <-].
  apply find_in in Hf. pose proof (ok_values _ _ O _ _ Hf).
  split_and!; [done| |done]. by eapply refresh_ok.
Qed.

Lemma hit_none (P : K -> V -> Prop) c k : ok P c -> hit c k = None -> k ∉ index c.
Proof.
  intros O Hh Hk. unfold hit in Hh. rewrite decide_True in Hh by done.
  rewrite (ok_index _ _ O), elem_of_list_to_set in Hk.
  apply find_some in Hk as [v Hv]. by rewrite Hv in Hh.
Qed.

Lemma put_cap c k v : cap (put c k v) = cap c.
Proof. unfold put. repeat case_match; done. Qed.

(** A weaker value predicate still holds. *)
Lemma ok_weaken (P Q : K -> V -> Prop) c :
  (forall k v, P k v -> Q k v) -> ok P c -> ok Q c.
Proof. intros HPQ [N I C F]. split; auto. Qed.
End Lru.
Arguments t : clear implicits.
Arguments t _ _ {_ _}.
End Lru.

(** ** Leaf stores *)

(** The interface the tree reads leaves through. *)
Class LeafStore := {
  LS : Type;
  GetLeafHash : LS -> Z -> res (option bytes);
  PutLeafHash : LS -> Z -> bytes -> LS;
}.

(** The store has every leaf of [l]. *)
Definition holds `{LeafStore} (ls : LS) (l : list bytes) : Prop :=
  forall i h, l !! i = Some h -> GetLeafHash ls (Z.of_nat i) = Ok (Some h).

(** Re-recording a leaf that is already there loses none. *)
Class LeafStoreLaws (S : LeafStore) : Prop :=
  put_same : forall ls l i h,
    holds ls l -> l !! i = Some h -> holds (PutLeafHash ls (Z.of_nat i) h) l.

(** [memLeafStore]: the default store of [NewTree] and [NewBoundedTree]. *)
Definition mem_GetLeafHash (m : gmap Z bytes) (idx : Z) : res (option bytes) := Ok (m !! idx).
Definition mem_PutLeafHash (m : gmap Z bytes) (idx : Z) (hash : bytes) : gmap Z bytes :=
  <[idx := hash]> m.

Definition memLeafStore : LeafStore := {|
  LS := gmap Z bytes;
  GetLeafHash := mem_GetLeafHash;
  PutLeafHash := mem_PutLeafHash;
|}.

#[export] Instance memLeafStore_laws : LeafStoreLaws memLeafStore.
Proof.
  intros ls l i h Hh Hi j x Hj. cbn. unfold mem_GetLeafHash, mem_PutLeafHash.
  destruct (decide (i = j)) as [->|Hne].
  - rewrite lookup_insert_eq. congruence.
  - rewrite lookup_insert_ne by lia. by apply Hh.
Qed.

(** Recording the next leaf makes the store hold it too. *)
Lemma mem_put_next (m : gmap Z bytes) l h :
  holds (H := memLeafStore) m l ->
  holds (H := memLeafStore) (mem_PutLeafHash m (len l) h) (l ++ [h]).
Proof.
  intros Hm i x Hi. cbn. unfold mem_GetLeafHash, mem_PutLeafHash.
  destruct (decide (i = length l)) as [->|Hne].
  - rewrite list_lookup_middle in Hi by done. injection Hi as <-.
    by rewrite lookup_insert_eq.
  - rewrite lookup_insert_ne by (unfold len; lia). apply Hm.
    assert (i < length (l ++ [h]))%nat by by eapply lookup_lt_Some.
    rewrite length_app in *. simpl in *. by rewrite lookup_app_l in Hi by lia.
Qed.

(** ** The tree *)
Module Tree.
Section Tree.
Context {LH : LogHasher} {CR : CompactRange} {PL : ProofLib} {LSt : LeafStore}.

Record t := mk {
  rng : Range;
  leafStore : LS;
  leaves : Lru.t Z bytes;         (* leafLRU, leafIdx, maxLeaf *)
  internal : Lru.t NodeID bytes;  (* lru, internal, maxInternal *)
}.

Definition NewBoundedTreeWithStore (maxInternalNodes maxLeafNodes : Z) (ls : LS) : t :=
  mk NewEmptyRange ls (Lru.empty maxLeafNodes) (Lru.empty maxInternalNodes).

Definition putLeaf (tr : t) (idx : Z) (hash : bytes) : t :=
  mk (rng tr) (PutLeafHash (leafStore tr) idx hash) (Lru.put (leaves tr) idx hash) (internal tr).

Definition putNode (tr : t) (id : NodeID) (hash : bytes) : t :=
  if Nat.eqb (Level id) 0 then putLeaf tr (Index id) hash
  else mk (rng tr) (leafStore tr) (leaves tr) (Lru.put (internal tr) id hash).

Definition CacheSize (tr : t) : Z * Z :=
  (len (Lru.order (leaves tr)), len (Lru.order (internal tr))).

Definition Size (tr : t) : Z := RangeEnd (rng tr).

(** [None] is the panic on a failing [GetRootHash]. *)
Definition Root (tr : t) : option bytes :=
  if Size tr =? 0 then Some EmptyRoot else GetRootHash (rng tr).

(** The visitor stores every reported node; [None] is the panic on a failing
    [Append]. *)
Definition AppendLeafHash (tr : t) (leafHash : bytes) : option (t * Z) :=
  let idx := RangeEnd (rng tr) in
  let tr := putNode tr (NewNodeID 0 idx) leafHash in
  match RangeAppend (rng tr) leafHash with
  | None => None
  | Some (r, visited) =>
      let tr := foldl (fun tr p => putNode tr p.1 p.2) tr visited in
      Some (mk r (leafStore tr) (leaves tr) (internal tr), idx)
  end.

Definition AppendLeaf (tr : t) (data : bytes) : option (t * bytes * Z) :=
  let leafHash := HashLeaf data in
  '(tr, idx) ← AppendLeafHash tr leafHash; Some (tr, leafHash, idx).

Definition nodeHash (id : NodeID) : stm t (option bytes) := fun tr =>
  if Nat.eqb (Level id) 0 then
    match Lru.hit (leaves tr) (Index id) with
    | Some (h, c) => (mk (rng tr) (leafStore tr) c (internal tr), Ok (Some h))
    | None =>
        match GetLeafHash (leafStore tr) (Index id) with
        | Err e => (tr, Err ("merkle: leaf store read"%string :: e))
        | Ok None => (tr, Ok None)
        | Ok (Some h) => (putLeaf tr (Index id) h, Ok (Some h))
        end
    end
  else
    match Lru.hit (internal tr) id with
    | Some (h, c) => (mk (rng tr) (leafStore tr) (leaves tr) c, Ok (Some h))
    | None => (tr, Ok None)
    end.

(** [k := 1; for k*2 < span { k *= 2 }] on [uint64]; 64 doublings always
    suffice for a span up to 2^63. *)
Fixpoint split_loop (fuel : nat) (k span : Z) : Z :=
  match fuel with
  | O => k
  | S f => if wrap64 (k * 2) <? span then split_loop f (wrap64 (k * 2)) span else k
  end.

(** The recursion halves the span, so [end - begin] bounds its depth. *)
Fixpoint subRoot (fuel : nat) (begin end_ : Z) : stm t bytes :=
  match fuel with
  | O => st_err ["subRoot: out of fuel"%string]
  | S f =>
      if begin + 1 =? end_ then
        do! o <- nodeHash (NewNodeID 0 begin);
        match o with
        | None => st_err ["missing leaf"%string]
        | Some h => st_ret h
        end
      else
        let span := end_ - begin in
        let k := split_loop 64 1 span in
        let split := begin + k in
        do! lhs <- subRoot f begin split;
        do! rhs <- subRoot f split end_;
        st_ret (HashChildren lhs rhs)
  end.

Definition computeNode (id : NodeID) : stm t bytes := fun tr =>
  let '(begin, end_) := Coverage id in
  let end_ := if Size tr <? end_ then Size tr else end_ in
  if end_ <=? begin then (tr, Err ["empty coverage"%string])
  else subRoot (Z.to_nat (end_ - begin)) begin end_ tr.

(** The loop of [materialise] over the node ids. *)
Fixpoint fetch (ids : list NodeID) : stm t (list bytes) :=
  match ids with
  | [] => st_ret []
  | id :: ids' =>
      do! o <- nodeHash id;
      do! h <- match o with
               | Some h => st_ret h
               | None => st_wrap "merkle: cannot materialise node" (computeNode id)
               end;
      do! hs <- fetch ids';
      st_ret (h :: hs)
  end.

Definition materialise (nodes : Nodes) : stm t (list bytes) :=
  do! hashes <- fetch (IDs nodes);
  match Rehash nodes hashes with
  | Some p => st_ret p
  | None => st_err ["rehash"%string]
  end.

Definition InclusionProof (idx treeSize : Z) : stm t (list bytes) := fun tr =>
  if Size tr <? treeSize then (tr, Err ["merkle: treeSize exceeds current size"%string])
  else
    match Inclusion idx treeSize with
    | None => (tr, Err ["merkle: building inclusion node list"%string])
    | Some nodes => materialise nodes tr
    end.

Definition ConsistencyProof (oldSize newSize : Z) : stm t (list bytes) := fun tr =>
  if newSize <? oldSize then (tr, Err ["merkle: oldSize > newSize"%string])
  else if Size tr <? newSize then (tr, Err ["merkle: newSize exceeds current size"%string])
  else if (oldSize =? 0) || (oldSize =? newSize) then (tr, Ok [])
  else
    match Consistency oldSize newSize with
    | None => (tr, Err ["merkle: building consistency node list"%string])
    | Some nodes => materialise nodes tr
    end.

Definition VerifyInclusion (idx treeSize : Z) (leafHash : bytes) (prf : list bytes) (root : bytes) : bool :=
  lib_VerifyInclusion idx treeSize leafHash prf root.
Definition VerifyConsistency (oldSize newSize : Z) (prf : list bytes) (oldRoot newRoot : bytes) : bool :=
  lib_VerifyConsistency oldSize newSize prf oldRoot newRoot.

(** *** Invariant: the tree is the tree of [l] *)
Context `{CRL : !CompactRangeLaws CR} `{PLL : !ProofLibLaws PL} `{LSL : !LeafStoreLaws LSt}.

Record ok (tr : t) (l : list bytes) : Prop := {
  ok_range : range_of (rng tr) l;
  ok_small : len l < 2 ^ 63;
  ok_leaves : Lru.ok (fun i h => 0 <= i /\ l !! Z.to_nat i = Some h) (leaves tr);
  ok_internal : Lru.ok (fun id h => perfect (len l) id /\ h = node_hash l id) (internal tr);
  ok_store : holds (leafStore tr) l;
}.

Lemma ok_size tr l : ok tr l -> Size tr = len l.
Proof. intros O. apply range_of_end, O. Qed.

Lemma ok_with_leaves tr l c :
  ok tr l -> Lru.ok (fun i h => 0 <= i /\ l !! Z.to_nat i = Some h) c ->
  ok (mk (rng tr) (leafStore tr) c (internal tr)) l.
Proof. intros [R B L I S] Hc. by split. Qed.

Lemma ok_with_internal tr l c :
  ok tr l -> Lru.ok (fun id h => perfect (len l) id /\ h = node_hash l id) c ->
  ok (mk (rng tr) (leafStore tr) (leaves tr) c) l.
Proof. intros [R B L I S] Hc. by split. Qed.

Lemma putLeaf_ok tr (l : list bytes) i h : ok tr l -> l !! i = Some h -> ok (putLeaf tr (Z.of_nat i) h) l.
Proof.
  intros [R B L I S] Hi. split; cbn; [done|done| |done|by apply put_same].
  apply Lru.put_ok; [done|]. split; [lia|]. by rewrite Nat2Z.id.
Qed.

(** *** Node lookup *)

Lemma node_hash_leaf (l : list bytes) (i : nat) h :
  l !! i = Some h -> node_hash l (NewNodeID 0 (Z.of_nat i)) = h.
Proof.
  intros Hi. unfold node_hash, Coverage. simpl. rewrite !Z.mul_1_r.
  rewrite (slice_one _ l h) by (rewrite ?Nat2Z.id; lia || done). done.
Qed.

Lemma perfect_leaf (l : list bytes) id :
  perfect (len l) id -> Level id = 0%nat ->
  exists i h, id = NewNodeID 0 (Z.of_nat i) /\ l !! i = Some h.
Proof.
  destruct id as [lv ix]. unfold perfect, Coverage, len. simpl. intros [H1 H2] ->.
  simpl in H2. destruct (lookup_lt_is_Some_2 l (Z.to_nat ix)) as [h Hh]; [lia|].
  exists (Z.to_nat ix), h. split; [|done]. f_equal. lia.
Qed.

Lemma nodeHash_ok tr l id :
  ok tr l -> perfect (len l) id ->
  exists tr' r, nodeHash id tr = (tr', Ok r) /\ ok tr' l /\
    (r = Some (node_hash l id) \/ (r = None /\ Level id <> 0%nat)).
Proof.
  intros O P. unfold nodeHash. destruct (Nat.eqb_spec (Level id) 0) as [E|E].
  - destruct (perfect_leaf l id P E) as (i & h & -> & Hi). simpl.
    rewrite (node_hash_leaf l i h Hi).
    destruct (Lru.hit (leaves tr) (Z.of_nat i)) as [[h' c]|] eqn:Hh.
    + destruct (Lru.hit_ok _ _ _ _ _ (ok_leaves _ _ O) Hh) as ([_ Hv] & Hc & _).
      rewrite Nat2Z.id in Hv. eexists _, _. split; [done|].
      split; [by apply ok_with_leaves|]. left. congruence.
    + rewrite (ok_store _ _ O i h Hi). eexists _, _. split; [done|].
      split; [by apply putLeaf_ok|by left].
  - destruct (Lru.hit (internal tr) id) as [[h' c]|] eqn:Hh.
    + destruct (Lru.hit_ok _ _ _ _ _ (ok_internal _ _ O) Hh) as ([_ Hv] & Hc & _).
      eexists _, _. split; [done|]. split; [by apply ok_with_internal|]. left. by subst.
    + eexists _, _. split; [done|]. split; [done|by right].
Qed.

(** *** Recomputing a subtree *)

Lemma split_loop_pow fuel j span :
  0 <= j -> 2 ^ j < span <= 2 ^ 63 -> span <= 2 ^ (j + Z.of_nat fuel) ->
  exists i, 0 <= i /\ split_loop fuel (2 ^ j) span = 2 ^ i /\ 2 ^ i < span <= 2 * 2 ^ i.
Proof.
  revert j. induction fuel as [|fuel IH]; intros j Hj Hs Hf.
  { simpl in Hf. rewrite Z.add_0_r in Hf. lia. }
  assert (2 ^ j * 2 = 2 ^ (j + 1)) as Hp by (rewrite Z.pow_add_r; lia).
  assert (j < 63) by (apply (Z.pow_lt_mono_r_iff 2); lia).
  assert (2 ^ (j + 1) <= 2 ^ 63) by (apply Z.pow_le_mono_r; lia).
  cbn [split_loop]. rewrite Hp. unfold wrap64. rewrite Z.mod_small by lia.
  destruct (Z.ltb_spec (2 ^ (j + 1)) span) as [Hlt|Hge].
  - apply IH; [lia|lia|]. replace (j + 1 + Z.of_nat fuel) with (j + Z.of_nat (S fuel)) by lia. done.
  - exists j. lia.
Qed.

Lemma split_loop_spec span :
  2 <= span <= 2 ^ 63 -> split_loop 64 1 span = Z.of_nat (ksplit (Z.to_nat span)).
Proof.
  intros Hs. destruct (split_loop_pow 64 0 span) as (i & Hi & E & B); [lia|lia|simpl; lia|].
  change (2 ^ 0) with 1 in E. rewrite E.
  rewrite (ksplit_unique _ (Z.to_nat i)).
  - rewrite Nat2Z.inj_pow, Z2Nat.id; done.
  - apply Nat2Z.inj_lt. rewrite Nat2Z.inj_pow, !Z2Nat.id; [apply B|lia..].
  - apply Nat2Z.inj_le. rewrite Nat2Z.inj_mul, Nat2Z.inj_pow, !Z2Nat.id; [apply B|lia..].
Qed.

Lemma MTH_slice_split b e l :
  0 <= b -> e <= len l -> 2 <= e - b ->
  let k := Z.of_nat (ksplit (Z.to_nat (e - b))) in
  MTH (slice b e l) = HashChildren (MTH (slice b (b + k) l)) (MTH (slice (b + k) e l)).
Proof.
  intros Hb He H2 k. destruct (ksplit_spec (Z.to_nat (e - b)) ltac:(lia)) as (K1 & K2 & K3).
  rewrite (slice_app b (b + k) e l) by lia.
  apply (MTH_app _ _ (Nat.log2 (Z.to_nat (e - b) - 1))).
  - pose proof (slice_length b (b + k) l). unfold len in *. fold (ksplit (Z.to_nat (e - b))). lia.
  - pose proof (slice_length (b + k) e l). unfold len in *. fold (ksplit (Z.to_nat (e - b))). lia.
Qed.

Lemma subRoot_ok fuel b e tr l :
  ok tr l -> 0 <= b < e -> e <= len l -> e - b <= Z.of_nat fuel ->
  exists tr', subRoot fuel b e tr = (tr', Ok (MTH (slice b e l))) /\ ok tr' l.
Proof.
  revert b e tr. induction fuel as [|fuel IH]; intros b e tr O Hb He Hf; [lia|].
  cbn [subRoot]. destruct (Z.eqb_spec (b + 1) e) as [<-|Hne].
  - destruct (lookup_lt_is_Some_2 l (Z.to_nat b)) as [h Hh]; [unfold len in *; lia|].
    assert (perfect (len l) (NewNodeID 0 b)) as P by (unfold perfect, Coverage; simpl; lia).
    destruct (nodeHash_ok tr l _ O P) as (tr' & r & E & O' & R).
    unfold st_bind. rewrite E.
    assert (node_hash l (NewNodeID 0 b) = h) as Hn.
    { rewrite <- (Z2Nat.id b) by lia. by apply node_hash_leaf. }
    destruct R as [->|[_ ?]]; [|done]. exists tr'. split; [|done].
    rewrite (slice_one b l h) by (lia || done). by rewrite Hn.
  - pose proof (ok_small _ _ O).
    rewrite split_loop_spec by lia.
    destruct (ksplit_spec (Z.to_nat (e - b)) ltac:(lia)) as (K1 & K2 & K3).
    set (k := Z.of_nat (ksplit (Z.to_nat (e - b)))).
    destruct (IH b (b + k) tr O) as (tr1 & E1 & O1); [lia|lia|lia|].
    destruct (IH (b + k) e tr1 O1) as (tr2 & E2 & O2); [lia|lia|lia|].
    unfold st_bind. rewrite E1, E2. exists tr2. split; [|done].
    unfold st_ret. do 2 f_equal. symmetry. apply MTH_slice_split; lia.
Qed.

Lemma computeNode_ok tr l id :
  ok tr l -> perfect (len l) id ->
  exists tr', computeNode id tr = (tr', Ok (node_hash l id)) /\ ok tr' l.
Proof.
  intros O P. unfold computeNode, node_hash.
  destruct (Coverage id) as [b e] eqn:C. unfold perfect in P. rewrite C in P. simpl in *.
  assert (0 <= b < e) as Hbe.
  { unfold Coverage in C. injection C as <- <-.
    assert (0 < 2 ^ Z.of_nat (Level id)) by (apply Z.pow_pos_nonneg; lia). nia. }
  rewrite (ok_size tr l O). destruct (Z.ltb_spec (len l) e); [lia|].
  destruct (Z.leb_spec e b); [lia|]. apply subRoot_ok; try done; lia.
Qed.

Lemma fetch_ok tr l ids :
  ok tr l -> Forall (perfect (len l)) ids ->
  exists tr', fetch ids tr = (tr', Ok (map (node_hash l) ids)) /\ ok tr' l.
Proof.
  revert tr. induction ids as [|id ids IH]; intros tr O F; [by exists tr|].
  apply Forall_cons in F as [P F].
  destruct (nodeHash_ok tr l id O P) as (tr1 & r & E1 & O1 & R).
  cbn [fetch map]. unfold st_bind at 1. rewrite E1.
  destruct R as [->|[-> _]].
  - destruct (IH tr1 O1 F) as (tr2 & E2 & O2).
    unfold st_bind, st_ret. rewrite E2. by exists tr2.
  - destruct (computeNode_ok tr1 l id O1 P) as (tr2 & E2 & O2).
    destruct (IH tr2 O2 F) as (tr3 & E3 & O3).
    unfold st_bind, st_wrap, st_ret. rewrite E2. cbn [wrap_err]. rewrite E3. by exists tr3.
Qed.

(** Nodes below size [n] do not see the leaves above it. *)
Lemma node_hash_take n l id :
  0 <= n -> perfect n id -> node_hash (take (Z.to_nat n) l) id = node_hash l id.
Proof.
  intros Hn [H1 H2]. unfold node_hash. rewrite slice_take; [done| |lia].
  unfold Coverage. simpl. assert (0 < 2 ^ Z.of_nat (Level id)) by (apply Z.pow_pos_nonneg; lia). nia.
Qed.

Lemma materialise_ok tr l n nodes p :
  ok tr l -> 0 <= n <= len l -> Forall (perfect n) (IDs nodes) ->
  Rehash nodes (map (node_hash (take (Z.to_nat n) l)) (IDs nodes)) = Some p ->
  exists tr', materialise nodes tr = (tr', Ok p) /\ ok tr' l.
Proof.
  intros O Hn F E.
  destruct (fetch_ok tr l (IDs nodes) O) as (tr' & Ef & O').
  { eapply Forall_impl; [exact F|]. intros id [? ?]. split; lia. }
  exists tr'. split; [|done]. unfold materialise, st_bind. rewrite Ef.
  replace (map (node_hash l) (IDs nodes))
    with (map (node_hash (take (Z.to_nat n) l)) (IDs nodes)); [by rewrite E|].
  apply map_ext_in. intros id Hid. apply node_hash_take; [lia|].
  rewrite Forall_forall in F. apply F. by apply list_elem_of_In.
Qed.

Lemma InclusionProof_ok tr l i n :
  ok tr l -> 0 <= i < n -> n <= len l ->
  exists tr', InclusionProof i n tr = (tr', Ok (PATH (Z.to_nat i) (take (Z.to_nat n) l))) /\ ok tr' l.
Proof.
  intros O Hi Hn. unfold InclusionProof. rewrite (ok_size _ _ O).
  destruct (Z.ltb_spec (len l) n); [lia|].
  destruct (inclusion_defined i n Hi) as [nd E]. rewrite E.
  apply (materialise_ok tr l n); [done|lia|by eapply inclusion_perfect|].
  eapply inclusion_rehash; [done|]. unfold len in *. rewrite length_take. lia.
Qed.

Lemma ConsistencyProof_ok tr l m n :
  ok tr l -> 0 < m <= n -> n <= len l ->
  exists tr', ConsistencyProof m n tr = (tr', Ok (PROOF (Z.to_nat m) (take (Z.to_nat n) l))) /\ ok tr' l.
Proof.
  intros O Hm Hn. unfold ConsistencyProof. rewrite (ok_size _ _ O).
  destruct (Z.ltb_spec n m); [lia|]. destruct (Z.ltb_spec (len l) n); [lia|].
  destruct (Z.eqb_spec m 0); [lia|]. destruct (Z.eqb_spec m n) as [->|Hne]; simpl.
  - exists tr. split; [|done]. do 2 f_equal. unfold PROOF.
    rewrite length_take. unfold len in *. rewrite Nat.min_l by lia.
    destruct (Z.to_nat n) as [|k] eqn:Ek; [lia|]. cbn [subproof].
    rewrite decide_True by (rewrite length_take; lia). done.
  - destruct (consistency_defined m n ltac:(lia)) as [nd E]. rewrite E.
    apply (materialise_ok tr l n); [done|lia|eapply consistency_perfect; [|done]; lia|].
    eapply consistency_rehash; [|done|]; [lia|]. unfold len in *. rewrite length_take. lia.
Qed.

(** *** Appending *)

(** The part of the invariant about caches and store, between the update of
    the leaf and the update of the range. *)
Record cached (tr : t) (l : list bytes) : Prop := {
  c_leaves : Lru.ok (fun i h => 0 <= i /\ l !! Z.to_nat i = Some h) (leaves tr);
  c_internal : Lru.ok (fun id h => perfect (len l) id /\ h = node_hash l id) (internal tr);
  c_store : holds (leafStore tr) l;
}.

Lemma putNode_cached tr l id :
  cached tr l -> perfect (len l) id -> cached (putNode tr id (node_hash l id)) l.
Proof.
  intros [L I S] P. unfold putNode. destruct (Nat.eqb_spec (Level id) 0) as [E|E].
  - destruct (perfect_leaf l id P E) as (i & h & -> & Hi). rewrite (node_hash_leaf l i h Hi).
    split; cbn; [|done|by apply put_same].
    apply Lru.put_ok; [done|]. split; [lia|]. by rewrite Nat2Z.id.
  - split; cbn; [done| |done]. by apply Lru.put_ok.
Qed.

Lemma putNodes_cached vis tr l :
  cached tr l -> (forall id x, (id, x) ∈ vis -> perfect (len l) id /\ x = node_hash l id) ->
  cached (foldl (fun tr p => putNode tr p.1 p.2) tr vis) l.
Proof.
  revert tr. induction vis as [|[id x] vis IH]; intros tr C V; [done|]. simpl.
  destruct (V id x) as [P ->]; [left|]. apply IH; [by apply putNode_cached|].
  intros ? ? ?. apply V. by right.
Qed.

Lemma cached_snoc tr l h :
  ok tr l -> holds (PutLeafHash (leafStore tr) (len l) h) (l ++ [h]) ->
  cached (putNode tr (NewNodeID 0 (len l)) h) (l ++ [h]).
Proof.
  intros [R B L I S] Hs. split; cbn; [| |done].
  - apply Lru.put_ok.
    + eapply Lru.ok_weaken; [|exact L]. intros i x [Hi Hx]. split; [done|].
      by apply lookup_app_l_Some.
    + unfold len. rewrite Nat2Z.id. split; [lia|]. by apply list_lookup_middle.
  - eapply Lru.ok_weaken; [|exact I]. intros id x [[H1 H2] ->].
    assert (0 < 2 ^ Z.of_nat (Level id)) by (apply Z.pow_pos_nonneg; lia).
    assert (len (l ++ [h]) = len l + 1) as Hl by (unfold len; rewrite length_app; simpl; lia).
    split; [split; [done|lia]|].
    unfold node_hash. rewrite slice_snoc; [done| |done]. unfold Coverage. simpl. nia.
Qed.

Lemma AppendLeafHash_ok tr l h :
  ok tr l -> len l + 1 < 2 ^ 63 ->
  holds (PutLeafHash (leafStore tr) (len l) h) (l ++ [h]) ->
  exists tr', AppendLeafHash tr h = Some (tr', len l) /\ ok tr' (l ++ [h]).
Proof.
  intros O Hb Hs. unfold AppendLeafHash. rewrite (ok_size _ _ O : RangeEnd (rng tr) = _).
  pose proof (cached_snoc tr l h O Hs) as C.
  change (rng (putNode tr (NewNodeID 0 (len l)) h)) with (rng tr).
  destruct (range_of_append (rng tr) l h) as (r & vis & -> & R & V); [apply O|].
  eexists. split; [done|].
  assert (len (l ++ [h]) = len l + 1) as Hl by (unfold len; rewrite length_app; simpl; lia).
  destruct (putNodes_cached vis _ _ C) as [CL CI CS]; [by rewrite Hl|].
  split; cbn; [done|lia|done|done|done].
Qed.

Lemma New_ok maxInternal maxLeaf ls : ok (NewBoundedTreeWithStore maxInternal maxLeaf ls) [].
Proof.
  split; cbn; [apply range_of_empty|done|apply Lru.empty_ok|apply Lru.empty_ok|].
  intros i h Hi. done.
Qed.

Lemma Root_ok tr l : ok tr l -> Root tr = Some (MTH l).
Proof.
  intros O. unfold Root. rewrite (ok_size _ _ O). destruct l as [|x l]; [done|].
  rewrite (proj2 (Z.eqb_neq _ _)) by (unfold len; simpl; lia).
  by apply range_of_root; [apply O|].
Qed.

(** *** Proofs that verify *)

Lemma PATH_verifies l i n h :
  0 <= i < n -> n <= len l -> l !! Z.to_nat i = Some h -> len h = HashSize ->
  VerifyInclusion i n h (PATH (Z.to_nat i) (take (Z.to_nat n) l)) (MTH (take (Z.to_nat n) l)) = true.
Proof.
  intros Hi Hn Hh Hl. apply verify_inclusion_complete; [lia|lia|done|].
  unfold RootFromInclusion. rewrite decide_True by lia.
  assert (length (take (Z.to_nat n) l) = Z.to_nat n) as L
    by (rewrite length_take; unfold len in *; lia).
  rewrite <- L at 1 2. apply inclusion_root_path; [done|done|]. rewrite lookup_take_lt by lia. done.
Qed.

Lemma PROOF_verifies l m n :
  0 < m <= n -> n <= len l ->
  VerifyConsistency m n (PROOF (Z.to_nat m) (take (Z.to_nat n) l))
    (MTH (take (Z.to_nat m) l)) (MTH (take (Z.to_nat n) l)) = true.
Proof.
  intros Hm Hn. apply verify_consistency_spec; [lia|lia|].
  unfold RootsFromConsistency. rewrite decide_True by lia.
  assert (length (take (Z.to_nat n) l) = Z.to_nat n) as L
    by (rewrite length_take; unfold len in *; lia).
  assert (take (Z.to_nat m) (take (Z.to_nat n) l) = take (Z.to_nat m) l) as T
    by (rewrite take_take; f_equal; lia).
  rewrite <- L at 1 2. unfold PROOF.
  rewrite consistency_roots_proof; rewrite ?L, ?T; try lia; done.
Qed.
End Tree.

(** *** The in-memory constructors *)
Section Mem.
Context {LH : LogHasher} {CR : CompactRange}.

Definition NewBoundedTree (maxInternalNodes : Z) : t (LSt := memLeafStore) :=
  NewBoundedTreeWithStore (LSt := memLeafStore) maxInternalNodes 0 (∅ : gmap Z bytes).
Definition NewTree : t (LSt := memLeafStore) := NewBoundedTree 0.
End Mem.
End Tree.
