(* ===== verification/RefMerkle.v ===== *)
(** * A reference inhabitant of the merkle library's interface

    A direct implementation of [CompactRange] and [ProofLib] with their laws:
    the hypotheses of the tree's theorems can hold, and the tree can be
    evaluated on concrete inputs, the repository's test vectors among them. *)

From S2P Require Import Prelude Crypto Rfc6962.
From stdpp Require Import base numbers list gmap strings.
From Stdlib Require Import ZArith Lia.

(** ** The range: all leaves, reporting the perfect nodes each one completes *)
Section Range.
Context `{LogHasher}.

Definition completed (n : nat) : list NodeID :=
  map (fun j => NewNodeID j (Z.of_nat (n / 2 ^ j - 1)))
      (filter (fun j => n mod 2 ^ j = 0) (seq 0 (S (Nat.log2 n)))).

#[export] Instance ref_range : CompactRange := {|
  Range := list bytes;
  NewEmptyRange := [];
  RangeEnd l := len l;
  RangeAppend l h :=
    let l' := l ++ [h] in
    Some (l', map (fun id => (id, node_hash l' id)) (completed (length l')));
  GetRootHash l := match l with [] => None | _ => Some (MTH l) end;
|}.

Lemma completed_perfect n id : 0 < n -> id ∈ completed n -> perfect (Z.of_nat n) id.
Proof.
  intros Hn. unfold completed. rewrite list_elem_of_fmap. intros (j & -> & Hj).
  apply list_elem_of_filter in Hj as [Hm Hj]. apply elem_of_seq in Hj.
  assert (2 ^ j <= n).
  { etrans; [apply Nat.pow_le_mono_r; [lia|]|apply Nat.log2_spec; lia]. lia. }
  pose proof (Nat.pow_nonzero 2 j).
  assert (1 <= n / 2 ^ j) by (apply Nat.div_le_lower_bound; lia).
  unfold perfect, Coverage. simpl. split; [lia|].
  replace 2%Z with (Z.of_nat 2) by done. rewrite <- Nat2Z.inj_pow.
  pose proof (Nat.div_mod n (2 ^ j)). nia.
Qed.

#[export] Program Instance ref_range_laws : CompactRangeLaws ref_range := {|
  range_of r l := r = l;
|}.
Next Obligation. done. Qed.
Next Obligation. by intros r l ->. Qed.
Next Obligation.
  intros r l h ->. eexists _, _. split; [done|]. split; [done|].
  intros id x Hin. apply list_elem_of_fmap in Hin as (id' & [= -> ->] & Hid).
  split; [|done]. apply completed_perfect in Hid; [|rewrite length_app; simpl; lia].
  rewrite length_app in Hid. unfold len. simpl in Hid.
  by replace (Z.of_nat (length l) + 1)%Z with (Z.of_nat (length l + 1)) by lia.
Qed.
Next Obligation. intros r [|x l] -> Hl; done. Qed.
End Range.

(** ** Proof nodes: one group of perfect nodes per proof element *)
Section Proofs.
Context `{LogHasher}.

(** The perfect nodes that make up the subtree over [n] leaves from [a]. *)
Fixpoint dec (fuel a n : nat) : list NodeID :=
  match fuel with
  | O => []
  | S f =>
      if decide (n = 2 ^ Nat.log2 n) then [NewNodeID (Nat.log2 n) (Z.of_nat (a / n))]
      else
        let k := ksplit n in
        NewNodeID (Nat.log2 k) (Z.of_nat (a / k)) :: dec f (a + k) (n - k)
  end.

Fixpoint fold1 (hs : list bytes) : bytes :=
  match hs with
  | [] => EmptyRoot
  | [h] => h
  | h :: hs' => HashChildren h (fold1 hs')
  end.

Fixpoint groups_inclusion (fuel i a n : nat) : list (list NodeID) :=
  match fuel with
  | O => []
  | S f =>
      if decide (n <= 1) then []
      else
        let k := ksplit n in
        if decide (i < k) then groups_inclusion f i a k ++ [dec n (a + k) (n - k)]
        else groups_inclusion f (i - k) (a + k) (n - k) ++ [dec n a k]
  end.

Fixpoint groups_consistency (fuel m a n : nat) (b : bool) : list (list NodeID) :=
  match fuel with
  | O => []
  | S f =>
      if decide (n <= m) then (if b then [] else [dec n a n])
      else
        let k := ksplit n in
        if decide (m <= k) then groups_consistency f m a k b ++ [dec n (a + k) (n - k)]
        else groups_consistency f (m - k) (a + k) (n - k) false ++ [dec n a k]
  end.

Fixpoint regroup (gs : list (list NodeID)) (hs : list bytes) : option (list bytes) :=
  match gs with
  | [] => match hs with [] => Some [] | _ => None end
  | g :: gs' =>
      if decide (length hs < length g) then None
      else r ← regroup gs' (drop (length g) hs); Some (fold1 (take (length g) hs) :: r)
  end.

#[export] Instance ref_proofs : ProofLib := {|
  Nodes := list (list NodeID);
  IDs gs := concat gs;
  Inclusion i n :=
    if decide (0 <= i < n)%Z
    then Some (groups_inclusion (Z.to_nat n) (Z.to_nat i) 0 (Z.to_nat n)) else None;
  Consistency m n :=
    if decide (0 < m <= n)%Z
    then Some (groups_consistency (Z.to_nat n) (Z.to_nat m) 0 (Z.to_nat n) true) else None;
  Rehash gs hs := regroup gs hs;
  lib_VerifyInclusion i n h p root :=
    bool_decide (len h = HashSize /\ 0 <= i < n)%Z &&
    bool_decide (RootFromInclusion (Z.to_nat i) (Z.to_nat n) h p = Some root);
  lib_VerifyConsistency m n p r1 r2 :=
    (* everything extends the empty tree *)
    if ((m =? 0) && (0 <? n))%Z then bool_decide (p = []) else
    bool_decide (RootsFromConsistency (Z.to_nat m) (Z.to_nat n) r1 p = Some (r1, r2));
|}.

(** *** Correctness of the groups *)

(** [n] leaves from [a] sit inside one aligned block. *)
Definition aligned (a n : nat) : Prop := exists j, n <= 2 ^ j /\ Nat.divide (2 ^ j) a.

Lemma aligned_split a n :
  2 <= n -> aligned a n -> aligned a (ksplit n) /\ aligned (a + ksplit n) (n - ksplit n).
Proof.
  intros Hn (j & Hj & Hd). destruct (ksplit_spec n Hn) as (K1 & K2 & K3).
  unfold ksplit in *. set (i := Nat.log2 (n - 1)) in *.
  assert (i < j) by (apply (Nat.pow_lt_mono_r_iff 2); lia).
  assert (Nat.divide (2 ^ i) a).
  { etrans; [|exact Hd]. exists (2 ^ (j - i)). rewrite <- Nat.pow_add_r. f_equal. lia. }
  split; exists i; (split; [lia|]); [done|].
  apply Nat.divide_add_r; [done|]. by exists 1; lia.
Qed.

Lemma node_at a j l :
  Nat.divide (2 ^ j) a ->
  node_hash l (NewNodeID j (Z.of_nat (a / 2 ^ j))) = MTH (take (2 ^ j) (drop a l)).
Proof.
  intros [q ->]. pose proof (Nat.pow_nonzero 2 j). rewrite Nat.div_mul by lia.
  unfold node_hash, Coverage, slice. simpl.
  replace 2%Z with (Z.of_nat 2) by done. rewrite <- Nat2Z.inj_pow.
  f_equal. f_equal; [lia|]. f_equal. lia.
Qed.

Lemma node_at_perfect a j n :
  Nat.divide (2 ^ j) a -> a + 2 ^ j <= n ->
  perfect (Z.of_nat n) (NewNodeID j (Z.of_nat (a / 2 ^ j))).
Proof.
  intros [q ->] Hn. pose proof (Nat.pow_nonzero 2 j). rewrite Nat.div_mul by lia.
  unfold perfect, Coverage. simpl. split; [lia|].
  replace 2%Z with (Z.of_nat 2) by done. rewrite <- Nat2Z.inj_pow. nia.
Qed.

Lemma aligned_pow a n : aligned a n -> n = 2 ^ Nat.log2 n -> Nat.divide (2 ^ Nat.log2 n) a.
Proof.
  intros (j & Hj & Hd) E. etrans; [|exact Hd]. rewrite E in Hj.
  assert (Nat.log2 n <= j) by (apply (Nat.pow_le_mono_r_iff 2); lia).
  exists (2 ^ (j - Nat.log2 n)). rewrite <- Nat.pow_add_r. f_equal. lia.
Qed.

Lemma dec_spec fuel a n l :
  1 <= n <= fuel -> aligned a n -> a + n <= length l ->
  dec fuel a n <> [] /\ Forall (perfect (Z.of_nat (a + n))) (dec fuel a n) /\
  fold1 (map (node_hash l) (dec fuel a n)) = MTH (take n (drop a l)).
Proof.
  revert a n. induction fuel as [|f IH]; intros a n Hn A Hl; [lia|].
  cbn [dec]. destruct (decide (n = 2 ^ Nat.log2 n)) as [E|E].
  - pose proof (aligned_pow a n A E) as D. split; [done|].
    assert (NewNodeID (Nat.log2 n) (Z.of_nat (a / n))
            = NewNodeID (Nat.log2 n) (Z.of_nat (a / 2 ^ Nat.log2 n))) as -> by by rewrite <- E.
    split.
    + apply Forall_singleton, node_at_perfect; [done|]. lia.
    + simpl. rewrite (node_at a _ l D). by rewrite <- E.
  - assert (2 <= n) by (destruct n as [|[|n]]; [lia|done|lia]).
    destruct (aligned_split a n ltac:(done) A) as [A1 A2].
    destruct (ksplit_spec n ltac:(done)) as (K1 & K2 & K3).
    assert (Nat.log2 (ksplit n) = Nat.log2 (n - 1)) as Hk
      by (unfold ksplit; by rewrite Nat.log2_pow2 by lia).
    assert (Nat.divide (2 ^ Nat.log2 (n - 1)) a) as D.
    { rewrite <- Hk. apply (aligned_pow _ _ A1). by rewrite Hk. }
    destruct (IH (a + ksplit n) (n - ksplit n)) as (N & F & M); [lia|done|lia|].
    rewrite Hk.
    replace (Z.of_nat (a / ksplit n)) with (Z.of_nat (a / 2 ^ Nat.log2 (n - 1))) by done.
    split; [done|]. split.
    + apply Forall_cons. split.
      * apply node_at_perfect; [done|]. change (2 ^ Nat.log2 (n - 1)) with (ksplit n). lia.
      * by replace (a + n) with (a + ksplit n + (n - ksplit n)) by lia.
    + cbn [map fold1]. destruct (dec f (a + ksplit n) (n - ksplit n)) as [|x xs]; [done|].
      cbn [map] in *. rewrite M, (node_at a _ l D).
      rewrite (MTH_split (take n (drop a l))); rewrite length_take, length_drop, Nat.min_l by lia;
        [|lia].
      f_equal.
      * rewrite take_take. f_equal. f_equal. unfold ksplit in *. lia.
      * f_equal. by rewrite skipn_firstn_comm, drop_drop.
Qed.

Definition group_hash (l : list bytes) (g : list NodeID) : bytes := fold1 (map (node_hash l) g).

Lemma regroup_concat l gs :
  regroup gs (map (node_hash l) (concat gs)) = Some (map (group_hash l) gs).
Proof.
  induction gs as [|g gs IH]; [done|]. cbn [regroup concat map]. rewrite map_app.
  rewrite decide_False by (rewrite length_app, length_map; lia).
  by rewrite take_app_length', drop_app_length', IH by by rewrite length_map.
Qed.

Lemma perfect_mono n m id : (n <= m)%Z -> perfect n id -> perfect m id.
Proof. unfold perfect. lia. Qed.

(** Two neighbouring parts of a block of leaves. *)
Lemma sub_take {A} k a n (l : list A) : k <= n -> take k (take n (drop a l)) = take k (drop a l).
Proof. intros. by rewrite take_take, Nat.min_l by lia. Qed.
Lemma sub_drop {A} k a n (l : list A) : drop k (take n (drop a l)) = take (n - k) (drop (a + k) l).
Proof. by rewrite skipn_firstn_comm, drop_drop. Qed.

Lemma groups_inclusion_spec f g i a n l :
  i < n -> n <= f -> n <= g -> aligned a n -> a + n <= length l ->
  Forall (Forall (perfect (Z.of_nat (a + n)))) (groups_inclusion f i a n) /\
  map (group_hash l) (groups_inclusion f i a n) = path_aux g i (take n (drop a l)).
Proof.
  revert g i a n. induction f as [|f IH]; intros g i a n Hi Hf Hg A Hl; [lia|].
  destruct g as [|g]; [lia|]. cbn [groups_inclusion path_aux].
  assert (length (take n (drop a l)) = n) as Hn by (rewrite length_take, length_drop; lia).
  rewrite Hn. destruct (decide (n <= 1)); [done|].
  destruct (ksplit_spec n ltac:(lia)) as (K1 & K2 & K3).
  destruct (aligned_split a n ltac:(lia) A) as [A1 A2].
  destruct (decide (i < ksplit n)); rewrite map_app, Forall_app, Forall_singleton; cbn [map].
  - destruct (IH g i a (ksplit n)) as [F M]; [lia|lia|lia|done|lia|].
    destruct (dec_spec n (a + ksplit n) (n - ksplit n) l) as (_ & F' & M'); [lia|done|lia|].
    split; [split|].
    + eapply Forall_impl; [exact F|]. intros gr Hgr. eapply Forall_impl; [exact Hgr|].
      intros id. apply perfect_mono. lia.
    + by replace (a + n) with (a + ksplit n + (n - ksplit n)) by lia.
    + rewrite M, sub_take, sub_drop by lia. unfold group_hash. by rewrite M'.
  - destruct (IH g (i - ksplit n) (a + ksplit n) (n - ksplit n)) as [F M]; [lia|lia|lia|done|lia|].
    destruct (dec_spec n a (ksplit n) l) as (_ & F' & M'); [lia|done|lia|].
    split; [split|].
    + by replace (a + n) with (a + ksplit n + (n - ksplit n)) by lia.
    + eapply Forall_impl; [exact F'|]. intros id. apply perfect_mono. lia.
    + rewrite M, sub_take, sub_drop by lia. unfold group_hash. by rewrite M'.
Qed.

Lemma groups_consistency_spec f g m a n b l :
  1 <= m <= n -> n <= f -> n <= g -> aligned a n -> a + n <= length l ->
  Forall (Forall (perfect (Z.of_nat (a + n)))) (groups_consistency f m a n b) /\
  map (group_hash l) (groups_consistency f m a n b) = subproof g m (take n (drop a l)) b.
Proof.
  revert g m a n b. induction f as [|f IH]; intros g m a n b Hm Hf Hg A Hl; [lia|].
  destruct g as [|g]; [lia|]. cbn [groups_consistency subproof].
  assert (length (take n (drop a l)) = n) as Hn by (rewrite length_take, length_drop; lia).
  rewrite Hn. destruct (decide (n <= m)).
  { destruct b; [done|]. destruct (dec_spec n a n l) as (_ & F' & M'); [lia|done|lia|].
    split; [by apply Forall_singleton|]. unfold group_hash. cbn [map]. by rewrite M'. }
  destruct (ksplit_spec n ltac:(lia)) as (K1 & K2 & K3).
  destruct (aligned_split a n ltac:(lia) A) as [A1 A2].
  destruct (decide (m <= ksplit n)); rewrite map_app, Forall_app, Forall_singleton; cbn [map].
  - destruct (IH g m a (ksplit n) b) as [F M]; [lia|lia|lia|done|lia|].
    destruct (dec_spec n (a + ksplit n) (n - ksplit n) l) as (_ & F' & M'); [lia|done|lia|].
    split; [split|].
    + eapply Forall_impl; [exact F|]. intros gr Hgr. eapply Forall_impl; [exact Hgr|].
      intros id. apply perfect_mono. lia.
    + by replace (a + n) with (a + ksplit n + (n - ksplit n)) by lia.
    + rewrite M, sub_take, sub_drop by lia. unfold group_hash. by rewrite M'.
  - destruct (IH g (m - ksplit n) (a + ksplit n) (n - ksplit n) false) as [F M];
      [lia|lia|lia|done|lia|].
    destruct (dec_spec n a (ksplit n) l) as (_ & F' & M'); [lia|done|lia|].
    split; [split|].
    + by replace (a + n) with (a + ksplit n + (n - ksplit n)) by lia.
    + eapply Forall_impl; [exact F'|]. intros id. apply perfect_mono. lia.
    + rewrite M, sub_take, sub_drop by lia. unfold group_hash. by rewrite M'.
Qed.

Lemma aligned_zero n : aligned 0 n.
Proof. exists n. split; [apply Nat.lt_le_incl, Nat.pow_gt_lin_r; lia|apply Nat.divide_0_r]. Qed.

Lemma Forall_concat' {A} (P : A -> Prop) ls : Forall (Forall P) ls -> Forall P (concat ls).
Proof. induction 1; simpl; [constructor|]. by apply Forall_app. Qed.

Lemma inclusion_groups (i n : Z) gs l :
  Inclusion i n = Some gs -> len l = n ->
  Forall (Forall (perfect n)) gs /\ map (group_hash l) gs = PATH (Z.to_nat i) l.
Proof.
  cbn. case_decide; [|done]. intros [= <-] Hl. unfold len in Hl.
  destruct (groups_inclusion_spec (Z.to_nat n) (Z.to_nat n) (Z.to_nat i) 0 (Z.to_nat n) l)
    as [F M]; [lia|lia|lia|apply aligned_zero|lia|].
  rewrite drop_0, take_ge in M by lia. split.
  - by replace n with (Z.of_nat (0 + Z.to_nat n)) at 1 by lia.
  - unfold PATH. by replace (length l) with (Z.to_nat n) by lia.
Qed.

Lemma consistency_groups (m n : Z) gs l :
  Consistency m n = Some gs -> len l = n ->
  Forall (Forall (perfect n)) gs /\ map (group_hash l) gs = PROOF (Z.to_nat m) l.
Proof.
  cbn. case_decide; [|done]. intros [= <-] Hl. unfold len in Hl.
  destruct (groups_consistency_spec (Z.to_nat n) (Z.to_nat n) (Z.to_nat m) 0 (Z.to_nat n) true l)
    as [F M]; [lia|lia|lia|apply aligned_zero|lia|].
  rewrite drop_0, take_ge in M by lia. split.
  - by replace n with (Z.of_nat (0 + Z.to_nat n)) at 1 by lia.
  - unfold PROOF. by replace (length l) with (Z.to_nat n) by lia.
Qed.

#[export] Instance ref_proofs_laws : ProofLibLaws ref_proofs.
Proof.
  assert (forall n : Z, (0 <= n)%Z -> exists l : list bytes, len l = n) as mk_leaves.
  { intros n Hn. exists (replicate (Z.to_nat n) []). unfold len. rewrite length_replicate. lia. }
  split.
  - intros i n Hi. cbn. rewrite decide_True by done. eauto.
  - intros i n nd. cbn. case_decide; done.
  - intros i n nd E. destruct (mk_leaves n) as [l Hl]; [cbn in E; case_decide; [lia|done]|].
    apply Forall_concat'. by eapply inclusion_groups.
  - intros i n nd l E Hl. cbn [Rehash IDs ref_proofs]. rewrite regroup_concat.
    by rewrite (proj2 (inclusion_groups i n nd l E Hl)).
  - intros m n Hm. cbn. rewrite decide_True by lia. eauto.
  - intros m n nd Hm E. destruct (mk_leaves n) as [l Hl]; [lia|].
    apply Forall_concat'. by eapply consistency_groups.
  - intros m n nd l Hm E Hl. cbn [Rehash IDs ref_proofs]. rewrite regroup_concat.
    by rewrite (proj2 (consistency_groups m n nd l E Hl)).
  - intros i n h p root Hi Hn. cbn. intros [_ E]%andb_true_iff. by apply bool_decide_eq_true in E.
  - intros i n h p root Hi Hn Hh E. cbn. apply andb_true_iff. split; apply bool_decide_eq_true; [|done].
    split; [done|]. unfold RootFromInclusion in E. case_decide; [lia|done].
  - intros m n p r1 r2 Hm _. cbn. rewrite (proj2 (Z.eqb_neq m 0)) by lia. cbn. apply bool_decide_eq_true.
Qed.
End Proofs.
