(* ===== verification/MerkleProps.v ===== *)
(** * The Merkle tree: what its callers rely on

    The in-memory tree as a step system (appends and proof queries in any
    order), and the theorems about the roots and proofs it hands out. *)

From S2P Require Import Prelude Crypto Rfc6962 Merkle RefMerkle.
From stdpp Require Import base numbers list gmap strings.
From Stdlib Require Import ZArith Lia.

#[local] Open Scope Z_scope.

(** ** Where a SHA-256 collision would have to be

    With the RFC's hasher a pair of children is hashed as one message; pairs of
    full-size hashes give different messages when they differ. *)
Definition node_msg (p : bytes * bytes) : bytes := Byte.x01 :: p.1 ++ p.2.

Definition sha_collides (ps qs : list (bytes * bytes)) : Prop :=
  exists p q, p ∈ ps /\ q ∈ qs /\ collision (node_msg p) (node_msg q).

Definition sized (h : bytes) : Prop := len h = HashSize.

(** At least one child has the size of a hash: the seed the verifier computed. *)
Definition half_sized (p : bytes * bytes) : Prop := sized p.1 \/ sized p.2.

Lemma node_msg_inj p q : half_sized p -> sized q.1 -> sized q.2 -> node_msg p = node_msg q -> p = q.
Proof.
  destruct p as [a b], q as [c d]. unfold half_sized, sized, HashSize, len. simpl.
  intros Hp Hc Hd [= E].
  assert (length a = length c) as L.
  { apply (f_equal length) in E as L. rewrite !length_app in L. lia. }
  by apply app_inj_len in E as [-> ->].
Qed.

Lemma collides_sha ps qs :
  collides ps qs -> Forall half_sized ps -> Forall (fun q => sized q.1 /\ sized q.2) qs ->
  sha_collides ps qs.
Proof.
  intros (p & q & Hp & Hq & N & E) Fp Fq. exists p, q. split_and!; [done|done|].
  rewrite Forall_forall in Fp, Fq. split; [|exact E].
  intros M. apply N, node_msg_inj; [by apply Fp|by apply Fq|by apply Fq|done].
Qed.

Lemma HashChildren_sized a b : sized (HashChildren a b).
Proof. unfold sized, len. cbn. by rewrite sha256_length. Qed.

Lemma MTH_sized l : l <> [] -> Forall sized l -> sized (MTH l).
Proof.
  intros Hl F. destruct l as [|x [|y l]]; [done|by apply Forall_inv in F|].
  rewrite MTH_split by (simpl; lia). apply HashChildren_sized.
Qed.

Lemma tree_pairs_sized f l :
  Forall sized l -> Forall (fun q => sized q.1 /\ sized q.2) (tree_pairs f l).
Proof.
  revert l. induction f as [|f IH]; intros l F; cbn [tree_pairs]; [constructor|].
  case_decide as D; [constructor|].
  destruct (ksplit_spec (length l) ltac:(lia)) as (K1 & K2 & K3).
  assert (Forall sized (take (ksplit (length l)) l)) by by apply Forall_take.
  assert (Forall sized (drop (ksplit (length l)) l)) by by apply Forall_drop.
  apply Forall_cons. split; [|apply Forall_app; split; by apply IH].
  split; apply MTH_sized; try done;
    intros E%(f_equal length); rewrite ?length_take, ?length_drop in E; simpl in E; lia.
Qed.

Lemma inclusion_root_sized f i n h rp r :
  sized h -> inclusion_root f i n h rp = Some r -> sized r.
Proof.
  intros Hh. destruct f as [|f]; [done|]. cbn [inclusion_root].
  case_decide; [by destruct rp; intros [= <-]|]. destruct rp as [|s rp]; [done|].
  case_decide; intros (w & _ & [= <-])%bind_Some; apply HashChildren_sized.
Qed.

Lemma inclusion_pairs_sized f i n h rp :
  sized h -> Forall half_sized (inclusion_pairs f i n h rp).
Proof.
  intros Hh. revert i n rp. induction f as [|f IH]; intros i n rp; cbn [inclusion_pairs]; [constructor|].
  case_decide; [constructor|]. destruct rp as [|s rp]; [constructor|].
  case_decide; case_match eqn:E; constructor; try apply IH;
    apply inclusion_root_sized in E; [by left|done|by right|done].
Qed.

Lemma sha_collides_below p q ps qs rs : sha_collides ps qs \/ sha_collides ps rs -> sha_collides (p :: ps) (q :: qs ++ rs).
Proof.
  intros [(x & y & Hp & Hq & X)|(x & y & Hp & Hq & X)]; exists x, y;
    (split_and!; [by right|right; apply elem_of_app; auto|done]).
Qed.

Lemma pair_or_collides a b c d :
  HashChildren a b = HashChildren c d -> half_sized (a, b) -> sized c -> sized d ->
  (a = c /\ b = d) \/ forall ps qs, sha_collides ((a, b) :: ps) ((c, d) :: qs).
Proof.
  intros E Hs Hc Hd. destruct (decide (node_msg (a, b) = node_msg (c, d))) as [M|M].
  - left. by apply node_msg_inj in M as [= -> ->].
  - right. intros ps qs. exists (a, b), (c, d). split_and!; [left|left|by split].
Qed.

(** Above the seed of a consistency proof the verifier holds hashes it computed
    itself. *)
Lemma consistency_roots_sized f m n b old rp o w :
  (m < n)%nat -> consistency_roots f m n b old rp = Some (o, w) -> sized w.
Proof.
  intros L. destruct f as [|f]; [done|]. cbn [consistency_roots]. rewrite decide_False by lia.
  destruct rp as [|s rp]; [done|].
  case_decide; intros ([o' w'] & _ & [= <- <-])%bind_Some; apply HashChildren_sized.
Qed.

(** At the seed both roots are the same. *)
Lemma consistency_roots_seed f m n b old rp o w :
  (n <= m)%nat -> consistency_roots f m n b old rp = Some (o, w) -> w = o.
Proof.
  intros L. destruct f as [|f]; [done|]. cbn [consistency_roots]. rewrite decide_True by lia.
  by destruct b, rp as [|x [|]]; intros [= <- <-].
Qed.

Lemma consistency_pairs_seed f m n b old rp : (n <= m)%nat -> consistency_pairs f m n b old rp = [].
Proof. intros L. destruct f as [|f]; [done|]. cbn. by rewrite decide_True by lia. Qed.

(** The seed is the proof's own, of any length; but it is the hash of a subtree
    of the old tree, or one of the pairs hashed above it collides. *)
Lemma consistency_pairs_sized f g1 g2 m l la b old rp :
  (1 <= m < length l)%nat -> length la = m -> Forall sized l -> Forall sized la ->
  (length l <= f)%nat -> (length l <= g1)%nat -> (m <= g2)%nat ->
  consistency_roots f m (length l) b old rp = Some (MTH la, MTH l) ->
  Forall half_sized (consistency_pairs f m (length l) b old rp) \/
  sha_collides (consistency_pairs f m (length l) b old rp) (tree_pairs g1 l) \/
  sha_collides (old_pairs f m (length l) b old rp) (tree_pairs g2 la).
Proof.
  remember (length l) as n eqn:Hn. revert f g1 g2 m l la b rp Hn.
  induction (lt_wf n) as [n _ IH]; intros f g1 g2 m l la b rp Hn Hm La Fl Fa Hf Hg1 Hg2 E.
  destruct f as [|f]; [lia|]. destruct g1 as [|g1]; [lia|].
  cbn [consistency_roots consistency_pairs old_pairs] in *.
  rewrite decide_False in E by lia. rewrite !decide_False by lia.
  destruct (ksplit_spec n ltac:(lia)) as (K1 & K2 & K3).
  assert (ksplit n = 2 ^ Nat.log2 (n - 1))%nat as Kp by done. set (k := ksplit n) in *.
  assert (sized (MTH (take k l)) /\ sized (MTH (drop k l))) as [St Sd].
  { split; (apply MTH_sized; [intros X%(f_equal length); rewrite ?length_take, ?length_drop in X; simpl in X; lia|]);
      [by apply Forall_take|by apply Forall_drop]. }
  assert (sized (MTH la)) as Sa by (apply MTH_sized; [intros ->; simpl in La; lia|done]).
  assert (tree_pairs (S g1) l = (MTH (take k l), MTH (drop k l)) :: tree_pairs g1 (take k l) ++ tree_pairs g1 (drop k l))
    as Tp by (cbn [tree_pairs]; rewrite <- Hn, decide_False by lia; done).
  destruct rp as [|s rp]; [done|]. rewrite (MTH_split l), <- Hn in E by lia. fold k in E.
  destruct (decide (m <= k)%nat) as [D|D].
  - destruct (consistency_roots f m k b old rp) as [[o w]|] eqn:R; [|done]. apply (inj Some), pair_equal_spec in E as [-> E].
    destruct (decide (k <= m)%nat) as [D'|D'].
    { left. rewrite consistency_pairs_seed by done. apply Forall_singleton. left.
      by rewrite (consistency_roots_seed _ _ _ _ _ _ _ _ D' R). }
    assert (sized w) as Sw by (eapply consistency_roots_sized; [|exact R]; lia). rewrite Tp.
    destruct (pair_or_collides _ _ _ _ E) as [[-> ->]|X]; [by left|done|done| |right; left; apply X].
    destruct (IH k ltac:(lia) f g1 g2 m (take k l) la b rp) as [F|[X|X]];
      rewrite ?length_take; try lia; try done; [by apply Forall_take|..].
    + left. apply Forall_cons. split; [by left|done].
    + right; left. apply sha_collides_below. by left.
    + by right; right.
  - destruct (consistency_roots f (m - k) (n - k) false old rp) as [[o w]|] eqn:R; [|done].
    apply (inj Some), pair_equal_spec in E as [Eo E].
    assert (sized w) as Sw by (eapply consistency_roots_sized; [|exact R]; lia). rewrite Tp.
    destruct (pair_or_collides _ _ _ _ E) as [[-> ->]|X]; [by right|done|done| |right; left; apply X].
    assert (ksplit m = k) as Km by (rewrite Kp; apply ksplit_unique; lia).
    destruct g2 as [|g2]; [lia|].
    assert (tree_pairs (S g2) la = (MTH (take k la), MTH (drop k la)) :: tree_pairs g2 (take k la) ++ tree_pairs g2 (drop k la))
      as Ta by (cbn [tree_pairs]; rewrite La, Km, decide_False by lia; done).
    rewrite (MTH_split la), La, Km in Eo by lia. rewrite Ta.
    destruct (pair_or_collides _ _ _ _ Eo) as [[Et ->]|X]; [by left| | | |right; right; apply X].
    1-2: apply MTH_sized; [intros X%(f_equal length); rewrite ?length_take, ?length_drop in X; simpl in X; lia|];
      first [by apply Forall_take|by apply Forall_drop].
    destruct (IH (n - k)%nat ltac:(lia) f g1 g2 (m - k)%nat (drop k l) (drop k la) false rp) as [F|[X|X]];
      rewrite ?length_drop; try lia; try done; [by apply Forall_drop|by apply Forall_drop|..].
    + left. apply Forall_cons. split; [by right|done].
    + right; left. apply sha_collides_below. by right.
    + right; right. apply sha_collides_below. by right.
Qed.

(** Where a consistency proof can hide a change: a node hashed by the verifier
    against the newer or the older tree, or nodes of the two trees. *)
Definition consistency_collides (l1 l2 p : list bytes) : Prop :=
  sha_collides (consistency_pairs (length l2) (length l1) (length l2) true (MTH l1) (rev p)) (tree_pairs (length l2) l2) \/
  sha_collides (old_pairs (length l2) (length l1) (length l2) true (MTH l1) (rev p)) (tree_pairs (length l1) l1) \/
  sha_collides (tree_pairs (length l1) l1) (tree_pairs (length l1) (take (length l1) l2)).

(** ** What proof queries leave alone

    A projection of the tree that node lookups keep, every query keeps. *)
Section Keeps.
Context {LH : LogHasher} {CR : CompactRange} {PL : ProofLib} {LSt : LeafStore}.
Context {X : Type} (f : Tree.t -> X).

Definition keeps {A} (m : stm Tree.t A) : Prop :=
  forall tr tr' r, m tr = (tr', r) -> f tr' = f tr.

Lemma keeps_ret {A} (x : A) : keeps (st_ret x).
Proof. by intros tr tr' r [= <- <-]. Qed.
Lemma keeps_err {A} e : keeps (@st_err _ A e).
Proof. by intros tr tr' r [= <- <-]. Qed.
Lemma keeps_bind {A B} (m : stm Tree.t A) (k : A -> stm Tree.t B) :
  keeps m -> (forall a, keeps (k a)) -> keeps (st_bind m k).
Proof.
  intros Hm Hk tr tr' r. unfold st_bind. destruct (m tr) as [tr1 [a|e]] eqn:E; intros E2.
  - etrans; [by eapply Hk|by eapply Hm].
  - injection E2 as <- _. by eapply Hm.
Qed.
Lemma keeps_wrap {A} s (m : stm Tree.t A) : keeps m -> keeps (st_wrap s m).
Proof.
  intros Hm tr tr' r. unfold st_wrap. destruct (m tr) as [tr1 x] eqn:E. intros [= <- _].
  by eapply Hm.
Qed.

Context (node : forall id, keeps (Tree.nodeHash id)).

Create HintDb keeps.
#[local] Hint Resolve keeps_ret keeps_err keeps_bind keeps_wrap node : keeps.

Lemma subRoot_keeps fuel b e : keeps (Tree.subRoot fuel b e).
Proof.
  revert b e. induction fuel as [|fuel IH]; intros b e; cbn [Tree.subRoot]; [auto with keeps|].
  destruct (b + 1 =? e); [apply keeps_bind; [auto with keeps|intros []; auto with keeps]|].
  apply keeps_bind; [apply IH|intros x]. apply keeps_bind; [apply IH|auto with keeps].
Qed.

Lemma computeNode_keeps id : keeps (Tree.computeNode id).
Proof.
  intros tr tr' r. unfold Tree.computeNode. destruct (Coverage id) as [b e].
  case_match; [by intros [= <- _]|]. apply subRoot_keeps.
Qed.

Lemma fetch_keeps ids : keeps (Tree.fetch ids).
Proof.
  induction ids as [|id ids IH]; cbn [Tree.fetch]; [auto with keeps|].
  apply keeps_bind; [auto with keeps|]. intros o.
  apply keeps_bind; [destruct o; auto using computeNode_keeps with keeps|].
  intros h. apply keeps_bind; auto with keeps.
Qed.

Lemma materialise_keeps nd : keeps (Tree.materialise nd).
Proof. apply keeps_bind; [apply fetch_keeps|intros hs; case_match; auto with keeps]. Qed.

Lemma InclusionProof_keeps i n : keeps (Tree.InclusionProof i n).
Proof.
  intros tr tr' r. unfold Tree.InclusionProof.
  repeat case_match; try (by intros [= <- _]). apply materialise_keeps.
Qed.

Lemma ConsistencyProof_keeps m n : keeps (Tree.ConsistencyProof m n).
Proof.
  intros tr tr' r. unfold Tree.ConsistencyProof.
  repeat case_match; try (by intros [= <- _]). apply materialise_keeps.
Qed.
End Keeps.

(** *** The configured bounds *)
Section Caps.
Context {LH : LogHasher} {CR : CompactRange} {PL : ProofLib} {LSt : LeafStore}.

Definition caps (tr : Tree.t) : Z * Z := (Lru.cap (Tree.leaves tr), Lru.cap (Tree.internal tr)).

Lemma hit_cap {K V} `{Countable K} (c : Lru.t K V) k v c' :
  Lru.hit c k = Some (v, c') -> Lru.cap c' = Lru.cap c.
Proof. unfold Lru.hit. repeat case_match; naive_solver. Qed.

Lemma putLeaf_caps tr i h : caps (Tree.putLeaf tr i h) = caps tr.
Proof. unfold caps. cbn. by rewrite Lru.put_cap. Qed.

Lemma putNode_caps tr id h : caps (Tree.putNode tr id h) = caps tr.
Proof.
  unfold Tree.putNode. case_match; [apply putLeaf_caps|]. unfold caps. cbn. by rewrite Lru.put_cap.
Qed.

Lemma nodeHash_caps id : keeps caps (Tree.nodeHash id).
Proof.
  intros tr tr' r. unfold Tree.nodeHash. destruct (Nat.eqb (Level id) 0).
  - destruct (Lru.hit _ _) as [[h c]|] eqn:E.
    + intros [= <- _]. unfold caps. cbn. by rewrite (hit_cap _ _ _ _ E).
    + destruct (GetLeafHash _ _) as [[h|]|e]; intros [= <- _]; [apply putLeaf_caps|done|done].
  - destruct (Lru.hit _ _) as [[h c]|] eqn:E; intros [= <- _]; [|done].
    unfold caps. cbn. by rewrite (hit_cap _ _ _ _ E).
Qed.

Lemma AppendLeafHash_caps tr h tr' i : Tree.AppendLeafHash tr h = Some (tr', i) -> caps tr' = caps tr.
Proof.
  unfold Tree.AppendLeafHash. destruct (RangeAppend _ _) as [[r vis]|]; [|done]. intros [= <- _].
  set (tr1 := Tree.putNode _ _ _). transitivity (caps tr1); [|apply putNode_caps].
  generalize tr1. clear. induction vis as [|[id x] vis IH]; intros tr; [done|].
  simpl. etrans; [apply IH|apply putNode_caps].
Qed.
End Caps.

(** *** The invariant *)
Section Queries.
Context {LH : LogHasher} {CR : CompactRange} {PL : ProofLib} {LSt : LeafStore}.
Context `{CRL : !CompactRangeLaws CR} `{PLL : !ProofLibLaws PL} `{LSL : !LeafStoreLaws LSt}.

Lemma InclusionProof_keeps_ok (tr : Tree.t) l i n tr' r :
  Tree.ok tr l -> Tree.InclusionProof i n tr = (tr', r) -> Tree.ok tr' l.
Proof.
  intros O E. destruct (decide (0 <= i < n /\ n <= len l)) as [[Hi Hn]|Hn].
  - destruct (Tree.InclusionProof_ok tr l i n O Hi Hn) as (? & E' & ?). congruence.
  - unfold Tree.InclusionProof in E. rewrite (Tree.ok_size _ _ O) in E.
    destruct (Z.ltb_spec (len l) n); [congruence|].
    destruct (Inclusion i n) as [nd|] eqn:En; [|congruence].
    apply inclusion_range in En. lia.
Qed.

Lemma ConsistencyProof_keeps_ok (tr : Tree.t) l m n tr' r :
  0 <= m -> Tree.ok tr l -> Tree.ConsistencyProof m n tr = (tr', r) -> Tree.ok tr' l.
Proof.
  intros Hm O E. destruct (decide (0 < m <= n /\ n <= len l)) as [[Hi Hn]|Hn].
  - destruct (Tree.ConsistencyProof_ok tr l m n O Hi Hn) as (? & E' & ?). congruence.
  - unfold Tree.ConsistencyProof in E. rewrite (Tree.ok_size _ _ O) in E.
    destruct (Z.ltb_spec n m); [congruence|]. destruct (Z.ltb_spec (len l) n); [congruence|].
    destruct (Z.eqb_spec m 0); [simpl in E; congruence|lia].
Qed.
End Queries.

(** ** The in-memory tree as a step system *)
Section Mem.
Context {CR : CompactRange} {PL : ProofLib}.

Abbreviation tree := (Tree.t (LSt := memLeafStore)).

(** Every state reachable from an empty tree by appends and proof queries,
    with the leaf hashes appended so far. *)
Inductive reach (maxInternal maxLeaf : Z) : tree -> list bytes -> Prop :=
| reach_new :
    reach maxInternal maxLeaf
      (Tree.NewBoundedTreeWithStore (LSt := memLeafStore) maxInternal maxLeaf (∅ : gmap Z bytes)) []
| reach_append tr l h tr' idx :
    reach maxInternal maxLeaf tr l -> len l + 1 < 2 ^ 63 ->
    Tree.AppendLeafHash tr h = Some (tr', idx) ->
    reach maxInternal maxLeaf tr' (l ++ [h])
| reach_inclusion tr l i n tr' r :
    reach maxInternal maxLeaf tr l -> Tree.InclusionProof i n tr = (tr', r) ->
    reach maxInternal maxLeaf tr' l
| reach_consistency tr l m n tr' r :
    reach maxInternal maxLeaf tr l -> 0 <= m -> Tree.ConsistencyProof m n tr = (tr', r) ->
    reach maxInternal maxLeaf tr' l.

Context `{CRL : !CompactRangeLaws CR} `{PLL : !ProofLibLaws PL}.

Lemma reach_ok mi ml tr l : reach mi ml tr l -> Tree.ok tr l.
Proof.
  induction 1 as [|tr l h tr' idx R O B E|tr l i n tr' r R O E|tr l m n tr' r R O Hm E].
  - apply Tree.New_ok.
  - destruct (Tree.AppendLeafHash_ok tr l h O B) as (tr2 & E2 & O2); [|congruence].
    apply mem_put_next, O.
  - by eapply InclusionProof_keeps_ok.
  - by eapply ConsistencyProof_keeps_ok.
Qed.

Lemma reach_caps mi ml tr l : reach mi ml tr l -> caps tr = (ml, mi).
Proof.
  induction 1 as [|tr l h tr' idx R IH B E|tr l i n tr' r R IH E|tr l m n tr' r R IH Hm E];
    [done|..]; rewrite <- IH.
  - by eapply AppendLeafHash_caps.
  - by eapply (InclusionProof_keeps caps nodeHash_caps).
  - by eapply (ConsistencyProof_keeps caps nodeHash_caps).
Qed.

(** C2. Whatever the cache bounds, and in whatever order appends and proof
    queries arrive, the tree is the RFC 6962 tree of the appended leaves: its
    size and root are theirs, and both caches stay within their bounds (a
    bound of 0 means unbounded). *)
Theorem tree_refines_rfc6962 maxInternal maxLeaf tr l :
  reach maxInternal maxLeaf tr l ->
  Tree.Size tr = len l /\ Tree.Root tr = Some (MTH l) /\
  (0 < maxLeaf -> (Tree.CacheSize tr).1 <= maxLeaf) /\
  (0 < maxInternal -> (Tree.CacheSize tr).2 <= maxInternal).
Proof.
  intros R. pose proof (reach_ok _ _ _ _ R) as O. pose proof (reach_caps _ _ _ _ R) as [= <- <-].
  split_and!; [by apply Tree.ok_size|by apply Tree.Root_ok|apply O|apply O].
Qed.

(** C5. Inclusion proofs are complete: for every leaf of every past tree size,
    and with any eviction state of the two caches, [InclusionProof] returns a
    proof that [VerifyInclusion] accepts against that size's root. *)
Theorem inclusion_proof_complete maxInternal maxLeaf tr l i n h :
  reach maxInternal maxLeaf tr l -> 0 <= i < n -> n <= len l ->
  l !! Z.to_nat i = Some h -> sized h ->
  exists tr' p, Tree.InclusionProof i n tr = (tr', Ok p) /\
    Tree.VerifyInclusion i n h p (MTH (take (Z.to_nat n) l)) = true /\
    reach maxInternal maxLeaf tr' l.
Proof.
  intros R Hi Hn Hh Hs.
  destruct (Tree.InclusionProof_ok tr l i n (reach_ok _ _ _ _ R) Hi Hn) as (tr' & E & O).
  exists tr', (PATH (Z.to_nat i) (take (Z.to_nat n) l)).
  split_and!; [done|by apply Tree.PATH_verifies|by eapply reach_inclusion].
Qed.

(** C6. Consistency proofs are complete: for any two past sizes, the old not
    empty, [ConsistencyProof] returns a proof that [VerifyConsistency] accepts
    against the two roots. *)
Theorem consistency_proof_complete maxInternal maxLeaf tr l m n :
  reach maxInternal maxLeaf tr l -> 0 < m <= n -> n <= len l ->
  exists tr' p, Tree.ConsistencyProof m n tr = (tr', Ok p) /\
    Tree.VerifyConsistency m n p (MTH (take (Z.to_nat m) l)) (MTH (take (Z.to_nat n) l)) = true /\
    reach maxInternal maxLeaf tr' l.
Proof.
  intros R Hm Hn.
  destruct (Tree.ConsistencyProof_ok tr l m n (reach_ok _ _ _ _ R) Hm Hn) as (tr' & E & O).
  exists tr', (PROOF (Z.to_nat m) (take (Z.to_nat n) l)).
  split_and!; [done|by apply Tree.PROOF_verifies|eapply reach_consistency; [done| |done]; lia].
Qed.

(** *** Soundness *)

Lemma inclusion_sound l i h p :
  0 <= i -> Forall sized l -> sized h ->
  Tree.VerifyInclusion i (len l) h p (MTH l) = true ->
  l !! Z.to_nat i = Some h \/
  sha_collides (inclusion_pairs (length l) (Z.to_nat i) (length l) h (rev p))
    (tree_pairs (length l) l).
Proof.
  intros Hi F Hh V. unfold Tree.VerifyInclusion in V.
  apply verify_inclusion_sound in V; [|done|unfold len; lia].
  unfold RootFromInclusion, len in V. rewrite Nat2Z.id in V. case_decide as D; [|done].
  destruct (inclusion_root_sound (length l) (length l) (Z.to_nat i) l h (rev p)) as [?|C];
    [lia|lia|lia|done|by left|right].
  apply collides_sha; [done|by apply inclusion_pairs_sized|by apply tree_pairs_sized].
Qed.

Lemma MTH_eq_or_collides l1 l2 : length l1 = length l2 -> Forall sized l1 -> Forall sized l2 -> MTH l1 = MTH l2 ->
  l1 = l2 \/ sha_collides (tree_pairs (length l1) l1) (tree_pairs (length l1) l2).
Proof.
  intros L F1 F2 E. destruct (MTH_inj (length l1) (length l1) l1 l2) as [?|C]; [done|lia|lia|done|by left|right].
  apply collides_sha; [done| |by apply tree_pairs_sized].
  eapply Forall_impl; [by apply tree_pairs_sized|]. intros q [? ?]. by left.
Qed.

Lemma consistency_sound l1 l2 p :
  Forall sized l1 -> Forall sized l2 ->
  Tree.VerifyConsistency (len l1) (len l2) p (MTH l1) (MTH l2) = true ->
  l1 = take (length l1) l2 \/ consistency_collides l1 l2 p.
Proof.
  intros F1 F2 V. destruct (decide (l1 = [])) as [->|H1]; [by left|].
  assert (0 < length l1)%nat by (destruct l1; [done|simpl; lia]).
  unfold Tree.VerifyConsistency in V. apply verify_consistency_spec in V; [|unfold len; lia|unfold len; lia].
  unfold RootsFromConsistency, len in V. rewrite !Nat2Z.id in V. case_decide as D; [|done].
  destruct (consistency_roots_sound (length l2) (length l2) (length l1) l2 true (MTH l1) (MTH l1) (rev p))
    as [E|C]; [lia|lia|lia|done| |].
  - destruct (MTH_eq_or_collides l1 (take (length l1) l2)) as [?|C];
      [rewrite length_take; lia|done|by apply Forall_take|done|by left|by right; right; right].
  - destruct (decide (length l1 = length l2)) as [L|L].
    { destruct C as (q & ? & X & _). rewrite consistency_pairs_seed in X by lia. by apply elem_of_nil in X. }
    destruct (consistency_pairs_sized (length l2) (length l2) (length l1) (length l1) l2 l1 true (MTH l1) (rev p))
      as [F|[X|X]]; [lia|done|done|done|lia|lia|lia|done| |by right; left|by right; right; left].
    right; left. apply collides_sha; [done|done|by apply tree_pairs_sized].
Qed.

(** C7. Inclusion proofs are sound: a proof that [VerifyInclusion] accepts for
    leaf [i] against the root of [l] is for the leaf hash really at [i], or
    a SHA-256 collision sits between a node the verifier hashed and a node of
    the tree; nothing is assumed of the proof. *)
Theorem inclusion_proof_sound l i h p :
  0 <= i -> Forall sized l -> sized h ->
  Tree.VerifyInclusion i (len l) h p (MTH l) = true ->
  l !! Z.to_nat i = Some h \/
  sha_collides (inclusion_pairs (length l) (Z.to_nat i) (length l) h (rev p))
    (tree_pairs (length l) l).
Proof. apply inclusion_sound. Qed.

(** C8. Append-only: when [VerifyConsistency] accepts any proof that the root of
    [l1] precedes the root of [l2], for two lists of leaf hashes of any lengths,
    then [l1] is a prefix of [l2] - no entry was rewritten, dropped or reordered
    - or a SHA-256 collision sits between two nodes that are named.  Nothing is
    assumed of the proof, not even the length of its nodes. *)
Theorem consistency_proof_sound l1 l2 p :
  Forall sized l1 -> Forall sized l2 ->
  Tree.VerifyConsistency (len l1) (len l2) p (MTH l1) (MTH l2) = true ->
  l1 = take (length l1) l2 \/ consistency_collides l1 l2 p.
Proof. apply consistency_sound. Qed.
End Mem.

(** ** Concrete trees, and the witnesses *)

Abbreviation mem_tree := (Tree.t (CR := ref_range) (LSt := memLeafStore)).

Fixpoint append_all (tr : mem_tree) (hs : list bytes) : option mem_tree :=
  match hs with
  | [] => Some tr
  | h :: hs => '(tr, _) ← Tree.AppendLeafHash tr h; append_all tr hs
  end.

Definition new_mem (mi ml : Z) : mem_tree :=
  Tree.NewBoundedTreeWithStore (LSt := memLeafStore) mi ml (∅ : gmap Z bytes).

Lemma append_all_reach mi ml tr l hs tr' :
  reach mi ml tr l -> len (l ++ hs) < 2 ^ 63 -> append_all tr hs = Some tr' ->
  reach mi ml tr' (l ++ hs).
Proof.
  revert tr l. induction hs as [|h hs IH]; intros tr l R B E; cbn [append_all] in E.
  - injection E as <-. by rewrite app_nil_r.
  - apply bind_Some in E as ([tr1 i] & Ea & E).
    rewrite (cons_middle h l hs), app_assoc in B |- *. apply (IH tr1); [|exact B|exact E].
    eapply reach_append; [done| |done]. unfold len in *. rewrite !length_app in B. simpl in B. lia.
Qed.

(** Five leaves in a tree whose caches hold two leaves and two nodes. *)
Definition leaves5 : list bytes :=
  map (fun i => HashLeaf (put_u64 i ++ str "stele-tv")) [0; 1; 2; 3; 4].
Definition tree5 : mem_tree := default (new_mem 2 2) (append_all (new_mem 2 2) leaves5).

Lemma tree5_reach : reach (PL := ref_proofs) 2 2 tree5 leaves5.
Proof.
  apply (append_all_reach 2 2 (new_mem 2 2) [] leaves5); [constructor|done|]. unfold tree5.
  assert (bool_decide (is_Some (append_all (new_mem 2 2) leaves5)) = true) as E
    by (vm_compute; reflexivity).
  by apply bool_decide_eq_true in E as [tr ->].
Qed.

Lemma leaves5_sized : Forall sized leaves5.
Proof. unfold leaves5. repeat constructor; unfold sized, len; cbn; by rewrite sha256_length. Qed.

Lemma tree_refines_rfc6962_witness :
  Tree.Size tree5 = 5 /\ Tree.Root tree5 = Some (MTH leaves5) /\
  (0 < 2 -> (Tree.CacheSize tree5).1 <= 2) /\ (0 < 2 -> (Tree.CacheSize tree5).2 <= 2).
Proof. apply (tree_refines_rfc6962 2 2 tree5 leaves5 tree5_reach). Defined.

Lemma inclusion_proof_complete_witness :
  exists tr' p, Tree.InclusionProof (PL := ref_proofs) 1 4 tree5 = (tr', Ok p) /\
    Tree.VerifyInclusion 1 4 (nth 1 leaves5 []) p (MTH (take 4 leaves5)) = true /\
    reach (PL := ref_proofs) 2 2 tr' leaves5.
Proof.
  apply (inclusion_proof_complete 2 2 tree5 leaves5 1 4 (nth 1 leaves5 []) tree5_reach);
    [lia|done|reflexivity|]. unfold sized, len. cbn. by rewrite sha256_length.
Defined.

Lemma consistency_proof_complete_witness :
  exists tr' p, Tree.ConsistencyProof (PL := ref_proofs) 3 5 tree5 = (tr', Ok p) /\
    Tree.VerifyConsistency 3 5 p (MTH (take 3 leaves5)) (MTH (take 5 leaves5)) = true /\
    reach (PL := ref_proofs) 2 2 tr' leaves5.
Proof.
  apply (consistency_proof_complete 2 2 tree5 leaves5 3 5 tree5_reach); [lia|done].
Defined.

Lemma inclusion_proof_sound_witness :
  leaves5 !! 3%nat = Some (nth 3 leaves5 []) \/
  sha_collides (inclusion_pairs 5 3 5 (nth 3 leaves5 []) (rev (PATH 3 leaves5)))
    (tree_pairs 5 leaves5).
Proof.
  apply (inclusion_proof_sound leaves5 3 (nth 3 leaves5 []) (PATH 3 leaves5));
    [lia|apply leaves5_sized| |vm_compute; reflexivity].
  unfold sized, len. cbn. by rewrite sha256_length.
Defined.

Definition proof35 : list bytes := PROOF 3 leaves5.

Lemma consistency_proof_sound_witness :
  take 3 leaves5 = take 3 leaves5 \/ consistency_collides (take 3 leaves5) leaves5 proof35.
Proof.
  apply (consistency_proof_sound (take 3 leaves5) leaves5 proof35);
    [apply Forall_take, leaves5_sized|apply leaves5_sized|vm_compute; reflexivity].
Defined.
