(* ===== verification/LogEntry.v ===== *)
(** * Log entries and the hash chain (pkg/logentry)

    An entry wraps a producer envelope with the operator's metadata; its
    canonical bytes give both the chain hash and the Merkle leaf hash. *)

From S2P Require Import Prelude Crypto Attest Rfc6962.
From stdpp Require Import base numbers list gmap strings.
From Stdlib Require Import ZArith Lia.

#[local] Open Scope Z_scope.

Definition ZeroHash : bytes := replicate 32 Byte.x00.

(** [merkle.Hasher] *)
#[local] Existing Instance rfc6962_hasher.

Module Entry.

Record t := mk {
  Index : Z;
  TimeNanos : Z;
  PrevHash : bytes;
  Envelope : option Envelope.t;  (* nil = None *)
  Honeypot : bool;
  EntryHash : bytes;
  LeafHash : bytes;
}.

#[export] Instance entry_eq_dec : EqDecision t.
Proof. solve_decision. Defined.

(** The two hashes [Canonical] covers, with their defaults. *)
Definition prev_or_zero (e : t) : bytes := if len (PrevHash e) =? 0 then ZeroHash else PrevHash e.
Definition env_hash (e : t) : bytes :=
  match Envelope e with Some env => Envelope.Hash env | None => replicate 32 Byte.x00 end.

Definition Canonical (e : t) : bytes :=
  put_u64 (Index e) ++
  put_u64 (u64_of_i64 (TimeNanos e)) ++
  put (prev_or_zero e) ++
  put (env_hash e) ++
  (if Honeypot e then [Byte.x01] else [Byte.x00]).

Definition Seal (e : t) : t :=
  let canon := Canonical e in
  mk (Index e) (TimeNanos e) (PrevHash e) (Envelope e) (Honeypot e)
     (sha256 canon) (HashLeaf canon).

Definition New (now idx : Z) (prevEntry : option t) (env : option Envelope.t) (honeypot : bool) : t :=
  let prev := match prevEntry with Some p => EntryHash p | None => ZeroHash end in
  Seal (mk idx now prev env honeypot [] []).

Definition Verify `{Crypto} (e : t) : res unit :=
  match Envelope e with
  | None => Err ["missing envelope"%string]
  | Some env =>
      let! _ := wrap_err "envelope" (Envelope.Verify env) in
      let canon := Canonical e in
      fail_if negb (bytesEqual (EntryHash e) (sha256 canon)) with "EntryHash mismatch" ;;
      fail_if negb (bytesEqual (LeafHash e) (HashLeaf canon)) with "LeafHash mismatch" ;;
      Ok tt
  end.

Definition VerifyChain (e : t) (prev : option t) : res unit :=
  match prev with
  | None =>
      fail_if negb (bytesEqual (PrevHash e) ZeroHash) with "entry 0: PrevHash must be zero" ;;
      fail_if negb (Index e =? 0) with "first entry must have index 0" ;;
      Ok tt
  | Some prev =>
      fail_if negb (Index e =? wrap64 (Index prev + 1)) with "expected index" ;;
      fail_if negb (bytesEqual (PrevHash e) (EntryHash prev)) with "PrevHash does not chain" ;;
      Ok tt
  end.

Definition HexHashes (e : t) : bytes * bytes * bytes :=
  (hex (EntryHash e), hex (LeafHash e), hex (PrevHash e)).

(** *** What the canonical bytes determine *)

(** The content both hashes of an entry commit to: all of it but the envelope's
    signatures and evidence blob, which only [Verify] looks at. *)
Definition content (e : t) :=
  (Index e, TimeNanos e, prev_or_zero e, Envelope.signed_fields <$> Envelope e, Honeypot e).

Record wf (e : t) : Prop := {
  wf_index : is_u64 (Index e);
  wf_time : is_i64 (TimeNanos e);
  wf_prev : fits32 (PrevHash e);
  wf_env : from_option Envelope.wf False (Envelope e);
}.

(** A collision located at two entries: between their canonical bytes, or
    between the canonical bytes of their envelopes. *)
Definition entry_collision (e1 e2 : t) : Prop :=
  collision (Canonical e1) (Canonical e2) \/
  collision (Byte.x00 :: Canonical e1) (Byte.x00 :: Canonical e2) \/
  (exists v1 v2, Envelope e1 = Some v1 /\ Envelope e2 = Some v2 /\
    collision (Envelope.Canonical v1) (Envelope.Canonical v2)).

Lemma prev_or_zero_fits e : fits32 (PrevHash e) -> fits32 (prev_or_zero e).
Proof. unfold prev_or_zero. by case_match. Qed.

Lemma env_hash_fits e : fits32 (env_hash e).
Proof.
  unfold env_hash, fits32, len. case_match; [by rewrite Envelope.Hash_length|done].
Qed.

Lemma honeypot_inj (b c : bool) :
  (if b then [Byte.x01] else [Byte.x00]) = (if c then [Byte.x01] else [Byte.x00]) -> b = c.
Proof. by destruct b, c. Qed.

Lemma Canonical_content e1 e2 :
  wf e1 -> wf e2 -> Canonical e1 = Canonical e2 ->
  content e1 = content e2 \/
  (exists v1 v2, Envelope e1 = Some v1 /\ Envelope e2 = Some v2 /\
    collision (Envelope.Canonical v1) (Envelope.Canonical v2)).
Proof.
  intros [I1 T1 P1 E1] [I2 T2 P2 E2] E. unfold Canonical in E.
  apply put_u64_app_inj in E as [Hi E]; [|done|done].
  apply put_u64_app_inj in E as [Ht%u64_of_i64_inj E]; auto with stele.
  apply put_inj in E as [Hp E]; auto using prev_or_zero_fits.
  apply put_inj in E as [Hv Hh%honeypot_inj]; auto using env_hash_fits.
  unfold env_hash in Hv.
  destruct (Envelope e1) as [v1|] eqn:Ev1, (Envelope e2) as [v2|] eqn:Ev2; try done. simpl in E1, E2.
  apply sha256_eq_or_collision in Hv as [Hv|C]; [left|right; by exists v1, v2].
  apply Envelope.Canonical_fields in Hv; [|done|done].
  unfold content. rewrite Hi, Ht, Hp, Hh, Ev1, Ev2. simpl. by rewrite Hv.
Qed.

Lemma hashes_bind e1 e2 :
  wf e1 -> wf e2 ->
  sha256 (Canonical e1) = sha256 (Canonical e2) \/ HashLeaf (Canonical e1) = HashLeaf (Canonical e2) ->
  content e1 = content e2 \/ entry_collision e1 e2.
Proof.
  intros W1 W2 [E|E].
  - apply sha256_eq_or_collision in E as [E|C]; [|right; by left].
    destruct (Canonical_content e1 e2 W1 W2 E); [by left|right; right; by right].
  - apply sha256_eq_or_collision in E as [E%(f_equal tail)|C]; [|right; right; by left].
    destruct (Canonical_content e1 e2 W1 W2 E); [by left|right; right; by right].
Qed.

Lemma sealed_hashes e : EntryHash (Seal e) = sha256 (Canonical (Seal e)) /\
  LeafHash (Seal e) = HashLeaf (Canonical (Seal e)).
Proof. done. Qed.

Section Verified.
Context `{Crypto}.

Lemma entry_Verify_iff e :
  Verify e = Ok tt <->
  (exists env, Envelope e = Some env /\ Envelope.valid env) /\
  EntryHash e = sha256 (Canonical e) /\ LeafHash e = HashLeaf (Canonical e).
Proof.
  unfold Verify. destruct (Envelope e) as [env|]; [|naive_solver].
  pose proof (Envelope.Verify_valid env) as V.
  destruct (Envelope.Verify env) as [[]|]; cbn [wrap_err res_bind]; [|naive_solver].
  etrans; [repeat (eapply guard_iff; [rewrite negb_false_iff; apply bytesEqual_spec|])|].
  - reflexivity.
  - naive_solver.
Qed.

Lemma VerifyChain_iff e prev :
  VerifyChain e prev = Ok tt <->
  PrevHash e = match prev with Some p => EntryHash p | None => ZeroHash end /\
  Index e = match prev with Some p => wrap64 (Index p + 1) | None => 0 end.
Proof.
  unfold VerifyChain. destruct prev as [p|].
  - etrans; [eapply guard_iff; [apply eqb_guard|];
      eapply guard_iff; [rewrite negb_false_iff; apply bytesEqual_spec|reflexivity]|]. naive_solver.
  - etrans; [eapply guard_iff; [rewrite negb_false_iff; apply bytesEqual_spec|];
      eapply guard_iff; [apply eqb_guard|reflexivity]|]. naive_solver.
Qed.

Lemma New_verifies now prev env honeypot :
  Envelope.valid env ->
  let idx := match prev with Some p => wrap64 (Index p + 1) | None => 0 end in
  Verify (New now idx prev (Some env) honeypot) = Ok tt /\
  VerifyChain (New now idx prev (Some env) honeypot) prev = Ok tt.
Proof.
  intros V idx. split.
  - apply entry_Verify_iff. split; [by exists env|done].
  - apply VerifyChain_iff. by destruct prev.
Qed.

(** *** Chains *)

(** Every entry verifies and follows the one before it. *)
Fixpoint chain (prev : option t) (es : list t) : Prop :=
  match es with
  | [] => True
  | e :: es' => Verify e = Ok tt /\ VerifyChain e prev = Ok tt /\ chain (Some e) es'
  end.

Definition last_or (prev : option t) (es : list t) : option t :=
  match last es with Some e => Some e | None => prev end.

Lemma entry_last_or_cons prev e es : last_or prev (e :: es) = last_or (Some e) es.
Proof. unfold last_or. destruct es as [|x es]; [done|]. simpl. by destruct (last (x :: es)) eqn:E;
  [|apply last_None in E]. Qed.

Lemma entry_chain_app prev es es' :
  chain prev (es ++ es') <-> chain prev es /\ chain (last_or prev es) es'.
Proof.
  revert prev. induction es as [|e es IH]; intros prev; simpl; [naive_solver|].
  rewrite IH, entry_last_or_cons. naive_solver.
Qed.

Lemma entry_chain_snoc es e :
  chain None (es ++ [e]) <->
  chain None es /\ Verify e = Ok tt /\ VerifyChain e (last es) = Ok tt.
Proof.
  rewrite entry_chain_app. simpl. unfold last_or. destruct (last es); naive_solver.
Qed.

Lemma entry_chain_index es e :
  chain None (es ++ [e]) -> len es < 2 ^ 64 -> Index e = len es.
Proof.
  revert e. induction es as [|x es IH] using rev_ind; intros e C B.
  - apply entry_chain_snoc in C as (_ & _ & V). apply VerifyChain_iff in V as [_ ->]. done.
  - apply entry_chain_snoc in C as (C & _ & V). rewrite last_snoc in V.
    apply VerifyChain_iff in V as [_ ->]. unfold len in *. rewrite length_app in *. simpl in *.
    rewrite (IH x) by (done || lia). unfold wrap64. rewrite Z.mod_small; lia.
Qed.

Lemma chain_prev_hash es e :
  chain None (es ++ [e]) ->
  prev_or_zero e = match last es with Some p => EntryHash p | None => ZeroHash end.
Proof.
  intros C. apply entry_chain_snoc in C as (C & _ & V). apply VerifyChain_iff in V as [E _].
  unfold prev_or_zero. rewrite E. destruct (last es) as [p|] eqn:L; [|done].
  apply last_Some in L as [es' ->]. apply entry_chain_snoc in C as (_ & Hp & _).
  apply entry_Verify_iff in Hp as (_ & -> & _). unfold len. by rewrite sha256_length.
Qed.

Lemma chain_leaf_sized es e : e ∈ es -> chain None es -> len (LeafHash e) = HashSize.
Proof.
  intros Hin. generalize (@None t) as prev. induction es as [|x es IH]; [by apply elem_of_nil in Hin|].
  intros prev (V & _ & Ch). apply elem_of_cons in Hin as [->|Hin]; [|by eapply IH].
  apply entry_Verify_iff in V as (_ & _ & ->). unfold len. cbn. by rewrite sha256_length.
Qed.

Definition chains_collide (c1 c2 : list t) : Prop :=
  exists e1 e2, e1 ∈ c1 /\ e2 ∈ c2 /\ entry_collision e1 e2.

Lemma chains_collide_app c1 c2 d1 d2 :
  chains_collide c1 c2 -> chains_collide (c1 ++ d1) (c2 ++ d2).
Proof. intros (e1 & e2 & ? & ? & ?). exists e1, e2. rewrite !elem_of_app. auto. Qed.

(** One step back along two chains. *)
Lemma chain_last_binds c1 c2 e1 e2 :
  chain None (c1 ++ [e1]) -> chain None (c2 ++ [e2]) -> wf e1 -> wf e2 ->
  len c1 < 2 ^ 64 -> len c2 < 2 ^ 64 ->
  EntryHash e1 = EntryHash e2 \/ LeafHash e1 = LeafHash e2 ->
  (content e1 = content e2 /\ length c1 = length c2 /\
   prev_or_zero e1 = prev_or_zero e2) \/ chains_collide (c1 ++ [e1]) (c2 ++ [e2]).
Proof.
  intros C1 C2 W1 W2 B1 B2 HE.
  pose proof (entry_chain_index _ _ C1 B1) as X1. pose proof (entry_chain_index _ _ C2 B2) as X2.
  apply entry_chain_snoc in C1 as (_ & (_ & H1 & L1)%entry_Verify_iff & _).
  apply entry_chain_snoc in C2 as (_ & (_ & H2 & L2)%entry_Verify_iff & _).
  rewrite H1, H2, L1, L2 in HE.
  destruct (hashes_bind e1 e2 W1 W2 HE) as [E|E]; [left|right].
  - split; [done|]. injection E as Ei _ Ep _ _. unfold len in *. split; [lia|done].
  - exists e1, e2. rewrite !elem_of_app, !list_elem_of_singleton. auto.
Qed.

Lemma entry_chain_binds c1 c2 e1 e2 :
  chain None (c1 ++ [e1]) -> chain None (c2 ++ [e2]) ->
  Forall wf (c1 ++ [e1]) -> Forall wf (c2 ++ [e2]) ->
  len c1 < 2 ^ 64 -> len c2 < 2 ^ 64 ->
  EntryHash e1 = EntryHash e2 \/ LeafHash e1 = LeafHash e2 ->
  map content (c1 ++ [e1]) = map content (c2 ++ [e2]) \/
  chains_collide (c1 ++ [e1]) (c2 ++ [e2]).
Proof.
  revert e1 e2 c2. induction c1 as [|x c1 IH] using rev_ind; intros e1 e2 c2 C1 C2 W1 W2 B1 B2 HE;
    pose proof (chain_prev_hash _ _ C1) as P1; pose proof (chain_prev_hash _ _ C2) as P2;
    apply Forall_app in W1 as [F1 W1]; apply Forall_app in W2 as [F2 W2];
    (destruct (chain_last_binds _ _ e1 e2 C1 C2) as [(E & El & Ep)|X];
      [by apply Forall_inv in W1|by apply Forall_inv in W2|done|done|done| |by right]).
  - destruct c2 as [|y c2]; [|done]. left. simpl. by rewrite E.
  - destruct c2 as [|y c2 _] using rev_ind; [by rewrite length_app in El; simpl in El; lia|].
    rewrite P1, P2, !last_snoc in Ep.
    apply entry_chain_snoc in C1 as (C1 & _). apply entry_chain_snoc in C2 as (C2 & _).
    destruct (IH x y c2 C1 C2 F1 F2) as [Em|X];
      [unfold len in *; rewrite length_app in *; simpl in *; lia..|by left| |].
    + left. rewrite map_app, (map_app _ (c2 ++ [y])), Em. simpl. by rewrite E.
    + right. by apply chains_collide_app.
Qed.
End Verified.
End Entry.

(** ** Properties *)

(** A new entry verifies: wrapping a valid envelope with [New] gives an
    entry that [Verify] accepts and that chains to the entry it was given (or
    opens the log at index 0), carrying the envelope and honeypot flag. *)
Theorem entry_new_verifies `{Crypto} now prev env honeypot :
  Envelope.Verify env = Ok tt ->
  let idx := match prev with Some p => wrap64 (Entry.Index p + 1) | None => 0 end in
  let e := Entry.New now idx prev (Some env) honeypot in
  Entry.Verify e = Ok tt /\ Entry.VerifyChain e prev = Ok tt /\
  Entry.Envelope e = Some env /\ Entry.Honeypot e = honeypot.
Proof.
  intros V%Envelope.Verify_valid idx e. split_and!; [by apply Entry.New_verifies..|done|done].
Qed.

(** The first two entries of a log. *)
Definition entry0 : Entry.t := Entry.New 100 0 None (Some plain_env) false.
Definition entry1 : Entry.t := Entry.New 200 1 (Some entry0) (Some plain_env) true.

Lemma entry_new_verifies_witness :
  Entry.Verify entry1 = Ok tt /\ Entry.VerifyChain entry1 (Some entry0) = Ok tt /\
  Entry.Envelope entry1 = Some plain_env /\ Entry.Honeypot entry1 = true.
Proof.
  apply (entry_new_verifies 200 (Some entry0) plain_env true). apply plain_env_ok.
Defined.

(** Both hashes of an entry commit to its whole content: two well-formed
    entries that verify and share their entry hash or their leaf hash agree on
    index, time, predecessor, honeypot flag and every signed envelope field,
    or a collision sits between named encodings. *)
Theorem entry_hashes_bind `{Crypto} e1 e2 :
  Entry.wf e1 -> Entry.wf e2 -> Entry.Verify e1 = Ok tt -> Entry.Verify e2 = Ok tt ->
  Entry.EntryHash e1 = Entry.EntryHash e2 \/ Entry.LeafHash e1 = Entry.LeafHash e2 ->
  Entry.content e1 = Entry.content e2 \/ Entry.entry_collision e1 e2.
Proof.
  intros W1 W2 (_ & H1 & L1)%Entry.entry_Verify_iff (_ & H2 & L2)%Entry.entry_Verify_iff HE.
  rewrite H1, H2, L1, L2 in HE. by apply Entry.hashes_bind.
Qed.

Lemma entry0_wf : Entry.wf entry0.
Proof. split; [done|done|done|apply plain_env_wf]. Qed.
Lemma entry1_wf : Entry.wf entry1.
Proof.
  split; [done|done| |apply plain_env_wf].
  unfold fits32, len. cbn -[Z.pow]. by rewrite sha256_length.
Qed.

Lemma entry_hashes_bind_witness :
  Entry.content entry1 = Entry.content entry1 \/ Entry.entry_collision entry1 entry1.
Proof.
  apply (entry_hashes_bind entry1 entry1 entry1_wf entry1_wf);
    [vm_compute; reflexivity|vm_compute; reflexivity|by left].
Defined.

(** The chain is tamper-evident: two verified chains whose last entries
    share a hash are entry for entry the same log - same length, and same
    content at every position - unless a collision sits between an entry of one
    and an entry of the other. *)
Theorem chain_tamper_evident `{Crypto} c1 c2 e1 e2 :
  Entry.chain None (c1 ++ [e1]) -> Entry.chain None (c2 ++ [e2]) ->
  Forall Entry.wf (c1 ++ [e1]) -> Forall Entry.wf (c2 ++ [e2]) ->
  len c1 < 2 ^ 64 -> len c2 < 2 ^ 64 ->
  Entry.EntryHash e1 = Entry.EntryHash e2 ->
  map Entry.content (c1 ++ [e1]) = map Entry.content (c2 ++ [e2]) \/
  Entry.chains_collide (c1 ++ [e1]) (c2 ++ [e2]).
Proof. intros. apply Entry.entry_chain_binds; auto. Qed.

Lemma chain_tamper_evident_witness :
  map Entry.content [entry0; entry1] = map Entry.content [entry0; entry1] \/
  Entry.chains_collide [entry0; entry1] [entry0; entry1].
Proof.
  assert (Entry.chain None [entry0; entry1]) as C
    by (cbn [Entry.chain]; split_and!; (vm_compute; reflexivity) || exact I).
  assert (Forall Entry.wf [entry0; entry1]) as W
    by (constructor; [apply entry0_wf|constructor; [apply entry1_wf|constructor]]).
  apply (chain_tamper_evident [entry0] [entry0] entry1 entry1 C C W W); done.
Defined.
