(* ===== verification/Threshold.v ===== *)
(** * Threshold groups (pkg/threshold)

    t-of-N multisignatures: the group and its digest, the verifier, the
    cosigner service each member runs, and the coordinator that collects. *)

From S2P Require Import Prelude Crypto.
From stdpp Require Import base numbers list gmap strings sorting.
From Stdlib Require Import ZArith Lia.

#[local] Open Scope Z_scope.

(** ** Members and groups *)
Module Member.
Record t := mk {
  ID : bytes;
  PublicKey : bytes;
  QuantumPublicKey : bytes;
  Endpoint : bytes;
  Description : bytes;
}.

(** The fields of a member that the group digest covers. *)
Definition identity (m : t) := (ID m, PublicKey m, QuantumPublicKey m).

Definition fits (m : t) : Prop :=
  fits32 (ID m) /\ fits32 (PublicKey m) /\ fits32 (QuantumPublicKey m).

(** Sorting by ID, as [Group.Canonical] does. *)
Definition id_le (m1 m2 : t) : Prop := bytes_le (ID m1) (ID m2).
End Member.

#[export] Instance id_le_dec : RelDecision Member.id_le.
Proof. intros m1 m2. unfold Member.id_le. apply _. Defined.
#[export] Instance id_le_total : Total Member.id_le.
Proof. intros m1 m2. apply bytes_le_total. Qed.
#[export] Instance id_le_trans : Transitive Member.id_le.
Proof. intros m1 m2 m3. apply bytes_le_trans. Qed.

Module Group.
Record t := mk {
  Version : Z;
  Origin : bytes;
  Members : list Member.t;
  Threshold : Z;
  CreatedAt : Z;
}.

(** The loop of [Validate] over the members. *)
Fixpoint validate_members (seenID seenPub : gset bytes) (ms : list Member.t) : res unit :=
  match ms with
  | [] => Ok tt
  | m :: ms' =>
      fail_if bool_decide (Member.ID m = []) with "threshold: member with empty ID" ;;
      fail_if bool_decide (Member.ID m ∈ seenID) with "threshold: duplicate member ID" ;;
      fail_if negb (len (Member.PublicKey m) =? PublicKeySize)
        with "threshold: member bad pubkey length" ;;
      let pkHex := hex (Member.PublicKey m) in
      fail_if bool_decide (pkHex ∈ seenPub) with "threshold: duplicate member public key" ;;
      validate_members ({[Member.ID m]} ∪ seenID) ({[pkHex]} ∪ seenPub) ms'
  end.

(** [None] is the nil group. *)
Definition Validate (g : option t) : res unit :=
  match g with
  | None => Err ["threshold: nil group"%string]
  | Some g =>
      fail_if negb (Version g =? 1) with "threshold: unsupported group version" ;;
      fail_if bool_decide (Origin g = []) with "threshold: group missing origin" ;;
      fail_if len (Members g) =? 0 with "threshold: group must have >= 1 member" ;;
      fail_if (Threshold g =? 0) || (len (Members g) <? Threshold g)
        with "threshold: invalid threshold" ;;
      validate_members ∅ ∅ (Members g)
  end.

Definition member_bytes (m : Member.t) : bytes :=
  put (Member.ID m) ++ put (Member.PublicKey m) ++ put (Member.QuantumPublicKey m).

Definition Canonical (g : t) : bytes :=
  let members := merge_sort Member.id_le (Members g) in
  put_u32 (Version g) ++
  put (Origin g) ++
  put_u32 (Threshold g) ++
  put_u64 (u64_of_i64 (CreatedAt g)) ++
  put_u32 (len members) ++
  concat (map member_bytes members).

Definition Digest (g : t) : bytes := sha256 (Canonical g).
Definition DigestHex (g : t) : bytes := hex (Digest g).

Fixpoint member_by_id (ms : list Member.t) (id : bytes) : option Member.t :=
  match ms with
  | [] => None
  | m :: ms' => if bool_decide (Member.ID m = id) then Some m else member_by_id ms' id
  end.
Definition MemberByID (g : t) (id : bytes) : option Member.t := member_by_id (Members g) id.

(** *** What a validated group is *)
Record valid (g : t) : Prop := {
  v_version : Version g = 1;
  v_origin : Origin g <> [];
  v_threshold : Threshold g <> 0 /\ Threshold g <= len (Members g);
  v_members : Members g <> [];
  v_ids : NoDup (map Member.ID (Members g));
  v_pubs : NoDup (map Member.PublicKey (Members g));
  v_each : Forall (fun m => Member.ID m <> [] /\ len (Member.PublicKey m) = PublicKeySize) (Members g);
}.

Lemma validate_members_iff ms seenID seenPub :
  validate_members seenID seenPub ms = Ok tt <->
  NoDup (map Member.ID ms) /\ NoDup (map Member.PublicKey ms) /\
  Forall (fun m => Member.ID m <> [] /\ len (Member.PublicKey m) = PublicKeySize) ms /\
  Forall (fun m => (Member.ID m ∉ seenID) /\ (hex (Member.PublicKey m) ∉ seenPub)) ms.
Proof.
  revert seenID seenPub. induction ms as [|m ms IH]; intros seenID seenPub; cbn [validate_members map].
  { split; [|done]. intros _. split_and!; constructor. }
  etrans.
  { eapply guard_iff; [apply bool_decide_eq_false|].
    eapply guard_iff; [apply bool_decide_eq_false|].
    eapply guard_iff; [apply eqb_guard|].
    eapply guard_iff; [apply bool_decide_eq_false|apply IH]. }
  rewrite !NoDup_cons, !Forall_cons, !Forall_forall.
  assert (forall x, x ∈ ms -> Member.ID x ∈ map Member.ID ms) as I1.
  { intros x Hx. apply list_elem_of_fmap. by exists x. }
  assert (forall x, x ∈ ms -> Member.PublicKey x ∈ map Member.PublicKey ms) as I2.
  { intros x Hx. apply list_elem_of_fmap. by exists x. }
  split.
  - intros (H1 & H2 & H3 & H4 & N1 & N2 & F & G). split_and!; try done.
    + intros (x & E & Hx)%list_elem_of_fmap. destruct (G x Hx). set_solver.
    + intros (x & E & Hx)%list_elem_of_fmap. destruct (G x Hx) as [_ G2]. rewrite E in G2. set_solver.
    + intros x Hx. destruct (G x Hx). set_solver.
  - intros ((N1 & N1') & (N2 & N2') & ((H1 & H3) & F) & ((H2 & H4) & G)).
    split_and!; try done. intros x Hx. destruct (G x Hx) as [G1 G2].
    split; apply not_elem_of_union; (split; [|done]); apply not_elem_of_singleton; intros E.
    + apply N1. rewrite <- E. by apply I1.
    + apply hex_inj in E. apply N2. rewrite <- E. by apply I2.
Qed.

Lemma Validate_iff g : Validate (Some g) = Ok tt <-> valid g.
Proof.
  unfold Validate. etrans.
  { eapply guard_iff; [apply eqb_guard|].
    eapply guard_iff; [apply bool_decide_eq_false|].
    eapply guard_iff; [apply Z.eqb_neq|].
    eapply guard_iff; [apply orb_false_iff|apply validate_members_iff]. }
  rewrite Z.eqb_neq, Z.ltb_ge. split.
  - intros (? & ? & Hl & ? & ? & ? & ? & ?). split; try done. by intros E; rewrite E in Hl.
  - intros [? ? ? Hm ? ? ?]. split_and!; try done; try naive_solver.
    + unfold len. destruct (Members g); [done|]. simpl. lia.
    + apply Forall_forall. set_solver.
Qed.

Lemma member_by_id_some ms id m :
  NoDup (map Member.ID ms) -> member_by_id ms id = Some m <-> m ∈ ms /\ Member.ID m = id.
Proof.
  induction ms as [|x ms IH]; cbn [member_by_id map]; [set_solver|].
  rewrite NoDup_cons, elem_of_cons. intros [Hx N]. case_bool_decide as E.
  - split; [intros [= <-]; auto|]. intros [[->|Hm] <-]; [done|].
    exfalso. apply Hx. rewrite E. apply list_elem_of_fmap. by exists m.
  - rewrite IH by done. naive_solver.
Qed.

(** *** The digest *)

Lemma sorted_members_perm ms1 ms2 :
  NoDup (map Member.ID ms1) -> ms1 ≡ₚ ms2 ->
  merge_sort Member.id_le ms1 = merge_sort Member.id_le ms2.
Proof.
  intros N P. apply (StronglySorted_unique_strong Member.id_le).
  - intros x y Hx Hy Hxy Hyx. rewrite merge_sort_Permutation in Hx, Hy. rewrite <- P in Hy.
    pose proof (bytes_le_antisymm _ _ Hxy Hyx) as E.
    assert (member_by_id ms1 (Member.ID x) = Some x) by (apply member_by_id_some; auto).
    assert (member_by_id ms1 (Member.ID x) = Some y) by (apply member_by_id_some; auto).
    congruence.
  - apply StronglySorted_merge_sort; apply _.
  - apply StronglySorted_merge_sort; apply _.
  - by rewrite !merge_sort_Permutation.
Qed.

(** Sizes within the prefixes of the encoding. *)
Record fits (g : t) : Prop := {
  f_version : 0 <= Version g < 2 ^ 32;
  f_origin : fits32 (Origin g);
  f_threshold : 0 <= Threshold g < 2 ^ 32;
  f_created : is_i64 (CreatedAt g);
  f_count : len (Members g) < 2 ^ 32;
  f_members : Forall Member.fits (Members g);
}.

Lemma member_bytes_inj ms1 ms2 :
  length ms1 = length ms2 -> Forall Member.fits ms1 -> Forall Member.fits ms2 ->
  concat (map member_bytes ms1) = concat (map member_bytes ms2) ->
  map Member.identity ms1 = map Member.identity ms2.
Proof.
  revert ms2. induction ms1 as [|m ms1 IH]; intros [|m' ms2] L F1 F2 E; try done.
  apply Forall_cons in F1 as [(?&?&?) F1]. apply Forall_cons in F2 as [(?&?&?) F2].
  cbn [map concat] in E |- *. unfold member_bytes in E at 1 3. rewrite <- !app_assoc in E.
  do 3 (apply put_inj in E as [? E]; [|done|done]).
  f_equal; [unfold Member.identity; congruence|]. apply IH; auto.
Qed.

Lemma put_u32_app_inj x y r s :
  0 <= x < 2 ^ 32 -> 0 <= y < 2 ^ 32 -> put_u32 x ++ r = put_u32 y ++ s -> x = y /\ r = s.
Proof.
  intros Hx Hy E. apply app_inj_len in E as [E1 E2]; [|by rewrite !put_u32_length].
  split; [by apply (be_enc_inj 4)|done].
Qed.

(** What the digest commits to: everything but order, endpoints and notes. *)
Definition same_group (g1 g2 : t) : Prop :=
  Version g1 = Version g2 /\ Origin g1 = Origin g2 /\ Threshold g1 = Threshold g2 /\
  CreatedAt g1 = CreatedAt g2 /\
  map Member.identity (Members g1) ≡ₚ map Member.identity (Members g2).

Lemma Canonical_same g1 g2 :
  fits g1 -> fits g2 -> Canonical g1 = Canonical g2 -> same_group g1 g2.
Proof.
  intros [V1 O1 T1 C1 N1 M1] [V2 O2 T2 C2 N2 M2] E. unfold Canonical in E.
  pose proof (merge_sort_Permutation Member.id_le (Members g1)) as P1.
  pose proof (merge_sort_Permutation Member.id_le (Members g2)) as P2.
  rewrite <- P1 in M1. rewrite <- P2 in M2. unfold len in *.
  apply put_u32_app_inj in E as [? E]; [|done|done].
  apply put_inj in E as [? E]; [|done|done].
  apply put_u32_app_inj in E as [? E]; [|done|done].
  apply put_u64_app_inj in E as [?%u64_of_i64_inj E]; auto with stele.
  apply Permutation_length in P1 as L1. apply Permutation_length in P2 as L2.
  apply put_u32_app_inj in E as [L E]; [|lia|lia].
  apply member_bytes_inj in E; [|lia|done|done].
  split_and!; try done. by rewrite <- P1, E, P2.
Qed.
End Group.

(** ** Signatures *)
Module MemberSig.
Record t := mk {
  MemberID : bytes;
  PublicKey : bytes;
  Signature : bytes;
  SignedAt : Z;
  QuantumPublicKey : bytes;
  QuantumSignature : bytes;
}.

Definition Verify `{Crypto} (s : t) (msg : bytes) : res unit :=
  fail_if negb (len (PublicKey s) =? PublicKeySize) with "member sig: bad pubkey length" ;;
  fail_if negb (len (Signature s) =? SignatureSize) with "member sig: bad signature length" ;;
  fail_if negb (ed_verify (PublicKey s) msg (Signature s))
    with "member sig: invalid ed25519 signature" ;;
  Ok tt.

Definition good `{Crypto} (s : t) (msg : bytes) : Prop :=
  len (PublicKey s) = PublicKeySize /\ len (Signature s) = SignatureSize /\
  ed_verify (PublicKey s) msg (Signature s) = true.

Lemma MemberSig_Verify_iff `{Crypto} s msg : Verify s msg = Ok tt <-> good s msg.
Proof.
  unfold Verify, good. etrans; [repeat (eapply guard_iff; [apply eqb_guard|]);
    eapply guard_iff; [apply negb_false_iff|reflexivity]|]. naive_solver.
Qed.
End MemberSig.

(** ** Verifying a multisignature *)
Section VerifyMulti.
Context `{Crypto}.

(** The body of the loop of [VerifyMulti] after the duplicate check: why a
    signature does not count. *)
Definition check_sig (g : Group.t) (msg : bytes) (s : MemberSig.t) : res unit :=
  match Group.MemberByID g (MemberSig.MemberID s) with
  | None => Err ["unknown member"%string]
  | Some m =>
      fail_if negb (bool_decide (hex (MemberSig.PublicKey s) = hex (Member.PublicKey m)))
        with "public key in sig does not match group's registered key" ;;
      let! _ := MemberSig.Verify s msg in
      if 0 <? len (Member.QuantumPublicKey m) then
        fail_if (len (MemberSig.QuantumPublicKey s) =? 0) || (len (MemberSig.QuantumSignature s) =? 0)
          with "hybrid required but cosig is classical-only (downgrade attempt?)" ;;
        fail_if negb (bool_decide (hex (MemberSig.QuantumPublicKey s) = hex (Member.QuantumPublicKey m)))
          with "quantum pubkey in cosig does not match group's registered quantum key" ;;
        d3_check (MemberSig.QuantumPublicKey s) msg (MemberSig.QuantumSignature s)
          "decode quantum pubkey" "invalid quantum signature"
      else Ok tt
  end.

(** The loop: IDs counted, the count, and the first rejection. *)
Fixpoint count_sigs (g : Group.t) (msg : bytes) (sigs : list (option MemberSig.t))
    (counted : gset bytes) (valid : Z) (firstReject : option error) : Z * option error :=
  match sigs with
  | [] => (valid, firstReject)
  | None :: sigs' => count_sigs g msg sigs' counted valid firstReject
  | Some s :: sigs' =>
      if bool_decide (MemberSig.MemberID s ∈ counted) then
        count_sigs g msg sigs' counted valid firstReject
      else
        match check_sig g msg s with
        | Err e => count_sigs g msg sigs' counted valid
                     (match firstReject with None => Some e | Some _ => firstReject end)
        | Ok _ => count_sigs g msg sigs' ({[MemberSig.MemberID s]} ∪ counted) (valid + 1) firstReject
        end
  end.

Definition VerifyMulti (group : option Group.t) (msg : bytes) (sigs : list (option MemberSig.t))
    : res unit :=
  let! _ := wrap_err "threshold: invalid group" (Group.Validate group) in
  fail_if len sigs =? 0 with "threshold: no signatures provided" ;;
  match group with
  | None => Err ["threshold: nil group"%string]
  | Some g =>
      let '(valid, firstReject) := count_sigs g msg sigs ∅ 0 None in
      if valid <? Group.Threshold g then
        match firstReject with
        | Some e => Err ("threshold: not enough valid sigs; first rejection"%string :: e)
        | None => Err ["threshold: not enough valid sigs"%string]
        end
      else Ok tt
  end.

(** *** When a signature counts for a member *)
Definition signs (m : Member.t) (msg : bytes) (s : MemberSig.t) : Prop :=
  MemberSig.MemberID s = Member.ID m /\ MemberSig.PublicKey s = Member.PublicKey m /\
  MemberSig.good s msg /\
  (Member.QuantumPublicKey m <> [] ->
   MemberSig.QuantumPublicKey s = Member.QuantumPublicKey m /\
   MemberSig.QuantumSignature s <> [] /\
   d3_good (Member.QuantumPublicKey m) msg (MemberSig.QuantumSignature s)).

Lemma len_zero_eqb {A} (l : list A) : (len l =? 0) = false <-> l <> [].
Proof. unfold len. rewrite Z.eqb_neq. destruct l; simpl; [done|]. split; [done|lia]. Qed.

Lemma hex_guard a b : negb (bool_decide (hex a = hex b)) = false <-> a = b.
Proof.
  rewrite negb_false_iff, bool_decide_eq_true. split; [apply hex_inj|by intros ->].
Qed.

Lemma check_sig_iff g msg s :
  Group.valid g ->
  check_sig g msg s = Ok tt <-> exists m, m ∈ Group.Members g /\ signs m msg s.
Proof.
  intros V. unfold check_sig, Group.MemberByID, signs.
  pose proof (fun m => Group.member_by_id_some (Group.Members g) (MemberSig.MemberID s) m
    (Group.v_ids g V)) as B.
  destruct (Group.member_by_id _ _) as [m|] eqn:E.
  - destruct (proj1 (B m) eq_refl) as [Hm Hid].
    transitivity (signs m msg s).
    + unfold signs. pose proof (MemberSig.MemberSig_Verify_iff s msg) as VS.
      destruct (MemberSig.Verify s msg) as [[]|]; cbn [res_bind];
        [|split; [by case_match|intros (_ & _ & G & _); by apply VS in G]].
      destruct (0 <? len (Member.QuantumPublicKey m)) eqn:Q.
      * apply len_pos in Q. etrans.
        { eapply guard_iff; [apply hex_guard|]. eapply guard_iff; [apply orb_false_iff|].
          eapply guard_iff; [apply hex_guard|apply d3_check_ok]. }
        rewrite !len_zero_eqb. split.
        -- intros (? & [? ?] & -> & ?). split_and!; try done. by apply VS.
        -- intros (? & ? & ? & Hq). destruct (Hq Q) as (-> & ? & ?). by split_and!.
      * apply len_zero in Q. etrans; [eapply guard_iff; [apply hex_guard|reflexivity]|]. split.
        -- intros [? _]. split_and!; try done. by apply VS.
        -- by intros (? & ? & ? & _).
    + split; [by exists m|]. intros (m' & Hm' & S').
      assert (Some m = Some m') as [= ->]; [|done]. rewrite (proj2 (B m')); [done|].
      split; [done|]. symmetry. apply S'.
  - split; [done|]. intros (m & Hm & S). exfalso.
    assert (None = Some m) by (apply B; split; [done|symmetry; apply S]). done.
Qed.

(** *** The count is the number of distinct members that signed *)
Lemma sig_cons (Q : MemberSig.t -> Prop) s sigs :
  (exists s', Some s' ∈ Some s :: sigs /\ Q s') <-> Q s \/ exists s', Some s' ∈ sigs /\ Q s'.
Proof. setoid_rewrite elem_of_cons. naive_solver. Qed.
Lemma sig_nil (Q : MemberSig.t -> Prop) sigs :
  (exists s', Some s' ∈ None :: sigs /\ Q s') <-> exists s', Some s' ∈ sigs /\ Q s'.
Proof. setoid_rewrite elem_of_cons. naive_solver. Qed.

Lemma count_sigs_spec g msg sigs counted fr :
  exists counted' : gset bytes,
    (count_sigs g msg sigs counted (Z.of_nat (size counted)) fr).1 = Z.of_nat (size counted') /\
    (forall id, id ∈ counted' <-> id ∈ counted \/
      exists s, Some s ∈ sigs /\ MemberSig.MemberID s = id /\ check_sig g msg s = Ok tt).
Proof.
  revert counted fr. induction sigs as [|[s|] sigs IH]; intros counted fr; cbn [count_sigs].
  - exists counted. split; [done|]. intros id. split; [by left|].
    intros [?|(s & Hs & _)]; [done|by apply elem_of_nil in Hs].
  - case_bool_decide as D.
    + destruct (IH counted fr) as (c & E & Hc). exists c. split; [done|]. intros id.
      rewrite Hc, sig_cons. split; [tauto|]. intros [?|[[<- _]|?]]; auto.
    + destruct (check_sig g msg s) as [[]|e] eqn:Ck.
      * destruct (IH ({[MemberSig.MemberID s]} ∪ counted) fr) as (c & E & Hc).
        rewrite size_union, size_singleton, Nat2Z.inj_add, Z.add_comm in E by set_solver.
        exists c. split; [exact E|]. intros id. rewrite Hc, elem_of_union, elem_of_singleton, sig_cons.
        split; [intros [[->|?]|?]; auto|]. intros [?|[[<- _]|?]]; auto.
      * destruct (IH counted (match fr with None => Some e | Some _ => fr end)) as (c & E & Hc).
        exists c. split; [exact E|]. intros id. rewrite Hc, sig_cons.
        split; [tauto|]. intros [?|[[_ X]|?]]; [auto|congruence|auto].
  - destruct (IH counted fr) as (c & E & Hc). exists c. split; [done|]. intros id.
    by rewrite Hc, sig_nil.
Qed.

(** At least [Threshold] distinct members of the group signed [msg]. *)
Definition quorum (g : Group.t) (msg : bytes) (sigs : list (option MemberSig.t)) : Prop :=
  exists ms, NoDup ms /\ ms ⊆ Group.Members g /\ Group.Threshold g <= len ms /\
    Forall (fun m => exists s, Some s ∈ sigs /\ signs m msg s) ms.

Lemma NoDup_of_map {A B} (f : A -> B) l : NoDup (map f l) -> NoDup l.
Proof. apply NoDup_fmap_1. Qed.

Lemma map_ids_size (ms : list Member.t) :
  NoDup (map Member.ID ms) -> size (list_to_set (map Member.ID ms) : gset bytes) = length ms.
Proof. intros N. by rewrite size_list_to_set, length_map. Qed.

Lemma sub_ids_nodup (ms ms' : list Member.t) :
  NoDup (map Member.ID ms') -> NoDup ms -> ms ⊆ ms' -> NoDup (map Member.ID ms).
Proof.
  intros N Nm S. apply NoDup_fmap_2_strong; [|done]. intros x y Hx Hy E.
  assert (Group.member_by_id ms' (Member.ID x) = Some x) as E1
    by (apply Group.member_by_id_some; auto).
  assert (Group.member_by_id ms' (Member.ID x) = Some y) as E2
    by (apply Group.member_by_id_some; auto).
  congruence.
Qed.

Lemma count_quorum g msg sigs :
  Group.valid g ->
  Group.Threshold g <= (count_sigs g msg sigs ∅ 0 None).1 <-> quorum g msg sigs.
Proof.
  intros V. destruct (count_sigs_spec g msg sigs ∅ None) as (c & E & Hc).
  change (Z.of_nat (size (∅ : gset bytes))) with 0 in E. rewrite E.
  assert (forall m s, m ∈ Group.Members g -> Some s ∈ sigs -> signs m msg s -> Member.ID m ∈ c) as In.
  { intros m s Hm Hs S. apply Hc. right. exists s. split_and!; [done|apply S|].
    apply check_sig_iff; [done|]. by exists m. }
  split.
  - intros HT. exists (filter (fun m => Member.ID m ∈ c) (Group.Members g)).
    assert (filter (fun m => Member.ID m ∈ c) (Group.Members g) ⊆ Group.Members g) as Sub
      by (intros m; rewrite list_elem_of_filter; naive_solver).
    assert (NoDup (filter (fun m => Member.ID m ∈ c) (Group.Members g))) as N
      by (apply NoDup_filter, NoDup_of_map with (f := Member.ID), V).
    split_and!; [done|done| |].
    + unfold len. rewrite <- map_ids_size by (apply (sub_ids_nodup _ (Group.Members g)); [apply V|done|done]).
      etrans; [exact HT|]. apply Nat2Z.inj_le, subseteq_size. intros id Hid.
      apply Hc in Hid as Hid'. destruct Hid' as [?|(s & Hs & Hi & Ck)]; [set_solver|].
      apply check_sig_iff in Ck as (m & Hm & S); [|done].
      apply elem_of_list_to_set, list_elem_of_fmap. exists m.
      assert (Member.ID m = id) by (destruct S; congruence). split; [done|].
      apply list_elem_of_filter. split; [congruence|done].
    + apply Forall_forall. intros m [Hid Hm]%list_elem_of_filter.
      apply Hc in Hid as [?|(s & Hs & Hi & Ck)]; [set_solver|].
      exists s. split; [done|]. apply check_sig_iff in Ck as (m' & Hm' & S); [|done].
      assert (m = m') as ->; [|done].
      assert (Group.member_by_id (Group.Members g) (Member.ID m) = Some m) as E1
        by (apply Group.member_by_id_some; [apply V|done]).
      assert (Group.member_by_id (Group.Members g) (Member.ID m) = Some m') as E2.
      { apply Group.member_by_id_some; [apply V|]. split; [done|]. destruct S; congruence. }
      congruence.
  - intros (ms & N & Sub & HT & F). etrans; [exact HT|]. unfold len.
    rewrite <- map_ids_size by (apply (sub_ids_nodup _ (Group.Members g)); [apply V|done|done]).
    apply Nat2Z.inj_le, subseteq_size. intros id (m & -> & Hm)%elem_of_list_to_set%list_elem_of_fmap.
    rewrite Forall_forall in F. destruct (F m Hm) as (s & Hs & S). by eapply In; eauto.
Qed.

Lemma VerifyMulti_iff g msg sigs :
  VerifyMulti (Some g) msg sigs = Ok tt <-> Group.valid g /\ sigs <> [] /\ quorum g msg sigs.
Proof.
  unfold VerifyMulti. pose proof (Group.Validate_iff g) as V.
  destruct (Group.Validate (Some g)) as [[]|] eqn:EV; cbn [wrap_err res_bind]; [|naive_solver].
  pose proof (proj1 V eq_refl) as VG.
  etrans; [eapply guard_iff; [apply len_zero_eqb|reflexivity]|].
  pose proof (count_quorum g msg sigs VG) as Q.
  destruct (count_sigs g msg sigs ∅ 0 None) as [v fr]. simpl in Q. rewrite <- Q.
  destruct (Z.ltb_spec v (Group.Threshold g)) as [Hlt|Hge].
  - split; [intros [_ X]; by destruct fr|intros (_ & _ & ?); lia].
  - naive_solver.
Qed.
End VerifyMulti.

(** ** The cosigner service *)
Module Cosigner.
Section Cosigner.
Context `{Crypto}.

Record t := mk {
  id : bytes;
  priv : bytes;
  pub : bytes;
  qPriv : option bytes;
  qPub : bytes;
  trustedCallers : gset bytes;
}.

Definition Sign (c : t) (now : Z) (msg : bytes) : MemberSig.t :=
  let sig := ed_sign (priv c) msg in
  match qPriv c with
  | Some qk => MemberSig.mk (id c) (pub c) sig now (qPub c) (d3_sign qk msg)
  | None => MemberSig.mk (id c) (pub c) sig now [] []
  end.

(** The parts of a request the handler reads: method, [X-Stele-Caller] ([[]]
    when absent) and the decoded body ([None] when it does not decode). *)
Record request := mk_request { Method : bytes; Caller : bytes; Message : option bytes }.

Definition authoriseRequest (c : t) (r : request) : bool :=
  if bool_decide (trustedCallers c = ∅) then true
  else if bool_decide (Caller r = []) then false
  else bool_decide (Caller r ∈ trustedCallers c).

(** The handler of [/cosigner/v0/sign]: HTTP status and response. *)
Definition handle_sign (c : t) (now : Z) (r : request) : Z * res MemberSig.t :=
  if negb (bool_decide (Method r = str "POST")) then (405, Err ["POST required"%string])
  else if negb (authoriseRequest c r) then (403, Err ["caller not authorised"%string])
  else match Message r with
  | None => (400, Err ["decode"%string])
  | Some msg =>
      if len msg =? 0 then (400, Err ["message required"%string])
      else (200, Ok (Sign c now msg))
  end.

(** The cosigner holds the keys the group lists for member [m]. *)
Definition serves (c : t) (m : Member.t) : Prop :=
  id c = Member.ID m /\ pub c = ed_public (priv c) /\ Member.PublicKey m = pub c /\
  qPub c = match qPriv c with Some qk => d3_public qk | None => [] end /\
  (Member.QuantumPublicKey m <> [] -> qPriv c <> None /\ Member.QuantumPublicKey m = qPub c).

Lemma d3_signature_nonempty `{!CryptoLaws _} k msg : d3_sign k msg <> [].
Proof. intros E. pose proof (d3_sign_length k msg) as L. by rewrite E in L. Qed.

Lemma Sign_signs `{!CryptoLaws _} c m now msg : serves c m -> signs m msg (Sign c now msg).
Proof.
  intros (Hi & Hp & Hm & Hq & HQ). unfold Sign, signs, MemberSig.good.
  destruct (qPriv c) as [qk|];
    cbn [MemberSig.MemberID MemberSig.PublicKey MemberSig.Signature MemberSig.QuantumPublicKey
         MemberSig.QuantumSignature].
  - split_and!; try done; [rewrite Hp; apply ed_public_length|apply ed_sign_length|
      rewrite Hp; apply ed_sign_verify|].
    intros Q. destruct (HQ Q) as [_ E]. split_and!; [done|apply d3_signature_nonempty|].
    rewrite E, Hq. apply d3_sign_verify.
  - split_and!; try done; [rewrite Hp; apply ed_public_length|apply ed_sign_length|
      rewrite Hp; apply ed_sign_verify|]. intros Q. by destruct (HQ Q).
Qed.
End Cosigner.
End Cosigner.

(** ** The coordinator *)
Module Coordinator.
Section Coordinator.
Context `{Crypto}.

(** What comes back from one cosigner: a transport error, or a status with a
    body that may not decode or may carry a nil signature. *)
Inductive reply :=
| TransportError
| Response (status : Z) (body : option (option MemberSig.t)).

Definition signOne (r : reply) : res MemberSig.t :=
  match r with
  | TransportError => Err ["cosigner"%string]
  | Response status body =>
      fail_if negb (status / 100 =? 2) with "cosigner HTTP" ;;
      match body with
      | None => Err ["decode"%string]
      | Some None => Err ["cosigner returned nil sig"%string]
      | Some (Some s) => Ok s
      end
  end.

(** The members that are asked. *)
Definition asked (g : Group.t) : list Member.t :=
  filter (fun m => Member.Endpoint m <> []) (Group.Members g).

(** The loop over the results, in the order they arrive. *)
Fixpoint gather (g : Group.t) (msg : bytes) (rs : list reply)
    (gathered : list MemberSig.t) (errs : list error) : list MemberSig.t * list error :=
  match rs with
  | [] => (gathered, errs)
  | r :: rs' =>
      match signOne r with
      | Err e => gather g msg rs' gathered (errs ++ [e])
      | Ok s =>
          match MemberSig.Verify s msg with
          | Err e => gather g msg rs' gathered (errs ++ ["returned invalid sig"%string :: e])
          | Ok _ =>
              match Group.MemberByID g (MemberSig.MemberID s) with
              | Some m =>
                  if bytesEqual (Member.PublicKey m) (MemberSig.PublicKey s)
                  then gather g msg rs' (gathered ++ [s]) errs
                  else gather g msg rs' gathered (errs ++ [["returned mismatched public key"%string]])
              | None => gather g msg rs' gathered (errs ++ [["returned mismatched public key"%string]])
              end
          end
      end
  end.

(** [arrivals]: the replies of the asked members, one each, in arrival order. *)
Definition Sign (g : Group.t) (msg : bytes) (arrivals : list (Member.t * reply))
    : list MemberSig.t * res unit :=
  match Group.Validate (Some g) with
  | Err e => ([], Err e)
  | Ok _ =>
      let '(gathered, errs) := gather g msg arrivals.*2 [] [] in
      if wrap32 (len gathered) <? Group.Threshold g
      then (gathered, Err ["threshold not reached"%string])
      else (gathered, Ok tt)
  end.

(** A signature [Sign] keeps: it verifies, under the key its member registered. *)
Definition kept (g : Group.t) (msg : bytes) (s : MemberSig.t) : Prop :=
  MemberSig.good s msg /\
  exists m, m ∈ Group.Members g /\ Member.ID m = MemberSig.MemberID s /\
    Member.PublicKey m = MemberSig.PublicKey s.

Lemma gather_kept g msg rs gathered errs :
  Group.valid g -> Forall (kept g msg) gathered ->
  Forall (kept g msg) (gather g msg rs gathered errs).1.
Proof.
  intros V. revert gathered errs. induction rs as [|r rs IH]; intros gathered errs F; cbn [gather]; [done|].
  destruct (signOne r) as [s|e]; [|by apply IH].
  pose proof (MemberSig.MemberSig_Verify_iff s msg) as VS.
  destruct (MemberSig.Verify s msg) as [[]|e]; [|by apply IH].
  destruct (Group.MemberByID g (MemberSig.MemberID s)) as [m|] eqn:Em; [|by apply IH].
  destruct (bytesEqual _ _) eqn:Eb; [|by apply IH].
  apply IH, Forall_app. split; [done|]. apply Forall_singleton. split; [by apply VS|].
  apply (Group.member_by_id_some _ _ _ (Group.v_ids g V)) in Em as [Hm Hid].
  apply bytesEqual_spec in Eb. by exists m.
Qed.

Lemma gather_length g msg rs gathered errs :
  (length (gather g msg rs gathered errs).1 <= length gathered + length rs)%nat.
Proof.
  revert gathered errs. induction rs as [|r rs IH]; intros gathered errs; cbn [gather]; [simpl; lia|].
  repeat case_match; (etrans; [apply IH|]); rewrite ?length_app; simpl; lia.
Qed.
End Coordinator.
End Coordinator.

(** ** Properties *)

(** C3. Threshold verification is exact: [VerifyMulti] accepts iff the group is
    well formed and at least [Threshold] distinct listed members each have a
    signature on the message under their registered key - and, for a member
    with a quantum key, a quantum signature under that key too.  Unknown
    members, substituted keys, repeated members and nil signatures never
    count. *)
Theorem verify_multi_exact `{Crypto} g msg sigs :
  VerifyMulti (Some g) msg sigs = Ok tt <->
  Group.valid g /\ sigs <> [] /\ quorum g msg sigs.
Proof. apply VerifyMulti_iff. Qed.

(** Adding signatures never hurts and order never matters: a list that
    contains every signature of an accepted list is accepted, so a bogus,
    repeated or nil signature cannot block a quorum. *)
Theorem verify_multi_monotone `{Crypto} g msg sigs sigs' :
  VerifyMulti g msg sigs = Ok tt -> sigs ⊆ sigs' -> VerifyMulti g msg sigs' = Ok tt.
Proof.
  destruct g as [g|]; [|done]. rewrite !VerifyMulti_iff.
  intros (V & Hne & ms & N & Sub & HT & F) Hs. split_and!; [done| |].
  - intros ->. destruct sigs as [|x ?]; [done|]. specialize (Hs x). set_solver.
  - exists ms. split_and!; try done. eapply Forall_impl; [exact F|].
    intros m (s & Hin & S). exists s. split; [by apply Hs|done].
Qed.

Lemma quorum_verifies `{C : Crypto, !CryptoLaws C} g msg now
    (ms : list Member.t) (serve : Member.t -> Cosigner.t) :
  Group.Validate (Some g) = Ok tt -> NoDup ms -> ms ⊆ Group.Members g -> ms <> [] ->
  Group.Threshold g <= len ms -> (forall m, m ∈ ms -> Cosigner.serves (serve m) m) ->
  VerifyMulti (Some g) msg (map (fun m => Some (Cosigner.Sign (serve m) now msg)) ms) = Ok tt.
Proof.
  intros V N Sub Hne HT HS. apply VerifyMulti_iff. split_and!.
  - by apply Group.Validate_iff.
  - by destruct ms.
  - exists ms. split_and!; try done. apply Forall_forall. intros m Hm.
    exists (Cosigner.Sign (serve m) now msg). split; [|by apply Cosigner.Sign_signs, HS].
    apply list_elem_of_fmap. by exists m.
Qed.

(** Honest cosigners reach a quorum: when at least [Threshold] distinct
    members run a cosigner that holds their registered keys, the signatures
    their [Sign] returns verify, classical and hybrid members alike. *)
Theorem cosigners_reach_quorum `{C : Crypto, !CryptoLaws C} g msg now
    (ms : list Member.t) (serve : Member.t -> Cosigner.t) :
  Group.Validate (Some g) = Ok tt -> NoDup ms -> ms ⊆ Group.Members g -> ms <> [] ->
  Group.Threshold g <= len ms -> (forall m, m ∈ ms -> Cosigner.serves (serve m) m) ->
  VerifyMulti (Some g) msg (map (fun m => Some (Cosigner.Sign (serve m) now msg)) ms) = Ok tt.
Proof. apply quorum_verifies. Qed.

(** The group digest does not depend on the order members are listed in. *)
Theorem group_digest_order g1 g2 :
  Group.Validate (Some g1) = Ok tt ->
  Group.Members g1 ≡ₚ Group.Members g2 -> Group.Version g1 = Group.Version g2 ->
  Group.Origin g1 = Group.Origin g2 -> Group.Threshold g1 = Group.Threshold g2 ->
  Group.CreatedAt g1 = Group.CreatedAt g2 ->
  Group.Digest g1 = Group.Digest g2.
Proof.
  intros V%Group.Validate_iff P E1 E2 E3 E4. unfold Group.Digest, Group.Canonical.
  rewrite (Group.sorted_members_perm _ _ (Group.v_ids _ V) P). by rewrite E1, E2, E3, E4.
Qed.

(** The group digest pins the group: groups with the same digest have the
    same origin, threshold, creation time and members with the same classical
    and quantum keys (so a group whose quantum keys were dropped has another
    digest), or their encodings are a SHA-256 collision. *)
Theorem group_digest_binds g1 g2 :
  Group.fits g1 -> Group.fits g2 -> Group.Digest g1 = Group.Digest g2 ->
  Group.same_group g1 g2 \/ collision (Group.Canonical g1) (Group.Canonical g2).
Proof.
  intros F1 F2 [E|C]%sha256_eq_or_collision; [left|by right]. by apply Group.Canonical_same.
Qed.

(** The coordinator keeps only signatures that verify under the key their
    member registered, and reports success only with at least [Threshold] of
    them. *)
Theorem coordinator_keeps_valid `{Crypto} g msg arrivals gathered r :
  Coordinator.Sign g msg arrivals = (gathered, r) ->
  Forall (Coordinator.kept g msg) gathered /\
  (r = Ok tt -> len arrivals < 2 ^ 32 -> Group.Threshold g <= len gathered).
Proof.
  unfold Coordinator.Sign. pose proof (Group.Validate_iff g) as V.
  destruct (Group.Validate (Some g)) as [[]|e]; [|intros [= <- <-]; split; [constructor|done]].
  pose proof (Coordinator.gather_kept g msg arrivals.*2 [] [] (proj1 V eq_refl) (Forall_nil_2 _)) as K.
  pose proof (Coordinator.gather_length g msg arrivals.*2 [] []) as L.
  destruct (Coordinator.gather g msg arrivals.*2 [] []) as [gs errs]. simpl in K, L.
  rewrite length_fmap in L.
  destruct (Z.ltb_spec (wrap32 (len gs)) (Group.Threshold g)); intros [= <- <-]; split; try done.
  intros _ B. unfold wrap32, len in *. rewrite Z.mod_small in * by lia. done.
Qed.

(** A two-of-three group with one hybrid member, and its cosigners. *)
Definition demo_cosigner (n : string) (hybrid : bool) : Cosigner.t :=
  let k := str n in
  Cosigner.mk (str n) k (ed_public k) (if hybrid then Some k else None)
    (if hybrid then d3_public k else []) ∅.
Definition demo_member (n : string) (hybrid : bool) : Member.t :=
  Member.mk (str n) (ed_public (str n)) (if hybrid then d3_public (str n) else [])
    (str "http://cosigner") [].
Definition alice : Member.t := demo_member "alice" true.
Definition bob : Member.t := demo_member "bob" false.
Definition carol : Member.t := demo_member "carol" false.
Definition demo_group : Group.t := Group.mk 1 (str "log.example") [carol; alice; bob] 2 7.
Definition demo_serve (m : Member.t) : Cosigner.t :=
  Cosigner.mk (Member.ID m) (Member.ID m) (ed_public (Member.ID m))
    (if bool_decide (Member.QuantumPublicKey m = []) then None else Some (Member.ID m))
    (if bool_decide (Member.QuantumPublicKey m = []) then [] else d3_public (Member.ID m)) ∅.

Lemma demo_group_ok : Group.Validate (Some demo_group) = Ok tt.
Proof. vm_compute. reflexivity. Qed.
Lemma demo_group_fits : Group.fits demo_group.
Proof.
  split; try done.
  repeat constructor; unfold fits32; vm_compute; reflexivity.
Qed.

Lemma demo_serves m : m ∈ [alice; bob] -> Cosigner.serves (demo_serve m) m.
Proof.
  intros Hm. repeat (apply elem_of_cons in Hm as [->|Hm]; [vm_compute; split_and!; try done|]);
    [..|by apply elem_of_nil in Hm].
Qed.

Lemma cosigners_reach_quorum_witness :
  VerifyMulti (Some demo_group) (str "m")
    [Some (Cosigner.Sign (demo_serve alice) 5 (str "m"));
     Some (Cosigner.Sign (demo_serve bob) 5 (str "m"))] = Ok tt.
Proof.
  apply (cosigners_reach_quorum demo_group (str "m") 5 [alice; bob] demo_serve);
    [apply demo_group_ok|repeat constructor; set_solver by done|set_solver|done|done|apply demo_serves].
Defined.

Definition demo_sig (m : Member.t) : MemberSig.t := Cosigner.Sign (demo_serve m) 5 (str "m").

Lemma verify_multi_monotone_witness :
  VerifyMulti (Some demo_group) (str "m") [None; Some (demo_sig bob); Some (demo_sig carol)] = Ok tt.
Proof.
  apply (verify_multi_monotone (Some demo_group) (str "m") [Some (demo_sig carol); Some (demo_sig bob)]);
    [vm_compute; reflexivity|set_solver].
Defined.

Definition demo_group' : Group.t := Group.mk 1 (str "log.example") [alice; bob; carol] 2 7.

Lemma group_digest_order_witness : Group.Digest demo_group = Group.Digest demo_group'.
Proof.
  apply (group_digest_order demo_group demo_group' demo_group_ok); [|reflexivity..].
  apply (Permutation_cons_append [alice; bob] carol).
Defined.

Lemma group_digest_binds_witness :
  Group.same_group demo_group demo_group \/
  collision (Group.Canonical demo_group) (Group.Canonical demo_group).
Proof. apply (group_digest_binds demo_group demo_group demo_group_fits demo_group_fits). reflexivity. Defined.

Definition demo_arrivals : list (Member.t * Coordinator.reply) :=
  [(bob, Coordinator.Response 200 (Some (Some (demo_sig bob))));
   (alice, Coordinator.TransportError);
   (carol, Coordinator.Response 200 (Some (Some (demo_sig bob))))].

Lemma coordinator_keeps_valid_witness :
  Forall (Coordinator.kept demo_group (str "m")) [demo_sig bob; demo_sig bob] /\
  (Ok tt = Ok tt -> len demo_arrivals < 2 ^ 32 ->
   Group.Threshold demo_group <= len [demo_sig bob; demo_sig bob]).
Proof.
  apply (coordinator_keeps_valid demo_group (str "m") demo_arrivals).
  vm_compute. reflexivity.
Defined.

(** The coordinator counts replies, not members: when two cosigners answer
    with the same member's signature it reports that the threshold is reached,
    although [VerifyMulti] refuses what it gathered. *)
Theorem coordinator_counts_duplicates :
  exists gathered, Coordinator.Sign demo_group (str "m") demo_arrivals = (gathered, Ok tt) /\
    is_ok (VerifyMulti (Some demo_group) (str "m") (map Some gathered)) = false.
Proof. exists [demo_sig bob; demo_sig bob]. split; vm_compute; reflexivity. Qed.
