(* ===== verification/Fwdsec.v ===== *)
(** * Forward-secure signing (pkg/fwdsec)

    Rotation certificates and their chain, and the signer that rotates the
    epoch key over a file key store: the store's files and chain.json are part
    of the state, and every step that can fail has its outcome as an argument. *)

From S2P Require Import Prelude Crypto Threshold.
From stdpp Require Import base numbers list gmap strings.
From Stdlib Require Import ZArith Lia.

#[local] Open Scope Z_scope.

Definition KeyID (pub : bytes) : bytes := hex (take 8 (sha256 pub)).

(** ** Rotation certificates *)
Module RotationCert.

Record t := mk {
  Epoch : Z;
  PublicKey : bytes;
  StartedAt : Z;
  SignedBy : bytes;
  Signature : bytes;
  QuantumPublicKey : bytes;
  QuantumSignedBy : bytes;
  QuantumSignature : bytes;
  ThresholdGroupDigest : bytes;
  MemberSigs : list (option MemberSig.t);
}.

Definition Canonical (c : t) : bytes :=
  let q := if 0 <? len (QuantumPublicKey c) then hex (QuantumPublicKey c) else str "none" in
  let tg := if bool_decide (ThresholdGroupDigest c = []) then str "none"
            else ThresholdGroupDigest c in
  line "stele-rotation/v0" [] ++
  line "epoch: " (fmt_d (Epoch c)) ++
  line "public_key: " (hex (PublicKey c)) ++
  line "started_at: " (fmt_d (StartedAt c)) ++
  line "signed_by: " (hex (SignedBy c)) ++
  line "quantum_public_key: " q ++
  line "threshold_group: " tg.

Definition set_signatures (c : t) (sig qsig : bytes) (ms : list (option MemberSig.t)) : t :=
  mk (Epoch c) (PublicKey c) (StartedAt c) (SignedBy c) sig (QuantumPublicKey c)
     (QuantumSignedBy c) qsig (ThresholdGroupDigest c) ms.

Section Verify.
Context `{Crypto}.

Definition verifyQuantumCert (c : t) (canon : bytes) : res unit :=
  fail_if negb (len (QuantumPublicKey c) =? d3_PublicKeySize) with "quantum public key wrong length" ;;
  fail_if negb (len (QuantumSignedBy c) =? d3_PublicKeySize) with "quantum signed-by wrong length" ;;
  fail_if negb (len (QuantumSignature c) =? d3_SignatureSize) with "quantum signature wrong length" ;;
  d3_check (QuantumSignedBy c) canon (QuantumSignature c)
    "decode quantum signed_by" "quantum signature invalid".

Definition Verify (c : t) : res unit :=
  fail_if negb (len (PublicKey c) =? PublicKeySize) with "bad PublicKey length" ;;
  fail_if 0 <? len (MemberSigs c) with "threshold-mode cert requires VerifyWithGroup" ;;
  fail_if negb (len (SignedBy c) =? PublicKeySize) with "bad SignedBy length" ;;
  let canon := Canonical c in
  fail_if negb (ed_verify (SignedBy c) canon (Signature c)) with "classical signature invalid" ;;
  if (0 <? len (QuantumPublicKey c)) || (0 <? len (QuantumSignature c)) || (0 <? len (QuantumSignedBy c))
  then wrap_err "rotation cert" (verifyQuantumCert c canon)
  else Ok tt.

Definition VerifyWithGroup (c : t) (group : option Group.t) : res unit :=
  if len (MemberSigs c) =? 0 then Verify c
  else match group with
  | None => Err ["threshold-mode cert requires group"%string]
  | Some g =>
      fail_if negb (bool_decide (ThresholdGroupDigest c = hex (Group.Digest g)))
        with "group digest mismatch" ;;
      VerifyMulti (Some g) (Canonical c) (MemberSigs c)
  end.

(** What an accepted single-signature certificate is. *)
Definition valid (c : t) : Prop :=
  len (PublicKey c) = PublicKeySize /\ MemberSigs c = [] /\ len (SignedBy c) = PublicKeySize /\
  ed_verify (SignedBy c) (Canonical c) (Signature c) = true /\
  ((QuantumPublicKey c = [] /\ QuantumSignature c = [] /\ QuantumSignedBy c = []) \/
   (len (QuantumPublicKey c) = d3_PublicKeySize /\ len (QuantumSignedBy c) = d3_PublicKeySize /\
    len (QuantumSignature c) = d3_SignatureSize /\
    d3_good (QuantumSignedBy c) (Canonical c) (QuantumSignature c))).

Lemma len_eq_nonempty {A} (l : list A) n : len l = n -> 0 < n -> l <> [].
Proof. intros <- H0 ->. done. Qed.

Lemma cert_Verify_iff c : Verify c = Ok tt <-> valid c.
Proof.
  unfold Verify, valid, verifyQuantumCert.
  apply guard_iff; [apply eqb_guard|]. apply guard_iff; [apply len_zero|].
  apply guard_iff; [apply eqb_guard|]. apply guard_iff; [apply negb_false_iff|].
  destruct ((0 <? len (QuantumPublicKey c)) || _ || _) eqn:Q.
  - rewrite wrap_err_ok. etrans; [repeat (eapply guard_iff; [apply eqb_guard|]); apply d3_check_ok|].
    split; [by right|]. intros [(E1 & E2 & E3)|?]; [|done].
    rewrite E1, E2, E3 in Q. done.
  - apply orb_false_iff in Q as [Q Q3]. apply orb_false_iff in Q as [Q1 Q2].
    apply len_zero in Q1, Q2, Q3. rewrite Q1, Q2, Q3. split; [by left|done].
Qed.
End Verify.

(** The fields a rotation signature covers. *)
Definition signed_fields (c : t) :=
  (Epoch c, PublicKey c, StartedAt c, SignedBy c, QuantumPublicKey c, ThresholdGroupDigest c).

(** The group field is a hex digest, or absent. *)
Definition wf (c : t) : Prop := exists d, ThresholdGroupDigest c = hex d.

Definition or_none (b : bytes) : bytes := if 0 <? len b then hex b else str "none".

Lemma or_none_one_line b : one_line (or_none b).
Proof.
  unfold or_none. case_match; [apply one_line_hex|]. unfold one_line. by vm_compute; set_solver.
Qed.

Lemma or_none_inj a b : or_none a = or_none b -> a = b.
Proof.
  unfold or_none. destruct (0 <? len a) eqn:A, (0 <? len b) eqn:B; intros E.
  - by apply hex_inj.
  - by apply hex_not_none in E.
  - symmetry in E. by apply hex_not_none in E.
  - apply len_zero in A, B. congruence.
Qed.

Lemma hex_nil b : hex b = [] <-> b = [].
Proof. destruct b; [done|]. by rewrite hex_cons. Qed.

Lemma or_none_group d :
  (if bool_decide (hex d = []) then str "none" else hex d) = or_none d.
Proof.
  unfold or_none. case_bool_decide as E.
  - apply hex_nil in E as ->. done.
  - rewrite (proj2 (len_pos d)); [done|]. intros ->. done.
Qed.

Lemma cert_Canonical_fields c1 c2 :
  wf c1 -> wf c2 -> Canonical c1 = Canonical c2 -> signed_fields c1 = signed_fields c2.
Proof.
  intros [d1 D1] [d2 D2] E. unfold Canonical in E. rewrite D1, D2, !or_none_group in E.
  fold (or_none (QuantumPublicKey c1)) (or_none (QuantumPublicKey c2)) in E.
  apply line_inj in E as [_ E]; [|by apply not_elem_of_nil..].
  apply line_inj in E as [E1%fmt_d_inj E]; auto with stele.
  apply line_inj in E as [E2%hex_inj E]; auto with stele.
  apply line_inj in E as [E3%fmt_d_inj E]; auto with stele.
  apply line_inj in E as [E4%hex_inj E]; auto with stele.
  apply line_inj in E as [E5%or_none_inj E]; auto using or_none_one_line.
  rewrite <- (app_nil_r (line _ (or_none d1))), <- (app_nil_r (line _ (or_none d2))) in E.
  apply line_inj in E as [E6%or_none_inj _]; auto using or_none_one_line.
  unfold signed_fields. rewrite D1, D2. congruence.
Qed.
End RotationCert.

(** ** The rotation chain *)
Module Chain.

Record t := mk {
  Origin : bytes;
  Certs : list RotationCert.t;
  ActiveLocator : bytes;
}.

(** A nil key is the empty slice. *)
Definition RootPublicKey (c : t) : bytes :=
  match Certs c with [] => [] | g :: _ => RotationCert.PublicKey g end.
Definition ActivePublicKey (c : t) : bytes :=
  match last (Certs c) with None => [] | Some x => RotationCert.PublicKey x end.
Definition ActiveEpoch (c : t) : Z :=
  match last (Certs c) with None => 0 | Some x => RotationCert.Epoch x end.

Fixpoint at_epoch (certs : list RotationCert.t) (epoch : Z) : option RotationCert.t :=
  match certs with
  | [] => None
  | c :: certs' => if RotationCert.Epoch c =? epoch then Some c else at_epoch certs' epoch
  end.
Definition PublicKeyAt (c : t) (epoch : Z) : bytes :=
  match at_epoch (Certs c) epoch with Some x => RotationCert.PublicKey x | None => [] end.
Definition QuantumPublicKeyAt (c : t) (epoch : Z) : bytes :=
  match at_epoch (Certs c) epoch with Some x => RotationCert.QuantumPublicKey x | None => [] end.

Section Verify.
Context `{Crypto}.

(** The signature check of one iteration. *)
Definition verify_sigs (group : option Group.t) (cert : RotationCert.t) : res unit :=
  if 0 <? len (RotationCert.MemberSigs cert) then
    match group with
    | None => Err ["chain: epoch is threshold-signed but no group supplied"%string]
    | Some _ => RotationCert.VerifyWithGroup cert group
    end
  else RotationCert.Verify cert.

(** The link checks of one iteration after the first. *)
Definition verify_link (prev cert : RotationCert.t) : res unit :=
  fail_if negb (RotationCert.Epoch cert =? wrap64 (RotationCert.Epoch prev + 1)) with "chain: epoch jump" ;;
  fail_if RotationCert.StartedAt cert <? RotationCert.StartedAt prev
    with "chain: epoch started before its parent" ;;
  if len (RotationCert.MemberSigs cert) =? 0 then
    fail_if negb (bytesEqual (RotationCert.SignedBy cert) (RotationCert.PublicKey prev))
      with "chain: epoch signed by unexpected key" ;;
    if (0 <? len (RotationCert.QuantumPublicKey cert)) || (0 <? len (RotationCert.QuantumSignedBy cert))
    then fail_if negb (bytesEqual (RotationCert.QuantumSignedBy cert) (RotationCert.QuantumPublicKey prev))
           with "chain: epoch quantum half signed by unexpected key" ;; Ok tt
    else Ok tt
  else Ok tt.

Fixpoint verify_certs (group : option Group.t) (prev : option RotationCert.t)
    (certs : list RotationCert.t) : res unit :=
  match certs with
  | [] => Ok tt
  | cert :: certs' =>
      let! _ := verify_sigs group cert in
      let! _ := match prev with None => Ok tt | Some p => verify_link p cert end in
      verify_certs group (Some cert) certs'
  end.

Definition verifyChain (c : t) (rootPub : bytes) (group : option Group.t) : res unit :=
  match Certs c with
  | [] => Err ["chain: no certs"%string]
  | g :: _ =>
      fail_if negb (RotationCert.Epoch g =? 0) with "chain: first cert must be epoch 0" ;;
      fail_if negb (bytesEqual (RotationCert.PublicKey g) rootPub)
        with "chain: genesis public key does not match trusted root" ;;
      fail_if negb (bytesEqual (RotationCert.SignedBy g) rootPub)
        with "chain: genesis must be self-signed (SignedBy == PublicKey)" ;;
      fail_if (0 <? len (RotationCert.QuantumPublicKey g)) &&
              negb (bytesEqual (RotationCert.QuantumPublicKey g) (RotationCert.QuantumSignedBy g))
        with "chain: genesis quantum half must be self-signed" ;;
      verify_certs group None (Certs c)
  end.

Definition VerifyChain (c : t) (rootPub : bytes) : res unit := verifyChain c rootPub None.
Definition VerifyChainWithGroup (c : t) (rootPub : bytes) (group : option Group.t) : res unit :=
  verifyChain c rootPub group.

(** *** What an accepted chain is *)

(** A certificate is authorised: by its own signature(s), or by a quorum of
    the group whose digest it carries. *)
Definition authorised (group : option Group.t) (cert : RotationCert.t) : Prop :=
  (RotationCert.MemberSigs cert = [] /\ RotationCert.valid cert) \/
  (RotationCert.MemberSigs cert <> [] /\ exists g, group = Some g /\
    RotationCert.ThresholdGroupDigest cert = hex (Group.Digest g) /\ Group.valid g /\
    quorum g (RotationCert.Canonical cert) (RotationCert.MemberSigs cert)).

(** A certificate continues the previous one. *)
Definition follows (prev cert : RotationCert.t) : Prop :=
  RotationCert.Epoch cert = wrap64 (RotationCert.Epoch prev + 1) /\
  RotationCert.StartedAt prev <= RotationCert.StartedAt cert /\
  (RotationCert.MemberSigs cert = [] ->
   RotationCert.SignedBy cert = RotationCert.PublicKey prev /\
   (RotationCert.QuantumPublicKey cert <> [] \/ RotationCert.QuantumSignedBy cert <> [] ->
    RotationCert.QuantumSignedBy cert = RotationCert.QuantumPublicKey prev)).

Fixpoint linked (group : option Group.t) (prev : option RotationCert.t)
    (certs : list RotationCert.t) : Prop :=
  match certs with
  | [] => True
  | c :: certs' => authorised group c /\ from_option (fun p => follows p c) True prev /\
                   linked group (Some c) certs'
  end.

Definition genesis_ok (rootPub : bytes) (g : RotationCert.t) : Prop :=
  RotationCert.Epoch g = 0 /\ RotationCert.PublicKey g = rootPub /\ RotationCert.SignedBy g = rootPub /\
  (RotationCert.QuantumPublicKey g = [] \/
   RotationCert.QuantumPublicKey g = RotationCert.QuantumSignedBy g).

Lemma verify_sigs_iff group cert : verify_sigs group cert = Ok tt <-> authorised group cert.
Proof.
  unfold verify_sigs, authorised. destruct (0 <? len (RotationCert.MemberSigs cert)) eqn:E.
  - apply len_pos in E. destruct group as [g|].
    + unfold RotationCert.VerifyWithGroup. rewrite (proj2 (len_zero_eqb _) E).
      etrans; [eapply guard_iff; [rewrite negb_false_iff; apply bool_decide_eq_true|apply VerifyMulti_iff]|].
      split.
      * intros (? & ? & _ & ?). right. split; [done|]. by exists g.
      * intros [[? _]|(_ & g' & [= <-] & ? & ? & ?)]; [done|]. done.
    + split; [done|]. intros [[? _]|(_ & g & ? & _)]; done.
  - apply len_zero in E. rewrite RotationCert.cert_Verify_iff, E. split; [by left|].
    intros [[_ ?]|[? _]]; done.
Qed.

Lemma verify_link_iff prev cert : verify_link prev cert = Ok tt <-> follows prev cert.
Proof.
  unfold verify_link, follows. apply guard_iff; [apply eqb_guard|].
  apply guard_iff; [apply Z.ltb_ge|].
  destruct (len (RotationCert.MemberSigs cert) =? 0) eqn:E.
  - assert (RotationCert.MemberSigs cert = []) as ->.
    { destruct (RotationCert.MemberSigs cert); [done|]. discriminate E. }
    destruct ((0 <? len (RotationCert.QuantumPublicKey cert)) || _) eqn:Q.
    + assert (RotationCert.QuantumPublicKey cert <> [] \/ RotationCert.QuantumSignedBy cert <> []) as Q'
        by (apply orb_true_iff in Q as [Q|Q]; apply len_pos in Q; auto).
      etrans; [repeat (eapply guard_iff; [rewrite negb_false_iff; apply bytesEqual_spec|]); reflexivity|].
      split; [intros (-> & -> & _); auto|]. intros X. destruct (X eq_refl) as [-> Y].
      by rewrite (Y Q').
    + apply orb_false_iff in Q as [Q1%len_zero Q2%len_zero]. rewrite Q1, Q2.
      etrans; [eapply guard_iff; [rewrite negb_false_iff; apply bytesEqual_spec|reflexivity]|].
      split; [|intros X; by destruct (X eq_refl)]. intros [-> _] _. split; [done|]. by intros [?|?].
  - split; [|done]. intros _ X. rewrite X in E. done.
Qed.

Lemma bind_unit_iff (r k : res unit) P Q :
  (r = Ok tt <-> P) -> (k = Ok tt <-> Q) -> (let! _ := r in k) = Ok tt <-> P /\ Q.
Proof. intros HP HQ. destruct r as [[]|]; cbn [res_bind]; naive_solver. Qed.

Lemma verify_certs_iff group prev certs :
  verify_certs group prev certs = Ok tt <-> linked group prev certs.
Proof.
  revert prev. induction certs as [|c certs IH]; intros prev; cbn [verify_certs linked]; [done|].
  apply bind_unit_iff; [apply verify_sigs_iff|]. apply bind_unit_iff; [|apply IH].
  destruct prev; [apply verify_link_iff|done].
Qed.

Lemma verifyChain_iff c rootPub group :
  verifyChain c rootPub group = Ok tt <->
  exists g, head (Certs c) = Some g /\ genesis_ok rootPub g /\ linked group None (Certs c).
Proof.
  unfold verifyChain. destruct (Certs c) as [|g certs] eqn:E; [naive_solver|].
  etrans.
  { eapply guard_iff; [apply eqb_guard|].
    do 2 (eapply guard_iff; [rewrite negb_false_iff; apply bytesEqual_spec|]).
    eapply guard_iff; [apply andb_false_iff|apply verify_certs_iff]. }
  rewrite negb_false_iff, len_zero, bytesEqual_spec. unfold genesis_ok. simpl head.
  split.
  - intros (?&?&?&?&?). by exists g.
  - intros (g' & [= <-] & (?&?&?&?) & ?). by split_and!.
Qed.

Lemma linked_snoc group prev certs c :
  linked group prev (certs ++ [c]) <->
  linked group prev certs /\ authorised group c /\
  from_option (fun p => follows p c) True (match last certs with Some p => Some p | None => prev end).
Proof.
  revert prev. induction certs as [|x certs IH]; intros prev; simpl; [naive_solver|].
  rewrite IH. destruct certs as [|y certs]; simpl; [naive_solver|].
  destruct (last (y :: certs)) eqn:L; [naive_solver|]. by apply last_None in L.
Qed.

(** Epochs of an accepted chain number its certificates. *)
Lemma linked_epoch group certs c g :
  head (certs ++ [c]) = Some g -> RotationCert.Epoch g = 0 -> linked group None (certs ++ [c]) ->
  len certs < 2 ^ 64 -> RotationCert.Epoch c = len certs.
Proof.
  revert c. induction certs as [|x certs IH] using rev_ind; intros c Hg G L B.
  - simpl in Hg. injection Hg as <-. done.
  - apply linked_snoc in L as (L & _ & F). rewrite last_snoc in F. destruct F as [-> _].
    unfold len in *. rewrite length_app in *. simpl in *. rewrite (IH x).
    + unfold wrap64. rewrite Z.mod_small; lia.
    + by destruct certs.
    + done.
    + done.
    + lia.
Qed.
End Verify.
End Chain.

(** ** The file key store *)
Module KeyStore.
Section KeyStore.
Context `{Crypto}.

(** A [fileLiveKey]; [priv] is nil once the key is destroyed. *)
Record LiveKey := mk_live {
  priv : option bytes;
  pub : bytes;
  path : bytes;
  qPriv : option bytes;
  qPub : bytes;
}.

Definition Public (k : LiveKey) : bytes := pub k.
Definition QuantumPublic (k : LiveKey) : bytes := qPub k.
Definition Locator (k : LiveKey) : bytes := path k.
Definition Sign (k : LiveKey) (msg : bytes) : res bytes :=
  match priv k with
  | None => Err ["file livekey: destroyed"%string]
  | Some p => Ok (ed_sign p msg)
  end.
Definition QuantumSign (k : LiveKey) (msg : bytes) : res bytes :=
  match qPriv k with
  | None => Err ["file livekey: not hybrid (no Dilithium key)"%string]
  | Some q => Ok (d3_sign q msg)
  end.

(** The key files: the keys a file encodes, or noise. *)
Abbreviation keyfile := (option (bytes * option bytes)).
Abbreviation dir := (gmap bytes keyfile).

(** What a successful key generation draws: both private keys and the name. *)
Record fresh := mk_fresh { f_priv : bytes; f_qpriv : bytes; f_path : bytes }.

Definition live_key (p : bytes) (q : option bytes) (loc : bytes) : LiveKey :=
  mk_live (Some p) (ed_public p) loc q (match q with Some q => d3_public q | None => [] end).

Definition Generate (hybrid : bool) (gen : res fresh) (d : dir) : dir * res LiveKey :=
  match gen with
  | Err e => (d, Err e)
  | Ok f =>
      let q := if hybrid then Some (f_qpriv f) else None in
      (<[f_path f := Some (f_priv f, q)]> d, Ok (live_key (f_priv f) q (f_path f)))
  end.

Definition Load (d : dir) (locator : bytes) : res LiveKey :=
  fail_if bool_decide (locator = []) with "file keystore: empty locator" ;;
  match d !! locator with
  | None => Err ["file keystore: read"%string]
  | Some None => Err ["file keystore: decode"%string]
  | Some (Some (p, q)) =>
      fail_if negb (len p =? PrivateKeySize) with "file keystore: key length" ;;
      Ok (live_key p q locator)
  end.

(** Outcomes of the three system calls of [Destroy]. *)
Record destroy_io := mk_io { rand_ok : bool; overwrite_ok : bool; remove_ok : bool }.

Definition Destroy (k : LiveKey) (io : destroy_io) (d : dir) : LiveKey * dir * res unit :=
  let '(d', firstErr) :=
    if bool_decide (path k = []) then (d, Ok tt)
    else match d !! path k with
    | None => (d, Ok tt)
    | Some _ =>
        let d := if overwrite_ok io then <[path k := None]> d else d in
        let d := if remove_ok io then delete (path k) d else d in
        (d, if negb (rand_ok io) then Err ["fwdsec: randomise key file before destroy"%string]
            else if negb (overwrite_ok io) then Err ["fwdsec: overwrite key file"%string]
            else if negb (remove_ok io) then Err ["fwdsec: remove key file"%string]
            else Ok tt)
    end in
  (mk_live None (pub k) (path k) None (qPub k), d', firstErr).

Definition live (k : LiveKey) : Prop :=
  exists p, k = live_key p (qPriv k) (path k) /\ priv k = Some p /\ len p = PrivateKeySize /\ path k <> [].

Definition io_fine : destroy_io := mk_io true true true.
End KeyStore.
End KeyStore.

(** ** The signer *)
Module Signer.
Section Signer.
Context `{Crypto}.

(** [ThresholdRotator] *)
Record rotator := mk_rotator {
  rot_group : option Group.t;
  rot_sign : bytes -> res (list (option MemberSig.t));
}.

(** chain.json *)
Inductive chain_file :=
| Missing
| Corrupt
| Contents (c : Chain.t).

Record t := mk {
  origin : bytes;
  chain : Chain.t;
  active : option KeyStore.LiveKey;
  hybrid : bool;              (* store.Hybrid *)
  dir : gmap bytes (option (bytes * option bytes));
  chain_json : chain_file;
  threshRotator : option rotator;
}.

Definition set_dir (s : t) d : t :=
  mk (origin s) (chain s) (active s) (hybrid s) d (chain_json s) (threshRotator s).
Definition set_active (s : t) k : t :=
  mk (origin s) (chain s) (Some k) (hybrid s) (dir s) (chain_json s) (threshRotator s).
Definition set_chain (s : t) c : t :=
  mk (origin s) c (active s) (hybrid s) (dir s) (chain_json s) (threshRotator s).
Definition UseThresholdRotation (s : t) (r : option rotator) : t :=
  mk (origin s) (chain s) (active s) (hybrid s) (dir s) (chain_json s) r.

(** Write to a temporary file, then rename: on failure the old file stays. *)
Definition writeChain (wr : bool) (s : t) : t * res unit :=
  if wr then
    (mk (origin s) (chain s) (active s) (hybrid s) (dir s) (Contents (chain s)) (threshRotator s), Ok tt)
  else (s, Err ["write chain"%string]).

Definition createGenesis (now : Z) (gen : res KeyStore.fresh) (wr : bool) (io : KeyStore.destroy_io)
    (s : t) : t * res unit :=
  match KeyStore.Generate (hybrid s) gen (dir s) with
  | (d, Err e) => (set_dir s d, Err ("fwdsec: generate genesis key"%string :: e))
  | (d, Ok k) =>
      let s := set_dir s d in
      let p := KeyStore.Public k in
      let q := KeyStore.QuantumPublic k in
      let cert := RotationCert.mk 0 p now p [] q q [] [] [] in
      let canon := RotationCert.Canonical cert in
      match KeyStore.Sign k canon with
      | Err e =>
          let '(_, d, _) := KeyStore.Destroy k io (dir s) in
          (set_dir s d, Err ("fwdsec: self-sign genesis (classical)"%string :: e))
      | Ok sig =>
          let qs := if bool_decide (q = []) then Ok [] else KeyStore.QuantumSign k canon in
          match qs with
          | Err e =>
              let '(_, d, _) := KeyStore.Destroy k io (dir s) in
              (set_dir s d, Err ("fwdsec: self-sign genesis (quantum)"%string :: e))
          | Ok qsig =>
              let cert := RotationCert.set_signatures cert sig qsig [] in
              let s := set_active (set_chain s (Chain.mk (origin s) [cert] (KeyStore.Locator k))) k in
              writeChain wr s
          end
      end
  end.

Definition loadActive (io : KeyStore.destroy_io) (s : t) : t * res unit :=
  match chain_json s with
  | Missing => (s, Err ["read chain"%string])
  | Corrupt => (s, Err ["unmarshal chain"%string])
  | Contents c =>
      let s := set_chain s c in
      if len (Chain.Certs c) =? 0 then (s, Err ["fwdsec: empty chain"%string])
      else if negb (bool_decide (Chain.Origin c = [])) && negb (bool_decide (Chain.Origin c = origin s))
      then (s, Err ["fwdsec: origin mismatch"%string])
      else if bool_decide (Chain.ActiveLocator c = [])
      then (s, Err ["fwdsec: chain missing active_locator (corrupt or pre-v1.1)"%string])
      else match KeyStore.Load (dir s) (Chain.ActiveLocator c) with
      | Err e => (s, Err ("fwdsec: load active key"%string :: e))
      | Ok k =>
          if negb (bytesEqual (KeyStore.Public k) (Chain.ActivePublicKey c)) then
            let '(_, d, _) := KeyStore.Destroy k io (dir s) in
            (set_dir s d, Err ["fwdsec: store returned key with public key that does not match chain"%string])
          else (set_active s k, Ok tt)
      end
  end.

Definition NewSignerWithStore (org : bytes) (hyb : bool) d (file : chain_file)
    (now : Z) (gen : res KeyStore.fresh) (wr : bool) (io : KeyStore.destroy_io) : t * res unit :=
  let s := mk org (Chain.mk [] [] []) None hyb d file None in
  match file with
  | Missing => createGenesis now gen wr io s
  | _ => loadActive io s
  end.

Definition Sign (s : t) (message : bytes) : res (Z * bytes) :=
  match active s with
  | None => Err ["fwdsec: no active key"%string]
  | Some k =>
      let! out := KeyStore.Sign k message in
      Ok (Chain.ActiveEpoch (chain s), out)
  end.

Definition QuantumSign (s : t) (message : bytes) : res bytes :=
  match active s with
  | None => Err ["fwdsec: no active key"%string]
  | Some k => KeyStore.QuantumSign k message
  end.

Definition Public (s : t) : bytes := Chain.ActivePublicKey (chain s).
Definition ActiveEpoch (s : t) : Z := Chain.ActiveEpoch (chain s).
Definition RootPublicKey (s : t) : bytes := Chain.RootPublicKey (chain s).
Definition QuantumRootPublicKey (s : t) : bytes :=
  match Chain.Certs (chain s) with [] => [] | g :: _ => RotationCert.QuantumPublicKey g end.
Definition Hybrid (s : t) : bool :=
  match active s with None => false | Some k => negb (bool_decide (KeyStore.QuantumPublic k = [])) end.

(** The certificate [Rotate] fills in before it is signed. *)
Definition next_cert (prev : RotationCert.t) (k : KeyStore.LiveKey) (now : Z) (tgd : bytes) : RotationCert.t :=
  let q := KeyStore.QuantumPublic k in
  RotationCert.mk (wrap64 (RotationCert.Epoch prev + 1)) (KeyStore.Public k) now
    (RotationCert.PublicKey prev) [] q
    (if bool_decide (q = []) then [] else RotationCert.QuantumPublicKey prev) [] tgd [].

(** The signing part of [Rotate]. *)
Definition sign_cert (s : t) (prev : RotationCert.t) (prevActive : KeyStore.LiveKey)
    (cert : RotationCert.t) : res RotationCert.t :=
  let canon := RotationCert.Canonical cert in
  match threshRotator s with
  | Some r =>
      let! sigs := wrap_err "fwdsec: threshold-sign rotation cert" (rot_sign r canon) in
      Ok (RotationCert.set_signatures cert [] [] sigs)
  | None =>
      let! sig := wrap_err "fwdsec: sign rotation cert (classical)" (KeyStore.Sign prevActive canon) in
      if (0 <? len (RotationCert.QuantumPublicKey cert)) && (0 <? len (RotationCert.QuantumPublicKey prev))
      then
        let! qsig := wrap_err "fwdsec: sign rotation cert (quantum)" (KeyStore.QuantumSign prevActive canon) in
        Ok (RotationCert.set_signatures cert sig qsig [])
      else Ok (RotationCert.set_signatures cert sig [] [])
  end.

(** The group digest [Rotate] binds into the certificate. *)
Definition rotation_group (s : t) : res bytes :=
  match threshRotator s with
  | None => Ok []
  | Some r =>
      match rot_group r with
      | None => Err ["fwdsec: threshold rotator returned nil group"%string]
      | Some g => Ok (hex (Group.Digest g))
      end
  end.

(** [_ = newActive.Destroy()] *)
Definition drop_key (k : KeyStore.LiveKey) (io : KeyStore.destroy_io) (s : t) : t :=
  let '(_, d, _) := KeyStore.Destroy k io (dir s) in set_dir s d.

(** From the signed certificate on: publish the chain, destroy the old key,
    swap in the new one.  [removelast] is the revert [Certs[:len-1]]; when the
    destruction fails [s.active] still points to the key just destroyed. *)
Definition commit (prevActive newActive : KeyStore.LiveKey) (cert : RotationCert.t) (wr : bool)
    (io_new io_prev : KeyStore.destroy_io) (s : t) : t * res RotationCert.t :=
  let c := chain s in
  let s := set_chain s (Chain.mk (Chain.Origin c) (Chain.Certs c ++ [cert]) (KeyStore.Locator newActive)) in
  match writeChain wr s with
  | (s, Err e) =>
      let c := chain s in
      let s := set_chain s (Chain.mk (Chain.Origin c) (removelast (Chain.Certs c))
                              (KeyStore.Locator prevActive)) in
      (drop_key newActive io_new s, Err e)
  | (s, Ok _) =>
      let '(destroyed, d, r) := KeyStore.Destroy prevActive io_prev (dir s) in
      match r with
      | Err e => (set_active (set_dir s d) destroyed, Err ("fwdsec: destroy previous key"%string :: e))
      | Ok _ => (set_active (set_dir s d) newActive, Ok cert)
      end
  end.

(** A signer with an active key has a last certificate; without one the code
    would index an empty slice. *)
Definition Rotate (now : Z) (gen : res KeyStore.fresh) (wr : bool) (io_new io_prev : KeyStore.destroy_io)
    (s : t) : t * res RotationCert.t :=
  match active s, last (Chain.Certs (chain s)) with
  | Some prevActive, Some prevCert =>
      match KeyStore.Generate (hybrid s) gen (dir s) with
      | (d, Err e) => (set_dir s d, Err ("fwdsec: generate new epoch key"%string :: e))
      | (d, Ok newActive) =>
          let s := set_dir s d in
          match rotation_group s with
          | Err e => (drop_key newActive io_new s, Err e)
          | Ok tgd =>
              match sign_cert s prevCert prevActive (next_cert prevCert newActive now tgd) with
              | Err e => (drop_key newActive io_new s, Err e)
              | Ok cert => commit prevActive newActive cert wr io_new io_prev s
              end
          end
      end
  | _, _ => (s, Err ["fwdsec: no active key"%string])
  end.

(** *** Invariant *)

(** The signer is in step with what it published: the chain verifies from its
    own root, its last certificate is for the live key, chain.json is the chain,
    and the only key file is that key's. *)
Record ok (group : option Group.t) (s : t) : Prop := {
  ok_chain : Chain.verifyChain (chain s) (Chain.RootPublicKey (chain s)) group = Ok tt;
  ok_key : exists k c, active s = Some k /\ KeyStore.live k /\
    last (Chain.Certs (chain s)) = Some c /\
    RotationCert.PublicKey c = KeyStore.pub k /\ RotationCert.QuantumPublicKey c = KeyStore.qPub k /\
    Chain.ActiveLocator (chain s) = KeyStore.path k /\
    (exists p, KeyStore.priv k = Some p /\ dir s = {[KeyStore.path k := Some (p, KeyStore.qPriv k)]});
  ok_json : chain_json s = Contents (chain s);
  ok_origin : Chain.Origin (chain s) = origin s;
}.

Context `{!CryptoLaws _}.

Lemma qPub_live p q loc : KeyStore.qPub (KeyStore.live_key p q loc) = [] <-> q = None.
Proof.
  destruct q as [q|]; simpl; [|done]. split; [|done]. intros E.
  pose proof (d3_public_length q) as L. by rewrite E in L.
Qed.

(** A certificate signed by the holder of the previous epoch's key. *)
Lemma sign_cert_single s prev k knew now cert :
  threshRotator s = None -> KeyStore.live k -> KeyStore.live knew ->
  RotationCert.PublicKey prev = KeyStore.pub k -> RotationCert.QuantumPublicKey prev = KeyStore.qPub k ->
  (KeyStore.qPriv knew <> None -> KeyStore.qPriv k <> None) ->
  cert = next_cert prev knew now [] ->
  exists sig qsig, sign_cert s prev k cert = Ok (RotationCert.set_signatures cert sig qsig []) /\
    RotationCert.valid (RotationCert.set_signatures cert sig qsig []) /\
    (RotationCert.QuantumPublicKey cert <> [] \/ RotationCert.QuantumSignedBy cert <> [] ->
     RotationCert.QuantumSignedBy cert = RotationCert.QuantumPublicKey prev).
Proof.
  intros HR (p & Hk & Hp & _) (p' & Hk' & Hp' & _) EP EQ HQ ->.
  unfold sign_cert. rewrite HR. unfold KeyStore.Sign. rewrite Hp. cbn [wrap_err res_bind].
  set (cert := next_cert prev knew now []). set (canon := RotationCert.Canonical cert).
  assert (RotationCert.SignedBy cert = ed_public p) as Es by (cbn; rewrite EP, Hk; done).
  assert (len (RotationCert.PublicKey cert) = PublicKeySize) as Lp
    by (cbn; unfold KeyStore.Public; rewrite Hk'; apply ed_public_length).
  assert (ed_verify (RotationCert.SignedBy cert) canon (ed_sign p canon) = true) as V
    by (rewrite Es; apply ed_sign_verify).
  assert (len (RotationCert.SignedBy cert) = PublicKeySize) as Ls by (rewrite Es; apply ed_public_length).
  assert (RotationCert.QuantumPublicKey cert = KeyStore.qPub knew) as Eq by done.
  destruct (KeyStore.qPriv knew) as [q'|] eqn:Eq'.
  - destruct (KeyStore.qPriv k) as [q|] eqn:Ekq; [|by destruct HQ].
    assert (KeyStore.qPub knew = d3_public q') as Eqn by (rewrite Hk'; done).
    assert (KeyStore.qPub k = d3_public q) as Eqk by (rewrite Hk; done).
    assert (forall x, d3_public x <> []) as NE
      by (intros x X; pose proof (d3_public_length x) as L; by rewrite X in L).
    rewrite Eq, EQ, Eqn, Eqk. rewrite !(proj2 (len_pos _)) by apply NE. cbn [andb].
    unfold KeyStore.QuantumSign. rewrite Ekq. cbn [wrap_err res_bind].
    exists (ed_sign p canon), (d3_sign q canon).
    assert (RotationCert.QuantumSignedBy cert = d3_public q) as Eqs.
    { cbn. unfold KeyStore.QuantumPublic. rewrite bool_decide_eq_false_2 by (rewrite Eqn; apply NE).
      by rewrite EQ. }
    split; [done|]. split; [|intros _; rewrite Eqs; done].
    split; [done|]. split; [done|]. split; [done|]. split; [done|]. right.
    split; [cbn; unfold KeyStore.QuantumPublic; rewrite Eqn; apply d3_public_length|].
    split; [|split; [apply d3_sign_length|]].
    + change (len (RotationCert.QuantumSignedBy cert) = d3_PublicKeySize).
      rewrite Eqs. apply d3_public_length.
    + change (d3_good (RotationCert.QuantumSignedBy cert) canon (d3_sign q canon)).
      rewrite Eqs. apply d3_sign_verify.
  - assert (KeyStore.qPub knew = []) as Eqn by (rewrite Hk'; done).
    rewrite Eq, Eqn. cbn [len length Z.of_nat Z.ltb Z.compare andb].
    exists (ed_sign p canon), [].
    assert (RotationCert.QuantumSignedBy cert = []) as Eqs
      by (cbn; unfold KeyStore.QuantumPublic; by rewrite Eqn).
    split; [done|]. split; [|rewrite Eqs; by intros [?|?]].
    split; [done|]. split; [done|]. split; [done|]. split; [done|]. left. done.
Qed.

(** What [Rotate] needs of the rotation hook: nothing without one; with one, a
    quorum of the group for any message. *)
Definition rotator_ok (group : option Group.t) (s : t) : Prop :=
  match threshRotator s with
  | None => True
  | Some r => exists g, rot_group r = Some g /\ group = Some g /\
      forall msg, exists sigs, rot_sign r msg = Ok sigs /\ VerifyMulti (Some g) msg sigs = Ok tt
  end.

Lemma sign_cert_ok group s prev k knew now :
  rotator_ok group s -> KeyStore.live k -> KeyStore.live knew ->
  RotationCert.PublicKey prev = KeyStore.pub k -> RotationCert.QuantumPublicKey prev = KeyStore.qPub k ->
  (threshRotator s = None -> KeyStore.qPriv knew <> None -> KeyStore.qPriv k <> None) ->
  RotationCert.StartedAt prev <= now ->
  exists tgd, rotation_group s = Ok tgd /\ let cert := next_cert prev knew now tgd in
  exists sig qsig ms, sign_cert s prev k cert = Ok (RotationCert.set_signatures cert sig qsig ms) /\
    Chain.authorised group (RotationCert.set_signatures cert sig qsig ms) /\
    Chain.follows prev (RotationCert.set_signatures cert sig qsig ms).
Proof.
  intros HR Hk Hn EP EQ HQ Ht. unfold rotation_group. destruct (threshRotator s) as [r|] eqn:ER.
  - unfold rotator_ok in HR. rewrite ER in HR. destruct HR as (g & Eg & -> & HS). rewrite Eg.
    eexists. split; [done|]. set (cert := next_cert prev knew now (hex (Group.Digest g))).
    destruct (HS (RotationCert.Canonical cert)) as (sigs & Es & V).
    exists [], [], sigs. unfold sign_cert. rewrite ER, Es. split; [done|].
    apply VerifyMulti_iff in V as (V & Hne & Q). split.
    + right. split; [done|]. exists g. split_and!; done.
    + split_and!; [done|done|]. intros X. done.
  - destruct (sign_cert_single s prev k knew now _ ER Hk Hn EP EQ (HQ eq_refl) eq_refl)
      as (sig & qsig & E & V & QL).
    eexists. split; [done|].
    exists sig, qsig, []. split; [exact E|]. split; [left; split; [done|exact V]|].
    split_and!; [done|done|]. intros _. split; [done|]. exact QL.
Qed.

Lemma chain_extend org loc loc' certs prev cert root group :
  last certs = Some prev ->
  Chain.verifyChain (Chain.mk org certs loc) root group = Ok tt ->
  Chain.authorised group cert -> Chain.follows prev cert ->
  Chain.verifyChain (Chain.mk org (certs ++ [cert]) loc') root group = Ok tt.
Proof.
  intros L V A F. apply Chain.verifyChain_iff in V as (g & Hg & G & K). cbn [Chain.Certs] in *.
  apply Chain.verifyChain_iff. exists g. cbn [Chain.Certs]. split_and!; [|done|].
  - destruct certs; done.
  - apply Chain.linked_snoc. rewrite L. done.
Qed.

Lemma root_extend org loc loc' certs cert :
  certs <> [] ->
  Chain.RootPublicKey (Chain.mk org (certs ++ [cert]) loc) = Chain.RootPublicKey (Chain.mk org certs loc').
Proof. by destruct certs. Qed.

(** A fresh key generation: a key of the right size under an unused name. *)
Definition fresh_ok (s : t) (f : KeyStore.fresh) : Prop :=
  len (KeyStore.f_priv f) = PrivateKeySize /\ KeyStore.f_path f <> [] /\
  dir s !! KeyStore.f_path f = None.

Lemma Generate_live hyb f d : len (KeyStore.f_priv f) = PrivateKeySize -> KeyStore.f_path f <> [] ->
  exists k, KeyStore.Generate hyb (Ok f) d =
    (<[KeyStore.f_path f := Some (KeyStore.f_priv f, KeyStore.qPriv k)]> d, Ok k) /\
    KeyStore.live k /\ KeyStore.path k = KeyStore.f_path f /\
    KeyStore.priv k = Some (KeyStore.f_priv f) /\
    KeyStore.qPriv k = (if hyb then Some (KeyStore.f_qpriv f) else None).
Proof.
  intros L P.
  exists (KeyStore.live_key (KeyStore.f_priv f) (if hyb then Some (KeyStore.f_qpriv f) else None)
            (KeyStore.f_path f)).
  split; [done|]. split_and!; try done. by exists (KeyStore.f_priv f).
Qed.

Lemma Destroy_fine k d :
  KeyStore.path k <> [] ->
  exists k', KeyStore.Destroy k KeyStore.io_fine d = (k', delete (KeyStore.path k) d, Ok tt).
Proof.
  intros Hk. unfold KeyStore.Destroy. rewrite bool_decide_eq_false_2 by done.
  destruct (d !! KeyStore.path k) eqn:E; eexists; cbn.
  - by rewrite delete_insert_eq.
  - by rewrite delete_id.
Qed.

Lemma commit_ok group k kn c cert s io_new p :
  Chain.verifyChain (chain s) (Chain.RootPublicKey (chain s)) group = Ok tt ->
  last (Chain.Certs (chain s)) = Some c -> Chain.Origin (chain s) = origin s ->
  Chain.authorised group cert -> Chain.follows c cert ->
  RotationCert.PublicKey cert = KeyStore.pub kn -> RotationCert.QuantumPublicKey cert = KeyStore.qPub kn ->
  KeyStore.live k -> KeyStore.live kn -> KeyStore.priv kn = Some p ->
  delete (KeyStore.path k) (dir s) = {[KeyStore.path kn := Some (p, KeyStore.qPriv kn)]} ->
  exists s', commit k kn cert true io_new KeyStore.io_fine s = (s', Ok cert) /\
    ok group s' /\ Chain.Certs (chain s') = Chain.Certs (chain s) ++ [cert] /\
    threshRotator s' = threshRotator s /\ hybrid s' = hybrid s /\ active s' = Some kn.
Proof.
  intros OC Hl OO A F EP EQ (pk & _ & _ & _ & Hpk) Hkn Hp Hd. unfold commit. cbn [writeChain].
  destruct (Destroy_fine k (dir s) Hpk) as [k' ED].
  cbn [dir set_chain]. rewrite ED. eexists. split; [reflexivity|].
  split; [|done]. split; cbn -[Chain.verifyChain Chain.RootPublicKey]; try done.
  - rewrite (root_extend _ _ (Chain.ActiveLocator (chain s))) by (intros E; by rewrite E in Hl).
    destruct (chain s) as [org certs loc]. eapply chain_extend; eauto.
  - exists kn, cert. cbn [Chain.Certs Chain.ActiveLocator]. rewrite last_snoc.
    split_and!; try done. exists p. split; [done|]. exact Hd.
Qed.

Lemma Rotate_ok group s now f io_new :
  ok group s -> rotator_ok group s -> fresh_ok s f ->
  (threshRotator s = None -> hybrid s = true -> Hybrid s = true) ->
  (forall c, last (Chain.Certs (chain s)) = Some c -> RotationCert.StartedAt c <= now) ->
  exists s' cert, Rotate now (Ok f) true io_new KeyStore.io_fine s = (s', Ok cert) /\
    ok group s' /\ Chain.Certs (chain s') = Chain.Certs (chain s) ++ [cert] /\
    threshRotator s' = threshRotator s /\ hybrid s' = hybrid s /\
    (exists k, active s' = Some k /\ KeyStore.path k = KeyStore.f_path f).
Proof.
  intros [OC (k & c & Ha & Hk & Hl & EP & EQ & EL & p & Hp & Hd) OJ OO] HR (F1 & F2 & F3) HH Ht.
  unfold Rotate. rewrite Ha, Hl.
  destruct (Generate_live (hybrid s) f (dir s) F1 F2) as (kn & -> & Hkn & Hpath & Hpn & Hqn).
  assert (KeyStore.path k <> KeyStore.f_path f) as Hne.
  { intros E. rewrite Hd, E, lookup_singleton_eq in F3. done. }
  set (s1 := set_dir s _).
  destruct (sign_cert_ok group s1 c k kn now HR Hk Hkn EP EQ)
    as (tgd & -> & sig & qsig & ms & -> & A & F); [|by apply Ht|].
  { intros E1 E2. unfold Hybrid in HH. rewrite Ha in HH. specialize (HH E1).
    rewrite Hqn in E2. destruct (hybrid s); [|done]. specialize (HH eq_refl).
    apply negb_true_iff, bool_decide_eq_false in HH. unfold KeyStore.QuantumPublic in HH.
    intros E3. apply HH. destruct Hk as (p0 & E0 & _). rewrite E0. apply qPub_live. done. }
  destruct (commit_ok group k kn c (RotationCert.set_signatures (next_cert c kn now tgd) sig qsig ms)
    s1 io_new (KeyStore.f_priv f)) as (s' & E & O' & EC & ET & EH & EA); try done.
  - cbn. rewrite Hd, Hpath, delete_insert_ne by done. by rewrite delete_singleton_eq.
  - eexists s', _. split; [exact E|]. split_and!; try done. by exists kn.
Qed.

(** *** Genesis, restart, signing *)

Lemma createGenesis_ok group s now f io :
  dir s = ∅ -> fresh_ok s f ->
  exists s', createGenesis now (Ok f) true io s = (s', Ok tt) /\ ok group s' /\
    threshRotator s' = threshRotator s /\ hybrid s' = hybrid s.
Proof.
  intros Hd (F1 & F2 & _). unfold createGenesis.
  destruct (Generate_live (hybrid s) f (dir s) F1 F2) as (k & -> & Hk & Hpath & Hp & Hq).
  destruct Hk as (p & Ek & Hp' & Lp & Pk). assert (p = KeyStore.f_priv f) as -> by congruence.
  set (pub := KeyStore.Public k). set (q := KeyStore.QuantumPublic k).
  set (cert := RotationCert.mk 0 pub now pub [] q q [] [] []).
  unfold KeyStore.Sign. rewrite Hp. set (canon := RotationCert.Canonical cert).
  assert (pub = ed_public (KeyStore.f_priv f)) as EP by (unfold pub; rewrite Ek; done).
  assert (exists qsig, (if bool_decide (q = []) then Ok [] else KeyStore.QuantumSign k canon) = Ok qsig /\
    RotationCert.valid (RotationCert.set_signatures cert (ed_sign (KeyStore.f_priv f) canon) qsig [])) as (qsig & EQ & V).
  { assert (q = match KeyStore.qPriv k with Some x => d3_public x | None => [] end) as Eq
      by (unfold q; rewrite Ek; done).
    unfold KeyStore.QuantumSign. destruct (KeyStore.qPriv k) as [x|].
    - pose proof (d3_public_length x) as L. rewrite bool_decide_eq_false_2 by (intros X; by rewrite <- Eq, X in L).
      eexists. split; [done|]. split; [cbn; rewrite EP; apply ed_public_length|].
      split; [done|]. split; [cbn; rewrite EP; apply ed_public_length|].
      split; [cbn -[RotationCert.Canonical]; rewrite EP; apply ed_sign_verify|]. right.
      change (len q = d3_PublicKeySize /\ len q = d3_PublicKeySize /\
        len (d3_sign x canon) = d3_SignatureSize /\ d3_good q canon (d3_sign x canon)).
      rewrite Eq. split_and!; [done|done|apply d3_sign_length|apply d3_sign_verify].
    - rewrite bool_decide_eq_true_2 by done. eexists. split; [done|].
      split; [cbn; rewrite EP; apply ed_public_length|].
      split; [done|]. split; [cbn; rewrite EP; apply ed_public_length|].
      split; [cbn -[RotationCert.Canonical]; rewrite EP; apply ed_sign_verify|]. by left. }
  rewrite EQ. eexists. split; [reflexivity|]. split; [|done].
  split; cbn -[Chain.verifyChain RotationCert.valid]; try done.
  - apply Chain.verifyChain_iff. eexists. split; [done|]. split; [|split; [|done]].
    + split_and!; try done. by right.
    + left. split; [done|exact V].
  - eexists k, _. split_and!; try done; [by exists (KeyStore.f_priv f)|].
    exists (KeyStore.f_priv f). split; [done|]. rewrite Hd, Hpath. done.
Qed.

Lemma restart_ok group s now gen wr io :
  ok group s ->
  NewSignerWithStore (origin s) (hybrid s) (dir s) (chain_json s) now gen wr io =
    (UseThresholdRotation s None, Ok tt).
Proof.
  intros [OC (k & c & Ha & (p & Ek & Hp & Lp & Pk) & Hl & EP & EQ & EL & p' & Hp' & Hd) OJ OO].
  assert (p' = p) as -> by congruence.
  unfold NewSignerWithStore. rewrite OJ. unfold loadActive. cbn [chain_json].
  assert ((len (Chain.Certs (chain s)) =? 0) = false) as ->
    by (apply len_zero_eqb; intros X; by rewrite X in Hl).
  unfold set_chain. cbn [origin dir chain active hybrid chain_json threshRotator]. rewrite OO, (bool_decide_eq_true_2 (origin s = origin s)) by done.
  rewrite andb_false_r, bool_decide_eq_false_2 by (by rewrite EL). cbn [dir].
  unfold KeyStore.Load. rewrite EL, bool_decide_eq_false_2 by done.
  rewrite Hd, lookup_singleton_eq, Lp, Z.eqb_refl. cbn [negb]. rewrite <- Ek.
  assert (Chain.ActivePublicKey (chain s) = KeyStore.Public k) as ->
    by (unfold Chain.ActivePublicKey; rewrite Hl; done).
  rewrite bytesEqual_refl. cbn [negb]. unfold UseThresholdRotation, set_active. cbn.
  by rewrite Ha, OJ, Hd.
Qed.

Lemma at_epoch_last group certs c g :
  head (certs ++ [c]) = Some g -> RotationCert.Epoch g = 0 ->
  Chain.linked group None (certs ++ [c]) -> len certs < 2 ^ 64 ->
  Chain.at_epoch (certs ++ [c]) (RotationCert.Epoch c) = Some c.
Proof.
  intros Hg G L B. rewrite (Chain.linked_epoch group certs c g Hg G L B).
  assert (forall pre x, (exists post, certs = pre ++ x :: post) -> RotationCert.Epoch x = len pre) as E.
  { intros pre x [post ->]. rewrite <- app_assoc in L, Hg. cbn [app] in L, Hg.
    rewrite (cons_middle x pre), app_assoc in L.
    assert (Chain.linked group None (pre ++ [x])) as L'.
    { clear -L. revert L. generalize (pre ++ [x]) as a, (post ++ [c]) as b.
      intros a b. induction b as [|y b IH] using rev_ind; [by rewrite app_nil_r|].
      rewrite app_assoc. intros X. apply Chain.linked_snoc in X as [X _]. auto. }
    apply (Chain.linked_epoch group pre x g); [|done|done|].
    - destruct pre; done.
    - unfold len in *. rewrite length_app in B. lia. }
  assert (forall pre post, certs = pre ++ post ->
    Chain.at_epoch (post ++ [c]) (len certs) = Some c) as X; [|by apply (X [])].
  intros pre post. revert pre. induction post as [|x post IH]; intros pre Ec; cbn [app Chain.at_epoch].
  - by rewrite (Chain.linked_epoch group certs c g), Z.eqb_refl.
  - rewrite (E pre x) by (by exists post).
    rewrite (proj2 (Z.eqb_neq _ _)).
    + apply (IH (pre ++ [x])). by rewrite Ec, <- app_assoc.
    + rewrite Ec. unfold len. rewrite length_app. simpl. lia.
Qed.

(** The live key is the one the chain lists for the active epoch. *)
Lemma active_key group s :
  ok group s -> len (Chain.Certs (chain s)) <= 2 ^ 64 ->
  exists k p c, active s = Some k /\ KeyStore.priv k = Some p /\
    Chain.at_epoch (Chain.Certs (chain s)) (Chain.ActiveEpoch (chain s)) = Some c /\
    RotationCert.PublicKey c = ed_public p /\ RotationCert.QuantumPublicKey c = KeyStore.qPub k /\
    KeyStore.qPub k = match KeyStore.qPriv k with Some q => d3_public q | None => [] end.
Proof.
  intros [OC (k & c & Ha & (p & Ek & Hp & _) & Hl & EP & EQ & _) _ _] B.
  apply Chain.verifyChain_iff in OC as (g & Hg & (G & _) & L).
  apply last_Some in Hl as [certs Hc]. rewrite Hc in Hg, L, B.
  exists k, p, c. split_and!; [done|done| | |done|by rewrite Ek].
  - unfold Chain.ActiveEpoch. rewrite Hc, last_snoc. apply (at_epoch_last group certs c g Hg G L).
    unfold len in *. rewrite length_app in B. simpl in B. lia.
  - by rewrite EP, Ek.
Qed.

Lemma Sign_verifies group s msg :
  ok group s -> len (Chain.Certs (chain s)) <= 2 ^ 64 ->
  exists epoch sig, Sign s msg = Ok (epoch, sig) /\ epoch = len (Chain.Certs (chain s)) - 1 /\
    ed_verify (Chain.PublicKeyAt (chain s) epoch) msg sig = true.
Proof.
  intros [OC (k & c & Ha & (p & Ek & Hp & _) & Hl & EP & _) _ _] B.
  apply Chain.verifyChain_iff in OC as (g & Hg & (G & _) & L).
  apply last_Some in Hl as [certs Hc]. rewrite Hc in Hg, L, B.
  assert (len certs < 2 ^ 64) as B' by (unfold len in *; rewrite length_app in B; simpl in B; lia).
  unfold Sign. rewrite Ha. unfold KeyStore.Sign. rewrite Hp. cbn [res_bind].
  eexists _, _. split; [reflexivity|].
  unfold Chain.ActiveEpoch, Chain.PublicKeyAt. rewrite Hc, last_snoc. split.
  - rewrite (Chain.linked_epoch group certs c g) by done. unfold len. rewrite length_app. simpl. lia.
  - rewrite (at_epoch_last group certs c g) by done. rewrite EP, Ek. apply ed_sign_verify.
Qed.

(** *** Rotations that fail *)

Lemma drop_fresh s k v :
  KeyStore.path k <> [] -> dir s !! KeyStore.path k = None ->
  drop_key k KeyStore.io_fine (set_dir s (<[KeyStore.path k := v]> (dir s))) = s.
Proof.
  intros Hk Hn. unfold drop_key. cbn [dir set_dir].
  destruct (Destroy_fine k (<[KeyStore.path k := v]> (dir s)) Hk) as [k' ->].
  rewrite delete_insert_id by done. by destruct s.
Qed.

(** A rotation that cannot generate, sign or publish leaves no trace. *)
Lemma Rotate_aborts group s now gen io_prev :
  ok group s -> (forall f, gen = Ok f -> fresh_ok s f) ->
  exists e, Rotate now gen false KeyStore.io_fine io_prev s = (s, Err e).
Proof.
  intros [OC (k & c & Ha & _ & Hl & _ & _ & EL & _) OJ OO] HF. unfold Rotate. rewrite Ha, Hl.
  destruct gen as [f|e]; [|eexists; cbn; by destruct s].
  destruct (HF f eq_refl) as (F1 & F2 & F3).
  destruct (Generate_live (hybrid s) f (dir s) F1 F2) as (kn & -> & _ & Hpath & _ & _).
  rewrite <- Hpath in F2, F3 |- *.
  destruct (rotation_group _) as [tgd|e]; [|eexists; by rewrite drop_fresh].
  destruct (sign_cert _ _ _ _) as [cert|e]; [|eexists; by rewrite drop_fresh].
  unfold commit. cbn [writeChain]. eexists.
  match goal with |- (drop_key _ _ ?x, _) = _ =>
    replace x with (set_dir s (<[KeyStore.path kn := Some (KeyStore.f_priv f, KeyStore.qPriv kn)]> (dir s)))
  end; [by rewrite drop_fresh|].
  destruct s as [org ch ac hy di cj tr]. destruct ch as [o cs loc]. cbn in *.
  unfold set_dir, set_chain, KeyStore.Locator. cbn. by rewrite removelast_last, EL.
Qed.

(** When the old key cannot be destroyed the new epoch is published but the
    signer is left holding the wiped key: it cannot sign until restarted. *)
Lemma commit_stuck k kn cert s io_new io_prev :
  KeyStore.path k <> [] -> dir s !! KeyStore.path k <> None ->
  KeyStore.rand_ok io_prev && KeyStore.overwrite_ok io_prev && KeyStore.remove_ok io_prev = false ->
  exists s' e, commit k kn cert true io_new io_prev s = (s', Err e) /\
    Chain.Certs (chain s') = Chain.Certs (chain s) ++ [cert] /\ chain_json s' = Contents (chain s') /\
    forall msg, is_ok (Sign s' msg) = false.
Proof.
  intros Hk Hd Hio. unfold commit. cbn [writeChain]. unfold KeyStore.Destroy.
  rewrite bool_decide_eq_false_2 by done. cbn [dir set_chain].
  destruct (dir s !! KeyStore.path k) eqn:E; [|done].
  destruct (KeyStore.rand_ok io_prev), (KeyStore.overwrite_ok io_prev), (KeyStore.remove_ok io_prev);
    try discriminate Hio; (eexists _, _; split; [reflexivity|]; done).
Qed.

(** *** Runs *)

(** States reachable from a fresh start by rotations that go well, aborted
    rotations, restarts and switches of the rotation hook. *)
Inductive reach (group : option Group.t) : t -> Prop :=
| reach_genesis s now f io s' :
    dir s = ∅ -> fresh_ok s f -> createGenesis now (Ok f) true io s = (s', Ok tt) -> reach group s'
| reach_rotate s now f io_new s' cert :
    reach group s -> rotator_ok group s -> fresh_ok s f ->
    (threshRotator s = None -> hybrid s = true -> Hybrid s = true) ->
    (forall c, last (Chain.Certs (chain s)) = Some c -> RotationCert.StartedAt c <= now) ->
    Rotate now (Ok f) true io_new KeyStore.io_fine s = (s', Ok cert) -> reach group s'
| reach_abort s now gen io_prev s' e :
    reach group s -> (forall f, gen = Ok f -> fresh_ok s f) ->
    Rotate now gen false KeyStore.io_fine io_prev s = (s', Err e) -> reach group s'
| reach_restart s now gen wr io s' :
    reach group s ->
    NewSignerWithStore (origin s) (hybrid s) (dir s) (chain_json s) now gen wr io = (s', Ok tt) ->
    reach group s'
| reach_use s r : reach group s -> reach group (UseThresholdRotation s r).

Lemma use_ok group s r : ok group s -> ok group (UseThresholdRotation s r).
Proof. intros [OC OK OJ OO]. by split. Qed.

Lemma signer_reach_ok group s : reach group s -> ok group s.
Proof.
  induction 1 as [s now f io s' Hd HF E|s now f io_new s' cert R IH HR HF HH Ht E
    |s now gen io_prev s' e R IH HF E|s now gen wr io s' R IH E|s r R IH].
  - destruct (createGenesis_ok group s now f io Hd HF) as (s2 & E2 & O & _). congruence.
  - destruct (Rotate_ok group s now f io_new IH HR HF HH Ht) as (s2 & c2 & E2 & O & _). congruence.
  - destruct (Rotate_aborts group s now gen io_prev IH HF) as [e2 E2]. congruence.
  - rewrite (restart_ok group) in E by done. injection E as <-. by apply use_ok.
  - by apply use_ok.
Qed.
End Signer.
End Signer.

(** ** Properties *)

(** Chain verification is exact: [verifyChain] accepts iff the first
    certificate is a self-signed epoch 0 for the trusted root, every certificate
    is authorised by its signatures (or by a quorum of the group it names), and
    every later one is the next epoch, not started earlier, signed by the
    previous epoch's classical and quantum keys. *)
Theorem chain_verification_exact `{Crypto} c rootPub group :
  Chain.verifyChain c rootPub group = Ok tt <->
  exists g, head (Chain.Certs c) = Some g /\ Chain.genesis_ok rootPub g /\
    Chain.linked group None (Chain.Certs c).
Proof. apply Chain.verifyChain_iff. Qed.

(** A rotation signature covers the epoch, both public keys, the start
    time, the signing key and the threshold group: certificates with the same
    canonical text agree on all of them. *)
Theorem rotation_cert_binds c1 c2 :
  RotationCert.wf c1 -> RotationCert.wf c2 ->
  RotationCert.Canonical c1 = RotationCert.Canonical c2 ->
  RotationCert.signed_fields c1 = RotationCert.signed_fields c2.
Proof. apply RotationCert.cert_Canonical_fields. Qed.

(** An undisturbed life: in every state reached by rotations (single or
    threshold signed) that complete under a clock that does not step back, with
    the key mode kept, a rotator that yields a quorum and key files that can be
    destroyed, by aborted rotations and by restarts, the published chain verifies
    from its genesis root, what [Sign] returns verifies under the key the chain
    lists for the epoch it names, and the store holds exactly one key file, the
    active epoch's. *)
Theorem signer_undisturbed `{C : Crypto, !CryptoLaws C} group s msg :
  Signer.reach group s -> len (Chain.Certs (Signer.chain s)) <= 2 ^ 64 ->
  Chain.verifyChain (Signer.chain s) (Signer.RootPublicKey s) group = Ok tt /\
  (exists epoch sig, Signer.Sign s msg = Ok (epoch, sig) /\
    epoch = len (Chain.Certs (Signer.chain s)) - 1 /\
    ed_verify (Chain.PublicKeyAt (Signer.chain s) epoch) msg sig = true) /\
  (exists file, Signer.dir s = {[Chain.ActiveLocator (Signer.chain s) := file]}).
Proof.
  intros R B. pose proof (Signer.signer_reach_ok group s R) as O.
  split_and!; [apply O|by eapply Signer.Sign_verifies|].
  destruct (Signer.ok_key _ _ O) as (k & c & _ & _ & _ & _ & _ & -> & p & _ & ->). eauto.
Qed.

(** Rotation goes through: from a reachable state, with a fresh key, a
    clock that has not stepped back and no switch from classical to hybrid
    keys, [Rotate] succeeds and extends the chain by one certificate for the
    new key, and the old key's file is gone. *)
Theorem rotate_succeeds `{C : Crypto, !CryptoLaws C} group s now f io_new :
  Signer.reach group s -> Signer.rotator_ok group s -> Signer.fresh_ok s f ->
  (Signer.threshRotator s = None -> Signer.hybrid s = true -> Signer.Hybrid s = true) ->
  (forall c, last (Chain.Certs (Signer.chain s)) = Some c -> RotationCert.StartedAt c <= now) ->
  exists s' cert, Signer.Rotate now (Ok f) true io_new KeyStore.io_fine s = (s', Ok cert) /\
    Chain.Certs (Signer.chain s') = Chain.Certs (Signer.chain s) ++ [cert] /\
    Chain.verifyChain (Signer.chain s') (Signer.RootPublicKey s') group = Ok tt /\
    Signer.dir s' !! Chain.ActiveLocator (Signer.chain s) = None.
Proof.
  intros R HR HF HH Ht. pose proof (Signer.signer_reach_ok group s R) as O.
  destruct (Signer.Rotate_ok group s now f io_new O HR HF HH Ht)
    as (s' & cert & E & O' & EC & _ & _ & k' & Ha' & Hp').
  exists s', cert. split_and!; [done|done|apply O'|].
  destruct (Signer.ok_key _ _ O) as (k & c & _ & _ & _ & _ & _ & EL & p & _ & Hd).
  destruct (Signer.ok_key _ _ O') as (k2 & c2 & Ha2 & _ & _ & _ & _ & _ & p2 & _ & ->).
  assert (k2 = k') as -> by congruence. rewrite Hp', EL. apply lookup_singleton_ne.
  intros X. destruct HF as (_ & _ & HF). by rewrite Hd, <- X, lookup_singleton_eq in HF.
Qed.

(** A rotation that cannot generate a key, collect signatures or write
    chain.json changes nothing: chain, active key, key files and published
    chain are as before, and the new key's file is removed. *)
Theorem rotate_failure_atomic `{C : Crypto, !CryptoLaws C} group s now gen io_prev :
  Signer.reach group s -> (forall f, gen = Ok f -> Signer.fresh_ok s f) ->
  exists e, Signer.Rotate now gen false KeyStore.io_fine io_prev s = (s, Err e).
Proof. intros R. apply (Signer.Rotate_aborts group), Signer.signer_reach_ok, R. Qed.

(** *** A concrete signer *)
Definition demo_fresh (n : string) : KeyStore.fresh :=
  KeyStore.mk_fresh (sha256 (str n) ++ sha256 (str n)) (str n) (str n).
Definition blank_signer (hyb : bool) : Signer.t :=
  Signer.mk (str "log.example") (Chain.mk [] [] []) None hyb ∅ Signer.Missing None.
Definition signer0 (hyb : bool) : Signer.t :=
  fst (Signer.createGenesis 10 (Ok (demo_fresh "k0")) true KeyStore.io_fine (blank_signer hyb)).
Definition signer1 (hyb : bool) : Signer.t :=
  fst (Signer.Rotate 20 (Ok (demo_fresh "k1")) true KeyStore.io_fine KeyStore.io_fine (signer0 hyb)).

Lemma demo_fresh_ok s n :
  str n <> [] -> Signer.dir s !! str n = None -> Signer.fresh_ok s (demo_fresh n).
Proof.
  intros Hn Hd. split_and!; [|done|done].
  unfold len, demo_fresh. cbn [KeyStore.f_priv]. by rewrite length_app, sha256_length.
Qed.

Lemma signer0_reach hyb : Signer.reach None (signer0 hyb).
Proof.
  destruct (run_ok (Signer.createGenesis 10 (Ok (demo_fresh "k0")) true KeyStore.io_fine (blank_signer hyb)))
    as [[] E]; [destruct hyb; vm_compute; reflexivity|].
  eapply Signer.reach_genesis; [| |exact E]; [done|by apply demo_fresh_ok].
Qed.

Lemma signer0_fresh hyb : Signer.fresh_ok (signer0 hyb) (demo_fresh "k1").
Proof. apply demo_fresh_ok; [done|]. destruct hyb; vm_compute; reflexivity. Qed.

Lemma signer0_clock hyb c :
  last (Chain.Certs (Signer.chain (signer0 hyb))) = Some c -> RotationCert.StartedAt c <= 20.
Proof. destruct hyb; vm_compute; intros [= <-]; done. Qed.

Lemma signer1_reach hyb : Signer.reach None (signer1 hyb).
Proof.
  destruct (run_ok (Signer.Rotate 20 (Ok (demo_fresh "k1")) true KeyStore.io_fine KeyStore.io_fine (signer0 hyb)))
    as [cert E]; [destruct hyb; vm_compute; reflexivity|].
  eapply Signer.reach_rotate; [apply signer0_reach| | | |apply signer0_clock|exact E].
  - destruct hyb; vm_compute; exact I.
  - apply signer0_fresh.
  - intros _. destruct hyb; vm_compute; done.
Qed.

Definition demo_cert : RotationCert.t :=
  nth 1 (Chain.Certs (Signer.chain (signer1 false))) (RotationCert.mk 0 [] 0 [] [] [] [] [] [] []).
Definition demo_cert_unsigned : RotationCert.t := RotationCert.set_signatures demo_cert [] [] [].

Lemma rotation_cert_binds_witness :
  RotationCert.signed_fields demo_cert = RotationCert.signed_fields demo_cert_unsigned.
Proof.
  apply (rotation_cert_binds demo_cert demo_cert_unsigned);
    [exists []; vm_compute; reflexivity|exists []; vm_compute; reflexivity|reflexivity].
Defined.

Lemma signer_undisturbed_witness :
  Chain.verifyChain (Signer.chain (signer1 true)) (Signer.RootPublicKey (signer1 true)) None = Ok tt /\
  (exists epoch sig, Signer.Sign (signer1 true) (str "m") = Ok (epoch, sig) /\
    epoch = len (Chain.Certs (Signer.chain (signer1 true))) - 1 /\
    ed_verify (Chain.PublicKeyAt (Signer.chain (signer1 true)) epoch) (str "m") sig = true) /\
  (exists file, Signer.dir (signer1 true) =
    {[Chain.ActiveLocator (Signer.chain (signer1 true)) := file]}).
Proof.
  apply (signer_undisturbed None (signer1 true) (str "m") (signer1_reach true)).
  vm_compute. discriminate.
Defined.

Lemma rotate_succeeds_witness :
  exists s' cert, Signer.Rotate 20 (Ok (demo_fresh "k1")) true KeyStore.io_fine KeyStore.io_fine
      (signer0 true) = (s', Ok cert) /\
    Chain.Certs (Signer.chain s') = Chain.Certs (Signer.chain (signer0 true)) ++ [cert] /\
    Chain.verifyChain (Signer.chain s') (Signer.RootPublicKey s') None = Ok tt /\
    Signer.dir s' !! Chain.ActiveLocator (Signer.chain (signer0 true)) = None.
Proof.
  apply (rotate_succeeds None (signer0 true) 20 (demo_fresh "k1") KeyStore.io_fine (signer0_reach true));
    [vm_compute; exact I|apply signer0_fresh|intros _ _; vm_compute; reflexivity|apply signer0_clock].
Defined.

Lemma rotate_failure_atomic_witness :
  exists e, Signer.Rotate 20 (Ok (demo_fresh "k1")) false KeyStore.io_fine KeyStore.io_fine
    (signer0 false) = (signer0 false, Err e).
Proof.
  apply (rotate_failure_atomic None (signer0 false) 20 (Ok (demo_fresh "k1")) KeyStore.io_fine
    (signer0_reach false)).
  intros f [= <-]. apply signer0_fresh.
Defined.

(** When the previous key cannot be destroyed, the new epoch is already
    published but the signer keeps pointing at the key it has just wiped: every
    [Sign] fails until the process is restarted, and the restart does recover
    the new key. *)
Theorem rotate_destroy_failure_stuck :
  let io_bad := KeyStore.mk_io true true false in
  let '(s', r) := Signer.Rotate 20 (Ok (demo_fresh "k1")) true KeyStore.io_fine io_bad (signer0 false) in
  is_ok r = false /\ Chain.ActiveEpoch (Signer.chain s') = 1 /\
  is_ok (Signer.Sign s' (str "m")) = false /\
  let '(s2, r2) := Signer.NewSignerWithStore (Signer.origin s') (Signer.hybrid s') (Signer.dir s')
                     (Signer.chain_json s') 30 (Err []) true KeyStore.io_fine in
  is_ok r2 = true /\ is_ok (Signer.Sign s2 (str "m")) = true.
Proof. vm_compute. split_and!; reflexivity. Qed.

(** Two rotations [Rotate] reports as successful leave a chain that no
    verifier accepts: one stamped by a clock that stepped back, and the first
    hybrid key of a classical chain (it names no previous quantum key). *)
Theorem rotate_unverifiable :
  let run now s := Signer.Rotate now (Ok (demo_fresh "k1")) true KeyStore.io_fine KeyStore.io_fine s in
  let upgraded := Signer.mk (str "log.example") (Signer.chain (signer0 false)) (Signer.active (signer0 false))
    true (Signer.dir (signer0 false)) (Signer.chain_json (signer0 false)) None in
  let broken x := is_ok (snd x) &&
    negb (is_ok (Chain.VerifyChain (Signer.chain (fst x)) (Signer.RootPublicKey (fst x)))) in
  broken (run 9 (signer0 false)) = true /\ broken (run 20 upgraded) = true.
Proof. vm_compute. split; reflexivity. Qed.
