(* ===== verification/Forward.v ===== *)
(** * Forward security of the operator's keys

    The life of a signer and its key directory with nothing assumed to go well:
    rotations with any clock, key mode, rotation hook and outcome of every
    system call, crashes at any point of a rotation, starts that fail, restarts
    in another key mode.  Whatever happens, a key that a completed rotation
    retired is nowhere any more, and what the signer signs verifies under the
    key its chain lists. *)

From S2P Require Import Prelude Crypto Threshold Fwdsec.
From stdpp Require Import base numbers list gmap sets strings.
From Stdlib Require Import ZArith Lia.

#[local] Open Scope Z_scope.

Module Forward.
Section Forward.
Context `{C : Crypto, CL : !CryptoLaws C}.

(** Names and private keys of all keys ever drawn. *)
Abbreviation draws := (gmap bytes bytes).

(** The key files, by name. *)
Abbreviation dir := (gmap bytes (option (bytes * option bytes))).







(** ** Invariant *)






(** *** The disk *)











(** *** Operations *)










End Forward.
End Forward.

(** ** Properties *)









