(* ===== verification/KeyFiles.v ===== *)
(** * Hybrid keys and key files

    pkg/hybrid (keys, signatures and files that pair Ed25519 with Dilithium3),
    the file formats of pkg/fwdsec's key store, of pkg/attest's producer keys
    and of pkg/threshold's cosigners.  The three formats are one: a line of
    base64, or two labelled lines.  [Files] is the part of the disk they live
    on, by path; the outcome of every write is an argument.

    Module [FileStore] is the key store at the level of bytes, and its theorems
    show that it implements the directory of decoded keys that
    [Fwdsec.KeyStore] works on.  Module [CosignerFiles] is the cosigner's
    start-up and [Platform] the choice of an attestor. *)

From stdpp Require Import base numbers list gmap sets strings.
From Stdlib Require Import ZArith Lia.
From S2P Require Import Prelude Utf8 GoText Codec Crypto Attest Threshold Fwdsec.

#[local] Open Scope Z_scope.

Definition d3_PrivateKeySize : Z := 4000.  (* mode3.PrivateKeySize *)

(** ** Dilithium3 key objects

    The operations of the mode3 library on key objects beyond those of
    [Crypto], and what it documents of them. *)
Class D3Keys `{Crypto} := {
  d3_priv_unmarshal : bytes -> option bytes;   (* PrivateKey.UnmarshalBinary *)
  d3_pub_of : bytes -> D3Pub;                  (* PrivateKey.Public *)
  d3_marshal : D3Pub -> bytes;                 (* PublicKey.MarshalBinary *)
}.

Class D3KeysLaws `{D3Keys} : Prop := {
  d3_priv_packed : forall k, len k = d3_PrivateKeySize -> d3_priv_unmarshal k = Some k;
  d3_pub_packed : forall k, d3_marshal (d3_pub_of k) = d3_public k;
  d3_pub_unpacked : forall k, d3_unmarshal (d3_public k) = Some (d3_pub_of k);
}.

Abbreviation Files := (gmap bytes bytes).

(** [os.WriteFile], with its outcome: the file may not open, or be opened, and
    so truncated, and only the first [n] bytes be written. *)
Inductive written := Wrote | Unopened | Torn (n : nat).
Definition WriteFile (w : written) (path body : bytes) (fs : Files) : Files * res unit :=
  match w with
  | Wrote => (<[path := body]> fs, Ok tt)
  | Unopened => (fs, errorf "open")
  | Torn n => (<[path := take n body]> fs, errorf "write")
  end.

(** [filepath.Clean] and [filepath.Join] of two elements, on Unix.  [out]: the
    elements kept so far, the last one first. *)
Fixpoint clean_loop (rooted : bool) (out elems : list bytes) : list bytes :=
  match elems with
  | [] => reverse out
  | e :: elems =>
      if bool_decide (e = []) || bool_decide (e = str ".") then clean_loop rooted out elems
      else if bool_decide (e = str "..") then
        match out with
        | p :: out' => clean_loop rooted (if bool_decide (p = str "..") then e :: out else out') elems
        | [] => clean_loop rooted (if rooted then [] else [e]) elems
        end
      else clean_loop rooted (e :: out) elems
  end.
Definition Clean (path : bytes) : bytes :=
  let rooted := starts_with (str "/") path in
  let kept := clean_loop rooted [] (Split Byte.x2f path) in
  if rooted then str "/" ++ Join (str "/") kept else if bool_decide (kept = []) then str "." else Join (str "/") kept.
Definition JoinPath (dir name : bytes) : bytes :=
  if bool_decide (dir = []) then if bool_decide (name = []) then [] else Clean name else Clean (dir ++ str "/" ++ name).

Example JoinPath_clean : map (fun d => JoinPath d (str "k")) [str "keys"; str "/var//lib/./stele/"; []; str "a/../../b"; str "/.."] =
  [str "keys/k"; str "/var/lib/stele/k"; str "k"; str "../b/k"; str "/k"].
Proof. reflexivity. Qed.

(** ** The two formats *)

Section Formats.
Context `{D3Keys}.

(** ["ed25519: %s\ndilithium3: %s"] *)
Definition hybrid_format : list item :=
  map Lit (str "ed25519:") ++ [Space 0 true; Verb; Space 1 false] ++ map Lit (str "dilithium3:") ++ [Space 0 true; Verb].

Definition two_lines (ed d3 : bytes) : bytes :=
  str "ed25519: " ++ base64 ed ++ nl :: str "dilithium3: " ++ base64 d3 ++ [nl].

Definition one_line_key (ed : bytes) : bytes := base64 ed ++ [nl].

(** The body of [loadHybridFileKey], [loadHybridSoftwareAttestor] and
    [ParsePrivate]: they differ in the text of their errors. *)
Definition parse_two_lines (escan elen edil : string) (raw : bytes) : res (bytes * bytes) :=
  let! ws := wrap_err escan (scan hybrid_format raw) in
  match ws with
  | [edB64; dB64] =>
      let! edBytes := base64_decode edB64 in
      fail_if negb (len edBytes =? PrivateKeySize) with elen ;;
      let! dBytes := base64_decode dB64 in
      match d3_priv_unmarshal dBytes with
      | None => errorf edil
      | Some q => Ok (edBytes, q)
      end
  | _ => errorf escan
  end.

Lemma scan_two_lines ed d3 : ed <> [] -> d3 <> [] -> scan hybrid_format (two_lines ed d3) = Ok [base64 ed; base64 d3].
Proof.
  intros E D. assert (forall b, b <> [] -> exists x r, base64 b = x :: r /\ graphic x = true) as G.
  { intros b N. pose proof (base64_graphic b) as G. destruct (base64 b) as [|x r] eqn:X.
    - exfalso. apply N. apply (enc_inj base64 base64_decode). by rewrite X.
    - apply Forall_cons in G as [G _]. by exists x, r. }
  destruct (G ed E) as (x & r & X & Gx), (G d3 D) as (y & s & Y & Gy).
  unfold hybrid_format, two_lines. change (str "ed25519: ") with (str "ed25519:" ++ [Byte.x20]).
  rewrite <- app_assoc, scan_lits. cbn [app].
  assert (forall k t f u, scan (Space k t :: f) u = let! v := space_run k t u in scan f v) as SC by done.
  assert (forall z t, graphic z = true -> space_run 0 true (Byte.x20 :: z :: t) = Ok (z :: t)) as SP.
  { intros z t Z. change (Ok (skip_blanks (length (z :: t)) (z :: t)) = Ok (z :: t)). by rewrite skip_blanks_graphic. }
  rewrite SC, X. rewrite <- app_comm_cons, SP by done. cbn [res_bind]. rewrite (app_comm_cons r _ x), <- X.
  apply scan_verb; [by rewrite X|apply base64_graphic|by vm_compute|].
  rewrite SC. change (space_run 1 false (nl :: str "dilithium3: " ++ base64 d3 ++ [nl])) with (Ok (str "dilithium3: " ++ base64 d3 ++ [nl])).
  cbn [res_bind]. change (str "dilithium3: ") with (str "dilithium3:" ++ [Byte.x20]). rewrite <- app_assoc, scan_lits. cbn [app].
  rewrite SC, Y. rewrite <- app_comm_cons, SP by done. cbn [res_bind]. rewrite (app_comm_cons s _ y), <- Y.
  apply scan_verb; [by rewrite Y|apply base64_graphic|by vm_compute|done].
Qed.

Lemma key_nonempty (k : bytes) n : len k = n -> 0 < n -> k <> [].
Proof. intros L N ->. unfold len in L. cbn in L. lia. Qed.

Lemma parse_two_lines_ok `{!D3KeysLaws} e1 e2 e3 ed d3 : len ed = PrivateKeySize -> len d3 = d3_PrivateKeySize ->
  parse_two_lines e1 e2 e3 (two_lines ed d3) = Ok (ed, d3).
Proof.
  intros L D. unfold parse_two_lines. rewrite scan_two_lines by (by eapply key_nonempty).
  cbn [wrap_err res_bind]. rewrite !dec_enc. cbn [res_bind]. by rewrite L, d3_priv_packed.
Qed.

Lemma decode_one_line ed : base64_decode (TrimSpace (one_line_key ed)) = Ok ed.
Proof. unfold one_line_key. rewrite TrimSpace_newline by apply base64_graphic. apply dec_enc. Qed.

(** The two formats cannot be confused: base64 has no colon. *)
Lemma one_line_not_labelled ed : starts_with (str "ed25519:") (one_line_key ed) = false.
Proof.
  unfold starts_with. apply bool_decide_eq_false_2. intros E.
  assert (Byte.x3a ∈ one_line_key ed) as I.
  { rewrite <- (take_drop (length (str "ed25519:")) (one_line_key ed)). rewrite E. apply elem_of_app. left.
    by apply (bool_decide_eq_true_1 _). }
  unfold one_line_key in I. apply elem_of_app in I as [I|I]; [|by apply list_elem_of_singleton in I].
  apply base64_alphabet in I as [[v I]|I]; discriminate I.
Qed.

Lemma two_lines_labelled ed d3 : starts_with (str "ed25519:") (two_lines ed d3) = true.
Proof. by apply bool_decide_eq_true_2. Qed.
End Formats.

(** ** pkg/hybrid *)
Module Hybrid.
Section Hybrid.
Context `{D3Keys}.

Definition PubKeySize : Z := Crypto.PublicKeySize + d3_PublicKeySize.
Definition SignatureSize : Z := Crypto.SignatureSize + d3_SignatureSize.

Record PublicKey := mkPublic { Ed : bytes; Quantum : D3Pub }.
Record PrivateKey := mkPrivate { EdPriv : bytes; QuantumPriv : bytes; Pub : PublicKey }.

(** The two key generators of [GenerateKey], classical first. *)
Definition GenerateKey (edgen dgen : res bytes) : res PrivateKey :=
  let! k := wrap_err "hybrid: ed25519 keygen" edgen in
  let! q := wrap_err "hybrid: dilithium keygen" dgen in
  Ok (mkPrivate k q (mkPublic (ed_public k) (d3_pub_of q))).

(** [make], then two copies into disjoint parts. *)
Definition Sign (k : PrivateKey) (msg : bytes) : bytes := ed_sign (EdPriv k) msg ++ d3_sign (QuantumPriv k) msg.

Definition Verify (p : PublicKey) (msg sig : bytes) : res unit :=
  fail_if negb (len sig =? SignatureSize) with "hybrid: bad signature size" ;;
  let edSig := take (Z.to_nat Crypto.SignatureSize) sig in
  let dSig := drop (Z.to_nat Crypto.SignatureSize) sig in
  fail_if negb (ed_verify (Ed p) msg edSig) with "hybrid: ed25519 component invalid" ;;
  fail_if negb (d3_verify (Quantum p) msg dSig) with "hybrid: dilithium component invalid" ;;
  Ok tt.

Definition Bytes (p : PublicKey) : bytes := Ed p ++ d3_marshal (Quantum p).

Definition ParsePublicKey (buf : bytes) : res PublicKey :=
  fail_if negb (len buf =? PubKeySize) with "hybrid pubkey: bad length" ;;
  match d3_unmarshal (drop (Z.to_nat Crypto.PublicKeySize) buf) with
  | None => errorf "hybrid pubkey: dilithium"
  | Some d => Ok (mkPublic (take (Z.to_nat Crypto.PublicKeySize) buf) d)
  end.

Definition KeyID (p : option PublicKey) : bytes :=
  match p with None => [] | Some p => hex (take 8 (sha256 (Bytes p))) end.

(** Keys are never nil here, so neither is the error for nil components. *)
Definition MarshalPrivate (k : PrivateKey) : bytes := two_lines (EdPriv k) (QuantumPriv k).

Definition ParsePrivate (buf : bytes) : res PrivateKey :=
  let! (k, q) := parse_two_lines "hybrid: parse private" "hybrid: bad ed25519 length" "hybrid: parse dilithium" buf in
  Ok (mkPrivate k q (mkPublic (ed_public k) (d3_pub_of q))).

(** Private key first; the public file only when that was written. *)
Definition WriteFiles (k : PrivateKey) (privPath pubPath : bytes) (w1 w2 : written) (fs : Files) : Files * res unit :=
  match WriteFile w1 privPath (MarshalPrivate k) fs with
  | (fs, Err e) => (fs, Err e)
  | (fs, Ok _) => WriteFile w2 pubPath (base64 (Bytes (Pub k)) ++ [nl]) fs
  end.

Definition LoadPrivate (privPath : bytes) (fs : Files) : res PrivateKey :=
  match fs !! privPath with
  | None => errorf "read"
  | Some buf => ParsePrivate buf
  end.

(** A key as [GenerateKey] makes it. *)
Definition wf (k : PrivateKey) : Prop :=
  len (EdPriv k) = PrivateKeySize /\ len (QuantumPriv k) = d3_PrivateKeySize /\
  Pub k = mkPublic (ed_public (EdPriv k)) (d3_pub_of (QuantumPriv k)).

Context `{!CryptoLaws _, !D3KeysLaws}.

(** A hybrid signature verifies exactly when it has the length of both
    signatures and each half verifies under its half of the key. *)
Theorem Verify_both p msg sig :
  Verify p msg sig = Ok tt <->
  exists s q, sig = s ++ q /\ len s = Crypto.SignatureSize /\ len q = d3_SignatureSize /\
    ed_verify (Ed p) msg s = true /\ d3_verify (Quantum p) msg q = true.
Proof.
  unfold Verify. rewrite (guard_iff _ _ _ _ _ _ (eqb_guard _ _) (iff_refl _)).
  rewrite (guard_iff _ _ _ _ _ _ (negb_false_iff _) (iff_refl _)), (guard_iff _ _ _ _ _ _ (negb_false_iff _) (iff_refl _)).
  unfold SignatureSize, Crypto.SignatureSize, d3_SignatureSize, len. split.
  - intros (L & V & Q & _). exists (take 64 sig), (drop 64 sig). rewrite take_drop, length_take, length_drop.
    change (Z.to_nat 64) with 64%nat in *. by repeat split; try lia.
  - intros (s & q & -> & S & Q & V & D). change (Z.to_nat 64) with 64%nat. rewrite length_app.
    rewrite take_app_length', drop_app_length' by lia. by repeat split; try lia.
Qed.

(** What a generated key signs verifies, and its public key survives its
    encoding. *)
Theorem Hybrid_Sign_verifies edgen dgen k msg : GenerateKey edgen dgen = Ok k ->
  Verify (Pub k) msg (Sign k msg) = Ok tt /\ ParsePublicKey (Bytes (Pub k)) = Ok (Pub k).
Proof.
  unfold GenerateKey. intros G. res_inv G. subst k. split.
  - apply Verify_both. exists (ed_sign a msg), (d3_sign a0 msg).
    split_and!; [done|apply ed_sign_length|apply d3_sign_length|apply ed_sign_verify|].
    destruct (d3_sign_verify a0 msg) as (p & P & V). rewrite d3_pub_unpacked in P. cbn. by injection P as <-.
  - unfold ParsePublicKey, Bytes. cbn [Pub Ed Quantum]. rewrite d3_pub_packed.
    pose proof (ed_public_length a) as L. pose proof (d3_public_length a0) as M.
    unfold PubKeySize, Crypto.PublicKeySize, d3_PublicKeySize, len in *. change (Z.to_nat 32) with 32%nat.
    rewrite length_app, Nat2Z.inj_add, L, M. cbn [Z.eqb Z.add negb]. rewrite drop_app_length', take_app_length' by lia.
    by rewrite d3_pub_unpacked.
Qed.

Lemma ParsePrivate_Marshal k : wf k -> ParsePrivate (MarshalPrivate k) = Ok k.
Proof.
  intros (E & Q & P). unfold ParsePrivate, MarshalPrivate. rewrite parse_two_lines_ok by done. cbn. rewrite <- P. by destruct k.
Qed.

(** What was written is what is loaded, unless the public file was written over
    the private one. *)
Lemma Load_Write k priv pub w2 fs : wf k -> priv <> pub ->
  LoadPrivate priv (WriteFiles k priv pub Wrote w2 fs).1 = Ok k.
Proof.
  intros W N. unfold LoadPrivate, WriteFiles, WriteFile. destruct w2; cbn;
    rewrite ?lookup_insert_ne, lookup_insert_eq by done; by apply ParsePrivate_Marshal.
Qed.
End Hybrid.
End Hybrid.

(** ** The key store's files (pkg/fwdsec/keystore.go) *)
Module FileStore.
Section FileStore.
Context `{D3Keys}.
Import KeyStore.

(** [randSuffix] *)
Definition randSuffix (b : bytes) : Z := be_dec b.

(** The path of a new key. *)
Definition key_path (dir : bytes) (now : Z) (rnd : bytes) : bytes :=
  JoinPath dir (str "epoch-" ++ fmt_d now ++ str "-" ++ fmt_d (randSuffix rnd) ++ str ".key").

Definition encodePrivate (priv : bytes) (qPriv : option bytes) : bytes :=
  match qPriv with
  | None => one_line_key priv
  | Some q => two_lines priv q
  end.

(** The draws of [Generate]: both key generators, the clock and the suffix. *)
Definition Generate (dir : bytes) (hybrid : bool) (edgen dgen : res bytes) (now : Z) (rnd : bytes) (w : written) (fs : Files)
  : Files * res LiveKey :=
  match edgen with
  | Err e => (fs, Err e)
  | Ok priv =>
      let path := key_path dir now rnd in
      match (if hybrid then wrap_err "file keystore: dilithium keygen" (let! q := dgen in Ok (Some q)) else Ok None) with
      | Err e => (fs, Err e)
      | Ok q =>
          match WriteFile w path (encodePrivate priv q) fs with
          | (fs, Err e) => (fs, Err e)
          | (fs, Ok _) => (fs, Ok (live_key priv q path))
          end
      end
  end.

Definition loadHybridFileKey (path raw : bytes) : res LiveKey :=
  let! (k, q) := parse_two_lines "file keystore: parse hybrid" "file keystore: ed25519 wrong length"
                   "file keystore: dilithium unmarshal" raw in
  Ok (live_key k (Some q) path).

Definition Load (locator : bytes) (fs : Files) : res LiveKey :=
  fail_if bool_decide (locator = []) with "file keystore: empty locator" ;;
  match fs !! locator with
  | None => errorf "file keystore: read"
  | Some raw =>
      if starts_with (str "ed25519:") raw then loadHybridFileKey locator raw
      else
        let! decoded := wrap_err "file keystore: decode" (base64_decode (TrimSpace raw)) in
        fail_if negb (len decoded =? PrivateKeySize) with "file keystore: key length" ;;
        Ok (live_key decoded None locator)
  end.

(** [Destroy] on the files: what is left of [noise] when the random source
    fails is zeros, and the later steps run whatever the earlier ones gave. *)
Definition Destroy (k : LiveKey) (io : destroy_io) (noise : bytes) (fs : Files) : LiveKey * Files * res unit :=
  let '(fs', firstErr) :=
    if bool_decide (path k = []) then (fs, Ok tt)
    else match fs !! path k with
    | None => (fs, Ok tt)
    | Some st =>
        let noise := if rand_ok io then noise else replicate (length st) Byte.x00 in
        let fs := if overwrite_ok io then <[path k := noise]> fs else fs in
        let fs := if remove_ok io then delete (path k) fs else fs in
        (fs, if negb (rand_ok io) then Err ["fwdsec: randomise key file before destroy"%string]
             else if negb (overwrite_ok io) then Err ["fwdsec: overwrite key file"%string]
             else if negb (remove_ok io) then Err ["fwdsec: remove key file"%string]
             else Ok tt)
    end in
  (mk_live None (pub k) (path k) None (qPub k), fs', firstErr).

(** What a file holds, as [Fwdsec.KeyStore] sees it: keys or noise. *)
Definition keys_of (raw : bytes) : option (bytes * option bytes) :=
  if starts_with (str "ed25519:") raw then
    match parse_two_lines "" "" "" raw with Ok (k, q) => Some (k, Some q) | Err _ => None end
  else match base64_decode (TrimSpace raw) with Ok k => Some (k, None) | Err _ => None end.

Definition view (fs : Files) : gmap bytes (option (bytes * option bytes)) := keys_of <$> fs.

Context `{!D3KeysLaws}.

Lemma keys_of_encode k q : len k = PrivateKeySize -> (forall x, q = Some x -> len x = d3_PrivateKeySize) ->
  keys_of (encodePrivate k q) = Some (k, q).
Proof.
  intros K Q. unfold keys_of. destruct q as [q|]; cbn [encodePrivate].
  - rewrite two_lines_labelled, parse_two_lines_ok by auto. done.
  - by rewrite one_line_not_labelled, decode_one_line.
Qed.

Lemma parse_two_lines_len e1 e2 e3 raw k q : parse_two_lines e1 e2 e3 raw = Ok (k, q) -> len k = PrivateKeySize.
Proof.
  unfold parse_two_lines. intros P. res_inv P. destruct a as [|x [|y [|]]]; try done. res_inv P.
  destruct (d3_priv_unmarshal a0); [|done]. btauto_props. congruence.
Qed.

Lemma parse_two_lines_text e1 e2 e3 f1 f2 f3 raw r :
  parse_two_lines e1 e2 e3 raw = Ok r <-> parse_two_lines f1 f2 f3 raw = Ok r.
Proof.
  unfold parse_two_lines. destruct (scan hybrid_format raw) as [ws|]; [|done]. cbn [wrap_err res_bind].
  destruct ws as [|x [|y [|]]]; try done. destruct (base64_decode x) as [k|]; [|done]. cbn [res_bind].
  destruct (negb _); [done|]. destruct (base64_decode y) as [b|]; [|done]. cbn [res_bind]. by destruct (d3_priv_unmarshal b).
Qed.

(** C35. The key store on disk implements the store of keys that signing and
    rotation are verified against: a generated key is written so that it is read
    back as itself, and loading a file by its bytes gives exactly what loading
    from the decoded directory gives. *)
Theorem files_refine_keystore :
  (forall locator fs k, Load locator fs = Ok k <-> KeyStore.Load (view fs) locator = Ok k) /\
  (forall dir hybrid priv qpriv now rnd fs, len priv = PrivateKeySize -> len qpriv = d3_PrivateKeySize ->
    let '(fs', r) := Generate dir hybrid (Ok priv) (Ok qpriv) now rnd Wrote fs in
    (view fs', r) = KeyStore.Generate hybrid (Ok (mk_fresh priv qpriv (key_path dir now rnd))) (view fs)).
Proof.
  split.
  - intros loc fs k. unfold Load, KeyStore.Load, view. destruct (bool_decide (loc = [])); [done|].
    rewrite lookup_fmap. destruct (fs !! loc) as [raw|]; [|done]. cbn [fmap option_fmap option_map]. unfold keys_of.
    destruct (starts_with (str "ed25519:") raw).
    + unfold loadHybridFileKey. destruct (parse_two_lines "" "" "" raw) as [[p q]|e] eqn:P.
      * rewrite (proj1 (parse_two_lines_text _ _ _ _ _ _ _ _) P). cbn [res_bind].
        by rewrite (parse_two_lines_len _ _ _ _ _ _ P).
      * destruct (parse_two_lines "file keystore: parse hybrid" _ _ raw) as [[p q]|e'] eqn:P'; [|done].
        apply (parse_two_lines_text _ _ _ "" "" "") in P'. congruence.
    + by destruct (base64_decode (TrimSpace raw)).
  - intros dir hybrid priv q now rnd fs K Q. unfold Generate, KeyStore.Generate, WriteFile, view.
    destruct hybrid; cbn [wrap_err res_bind f_path f_priv f_qpriv]; rewrite fmap_insert, keys_of_encode; try done; by intros x [= ->].
Qed.

(** What is left after [Destroy]: the same as in the decoded directory, when
    the bytes written over the file are not a key themselves. *)
Lemma Destroy_refines k io noise fs :
  (forall st, fs !! path k = Some st -> keys_of (if rand_ok io then noise else replicate (length st) Byte.x00) = None) ->
  let '(k', fs', r) := Destroy k io noise fs in (k', view fs', r) = KeyStore.Destroy k io (view fs).
Proof.
  intros N. unfold Destroy, KeyStore.Destroy, view. rewrite lookup_fmap. destruct (bool_decide (path k = [])); [done|].
  destruct (fs !! path k) as [st|] eqn:E; cbn [fmap option_fmap option_map]; [|done]. specialize (N st eq_refl).
  repeat f_equal. destruct (overwrite_ok io), (remove_ok io); rewrite ?fmap_delete, ?fmap_insert, ?N; done.
Qed.

(** A successful [Destroy] leaves no file. *)
Lemma Destroy_removes k io noise fs : (Destroy k io noise fs).2 = Ok tt -> path k <> [] ->
  (Destroy k io noise fs).1.2 !! path k = None.
Proof.
  intros D N. unfold Destroy in *. rewrite bool_decide_false in * by done.
  destruct (fs !! path k) eqn:E; [|done]. cbn in *.
  destruct (rand_ok io), (overwrite_ok io), (remove_ok io); try done. apply lookup_delete_eq.
Qed.
End FileStore.
End FileStore.

(** ** Producer keys (pkg/attest/software.go) *)
Module AttestorFiles.
Section AttestorFiles.
Context `{D3Keys}.
Import SoftwareAttestor.

(** [stripWS] *)
Definition stripWS (b : bytes) : bytes := filter (fun c => negb (contains c [Byte.x0a; Byte.x0d; Byte.x20; Byte.x09]) = true) b.

Definition loadHybridSoftwareAttestor (producerID raw : bytes) : res t :=
  let! (k, q) := parse_two_lines "parse hybrid producer key" "ed25519 component wrong length" "decode dilithium component" raw in
  Ok (mk producerID k (ed_public k) (Some q) (d3_public q)).

Definition LoadSoftwareAttestor (producerID privPath : bytes) (fs : Files) : res t :=
  match fs !! privPath with
  | None => errorf "read producer key"
  | Some buf =>
      if starts_with (str "ed25519:") buf then loadHybridSoftwareAttestor producerID buf
      else
        let! raw := wrap_err "decode producer key" (base64_decode (stripWS buf)) in
        fail_if negb (len raw =? PrivateKeySize) with "producer key wrong length" ;;
        Ok (mk producerID raw (ed_public raw) None [])
  end.

Definition WriteKey (s : t) (privPath : bytes) (w : written) (fs : Files) : Files * res unit :=
  WriteFile w privPath (match qPriv s with
                        | None => one_line_key (priv s)
                        | Some q => two_lines (priv s) q
                        end) fs.

Context `{!D3KeysLaws}.

Lemma stripWS_one_line k : stripWS (one_line_key k) = base64 k.
Proof.
  unfold stripWS, one_line_key. rewrite filter_app. rewrite (filter_cons_False _ nl) by by vm_compute. rewrite filter_nil, app_nil_r.
  induction (base64_graphic k) as [|b s G _ IH]; [done|]. rewrite filter_cons_True; [by f_equal|].
  apply negb_true_iff, bool_decide_eq_false_2. intros I. repeat (apply elem_of_cons in I as [->|I]; [vm_compute in G; discriminate G|]).
  by apply elem_of_nil in I.
Qed.

(** A producer that stores its key and loads it again is the same producer:
    the attestor read back is the one that was written, classical or hybrid,
    so its envelopes carry the same keys and signatures. *)
Theorem LoadSoftwareAttestor_WriteKey s path fs :
  keys_ok s -> len (priv s) = PrivateKeySize -> (forall q, qPriv s = Some q -> len q = d3_PrivateKeySize) ->
  LoadSoftwareAttestor (id s) path (WriteKey s path Wrote fs).1 = Ok s.
Proof.
  intros (_ & P & Q) L D. unfold LoadSoftwareAttestor, WriteKey, WriteFile. cbn [fst]. rewrite lookup_insert_eq.
  destruct s as [i k p q qp]; cbn [id priv pub qPriv qPub] in *. subst p qp. destruct q as [q|].
  - rewrite two_lines_labelled. unfold loadHybridSoftwareAttestor. rewrite parse_two_lines_ok by auto. done.
  - rewrite one_line_not_labelled, stripWS_one_line, dec_enc. cbn [wrap_err res_bind]. by rewrite L.
Qed.
End AttestorFiles.
End AttestorFiles.

(** ** Cosigner start-up (pkg/threshold/cosigner.go) *)
Module CosignerFiles.
Section CosignerFiles.
Context `{D3Keys}.
Import Cosigner.

Definition member_key : bytes := str "member.key".
Definition member_pub : bytes := str "member.pub".
Definition member_quantum_key : bytes := str "member-quantum.key".
Definition member_quantum_pub : bytes := str "member-quantum.pub".

(** The outcomes a start-up depends on: whether the directory can be made, the
    two reads (a read can fail on a file that is there), the generators and the
    four writes.  Files are named within the cosigner's directory. *)
Record env := mk_env {
  mkdir_ok : bool;
  read_key : bool; read_qkey : bool;
  gen_ed : res bytes; gen_d3 : res bytes;
  w_key : written; w_pub : written; w_qkey : written; w_qpub : written;
}.

Definition read (ok : bool) (name : bytes) (fs : Files) : option bytes := if ok then fs !! name else None.

(** The private key and the public key the cosigner ends up with. *)
Definition loadOrCreateClassical (e : env) (fs : Files) : Files * res (bytes * bytes) :=
  match read (read_key e) member_key fs with
  | Some buf =>
      (fs, let! raw := base64_decode (TrimSpace buf) in
           fail_if negb (len raw =? PrivateKeySize) with "cosigner: key wrong length" ;;
           Ok (raw, ed_public raw))
  | None =>
      match gen_ed e with
      | Err x => (fs, Err x)
      | Ok k =>
          match WriteFile (w_key e) member_key (one_line_key k) fs with
          | (fs, Err x) => (fs, Err x)
          | (fs, Ok _) =>
              match WriteFile (w_pub e) member_pub (one_line_key (ed_public k)) fs with
              | (fs, Err x) => (fs, Err x)
              | (fs, Ok _) => (fs, Ok (k, ed_public k))
              end
          end
      end
  end.

Definition loadOrCreateQuantum (e : env) (hybrid : bool) (fs : Files) : Files * res (option bytes * bytes) :=
  match read (read_qkey e) member_quantum_key fs with
  | Some buf =>
      (fs, let! raw := base64_decode (TrimSpace buf) in
           match d3_priv_unmarshal raw with
           | None => errorf "cosigner quantum key"
           | Some q => Ok (Some q, d3_public q)
           end)
  | None =>
      if negb hybrid then (fs, Ok (None, []))
      else match gen_d3 e with
      | Err x => (fs, Err x)
      | Ok q =>
          match WriteFile (w_qkey e) member_quantum_key (one_line_key q) fs with
          | (fs, Err x) => (fs, Err x)
          | (fs, Ok _) =>
              match WriteFile (w_qpub e) member_quantum_pub (one_line_key (d3_public q)) fs with
              | (fs, Err x) => (fs, Err x)
              | (fs, Ok _) => (fs, Ok (Some q, d3_public q))
              end
          end
      end
  end.

Definition newCosigner (id : bytes) (callers : list bytes) (hybrid : bool) (e : env) (fs : Files) : Files * res t :=
  if bool_decide (id = []) then (fs, errorf "cosigner: id required")
  else if negb (mkdir_ok e) then (fs, errorf "mkdir")
  else match loadOrCreateClassical e fs with
  | (fs, Err x) => (fs, Err x)
  | (fs, Ok (k, p)) =>
      match loadOrCreateQuantum e hybrid fs with
      | (fs, Err x) => (fs, Err x)
      | (fs, Ok (q, qp)) => (fs, Ok (mk id k p q qp (list_to_set callers)))
      end
  end.

Definition NewCosigner (id : bytes) (callers : list bytes) : env -> Files -> Files * res t := newCosigner id callers false.
Definition NewHybridCosigner (id : bytes) (callers : list bytes) : env -> Files -> Files * res t := newCosigner id callers true.

(** [GET /cosigner/v0/identity] *)
Record IdentityResponse := mk_identity { i_ID : bytes; i_PublicKey : bytes; i_QuantumPublicKey : bytes; i_KeyID : bytes }.
Definition KeyID (c : t) : bytes := hex (take 8 (sha256 (pub c))).
Definition handle_identity (c : t) : Z * IdentityResponse := (200, mk_identity (id c) (pub c) (qPub c) (KeyID c)).

Definition IsHybrid (c : t) : bool := match qPriv c with Some _ => true | None => false end.

Definition keys_sized (e : env) : Prop :=
  (forall k, gen_ed e = Ok k -> len k = PrivateKeySize) /\ (forall q, gen_d3 e = Ok q -> len q = d3_PrivateKeySize).

Context `{!D3KeysLaws}.

Lemma member_files_distinct :
  member_key <> member_pub /\ member_key <> member_quantum_key /\ member_key <> member_quantum_pub /\
  member_quantum_key <> member_quantum_pub /\ member_quantum_key <> member_pub.
Proof. by repeat split. Qed.

(** What a classical start leaves: the key file holds the key in use, and no
    quantum file has changed. *)
Lemma classical_leaves e fs fs' k p : keys_sized e -> loadOrCreateClassical e fs = (fs', Ok (k, p)) ->
  p = ed_public k /\ len k = PrivateKeySize /\
  (exists buf, fs' !! member_key = Some buf /\ base64_decode (TrimSpace buf) = Ok k) /\
  fs' !! member_quantum_key = fs !! member_quantum_key.
Proof.
  intros (Z & _) L. destruct member_files_distinct as (N1 & N2 & _ & _ & N5).
  unfold loadOrCreateClassical, read in L. destruct (read_key e); [destruct (fs !! member_key) as [buf|] eqn:B|].
  - injection L as <- L. res_inv L. subst. btauto_props. eauto 10.
  - destruct (gen_ed e) as [x|] eqn:G; [|done]. unfold WriteFile in L. destruct (w_key e), (w_pub e); try done.
    injection L as <- <- <-. rewrite lookup_insert_ne, lookup_insert_eq, !lookup_insert_ne by done.
    split_and!; auto. eexists. split; [done|]. apply decode_one_line.
  - destruct (gen_ed e) as [x|] eqn:G; [|done]. unfold WriteFile in L. destruct (w_key e), (w_pub e); try done.
    injection L as <- <- <-. rewrite lookup_insert_ne, lookup_insert_eq, !lookup_insert_ne by done.
    split_and!; auto. eexists. split; [done|]. apply decode_one_line.
Qed.

Lemma quantum_leaves e hybrid fs fs' q qp : keys_sized e -> loadOrCreateQuantum e hybrid fs = (fs', Ok (q, qp)) ->
  fs' !! member_key = fs !! member_key /\
  match q with
  | Some q => qp = d3_public q /\ exists buf raw, fs' !! member_quantum_key = Some buf /\ base64_decode (TrimSpace buf) = Ok raw /\ d3_priv_unmarshal raw = Some q
  | None => qp = [] /\ hybrid = false /\ fs' = fs /\ read (read_qkey e) member_quantum_key fs = None
  end.
Proof.
  intros (_ & Z) L. destruct member_files_distinct as (_ & N2 & N3 & N4 & _).
  unfold loadOrCreateQuantum in L. destruct (read (read_qkey e) member_quantum_key fs) as [buf|] eqn:R.
  - injection L as <- L. res_inv L. split; [done|]. destruct (d3_priv_unmarshal a) as [d|] eqn:D; [|done]. injection L as <- <-.
    split; [done|]. exists buf, a. split_and!; [|done|done]. unfold read in R. by destruct (read_qkey e).
  - destruct hybrid; [|injection L as <- <- <-; by split_and!]. cbn [negb] in L. destruct (gen_d3 e) as [x|] eqn:G; [|done].
    unfold WriteFile in L. destruct (w_qkey e), (w_qpub e); try done. injection L as <- <- <-.
    rewrite !lookup_insert_ne by done. split; [done|]. split; [done|]. exists (one_line_key x), x.
    rewrite lookup_insert_eq. split_and!; [done|apply decode_one_line|by apply d3_priv_packed; auto].
Qed.

(** A cosigner keeps its identity across restarts: once it has started, a
    later start from the same directory has the same keys and changes no file,
    whatever fresh keys would have been drawn, provided its key files can be
    read.  (A cosigner without a quantum key restarts in the same mode.) *)
Theorem cosigner_restart id callers hybrid hybrid' e e' fs fs' c :
  keys_sized e -> newCosigner id callers hybrid e fs = (fs', Ok c) ->
  mkdir_ok e' = true -> read_key e' = true -> read_qkey e' = true ->
  (hybrid' = true -> hybrid = true) -> (hybrid = false -> read_qkey e = true) ->
  newCosigner id callers hybrid' e' fs' = (fs', Ok c).
Proof.
  intros Z S M R1 R2 HY RQ. unfold newCosigner in S. unfold newCosigner. destruct (bool_decide (id = [])); [done|].
  destruct (negb (mkdir_ok e)); [done|]. rewrite M. cbn [negb].
  destruct (loadOrCreateClassical e fs) as [fs1 [[k p]|]] eqn:C; [|done].
  destruct (loadOrCreateQuantum e hybrid fs1) as [fs2 [[q qp]|]] eqn:Q; [|done]. injection S as <- <-.
  destruct (classical_leaves _ _ _ _ _ Z C) as (-> & L & (buf & B & D) & N).
  destruct (quantum_leaves _ _ _ _ _ _ Z Q) as (K & QP).
  unfold loadOrCreateClassical, read. rewrite R1, K, B, D. cbn [res_bind]. rewrite L. cbn [negb Z.eqb Pos.eqb PrivateKeySize].
  unfold loadOrCreateQuantum, read. rewrite R2. destruct q as [q|].
  - destruct QP as (-> & qbuf & raw & -> & -> & E). cbn [res_bind]. by rewrite E.
  - destruct QP as (-> & F & -> & E). unfold read in E. rewrite (RQ F) in E. rewrite E.
    destruct hybrid'; [exfalso; rewrite HY in F; done|done].
Qed.

(** The keys a started cosigner serves are those of its public key, which is
    what membership in a group needs. *)
Lemma newCosigner_serves id callers hybrid e fs fs' c : keys_sized e -> newCosigner id callers hybrid e fs = (fs', Ok c) ->
  serves c (Member.mk id (pub c) (qPub c) [] []).
Proof.
  intros Z S. unfold newCosigner in S. destruct (bool_decide (id = [])); [done|]. destruct (negb (mkdir_ok e)); [done|].
  destruct (loadOrCreateClassical e fs) as [fs1 [[k p]|]] eqn:C; [|done].
  destruct (loadOrCreateQuantum e hybrid fs1) as [fs2 [[q qp]|]] eqn:Q; [|done]. injection S as <- <-.
  destruct (classical_leaves _ _ _ _ _ Z C) as (-> & _). destruct (quantum_leaves _ _ _ _ _ _ Z Q) as (_ & QP).
  unfold serves. cbn. destruct q; destruct QP as (-> & _); by repeat split.
Qed.

(** A read error other than a missing file is taken for one: a key that exists
    but cannot be read at start-up is replaced. *)
Theorem unreadable_key_is_replaced id callers k k' fs : id <> [] -> k <> k' ->
  fs !! member_key = Some (one_line_key k) -> fs !! member_quantum_key = None ->
  exists fs' c, newCosigner id callers false (mk_env true false true (Ok k') (errorf "") Wrote Wrote Wrote Wrote) fs = (fs', Ok c) /\
    priv c = k' /\ fs' !! member_key = Some (one_line_key k') /\ one_line_key k' <> one_line_key k.
Proof.
  intros I N _ F. destruct member_files_distinct as (N1 & N2 & _ & _ & N5). unfold newCosigner. rewrite bool_decide_false by done.
  cbn [mkdir_ok negb]. unfold loadOrCreateClassical. cbn [read read_key gen_ed WriteFile w_key w_pub].
  unfold loadOrCreateQuantum. cbn [read read_qkey negb]. rewrite !lookup_insert_ne, F by done.
  eexists _, _. split; [done|]. split; [done|]. split; [by rewrite lookup_insert_ne, lookup_insert_eq by done|].
  intros E. apply N. pose proof (decode_one_line k) as D. rewrite <- E, decode_one_line in D. by injection D.
Qed.
End CosignerFiles.
End CosignerFiles.

(** ** Choosing an attestor (pkg/attest/platform.go) *)
Module Platform.
Section Platform.
Context `{Crypto}.

(** The attestors, as implementations of one interface. *)
Inductive attestor :=
| Software (s : SoftwareAttestor.t)
| Keychain (k : KeychainAttestor.t)
| TPM2 (id : bytes).

(** The host: its operating system and architecture, whether the [security]
    tool is on the path, and the outcome of key generation. *)
Record host := mk_host { GOOS : bytes; GOARCH : bytes; security_cli : bool; keygen : res bytes }.

Definition new_software (h : host) (id : bytes) : res SoftwareAttestor.t :=
  let! k := keygen h in Ok (SoftwareAttestor.NewSoftwareAttestor id k).

(** The attestor and the reason it is not the real thing, empty when it is. *)
Definition NewKeychainAttestor (h : host) (id : bytes) : res (KeychainAttestor.t * string) :=
  if negb (bool_decide (GOOS h = str "darwin")) then
    let! s := new_software h id in Ok (KeychainAttestor.mk id s false, "keychain not implemented; falling back to software key"%string)
  else if negb (security_cli h) then
    let! s := new_software h id in Ok (KeychainAttestor.mk id s false, "security CLI not found; software fallback"%string)
  else let! s := new_software h id in Ok (KeychainAttestor.mk id s true, ""%string).

Definition NewTPM2Attestor (id : bytes) : res attestor := Ok (TPM2 id).

Definition tpmAvailable : bool := false.

Definition Discover (h : host) (id : bytes) : res (attestor * string) :=
  match (if bool_decide (GOOS h = str "linux") && tpmAvailable then NewTPM2Attestor id else errorf "none") with
  | Ok t => Ok (t, "tpm2 device present"%string)
  | Err _ =>
      if bool_decide (GOOS h = str "darwin") then
        let! (k, reason) := NewKeychainAttestor h id in
        Ok (Keychain k, if bool_decide (reason = ""%string) then "macOS keychain available"%string else reason)
      else let! s := new_software h id in Ok (Software s, "no hardware attestor; using software key"%string)
  end.

(** The interface's [ProducerID], [Type], [PublicKey] and [Sign]. *)
Definition ProducerID (a : attestor) : bytes :=
  match a with Software s => SoftwareAttestor.id s | Keychain k => KeychainAttestor.id k | TPM2 id => id end.
Definition Type_ (a : attestor) : bytes :=
  match a with Software _ => TypeSoftware | Keychain k => KeychainAttestor.Type_ k | TPM2 _ => TypeTPM2 end.
Definition PublicKey (a : attestor) : bytes :=
  match a with Software s => SoftwareAttestor.pub s | Keychain k => SoftwareAttestor.pub (KeychainAttestor.soft k) | TPM2 _ => [] end.
Definition Sign (a : attestor) (h : host) (now : Z) (source data : bytes) : res Envelope.t :=
  match a with
  | Software s => SoftwareAttestor.Sign s now source data
  | Keychain k => KeychainAttestor.Sign k (GOOS h) (GOARCH h) now source data
  | TPM2 _ => errorf "TPM2Attestor: not implemented in MVP"
  end.

Context `{!CryptoLaws _}.

(** Whatever host it runs on, a discovered attestor signs: every envelope it
    makes verifies, carries the data, and names the attestor's type and public
    key.  In particular the TPM stub, which cannot sign, is never chosen. *)
Theorem Discover_signs h id a reason now source data : Discover h id = Ok (a, reason) -> keygen h <> Ok [] ->
  ProducerID a = id /\ Type_ a <> TypeTPM2 /\
  exists e, Sign a h now source data = Ok e /\ Envelope.valid e /\ Envelope.Data e = data /\
    Envelope.Type_ e = Type_ a /\ Envelope.PublicKey e = PublicKey a.
Proof.
  intros D N. assert (forall s, new_software h id = Ok s -> SoftwareAttestor.id s = id /\ SoftwareAttestor.keys_ok s /\ SoftwareAttestor.qPriv s = None) as NS.
  { unfold new_software. intros s E. res_inv E. subst s. split; [done|]. split; [|done]. split; [|done]. cbn. by intros ->. }
  unfold Discover in D. rewrite andb_false_r in D. cbn [errorf] in D. destruct (bool_decide (GOOS h = str "darwin")) eqn:G.
  - destruct (NewKeychainAttestor h id) as [[k r]|] eqn:K; [|done]. cbn [res_bind] in D. injection D as <- _.
    unfold NewKeychainAttestor in K. rewrite G in K. cbn [negb] in K.
    assert (exists s ex, k = KeychainAttestor.mk id s ex /\ new_software h id = Ok s) as (s & ex & -> & S).
    { destruct (security_cli h); cbn [negb] in K; destruct (new_software h id) as [s|] eqn:S; try done; cbn [res_bind] in K; injection K as <- <-; eauto. }
    destruct (NS s S) as (I & KO & Q). split; [done|]. split; [by destruct ex|].
    destruct (KeychainAttestor.keychain_Sign_valid s now source data id ex (GOOS h) (GOARCH h) KO Q) as (e & E & V & _ & DA).
    exists e. split_and!; try done; cbn [Sign Type_ PublicKey] in *; unfold KeychainAttestor.Sign, SoftwareAttestor.Sign in E; res_inv E; subst e.
    + done.
    + res_inv E0. subst. cbn [KeychainAttestor.soft] in *. by destruct (SoftwareAttestor.qPriv s).
  - destruct (new_software h id) as [s|] eqn:S; [|done]. cbn [res_bind] in D. injection D as <- _. destruct (NS s eq_refl) as (I & KO & Q).
    split; [done|]. split; [done|]. destruct (SoftwareAttestor.Sign_valid s now source data KO) as (e & E & V & _ & DA).
    exists e. unfold SoftwareAttestor.Sign in E. split_and!; try done; res_inv E; subst e; by destruct (SoftwareAttestor.qPriv s).
Qed.
End Platform.
End Platform.

(** ** A concrete instance and witnesses *)

#[local] Transparent toy_crypto.

#[export] Instance toy_d3keys : @D3Keys toy_crypto := {|
  d3_priv_unmarshal b := if len b =? d3_PrivateKeySize then Some b else None;
  d3_pub_of k := toy_d3_public k;
  d3_marshal p := p;
|}.

#[export] Instance toy_d3keys_laws : @D3KeysLaws toy_crypto toy_d3keys.
Proof.
  split; [|done|].
  - intros k L. cbn [d3_priv_unmarshal toy_d3keys]. by rewrite L.
  - intros k. pose proof (d3_public_length (C := toy_crypto) k) as L.
    cbn [d3_unmarshal d3_public toy_crypto d3_pub_of toy_d3keys] in *. by rewrite L.
Qed.

#[local] Opaque toy_crypto.

Definition demo_ed : bytes := replicate 64 Byte.x05.
Definition demo_d3 : bytes := replicate 4000 Byte.x06.

Lemma demo_ed_length : len demo_ed = PrivateKeySize.
Proof. unfold len, demo_ed. by rewrite length_replicate. Qed.
Lemma demo_d3_length : len demo_d3 = d3_PrivateKeySize.
Proof. unfold len, demo_d3. by rewrite length_replicate. Qed.

Definition demo_hybrid : Hybrid.PrivateKey :=
  Hybrid.mkPrivate demo_ed demo_d3 (Hybrid.mkPublic (ed_public demo_ed) (d3_pub_of demo_d3)).

Lemma Hybrid_Sign_verifies_witness :
  Hybrid.Verify (Hybrid.Pub demo_hybrid) (str "m") (Hybrid.Sign demo_hybrid (str "m")) = Ok tt /\
  Hybrid.ParsePublicKey (Hybrid.Bytes (Hybrid.Pub demo_hybrid)) = Ok (Hybrid.Pub demo_hybrid).
Proof. exact (Hybrid.Hybrid_Sign_verifies (Ok demo_ed) (Ok demo_d3) demo_hybrid (str "m") eq_refl). Defined.

Lemma files_refine_keystore_witness :
  FileStore.Load (str "k") {[str "k" := FileStore.encodePrivate demo_ed (Some demo_d3)]} = Ok (KeyStore.live_key demo_ed (Some demo_d3) (str "k")).
Proof.
  apply FileStore.files_refine_keystore. unfold FileStore.view. rewrite map_fmap_singleton.
  rewrite FileStore.keys_of_encode by (try apply demo_ed_length; intros x [= <-]; apply demo_d3_length).
  unfold KeyStore.Load. rewrite lookup_singleton_eq. by rewrite demo_ed_length.
Defined.

Definition demo_producer : SoftwareAttestor.t := SoftwareAttestor.NewHybridSoftwareAttestor (str "svc") demo_ed demo_d3.

Lemma LoadSoftwareAttestor_WriteKey_witness :
  AttestorFiles.LoadSoftwareAttestor (str "svc") (str "p") (AttestorFiles.WriteKey demo_producer (str "p") Wrote ∅).1 = Ok demo_producer.
Proof.
  apply (AttestorFiles.LoadSoftwareAttestor_WriteKey demo_producer); [by repeat split|apply demo_ed_length|].
  intros q [= <-]. apply demo_d3_length.
Defined.

Definition demo_env (k q : bytes) : CosignerFiles.env := CosignerFiles.mk_env true true true (Ok k) (Ok q) Wrote Wrote Wrote Wrote.

Lemma demo_env_sized : CosignerFiles.keys_sized (demo_env demo_ed demo_d3).
Proof. split; intros ? [= <-]; [apply demo_ed_length|apply demo_d3_length]. Qed.

(** The first start draws keys; the second draws others and keeps the first. *)
Lemma cosigner_restart_witness :
  let start1 := CosignerFiles.NewHybridCosigner (str "m1") [str "op"] (demo_env demo_ed demo_d3) ∅ in
  exists c, start1.2 = Ok c /\
  CosignerFiles.newCosigner (str "m1") [str "op"] true (demo_env (replicate 64 Byte.x09) demo_d3) start1.1 = (start1.1, Ok c).
Proof.
  eexists. split; [reflexivity|].
  apply (CosignerFiles.cosigner_restart _ _ true true (demo_env demo_ed demo_d3) _ ∅); try done. apply demo_env_sized.
Defined.

Definition linux : Platform.host := Platform.mk_host (str "linux") (str "amd64") false (Ok demo_ed).

Lemma Discover_signs_witness :
  exists a r, Platform.Discover linux (str "svc") = Ok (a, r) /\
    exists e, Platform.Sign a linux 1 (str "s") (str "d") = Ok e /\ Envelope.valid e.
Proof.
  eexists _, _. split; [reflexivity|].
  destruct (Platform.Discover_signs linux (str "svc") _ _ 1 (str "s") (str "d") eq_refl ltac:(done)) as (_ & _ & e & E & V & _).
  by exists e.
Defined.

Lemma unreadable_key_is_replaced_witness :
  exists fs' c, CosignerFiles.newCosigner (str "m1") [] false (CosignerFiles.mk_env true false true (Ok (replicate 64 Byte.x09)) (errorf "") Wrote Wrote Wrote Wrote)
      {[CosignerFiles.member_key := one_line_key demo_ed]} = (fs', Ok c) /\
    Cosigner.priv c = replicate 64 Byte.x09 /\ fs' !! CosignerFiles.member_key = Some (one_line_key (replicate 64 Byte.x09)) /\
    one_line_key (replicate 64 Byte.x09) <> one_line_key demo_ed.
Proof.
  apply CosignerFiles.unreadable_key_is_replaced; [done|done|by rewrite lookup_singleton_eq|by rewrite lookup_singleton_ne].
Defined.
