(* ===== verification/Hsm.v ===== *)
(** * Keys inside an HSM (pkg/hsm/pkcs11.go)

    The second implementation of pkg/fwdsec's key store: key pairs live in a
    PKCS#11 token, and the process holds handles.  The token is a parameter,
    with what the PKCS#11 standard says of the calls that are made; the theorem
    is that the store on top of it implements the directory of keys that
    [Fwdsec.KeyStore] - and with it signing and rotation - works on. *)

From stdpp Require Import base numbers list gmap strings.
From Stdlib Require Import ZArith Lia.
From S2P Require Import Prelude Crypto Attest Threshold Fwdsec.

#[local] Open Scope Z_scope.

(** ** PKCS#11 *)

Inductive class := CKO_PUBLIC_KEY | CKO_PRIVATE_KEY.
#[export] Instance class_eq_dec : EqDecision class.
Proof. solve_decision. Defined.

(** The template of one half of a key pair: the attributes [Generate] sets. *)
Record template := mk_template {
  t_class : class; t_label : bytes; t_token : bool; t_private : bool; t_sensitive : bool; t_extractable : bool;
  t_sign : bool; t_verify : bool; t_params : bytes }.

(** An object of the token: what it was made from and its private scalar, or
    its point. *)
Record object := mk_object { o_template : template; o_value : bytes }.

(** The calls, on a logged-in session: [p_generate] with the two templates,
    [p_find] by label and class with the maximal count, [p_point] the values of
    CKA_EC_POINT, [p_sign_init] and [p_sign] with a private handle. *)
Class Pkcs11 := {
  Token : Type;
  p_generate : Token -> template -> template -> Token * res (Z * Z);
  p_find : Token -> bytes -> class -> nat -> res (list Z);
  p_point : Token -> Z -> res (list bytes);
  p_sign_init : Token -> Z -> res unit;
  p_sign : Token -> Z -> bytes -> res bytes;
  p_destroy : Token -> Z -> Token * res unit;
}.

(** DER of an OCTET STRING of up to 127 bytes. *)
Definition der_octets (v : bytes) : bytes := Byte.x04 :: byte_of_Z (len v) :: v.

(** The handles of the objects with a label and a class. *)
Definition matching (m : gmap Z object) (label : bytes) (c : class) : list Z :=
  map fst (filter (fun x => t_label (o_template x.2) = label /\ t_class (o_template x.2) = c) (map_to_list m)).

(** What the standard says: objects are what was generated and not destroyed,
    searches find the objects that match, the point of a public key is its
    encoding raw or as an OCTET STRING, signatures are made with the private
    key of the handle, and there is none without an object. *)
Class Pkcs11Laws `{Crypto} `{!Pkcs11} := {
  objects : Token -> gmap Z object;
  generate_ok : forall t tp ts t' pub priv, p_generate t tp ts = (t', Ok (pub, priv)) ->
    pub <> priv /\ objects t !! pub = None /\ objects t !! priv = None /\
    exists k, len k = PrivateKeySize /\
      objects t' = <[priv := mk_object ts k]> (<[pub := mk_object tp (ed_public k)]> (objects t));
  generate_err : forall t tp ts t' e, p_generate t tp ts = (t', Err e) -> objects t' = objects t;
  find_ok : forall t label c n l, p_find t label c n = Ok l -> exists order, order ≡ₚ matching (objects t) label c /\ l = take n order;
  point_ok : forall t h v, p_point t h = Ok v -> exists o, objects t !! h = Some o /\ (v = [o_value o] \/ v = [der_octets (o_value o)]);
  sign_ok : forall t h m s, p_sign_init t h = Ok tt -> p_sign t h m = Ok s ->
    exists o, objects t !! h = Some o /\ s = ed_sign (o_value o) m;
  destroy_ok : forall t h t', p_destroy t h = (t', Ok tt) -> objects t' = delete h (objects t);
  destroy_err : forall t h t' e, p_destroy t h = (t', Err e) -> objects t' = objects t;
}.

Module Hsm.
Section Hsm.
Context `{Crypto} `{!Pkcs11}.

(** ** The store *)

Record Config := mk_config { Module_ : bytes; SlotID : Z; PIN : bytes; KeyPrefix : bytes }.

(** The process's hold on the module: initialised, a session, logged in. *)
Record session := mk_session { initialised : bool; open_session : bool; logged_in : bool }.
Definition no_session : session := mk_session false false false.

(** What the calls of [Open] return: whether the library loads, and the two
    errors that are not errors. *)
Inductive rv := CKR_OK | CKR_ALREADY (* initialised, logged in *) | CKR_OTHER.
Record open_io := mk_open_io { o_load : bool; o_init : rv; o_session : res unit; o_login : rv }.

Record PKCS11KeyStore := mk_store { cfg : Config; hold : option session }.  (* [None]: ctx is nil *)

(** The session state as the failed or successful [Open] leaves it. *)
Definition Open (c : Config) (io : open_io) : session * res PKCS11KeyStore :=
  if bool_decide (Module_ c = []) then (no_session, errorf "hsm: Config.Module required")
  else if bool_decide (KeyPrefix c = []) then (no_session, errorf "hsm: Config.KeyPrefix required")
  else if negb (o_load io) then (no_session, errorf "hsm: failed to load PKCS#11 module")
  else match o_init io with
  | CKR_OTHER => (no_session, errorf "hsm: Initialize")
  | _ =>
      match o_session io with
      | Err e => (no_session, Err ("hsm: OpenSession"%string :: e))      (* Finalize *)
      | Ok _ =>
          match o_login io with
          | CKR_OTHER => (no_session, errorf "hsm: Login")               (* CloseSession, Finalize *)
          | _ => (mk_session true true true, Ok (mk_store c (Some (mk_session true true true))))
          end
      end
  end.

(** [fin]: what [Finalize] returns. *)
Definition Close (fin : res unit) (p : PKCS11KeyStore) : PKCS11KeyStore * res unit :=
  match hold p with
  | None => (p, Ok tt)
  | Some _ => (mk_store (cfg p) None, fin)
  end.

(** ** Reading the public key *)

(** The length octets of DER, as [asn1.Unmarshal] reads them: [n] more bytes
    of a long form. *)
Fixpoint long_length (n : nat) (acc : Z) (v : bytes) : option (Z * bytes) :=
  match n with
  | O => if acc <? 128 then None (* non-minimal length *) else Some (acc, v)
  | S n =>
      match v with
      | [] => None
      | b :: v' =>
          if 2 ^ 23 <=? acc then None
          else
            let acc := Z.lor (Z.shiftl acc 8) (byte_to_Z b) in
            if acc =? 0 then None (* superfluous leading zeros *) else long_length n acc v'
      end
  end.

(** [asn1.Unmarshal] into a [[]byte]; bytes after the value are allowed. *)
Definition octet_string (v : bytes) : option bytes :=
  match v with
  | tag :: l :: v' =>
      if negb (bool_decide (tag = Byte.x04)) then None
      else
        let l := byte_to_Z l in
        match (if l <? 128 then Some (l, v') else if l =? 128 then None else long_length (Z.to_nat (l - 128)) 0 v') with
        | None => None
        | Some (n, rest) => if n <=? len rest then Some (take (Z.to_nat n) rest) else None
        end
  | _ => None
  end.

Definition readPublicKeyLocked (t : Token) (h : Z) : res bytes :=
  let! attrs := wrap_err "hsm: GetAttributeValue(CKA_EC_POINT)" (p_point t h) in
  match attrs with
  | [] => errorf "hsm: empty CKA_EC_POINT"
  | v :: _ =>
      fail_if len v =? 0 with "hsm: empty CKA_EC_POINT" ;;
      if len v =? PublicKeySize then Ok v
      else match octet_string v with
      | Some raw => if len raw =? PublicKeySize then Ok raw else errorf "hsm: cannot decode CKA_EC_POINT"
      | None => errorf "hsm: cannot decode CKA_EC_POINT"
      end
  end.

(** ** Keys *)

Record hsmLiveKey := mk_key { privObj : Z; pubObj : Z; pubKey : bytes; label : bytes }.

(** DER of the OID 1.3.101.112. *)
Definition ecParams : bytes := [Byte.x06; Byte.x03; Byte.x2b; Byte.x65; Byte.x70].
Definition pubTemplate (l : bytes) : template := mk_template CKO_PUBLIC_KEY l true false false false false true ecParams.
Definition privTemplate (l : bytes) : template := mk_template CKO_PRIVATE_KEY l true true true false true false [].

(** A store that was closed has no context, and each call dereferences it. *)
Definition nil_context {A} : res A := errorf "panic: nil pointer dereference".

(** The label of a new key, from eight random bytes. *)
Definition new_label (c : Config) (rnd : bytes) : bytes := KeyPrefix c ++ str "-epoch-" ++ hex rnd.

Definition Generate (p : PKCS11KeyStore) (rnd : bytes) (t : Token) : Token * res hsmLiveKey :=
  let l := new_label (cfg p) rnd in
  if bool_decide (hold p = None) then (t, nil_context)
  else match p_generate t (pubTemplate l) (privTemplate l) with
  | (t, Err e) => (t, Err ("hsm: GenerateKeyPair"%string :: e))
  | (t, Ok (pubHandle, privHandle)) =>
      match readPublicKeyLocked t pubHandle with
      | Err e =>
          let '(t, _) := p_destroy t privHandle in
          let '(t, _) := p_destroy t pubHandle in
          (t, Err e)
      | Ok pk => (t, Ok (mk_key privHandle pubHandle pk l))
      end
  end.

Definition findOneLocked (t : Token) (l : bytes) (c : class) : res Z :=
  let! objs := p_find t l c 2 in
  match objs with
  | [] => errorf "no object with label"
  | [h] => Ok h
  | _ => errorf "multiple objects with label"
  end.

Definition Load (p : PKCS11KeyStore) (t : Token) (l : bytes) : res hsmLiveKey :=
  if bool_decide (hold p = None) then nil_context else
  let! priv := wrap_err "hsm: load private" (findOneLocked t l CKO_PRIVATE_KEY) in
  let! pub := wrap_err "hsm: load public" (findOneLocked t l CKO_PUBLIC_KEY) in
  let! pk := readPublicKeyLocked t pub in
  Ok (mk_key priv pub pk l).

Definition Public (k : hsmLiveKey) : bytes := pubKey k.
Definition Locator (k : hsmLiveKey) : bytes := label k.
Definition QuantumPublic (k : hsmLiveKey) : bytes := [].
Definition QuantumSign (k : hsmLiveKey) (msg : bytes) : res bytes := errorf "hsm livekey: hybrid mode not supported".

Definition Sign (p : PKCS11KeyStore) (t : Token) (k : hsmLiveKey) (msg : bytes) : res bytes :=
  if bool_decide (hold p = None) then nil_context else
  let! _ := wrap_err "hsm: SignInit" (p_sign_init t (privObj k)) in
  wrap_err "hsm: Sign" (p_sign t (privObj k) msg).

Definition Destroy (p : PKCS11KeyStore) (t : Token) (k : hsmLiveKey) : Token * res unit :=
  if bool_decide (hold p = None) then (t, nil_context)
  else
    let '(t, r1) := p_destroy t (privObj k) in
    let '(t, r2) := p_destroy t (pubObj k) in
    (t, match r1, r2 with
        | Ok _, Ok _ => Ok tt
        | Err e, Ok _ => Err ("destroy private"%string :: e)
        | Ok _, Err e => Err ("destroy public"%string :: e)
        | Err e, Err e' => Err (("destroy private"%string :: e) ++ "destroy public"%string :: e')
        end).

(** ** The store implements the directory of keys *)

Context `{!CryptoLaws _} `{!Pkcs11Laws}.

Definition has (m : gmap Z object) (l : bytes) (c : class) (h : Z) (v : bytes) : Prop :=
  exists tp, m !! h = Some (mk_object tp v) /\ t_label tp = l /\ t_class tp = c.

Definition sole (m : gmap Z object) (l : bytes) (c : class) (h : Z) (v : bytes) : Prop :=
  has m l c h v /\ forall h' v', has m l c h' v' -> h' = h.

(** The token's objects are the key pairs of the directory, one of each half
    under a label and no others. *)
Definition entry (m : gmap Z object) (l : bytes) (f : option (option (bytes * option bytes))) : Prop :=
  match f with
  | None => forall c h v, ~ has m l c h v
  | Some None => False
  | Some (Some (k, q)) => q = None /\ len k = PrivateKeySize /\ l <> [] /\
      exists hs hp, sole m l CKO_PRIVATE_KEY hs k /\ sole m l CKO_PUBLIC_KEY hp (ed_public k)
  end.
Definition implements (m : gmap Z object) (d : gmap bytes (option (bytes * option bytes))) : Prop :=
  forall l, entry m l (d !! l).

Lemma entry_ext m m' l f : (forall c h v, has m' l c h v <-> has m l c h v) -> entry m l f -> entry m' l f.
Proof.
  intros M. assert (forall c h v, sole m l c h v -> sole m' l c h v) as S.
  { intros c h v [V U]. split; [by apply M|]. intros h' v' V'%M. by apply (U h' v'). }
  destruct f as [[[k q]|]|]; cbn; [|done|by intros N c h v V%M; apply (N c h v)].
  intros (-> & Lk & Nl & hs & hp & Ss & Sp). do 3 (split; [done|]). exists hs, hp. split; by apply S.
Qed.

Lemma elem_matching m l c h : h ∈ matching m l c <-> exists v, has m l c h v.
Proof.
  unfold matching, has. rewrite list_elem_of_fmap. split.
  - intros ([h' [tp v]] & -> & Hin). apply list_elem_of_filter in Hin as [[L K] Hin%elem_of_map_to_list]. by exists v, tp.
  - intros (v & tp & M & L & K). exists (h, mk_object tp v). split; [done|]. apply list_elem_of_filter. split; [done|]. by apply elem_of_map_to_list.
Qed.

Lemma nodup_matching m l c : NoDup (matching m l c).
Proof.
  unfold matching. pose proof (NoDup_fst_map_to_list m) as N. induction (map_to_list m) as [|x xs IH]; [constructor|].
  cbn in N. apply NoDup_cons in N as [Nx N]. rewrite filter_cons. case_decide; [|by apply IH]. cbn. apply NoDup_cons. split; [|by apply IH].
  intros (y & E & Hin)%list_elem_of_fmap. apply list_elem_of_filter in Hin as [_ Hin]. apply Nx. rewrite E. apply list_elem_of_fmap. by exists y.
Qed.

(** A successful search is for the only object that matches. *)
Lemma findOne_sole t l c h : findOneLocked t l c = Ok h -> exists v, sole (objects t) l c h v.
Proof.
  unfold findOneLocked. destruct (p_find t l c 2) as [objs|] eqn:F; [|done]. cbn [res_bind].
  apply find_ok in F as (order & P & ->). destruct order as [|x [|y order]]; cbn [take]; [done| |by destruct order].
  intros [= ->]. assert (forall h', h' ∈ matching (objects t) l c <-> h' = h) as M by (intros h'; rewrite <- P; apply list_elem_of_singleton).
  destruct (proj1 (elem_matching _ _ _ _) (proj2 (M h) eq_refl)) as [v V]. exists v. split; [done|]. intros h' v' V'. apply M, elem_matching. by exists v'.
Qed.

Lemma octet_string_der v : len v = PublicKeySize -> octet_string (der_octets v) = Some v.
Proof.
  intros L. unfold octet_string, der_octets. rewrite bool_decide_eq_true_2 by done. cbn [negb]. rewrite byte_to_of_Z, L.
  change (PublicKeySize mod 256) with PublicKeySize. change (PublicKeySize <? 128) with true. cbv iota beta.
  rewrite L. unfold PublicKeySize, len in *. by rewrite firstn_all2 by lia.
Qed.

Lemma read_public t h pk : readPublicKeyLocked t h = Ok pk ->
  exists tp v, objects t !! h = Some (mk_object tp v) /\ (len v = PublicKeySize -> pk = v).
Proof.
  unfold readPublicKeyLocked. intros R. destruct (p_point t h) as [vs|] eqn:P; [|done]. apply point_ok in P as ([tp v] & M & V).
  exists tp, v. split; [done|]. intros L. cbn [wrap_err res_bind o_value] in *. destruct V as [->| ->]; cbn [len] in R.
  - rewrite L in R. cbn in R. by injection R as <-.
  - assert (len (der_octets v) = 34) as LD by (unfold len, der_octets in *; cbn [length]; unfold PublicKeySize in L; lia).
    rewrite LD, octet_string_der, L in R by done. cbn in R. by injection R as <-.
Qed.

(** What a handle of a key pair is to the directory. *)
Definition represents (m : gmap Z object) (k : hsmLiveKey) (f : bytes) : Prop :=
  sole m (label k) CKO_PRIVATE_KEY (privObj k) f /\ sole m (label k) CKO_PUBLIC_KEY (pubObj k) (ed_public f) /\
  pubKey k = ed_public f.

Lemma has_value m l c l' c' h v v' : has m l c h v -> has m l' c' h v' -> l' = l /\ c' = c /\ v' = v.
Proof. intros (tp & M & L & K) (tp' & M' & L' & K'). rewrite M in M'. injection M' as <- <-. by subst. Qed.

Lemma sole_same m l c h v h' v' : sole m l c h v -> sole m l c h' v' -> h' = h /\ v' = v.
Proof. intros [V U] [V' _]. pose proof (U _ _ V'). subst. split; [done|]. by destruct (has_value _ _ _ _ _ _ _ _ V V') as (_ & _ & ?). Qed.

(** A loaded key is the directory's. *)
Lemma Load_represents p t d l k : implements (objects t) d -> Load p t l = Ok k ->
  exists f, d !! l = Some (Some (f, None)) /\ label k = l /\ l <> [] /\ len f = PrivateKeySize /\ represents (objects t) k f.
Proof.
  intros I L. unfold Load in L. destruct (bool_decide _); [done|].
  destruct (findOneLocked t l CKO_PRIVATE_KEY) as [hs|] eqn:FS; [|done]. cbn [wrap_err res_bind] in L.
  destruct (findOneLocked t l CKO_PUBLIC_KEY) as [hp|] eqn:FP; [|done]. cbn [wrap_err res_bind] in L.
  destruct (readPublicKeyLocked t hp) as [pk|] eqn:R; [|done]. injection L as <-.
  apply findOne_sole in FS as [v S], FP as [v' S']. specialize (I l). destruct (d !! l) as [[[f q]|]|]; [|done|by destruct (I _ _ _ (proj1 S))].
  destruct I as (-> & Lf & Nl & hs' & hp' & Is & Ip). destruct (sole_same _ _ _ _ _ _ _ Is S) as [-> ->], (sole_same _ _ _ _ _ _ _ Ip S') as [-> ->].
  exists f. do 4 (split; [done|]). split; [done|]. split; [done|]. cbn [pubKey].
  destruct (read_public _ _ _ R) as (tp & w & M & W). destruct S' as [(tp' & M' & _) _]. rewrite M' in M. injection M as <- <-. apply W, ed_public_length.
Qed.

Lemma Sign_represents p t k f msg s : represents (objects t) k f -> Sign p t k msg = Ok s -> s = ed_sign f msg.
Proof.
  intros [[(tp & M & _) _] _] E. unfold Sign in E. destruct (bool_decide _); [done|].
  destruct (p_sign_init t (privObj k)) as [[]|] eqn:SI; [|done]. cbn [wrap_err res_bind] in E.
  destruct (p_sign t (privObj k) msg) as [s'|] eqn:SG; [|done]. injection E as <-.
  destruct (sign_ok _ _ _ _ SI SG) as (o & M' & ->). rewrite M' in M. by injection M as ->.
Qed.

Lemma has_insert m l c h v h' o : m !! h' = None ->
  has (<[h' := o]> m) l c h v <-> has m l c h v \/ (h = h' /\ v = o_value o /\ t_label (o_template o) = l /\ t_class (o_template o) = c).
Proof.
  intros N. unfold has. destruct (decide (h = h')) as [->|Ne].
  - rewrite lookup_insert_eq, N. destruct o as [tp w]. cbn. naive_solver.
  - rewrite lookup_insert_ne by done. naive_solver.
Qed.

Lemma has_delete m l c h v h' : has (delete h' m) l c h v <-> h <> h' /\ has m l c h v.
Proof. unfold has. setoid_rewrite lookup_delete_Some. naive_solver. Qed.

(** A pair under a new label extends the directory. *)
Lemma implements_insert m d l k hp hs : implements m d -> d !! l = None -> l <> [] -> len k = PrivateKeySize ->
  hp <> hs -> m !! hp = None -> m !! hs = None ->
  let m' := <[hs := mk_object (privTemplate l) k]> (<[hp := mk_object (pubTemplate l) (ed_public k)]> m) in
  implements m' (<[l := Some (k, None)]> d) /\ sole m' l CKO_PRIVATE_KEY hs k /\ sole m' l CKO_PUBLIC_KEY hp (ed_public k).
Proof.
  intros I D Nl Lk Nh Np Ns m'.
  assert (forall l' c h v, has m' l' c h v <-> has m l' c h v \/ (l' = l /\ ((h = hs /\ v = k /\ c = CKO_PRIVATE_KEY) \/ (h = hp /\ v = ed_public k /\ c = CKO_PUBLIC_KEY)))) as M.
  { intros. unfold m'. rewrite !has_insert by (rewrite ?lookup_insert_ne; done). cbn. naive_solver. }
  pose proof (I l) as Il. rewrite D in Il.
  assert (sole m' l CKO_PRIVATE_KEY hs k) as Ss by (split; [apply M; auto 7|by intros h' v' [[]%Il|(_ & [(-> & _ & ?)|(-> & _ & ?)])]%M]).
  assert (sole m' l CKO_PUBLIC_KEY hp (ed_public k)) as Sp by (split; [apply M; auto 7|by intros h' v' [[]%Il|(_ & [(-> & _ & ?)|(-> & _ & ?)])]%M]).
  split; [|done]. intros l'. destruct (decide (l' = l)) as [->|Ne].
  - rewrite lookup_insert_eq. do 3 (split; [done|]). by exists hs, hp.
  - rewrite lookup_insert_ne by done. specialize (I l').
    apply (entry_ext m); [|done]. intros; rewrite M; split; [by intros [?|[? _]]|by left].
Qed.

(** Without its pair, the directory is without the label. *)
Lemma implements_delete m d k f : implements m d -> represents m k f ->
  implements (delete (pubObj k) (delete (privObj k) m)) (delete (label k) d).
Proof.
  intros I (Ss & Sp & _). assert (forall l c h v, has (delete (pubObj k) (delete (privObj k) m)) l c h v <-> l <> label k /\ has m l c h v) as M.
  { intros l c h v. rewrite !has_delete. split.
    - intros (N1 & N2 & Hh). split; [|done]. intros ->. destruct c; [apply N1; by apply (proj2 Sp) in Hh|apply N2; by apply (proj2 Ss) in Hh].
    - intros [Nl Hh]. split; [|split; [|done]]; intros ->;
        [destruct (has_value _ _ _ _ _ _ _ _ Hh (proj1 Sp)) as [? _]|destruct (has_value _ _ _ _ _ _ _ _ Hh (proj1 Ss)) as [? _]]; congruence. }
  intros l. destruct (decide (l = label k)) as [->|Ne].
  - rewrite lookup_delete_eq. by intros c h v [? _]%M.
  - rewrite lookup_delete_ne by done. specialize (I l).
    apply (entry_ext m); [|done]. intros; rewrite M; split; [by intros []|done].
Qed.

(** A handle and a key of the directory are indistinguishable: they show the
    same public parts, and what the handle signs the key signs. *)
Definition same (p : PKCS11KeyStore) (t : Token) (k : hsmLiveKey) (k' : KeyStore.LiveKey) : Prop :=
  Public k = KeyStore.Public k' /\ Locator k = KeyStore.Locator k' /\ QuantumPublic k = KeyStore.QuantumPublic k' /\
  (forall msg s, Sign p t k msg = Ok s -> KeyStore.Sign k' msg = Ok s) /\
  (forall msg s, QuantumSign k msg <> Ok s) /\ (forall msg s, KeyStore.QuantumSign k' msg <> Ok s).

Lemma represents_same p t k f : represents (objects t) k f -> same p t k (KeyStore.live_key f None (label k)).
Proof.
  intros R. split; [apply R|]. do 2 (split; [done|]). split; [|done].
  intros msg s S. by rewrite (Sign_represents _ _ _ _ _ _ R S).
Qed.

Lemma Load_directory d l f : d !! l = Some (Some (f, None)) -> l <> [] -> len f = PrivateKeySize ->
  KeyStore.Load d l = Ok (KeyStore.live_key f None l).
Proof. intros D N L. unfold KeyStore.Load. by rewrite bool_decide_eq_false_2, D, L by done. Qed.

Lemma Generate_refines p rnd t d t' k : implements (objects t) d -> d !! new_label (cfg p) rnd = None -> Generate p rnd t = (t', Ok k) ->
  exists f, let '(d', r) := KeyStore.Generate false (Ok (KeyStore.mk_fresh f [] (new_label (cfg p) rnd))) d in
    implements (objects t') d' /\ exists k', r = Ok k' /\ same p t' k k'.
Proof.
  intros I D G. unfold Generate in G. destruct (bool_decide _); [done|].
  destruct (p_generate t _ _) as [t1 [[hp hs]|]] eqn:PG; [|done]. destruct (readPublicKeyLocked t1 hp) as [pk|] eqn:R.
  2:{ destruct (p_destroy t1 hs) as [t2 ?]. by destruct (p_destroy t2 hp). }
  injection G as <- <-. destruct (generate_ok _ _ _ _ _ _ PG) as (Nh & Np & Ns & f & Lf & M). exists f. cbn [KeyStore.Generate KeyStore.f_path KeyStore.f_priv].
  assert (new_label (cfg p) rnd <> []) as Nl by (unfold new_label; by destruct (KeyPrefix (cfg p))).
  destruct (implements_insert _ _ _ _ _ _ I D Nl Lf Nh Np Ns) as (I' & Ss & Sp). rewrite <- M in *. split; [done|]. eexists. split; [done|].
  apply represents_same. split; [done|]. split; [done|]. cbn [pubKey].
  destruct (read_public _ _ _ R) as (tp & w & Mw & W). destruct Sp as [(tp' & Mp & _) _]. rewrite Mp in Mw. injection Mw as <- <-. apply W, ed_public_length.
Qed.

Lemma Destroy_directory f l d x : d !! l = Some x -> l <> [] ->
  (KeyStore.Destroy (KeyStore.live_key f None l) KeyStore.io_fine d).1.2 = delete l d.
Proof.
  intros D N. unfold KeyStore.Destroy. cbn [KeyStore.path KeyStore.live_key]. rewrite bool_decide_eq_false_2, D by done. cbn. apply delete_insert_eq.
Qed.

(** C36. The store of keys in the token implements the directory of keys that
    signing and rotation are verified against: what it loads is a key of the
    directory that shows the same public key and signs the same signatures,
    what it generates extends the directory by one key, and a destroyed key is
    gone from it and signs nothing any more. *)
Theorem token_refines_keystore p t d : implements (objects t) d ->
  (forall l k, Load p t l = Ok k -> exists k', KeyStore.Load d l = Ok k' /\ same p t k k') /\
  (forall rnd t' k, d !! new_label (cfg p) rnd = None -> Generate p rnd t = (t', Ok k) ->
    exists f, let '(d', r) := KeyStore.Generate false (Ok (KeyStore.mk_fresh f [] (new_label (cfg p) rnd))) d in
      implements (objects t') d' /\ exists k', r = Ok k' /\ same p t' k k') /\
  (forall l k t', Load p t l = Ok k -> Destroy p t k = (t', Ok tt) ->
    (exists k', KeyStore.Load d l = Ok k' /\ implements (objects t') (KeyStore.Destroy k' KeyStore.io_fine d).1.2) /\
    forall p' msg s, Sign p' t' k msg <> Ok s).
Proof.
  intros I. split; [|split].
  - intros l k L. destruct (Load_represents _ _ _ _ _ I L) as (f & D & <- & Nl & Lf & R). eexists. split; [by apply Load_directory|]. by apply represents_same.
  - intros rnd t' k. by apply Generate_refines.
  - intros l k t' L E. destruct (Load_represents _ _ _ _ _ I L) as (f & D & <- & Nl & Lf & R).
    unfold Destroy in E. destruct (bool_decide _); [done|]. destruct (p_destroy t (privObj k)) as [t1 [[]|]] eqn:D1, (p_destroy t1 (pubObj k)) as [t2 [[]|]] eqn:D2; try done.
    injection E as <-. apply destroy_ok in D1, D2. rewrite D1 in D2. split.
    + eexists. split; [by apply Load_directory|]. rewrite (Destroy_directory _ _ _ _ D Nl), D2. by apply (implements_delete _ _ _ f).
    + intros p' msg s Sg. unfold Sign in Sg. destruct (bool_decide _); [done|]. destruct (p_sign_init t2 (privObj k)) as [[]|] eqn:SI; [|done]. cbn [wrap_err res_bind] in Sg.
      destruct (p_sign t2 (privObj k) msg) as [s'|] eqn:SG; [|done]. destruct (sign_ok _ _ _ _ SI SG) as (o & M & _).
      rewrite D2, lookup_delete_Some, lookup_delete_eq in M. by destruct M.
Qed.

(** A failed [Open] holds nothing, and a successful one is a store that is
    logged in. *)
Lemma Open_holds c io : match Open c io with
  | (s, Err _) => s = no_session
  | (s, Ok p) => hold p = Some s /\ logged_in s = true /\ cfg p = c
  end.
Proof. unfold Open. repeat case_bool_decide; try done. destruct (o_load io), (o_init io), (o_session io), (o_login io); done. Qed.

(** [Close] may be called again; nothing else may be called after it. *)
Lemma Close_ends fin fin' p t k msg l rnd : let p' := (Close fin p).1 in
  Close fin' p' = (p', Ok tt) /\ Sign p' t k msg = nil_context /\ Load p' t l = nil_context /\
  Generate p' rnd t = (t, nil_context) /\ Destroy p' t k = (t, nil_context).
Proof. cbn zeta. unfold Close, Sign, Load, Generate, Destroy. destruct (hold p) eqn:E; cbn [fst hold]; [|rewrite E]; done. Qed.
End Hsm.
End Hsm.

(** ** A token

    Handles are counted, a search gives the handles in the order of the map,
    and points are OCTET STRINGs. *)

Definition toy_token : Type := gmap Z object * Z.

Definition toy_generate (t : toy_token) (tp ts : template) : toy_token * res (Z * Z) :=
  let n := t.2 in
  if bool_decide (t.1 !! n = None /\ t.1 !! (n + 1) = None) then
    let k := be_enc 64 n in
    ((<[n + 1 := mk_object ts k]> (<[n := mk_object tp (ed_public (Crypto := toy_crypto) k)]> t.1), n + 2), Ok (n, n + 1))
  else (t, errorf "CKR_DEVICE_MEMORY").

#[export] Instance toy_pkcs11 : Pkcs11 := {|
  Token := toy_token;
  p_generate := toy_generate;
  p_find t l c n := Ok (take n (matching t.1 l c));
  p_point t h := match t.1 !! h with Some o => Ok [der_octets (o_value o)] | None => errorf "CKR_OBJECT_HANDLE_INVALID" end;
  p_sign_init t h := match t.1 !! h with Some _ => Ok tt | None => errorf "CKR_KEY_HANDLE_INVALID" end;
  p_sign t h m := match t.1 !! h with Some o => Ok (ed_sign (o_value o) m) | None => errorf "CKR_KEY_HANDLE_INVALID" end;
  p_destroy t h := match t.1 !! h with Some _ => ((delete h t.1, t.2), Ok tt) | None => (t, errorf "CKR_OBJECT_HANDLE_INVALID") end;
|}.

#[export] Instance toy_pkcs11_laws : Pkcs11Laws.
Proof.
  refine {| objects := (fun t : Token => (t : toy_token).1) |}; cbn.
  - intros [m n] tp ts t' hp hs. unfold toy_generate. cbn [fst snd]. case_bool_decide as D; [|done]. intros [= <- <- <-]. split; [lia|]. do 2 (split; [apply D|]).
    exists (be_enc 64 n). split; [|done]. unfold len. by rewrite be_enc_length.
  - intros [m n] tp ts t' e. unfold toy_generate. cbn [fst snd]. case_bool_decide; [done|]. by intros [= <- _].
  - intros t l c n x [= <-]. by eexists.
  - intros t h v. destruct (t.1 !! h) as [o|]; [|done]. intros [= <-]. exists o. auto.
  - intros t h m s. destruct (t.1 !! h) as [o|]; [|done]. intros _ [= <-]. by exists o.
  - intros t h t'. destruct (t.1 !! h); [|done]. by intros [= <-].
  - intros t h t' e. destruct (t.1 !! h); [done|]. by intros [= <- _].
Defined.

Definition empty_token : @Token toy_pkcs11 := (∅, 1).
Definition demo_config : Hsm.Config := Hsm.mk_config (str "libsofthsm2.so") 0 (str "1234") (str "stele").
Definition demo_opened : Hsm.PKCS11KeyStore := Hsm.mk_store demo_config (Some (Hsm.mk_session true true true)).
Definition demo_rnd : bytes := replicate 8 Byte.x07.

(** An empty token: a key is generated, found again, signs, and is destroyed. *)
Lemma token_refines_keystore_witness :
  let '(t1, r1) := Hsm.Generate demo_opened demo_rnd empty_token in
  exists k, r1 = Ok k /\ Hsm.Load demo_opened t1 (Hsm.label k) = Ok k /\
  exists f, let '(d', r) := KeyStore.Generate false (Ok (KeyStore.mk_fresh f [] (Hsm.new_label demo_config demo_rnd))) ∅ in
    Hsm.implements (objects t1) d' /\ exists k', r = Ok k' /\ Hsm.same demo_opened t1 k k'.
Proof.
  destruct (Hsm.Generate demo_opened demo_rnd empty_token) as [t1 r1] eqn:G.
  assert (exists k, r1 = Ok k /\ Hsm.Load demo_opened t1 (Hsm.label k) = Ok k) as (k & -> & L).
  { vm_compute in G. injection G as <- <-. eexists. split; [reflexivity|]. vm_compute. reflexivity. }
  exists k. split; [done|]. split; [done|].
  refine (proj1 (proj2 (Hsm.token_refines_keystore demo_opened empty_token ∅ _)) demo_rnd t1 k _ G); [|reflexivity].
  intros l. rewrite lookup_empty. intros c h v (tp & M & _). change ((∅ : gmap Z object) !! h = Some (mk_object tp v)) in M. by rewrite lookup_empty in M.
Defined.
