(* ===== verification/Checkpoint.v ===== *)
(** * Checkpoints (pkg/checkpoint)

    The signed statement over the tree: its canonical text, the operator's
    signer, verification against the rotation chain or a threshold group, and
    the count of witness countersignatures. *)

From S2P Require Import Prelude Crypto Threshold Fwdsec.
From stdpp Require Import base numbers list gmap strings.
From Stdlib Require Import ZArith Lia.

#[local] Open Scope Z_scope.

Module Beacon.
Record t := mk { Source : bytes; Round : Z; Value : bytes; Signature : bytes; ChainHash : bytes }.

(** The part of a beacon the canonical text covers. *)
Definition covered (b : t) := (Source b, Round b, Value b).
End Beacon.

Module WitnessSig.
Record t := mk {
  WitnessID : bytes;
  PublicKey : bytes;
  KeyID : bytes;
  Signature : bytes;
  SignedAt : Z;
  QuantumPublicKey : bytes;
  QuantumSignature : bytes;
}.
End WitnessSig.

Module Checkpoint.

Record t := mk {
  Origin : bytes;
  Size : Z;
  RootHash : bytes;
  HeadHash : bytes;
  TimeNanos : Z;
  EpochIdx : Z;
  KeyID : bytes;
  Beacon : option Beacon.t;
  Signature : bytes;
  QuantumSignature : bytes;
  ThresholdGroupDigest : bytes;
  MemberSigs : list (option MemberSig.t);
  Witnesses : list WitnessSig.t;
}.

Definition colon : Byte.byte := Byte.x3a.

Definition beacon_text (b : option Beacon.t) : bytes :=
  match b with
  | None => str "none"
  | Some b => Beacon.Source b ++ [colon] ++ fmt_d (Beacon.Round b) ++ [colon] ++ hex (Beacon.Value b)
  end.

Definition Canonical (c : t) : bytes :=
  let tg := if bool_decide (ThresholdGroupDigest c = []) then str "none"
            else ThresholdGroupDigest c in
  line "stele/v1" [] ++
  line "origin: " (Origin c) ++
  line "size: " (fmt_d (Size c)) ++
  line "root: " (hex (RootHash c)) ++
  line "head: " (hex (HeadHash c)) ++
  line "time: " (fmt_d (TimeNanos c)) ++
  line "epoch: " (fmt_d (EpochIdx c)) ++
  line "beacon: " (beacon_text (Beacon c)) ++
  line "threshold_group: " tg.

Definition CanonicalForWitness (c : t) : bytes :=
  Canonical c ++ str "operator_sig: " ++ hex (Signature c) ++ [nl].

Definition set_sigs (c : t) (sig qsig : bytes) (ms : list (option MemberSig.t)) : t :=
  mk (Origin c) (Size c) (RootHash c) (HeadHash c) (TimeNanos c) (EpochIdx c) (KeyID c) (Beacon c)
     sig qsig (ThresholdGroupDigest c) ms (Witnesses c).
Definition add_witness (c : t) (w : WitnessSig.t) : t :=
  mk (Origin c) (Size c) (RootHash c) (HeadHash c) (TimeNanos c) (EpochIdx c) (KeyID c) (Beacon c)
     (Signature c) (QuantumSignature c) (ThresholdGroupDigest c) (MemberSigs c) (Witnesses c ++ [w]).

(** *** What the canonical text determines *)

Definition signed_fields (c : t) :=
  (Origin c, Size c, RootHash c, HeadHash c, TimeNanos c, EpochIdx c,
   Beacon.covered <$> Beacon c, ThresholdGroupDigest c).

(** Text fields stay within their line, and the group field is a hex digest. *)
Record wf (c : t) : Prop := {
  wf_origin : one_line (Origin c);
  wf_beacon : from_option (fun b => one_line (Beacon.Source b)) True (Beacon c);
  wf_group : exists d, ThresholdGroupDigest c = hex d;
}.

(** Splitting at the last separator. *)
Lemma sep_inj_r (x : Byte.byte) a b r s :
  x ∉ r -> x ∉ s -> a ++ x :: r = b ++ x :: s -> a = b /\ r = s.
Proof.
  intros Hr Hs E. apply (f_equal reverse) in E. rewrite !reverse_app, !reverse_cons, <- !app_assoc in E.
  simpl in E. apply sep_inj in E as [E1 E2]; [|by rewrite elem_of_reverse..].
  split; [by apply (inj reverse)|by apply (inj reverse)].
Qed.

Lemma colon_hex b : colon ∉ hex b.
Proof. apply hex_sep. by right. Qed.
Lemma colon_fmt z : colon ∉ fmt_d z.
Proof. apply fmt_d_sep. by right. Qed.

Lemma beacon_text_inj b1 b2 :
  beacon_text b1 = beacon_text b2 -> Beacon.covered <$> b1 = Beacon.covered <$> b2.
Proof.
  assert (forall b, beacon_text (Some b) <> str "none") as N.
  { intros b E. assert (colon ∈ str "none") as X.
    - rewrite <- E. simpl. rewrite !elem_of_app, elem_of_cons. auto.
    - by vm_compute in X; repeat (apply elem_of_cons in X as [X|X]; [done|]); apply elem_of_nil in X. }
  destruct b1 as [b1|], b2 as [b2|]; intros E; [|by apply N in E|by symmetry in E; apply N in E|done].
  unfold beacon_text in E. simpl in E. rewrite !app_comm_cons, !app_assoc in E.
  apply sep_inj_r in E as [E E3%hex_inj]; auto using colon_hex.
  apply sep_inj_r in E as [E1 E2%fmt_d_inj]; auto using colon_fmt.
  simpl. unfold Beacon.covered. congruence.
Qed.

Lemma beacon_one_line b :
  from_option (fun b => one_line (Beacon.Source b)) True b -> one_line (beacon_text b).
Proof.
  destruct b as [b|]; unfold one_line; simpl; intros Hs.
  - rewrite !elem_of_app, elem_of_cons, elem_of_app, elem_of_cons.
    pose proof (one_line_hex (Beacon.Value b)). pose proof (one_line_fmt (Beacon.Round b)).
    unfold one_line in *. naive_solver.
  - by vm_compute; set_solver.
Qed.

Lemma checkpoint_Canonical_fields c1 c2 r1 r2 :
  wf c1 -> wf c2 -> Canonical c1 ++ r1 = Canonical c2 ++ r2 ->
  signed_fields c1 = signed_fields c2 /\ r1 = r2.
Proof.
  intros [O1 B1 [d1 D1]] [O2 B2 [d2 D2]] E. unfold Canonical in E.
  rewrite D1, D2, !RotationCert.or_none_group, <- !app_assoc in E.
  apply line_inj in E as [_ E]; [|by apply not_elem_of_nil..].
  apply line_inj in E as [E1 E]; [|done|done].
  apply line_inj in E as [E2%fmt_d_inj E]; auto with stele.
  apply line_inj in E as [E3%hex_inj E]; auto with stele.
  apply line_inj in E as [E4%hex_inj E]; auto with stele.
  apply line_inj in E as [E5%fmt_d_inj E]; auto with stele.
  apply line_inj in E as [E6%fmt_d_inj E]; auto with stele.
  apply line_inj in E as [E7%beacon_text_inj E]; auto using beacon_one_line.
  apply line_inj in E as [E8%RotationCert.or_none_inj E]; auto using RotationCert.or_none_one_line.
  split; [|done]. unfold signed_fields. rewrite D1, D2, E7. congruence.
Qed.

(** Whatever the beacon and the group field say: with an origin of one line, the
    text a witness signs determines what it signs for. *)
Lemma witness_text_states c1 c2 : one_line (Origin c1) -> one_line (Origin c2) -> CanonicalForWitness c1 = CanonicalForWitness c2 ->
  Origin c1 = Origin c2 /\ Size c1 = Size c2 /\ RootHash c1 = RootHash c2.
Proof.
  intros O1 O2 E. unfold CanonicalForWitness, Canonical in E. rewrite <- !app_assoc in E.
  apply line_inj in E as [_ E]; [|by apply not_elem_of_nil..].
  apply line_inj in E as [E1 E]; [|done|done].
  apply line_inj in E as [E2%fmt_d_inj E]; auto with stele.
  by apply line_inj in E as [E3%hex_inj _]; auto with stele.
Qed.

(** With a line break in the origin it does not: the beacon source of one
    checkpoint can spell the lines that are in the origin of another. *)
Definition spelled (size time epoch : Z) (root head : bytes) : bytes :=
  [nl] ++ str "size: " ++ fmt_d size ++ [nl] ++ str "root: " ++ hex root ++ [nl] ++ str "head: " ++ hex head ++ [nl] ++
  str "time: " ++ fmt_d time ++ [nl] ++ str "epoch: " ++ fmt_d epoch ++ [nl] ++ str "beacon: ".

Definition with_origin_source (c : t) (origin : bytes) (size : Z) (root head : bytes) (time epoch : Z) (b : Beacon.t) : t :=
  mk origin size root head time epoch (KeyID c) (Some b) (Signature c) (QuantumSignature c) (ThresholdGroupDigest c) (MemberSigs c) (Witnesses c).

Definition named_by_source (c : t) (origin x y : bytes) (n1 t1 e1 n2 t2 e2 : Z) (r1 h1 r2 h2 : bytes) (round : Z) (v : bytes) : t :=
  with_origin_source c origin n1 r1 h1 t1 e1 (Beacon.mk (x ++ spelled n2 t2 e2 r2 h2 ++ y) round v [] []).
Definition named_by_origin (c : t) (origin x y : bytes) (n1 t1 e1 n2 t2 e2 : Z) (r1 h1 r2 h2 : bytes) (round : Z) (v : bytes) : t :=
  with_origin_source c (origin ++ spelled n1 t1 e1 r1 h1 ++ x) n2 r2 h2 t2 e2 (Beacon.mk y round v [] []).

Theorem witness_text_ambiguous c origin x y n1 t1 e1 n2 t2 e2 r1 h1 r2 h2 round v :
  CanonicalForWitness (named_by_source c origin x y n1 t1 e1 n2 t2 e2 r1 h1 r2 h2 round v) =
  CanonicalForWitness (named_by_origin c origin x y n1 t1 e1 n2 t2 e2 r1 h1 r2 h2 round v).
Proof.
  unfold CanonicalForWitness, Canonical, named_by_source, named_by_origin, with_origin_source, line, beacon_text, spelled.
  cbn [Origin Size RootHash HeadHash TimeNanos EpochIdx Beacon ThresholdGroupDigest Signature Beacon.Source Beacon.Round Beacon.Value].
  rewrite <- !app_assoc. done.
Qed.

Section Verify.
Context `{Crypto}.

Definition verifyQuantumCheckpoint (pubBytes msg sig : bytes) : res unit :=
  d3_check pubBytes msg sig "decode quantum pubkey" "dilithium signature invalid".

Definition Verify (c : t) (chain : option Chain.t) (rootPub : bytes) (group : option Group.t) : res unit :=
  if 0 <? len (MemberSigs c) then
    match group with
    | None => Err ["checkpoint: threshold-signed but no group supplied"%string]
    | Some g =>
        let! _ := wrap_err "threshold group" (Group.Validate (Some g)) in
        fail_if negb (bool_decide (ThresholdGroupDigest c = hex (Group.Digest g)))
          with "checkpoint group digest does not match supplied group" ;;
        VerifyMulti (Some g) (Canonical c) (MemberSigs c)
    end
  else
    match chain with
    | None => Err ["checkpoint: rotation chain required for single-sig verify"%string]
    | Some chain =>
        let! _ := wrap_err "rotation chain" (Chain.VerifyChain chain rootPub) in
        match Chain.at_epoch (Chain.Certs chain) (EpochIdx c) with
        | None => Err ["rotation chain does not contain epoch"%string]
        | Some _ =>
            let pub := Chain.PublicKeyAt chain (EpochIdx c) in
            fail_if negb (bool_decide (Fwdsec.KeyID pub = KeyID c))
              with "checkpoint key_id does not match epoch" ;;
            let canon := Canonical c in
            fail_if negb (ed_verify pub canon (Signature c))
              with "checkpoint operator signature invalid (classical)" ;;
            let qChainPub := Chain.QuantumPublicKeyAt chain (EpochIdx c) in
            if 0 <? len qChainPub then
              fail_if len (QuantumSignature c) =? 0
                with "checkpoint is missing quantum_signature (downgrade attempt?)" ;;
              wrap_err "checkpoint quantum signature"
                (verifyQuantumCheckpoint qChainPub canon (QuantumSignature c))
            else
              fail_if 0 <? len (QuantumSignature c)
                with "checkpoint has quantum signature but chain has no quantum pubkey" ;;
              Ok tt
        end
    end.

(** *** What an accepted checkpoint is *)
Definition single_valid (c : t) (chain : option Chain.t) (rootPub : bytes) : Prop :=
  MemberSigs c = [] /\ exists ch cert, chain = Some ch /\ Chain.VerifyChain ch rootPub = Ok tt /\
    Chain.at_epoch (Chain.Certs ch) (EpochIdx c) = Some cert /\
    Fwdsec.KeyID (RotationCert.PublicKey cert) = KeyID c /\
    ed_verify (RotationCert.PublicKey cert) (Canonical c) (Signature c) = true /\
    (RotationCert.QuantumPublicKey cert = [] -> QuantumSignature c = []) /\
    (RotationCert.QuantumPublicKey cert <> [] -> QuantumSignature c <> [] /\
      d3_good (RotationCert.QuantumPublicKey cert) (Canonical c) (QuantumSignature c)).

Definition threshold_valid (c : t) (group : option Group.t) : Prop :=
  MemberSigs c <> [] /\ exists g, group = Some g /\ Group.valid g /\
    ThresholdGroupDigest c = hex (Group.Digest g) /\ quorum g (Canonical c) (MemberSigs c).

Lemma quantum_half_iff qpub canon qsig :
  (if 0 <? len qpub then
     fail_if len qsig =? 0
       with "checkpoint is missing quantum_signature (downgrade attempt?)" ;;
     wrap_err "checkpoint quantum signature" (verifyQuantumCheckpoint qpub canon qsig)
   else
     fail_if 0 <? len qsig
       with "checkpoint has quantum signature but chain has no quantum pubkey" ;;
     Ok tt) = Ok tt <->
  (qpub = [] -> qsig = []) /\ (qpub <> [] -> qsig <> [] /\ d3_good qpub canon qsig).
Proof.
  destruct (0 <? len qpub) eqn:Q.
  - apply len_pos in Q.
    etrans; [eapply guard_iff; [apply len_zero_eqb|]; rewrite wrap_err_ok; apply d3_check_ok|].
    split; [by intros [? ?]; split|]. intros [_ X]. by apply X.
  - apply len_zero in Q. etrans; [eapply guard_iff; [apply len_zero|reflexivity]|].
    split; [by intros [? _]; split|]. intros [X _]. split; [by apply X|done].
Qed.

Lemma checkpoint_Verify_iff c chain rootPub group :
  Verify c chain rootPub group = Ok tt <->
  single_valid c chain rootPub \/ threshold_valid c group.
Proof.
  unfold Verify, single_valid, threshold_valid. destruct (0 <? len (MemberSigs c)) eqn:M.
  - apply len_pos in M. destruct group as [g|].
    + etrans; [eapply Chain.bind_unit_iff; [rewrite wrap_err_ok; apply Group.Validate_iff|];
        eapply guard_iff; [rewrite negb_false_iff; apply bool_decide_eq_true|apply VerifyMulti_iff]|].
      split.
      * intros (V & E & _ & _ & Q). right. split; [done|]. by exists g.
      * intros [[? _]|(_ & g' & [= <-] & V & E & Q)]; [done|]. by split_and!.
    + split; [done|]. intros [[? _]|(_ & g & ? & _)]; done.
  - apply len_zero in M. destruct chain as [ch|];
      [|split; [done|]; intros [(_ & ch & cert & ? & _)|[? _]]; done].
    unfold Chain.PublicKeyAt, Chain.QuantumPublicKeyAt.
    destruct (Chain.VerifyChain ch rootPub) as [[]|e] eqn:EV; cbn [wrap_err res_bind].
    + destruct (Chain.at_epoch (Chain.Certs ch) (EpochIdx c)) as [cert|] eqn:EA.
      * etrans; [eapply guard_iff; [rewrite negb_false_iff; apply bool_decide_eq_true|];
          eapply guard_iff; [apply negb_false_iff|apply quantum_half_iff]|].
        split.
        -- intros (? & ? & ? & ?). left. split; [done|]. exists ch, cert. by split_and!.
        -- intros [(_ & ch' & cert' & [= <-] & _ & E & ? & ? & ? & ?)|[? _]]; [|done].
           rewrite EA in E. injection E as <-. by split_and!.
      * split; [done|]. intros [(_ & ch' & cert' & [= <-] & _ & E & _)|[? _]]; [congruence|done].
    + split; [done|]. intros [(_ & ch' & cert' & [= <-] & E & _)|[? _]]; [congruence|done].
Qed.
End Verify.

(** ** Witness countersignatures *)
Section Witnesses.
Context `{Crypto}.

(** The body of the loop: whether one countersignature counts.  [trust] gives
    the keys of a witness, [None] when it is unknown. *)
Definition witness_counts (msg : bytes) (trust : bytes -> option (bytes * bytes)) (w : WitnessSig.t) : bool :=
  match trust (WitnessSig.WitnessID w) with
  | None => false
  | Some (pub, qpub) =>
      if negb (len (WitnessSig.PublicKey w) =? PublicKeySize) || negb (bytesEqual (WitnessSig.PublicKey w) pub)
      then false
      else if negb (ed_verify pub msg (WitnessSig.Signature w)) then false
      else if 0 <? len qpub then
        if (len (WitnessSig.QuantumPublicKey w) =? 0) || (len (WitnessSig.QuantumSignature w) =? 0) then false
        else if negb (bytesEqual (WitnessSig.QuantumPublicKey w) qpub) then false
        else is_ok (d3_check (WitnessSig.QuantumPublicKey w) msg (WitnessSig.QuantumSignature w) "" "")
      else true
  end.

Fixpoint count_witnesses (msg : bytes) (trust : bytes -> option (bytes * bytes))
    (ws : list WitnessSig.t) (validCount : Z) : Z :=
  match ws with
  | [] => validCount
  | w :: ws' =>
      count_witnesses msg trust ws' (if witness_counts msg trust w then validCount + 1 else validCount)
  end.

Definition VerifyWitnessesHybrid (c : t) (trust : bytes -> option (bytes * bytes)) : Z :=
  count_witnesses (CanonicalForWitness c) trust (Witnesses c) 0.

Definition VerifyWitnesses (c : t) (trust : bytes -> option bytes) : Z :=
  VerifyWitnessesHybrid c (fun id => (fun ed => (ed, [])) <$> trust id).

(** Witness [id] countersigned [msg] under its trusted keys. *)
Definition witnessed (msg : bytes) (trust : bytes -> option (bytes * bytes)) (w : WitnessSig.t) : Prop :=
  exists pub qpub, trust (WitnessSig.WitnessID w) = Some (pub, qpub) /\
    len pub = PublicKeySize /\ WitnessSig.PublicKey w = pub /\
    ed_verify pub msg (WitnessSig.Signature w) = true /\
    (qpub <> [] -> WitnessSig.QuantumPublicKey w = qpub /\ WitnessSig.QuantumSignature w <> [] /\
      d3_good qpub msg (WitnessSig.QuantumSignature w)).

Lemma is_ok_unit (r : res unit) : is_ok r = true <-> r = Ok tt.
Proof. destruct r as [[]|]; simpl; naive_solver. Qed.

Lemma quantum_witness_iff msg qpub w :
  qpub <> [] ->
  (if (len (WitnessSig.QuantumPublicKey w) =? 0) || (len (WitnessSig.QuantumSignature w) =? 0) then false
   else if negb (bytesEqual (WitnessSig.QuantumPublicKey w) qpub) then false
   else is_ok (d3_check (WitnessSig.QuantumPublicKey w) msg (WitnessSig.QuantumSignature w) "" "")) = true <->
  WitnessSig.QuantumPublicKey w = qpub /\ WitnessSig.QuantumSignature w <> [] /\
  d3_good qpub msg (WitnessSig.QuantumSignature w).
Proof.
  intros Q. destruct (_ || _) eqn:E1.
  - split; [done|]. intros (E & S & _). apply orb_true_iff in E1 as [E1|E1]; apply Z.eqb_eq in E1.
    + rewrite E in E1. by destruct qpub.
    + by destruct (WitnessSig.QuantumSignature w).
  - apply orb_false_iff in E1 as [_ E1%len_zero_eqb].
    destruct (bytesEqual _ _) eqn:E2; cbn [negb].
    + apply bytesEqual_spec in E2. rewrite is_ok_unit, d3_check_ok, E2. naive_solver.
    + apply bytesEqual_false in E2. split; [done|]. by intros [? _].
Qed.

Lemma witness_counts_iff msg trust w : witness_counts msg trust w = true <-> witnessed msg trust w.
Proof.
  unfold witness_counts, witnessed. destruct (trust (WitnessSig.WitnessID w)) as [[pub qpub]|];
    [|split; [done|]; by intros (? & ? & ? & _)].
  destruct (_ || _) eqn:E1.
  { split; [done|]. intros (p & q & [= <- <-] & L & E & _). rewrite E, L, Z.eqb_refl, bytesEqual_refl in E1. done. }
  apply orb_false_iff in E1 as [E1%eqb_guard E2]. apply negb_false_iff, bytesEqual_spec in E2.
  destruct (ed_verify pub msg (WitnessSig.Signature w)) eqn:E3; cbn [negb];
    [|split; [done|]; intros (p & q & [= <- <-] & _ & _ & V & _); congruence].
  destruct (0 <? len qpub) eqn:Q.
  - apply len_pos in Q. rewrite (quantum_witness_iff msg qpub w Q). split.
    + intros X. exists pub, qpub. split_and!; try done. congruence.
    + intros (p & q & [= <- <-] & _ & _ & _ & X). by apply X.
  - apply len_zero in Q. subst qpub. split; [|done]. intros _. exists pub, []. split_and!; try done. congruence.
Qed.

Lemma count_witnesses_spec msg trust ws n :
  count_witnesses msg trust ws n = n + len (filter (fun w => witness_counts msg trust w = true) ws).
Proof.
  revert n. induction ws as [|w ws IH]; intros n; cbn [count_witnesses].
  - unfold len. simpl. lia.
  - rewrite IH. destruct (witness_counts msg trust w) eqn:E.
    + rewrite filter_cons_True by done. unfold len. simpl. lia.
    + by rewrite filter_cons_False by congruence.
Qed.
End Witnesses.
End Checkpoint.

(** ** The operator's signer *)
Module CheckpointSigner.
Section Ops.
Context `{Crypto}.

Record t := mk { fws : Signer.t; threshGroup : option Group.t }.

Definition NewSigner (f : Signer.t) : t := mk f None.
Definition NewThresholdSigner (f : Signer.t) (group : option Group.t) : res t :=
  match group with
  | None => Err ["checkpoint: threshold signer requires both group and coordinator"%string]
  | Some g => let! _ := Group.Validate (Some g) in Ok (mk f (Some g))
  end.

(** [arrivals]: what the cosigners answer in threshold mode. *)
Definition Sign (s : t) (now size : Z) (root head : bytes) (beacon : option Beacon.t)
    (arrivals : list (Member.t * Coordinator.reply)) : res Checkpoint.t :=
  let pub := Signer.Public (fws s) in
  let tgd := match threshGroup s with Some g => hex (Group.Digest g) | None => [] end in
  let c := Checkpoint.mk (Signer.origin (fws s)) size root head now (Signer.ActiveEpoch (fws s))
             (Fwdsec.KeyID pub) beacon [] [] tgd [] [] in
  let canon := Checkpoint.Canonical c in
  match threshGroup s with
  | Some g =>
      match Coordinator.Sign g canon arrivals with
      | (_, Err e) => Err ("checkpoint threshold sign"%string :: e)
      | (sigs, Ok _) => Ok (Checkpoint.set_sigs c [] [] (map Some sigs))
      end
  | None =>
      let! (_, sig) := Signer.Sign (fws s) canon in
      if Signer.Hybrid (fws s) then
        let! qsig := wrap_err "checkpoint hybrid sign" (Signer.QuantumSign (fws s) canon) in
        Ok (Checkpoint.set_sigs c sig qsig [])
      else Ok (Checkpoint.set_sigs c sig [] [])
  end.

Context `{!CryptoLaws _}.

Lemma single_signed s now size root hd beacon :
  Signer.ok None s -> len (Chain.Certs (Signer.chain s)) <= 2 ^ 64 ->
  exists c, Sign (NewSigner s) now size root hd beacon [] = Ok c /\
    Checkpoint.single_valid c (Some (Signer.chain s)) (Signer.RootPublicKey s) /\
    Checkpoint.Size c = size /\ Checkpoint.RootHash c = root /\ Checkpoint.HeadHash c = hd.
Proof.
  intros O B. pose proof (Signer.ok_chain _ _ O) as OC.
  destruct (Signer.ok_key _ _ O) as (k & cert & Ha & (p & Ek & Hp & _) & Hl & EP & EQ & _).
  pose proof (Signer.ok_chain _ _ O) as (g & Hg & (G & _) & L)%Chain.verifyChain_iff.
  apply last_Some in Hl as [certs Hc].
  assert (len certs < 2 ^ 64) as B' by (unfold len in *; rewrite Hc, length_app in B; simpl in B; lia).
  assert (Chain.at_epoch (Chain.Certs (Signer.chain s)) (Signer.ActiveEpoch s) = Some cert) as EA.
  { unfold Signer.ActiveEpoch, Chain.ActiveEpoch. rewrite Hc in Hg, L |- *. rewrite last_snoc.
    by apply (Signer.at_epoch_last None certs cert g). }
  assert (Signer.Public s = KeyStore.pub k) as Epub
    by (unfold Signer.Public, Chain.ActivePublicKey; rewrite Hc, last_snoc; done).
  unfold Sign. cbn [threshGroup NewSigner fws].
  set (c0 := Checkpoint.mk _ _ _ _ _ _ _ _ _ _ _ _ _). set (canon := Checkpoint.Canonical c0).
  unfold Signer.Sign. rewrite Ha. unfold KeyStore.Sign. rewrite Hp. cbn [res_bind].
  assert (ed_verify (RotationCert.PublicKey cert) canon (ed_sign p canon) = true) as V
    by (rewrite EP, Ek; apply ed_sign_verify).
  assert (forall qsig, (RotationCert.QuantumPublicKey cert = [] -> qsig = []) ->
    (RotationCert.QuantumPublicKey cert <> [] ->
      qsig <> [] /\ d3_good (RotationCert.QuantumPublicKey cert) canon qsig) ->
    Checkpoint.single_valid (Checkpoint.set_sigs c0 (ed_sign p canon) qsig [])
      (Some (Signer.chain s)) (Signer.RootPublicKey s)) as SV.
  { intros qsig Q1 Q2. split; [done|]. exists (Signer.chain s), cert. split; [done|].
    split; [exact OC|]. split; [exact EA|]. split; [|done]. rewrite EP, <- Epub. done. }
  unfold Signer.Hybrid. rewrite Ha. unfold KeyStore.QuantumPublic. rewrite <- EQ.
  case_bool_decide as Q; cbn [negb].
  - eexists. split; [reflexivity|]. split; [apply SV; done|done].
  - unfold Signer.QuantumSign. rewrite Ha. unfold KeyStore.QuantumSign.
    rewrite EQ, Ek in Q. destruct (KeyStore.qPriv k) as [q|] eqn:Eq; [|done].
    cbn [wrap_err res_bind]. eexists. split; [reflexivity|]. split; [|done]. apply SV.
    + rewrite EQ, Ek. intros X. done.
    + intros _. split; [apply Cosigner.d3_signature_nonempty|]. rewrite EQ, Ek. apply d3_sign_verify.
Qed.
End Ops.
End CheckpointSigner.

(** ** Properties *)

(** The checkpoint text is unambiguous: for single-line origins and beacon
    sources, two checkpoints with the same canonical bytes agree on origin,
    size, root, head, time, epoch, beacon and threshold group; with the same
    witness bytes they also carry the same operator signature. *)
Theorem checkpoint_text_injective c1 c2 :
  Checkpoint.wf c1 -> Checkpoint.wf c2 ->
  (Checkpoint.Canonical c1 = Checkpoint.Canonical c2 ->
   Checkpoint.signed_fields c1 = Checkpoint.signed_fields c2) /\
  (Checkpoint.CanonicalForWitness c1 = Checkpoint.CanonicalForWitness c2 ->
   Checkpoint.signed_fields c1 = Checkpoint.signed_fields c2 /\
   Checkpoint.Signature c1 = Checkpoint.Signature c2).
Proof.
  intros W1 W2. split; intros E.
  - rewrite <- (app_nil_r (Checkpoint.Canonical c1)), <- (app_nil_r (Checkpoint.Canonical c2)) in E.
    by apply Checkpoint.checkpoint_Canonical_fields in E as [? _].
  - apply Checkpoint.checkpoint_Canonical_fields in E as [? E]; [|done|done]. split; [done|].
    change (line "operator_sig: " (hex (Checkpoint.Signature c1)) =
            line "operator_sig: " (hex (Checkpoint.Signature c2))) in E.
    rewrite <- (app_nil_r (line _ _)), <- (app_nil_r (line _ (hex (Checkpoint.Signature c2)))) in E.
    by apply line_inj in E as [?%hex_inj _]; auto with stele.
Qed.

(** Checkpoint verification is exact: accepted means either a threshold
    checkpoint with a quorum of the group whose digest it carries, or a single
    signature by the key a verified rotation chain lists for its epoch, whose
    key id it names, with a valid quantum signature exactly when that epoch has
    a quantum key. *)
Theorem checkpoint_verify_exact `{Crypto} c chain rootPub group :
  Checkpoint.Verify c chain rootPub group = Ok tt <->
  Checkpoint.single_valid c chain rootPub \/ Checkpoint.threshold_valid c group.
Proof. apply Checkpoint.checkpoint_Verify_iff. Qed.

(** What the operator signs verifies: a checkpoint signed in single-sig
    mode from any reachable signer state, classical or hybrid, is accepted
    against that signer's published chain and root key, for the size, root
    and head it was given - and whatever threshold group the verifier supplies:
    a group is only consulted when the checkpoint carries member signatures. *)
Theorem checkpoint_sign_verifies `{C : Crypto, !CryptoLaws C} s now size root head beacon group :
  Signer.reach None s -> len (Chain.Certs (Signer.chain s)) <= 2 ^ 64 ->
  exists c, CheckpointSigner.Sign (CheckpointSigner.NewSigner s) now size root head beacon [] = Ok c /\
    Checkpoint.Verify c (Some (Signer.chain s)) (Signer.RootPublicKey s) group = Ok tt /\
    Checkpoint.Size c = size /\ Checkpoint.RootHash c = root /\ Checkpoint.HeadHash c = head.
Proof.
  intros R B. pose proof (Signer.signer_reach_ok None s R) as O.
  destruct (CheckpointSigner.single_signed s now size root head beacon O B) as (c & E & V & F).
  exists c. split; [done|]. split; [|done]. apply Checkpoint.checkpoint_Verify_iff. by left.
Qed.

Definition demo_checkpoint (beacon : option Beacon.t) : Checkpoint.t :=
  match CheckpointSigner.Sign (CheckpointSigner.NewSigner (signer1 true)) 50 3 (sha256 (str "root"))
          (sha256 (str "head")) beacon [] with
  | Ok c => c
  | Err _ => Checkpoint.mk [] 0 [] [] 0 0 [] None [] [] [] [] []
  end.
Definition cp1 : Checkpoint.t := demo_checkpoint (Some (Beacon.mk (str "drand") 7 (str "v") (str "s1") [])).
Definition cp2 : Checkpoint.t := demo_checkpoint (Some (Beacon.mk (str "drand") 7 (str "v") (str "s2") [])).

Lemma cp1_wf : Checkpoint.wf cp1.
Proof. split; [vm_compute; set_solver|vm_compute; set_solver|exists []; vm_compute; reflexivity]. Qed.
Lemma cp2_wf : Checkpoint.wf cp2.
Proof. split; [vm_compute; set_solver|vm_compute; set_solver|exists []; vm_compute; reflexivity]. Qed.

Lemma checkpoint_text_injective_witness :
  Checkpoint.Canonical cp1 = Checkpoint.Canonical cp2 /\
  Checkpoint.signed_fields cp1 = Checkpoint.signed_fields cp2.
Proof.
  split; [vm_compute; reflexivity|].
  apply (checkpoint_text_injective cp1 cp2 cp1_wf cp2_wf). vm_compute. reflexivity.
Defined.

Lemma checkpoint_sign_verifies_witness :
  exists c, CheckpointSigner.Sign (CheckpointSigner.NewSigner (signer1 true)) 50 3 (sha256 (str "root"))
      (sha256 (str "head")) None [] = Ok c /\
    Checkpoint.Verify c (Some (Signer.chain (signer1 true))) (Signer.RootPublicKey (signer1 true))
      (Some demo_group) = Ok tt /\
    Checkpoint.Size c = 3 /\ Checkpoint.RootHash c = sha256 (str "root") /\
    Checkpoint.HeadHash c = sha256 (str "head").
Proof.
  apply (checkpoint_sign_verifies (signer1 true) 50 3 (sha256 (str "root")) (sha256 (str "head")) None
    (Some demo_group) (signer1_reach true)).
  vm_compute. discriminate.
Defined.

(** Witness counting is sound for checkpoints that list each witness once:
    a count of [n] means [n] distinct witnesses, each trusted, countersigned the
    operator-signed checkpoint under their trusted keys, quantum half included
    when one is registered. *)
Theorem witness_count_sound `{Crypto} c trust :
  NoDup (map WitnessSig.WitnessID (Checkpoint.Witnesses c)) ->
  exists ws, ws ⊆ Checkpoint.Witnesses c /\ NoDup (map WitnessSig.WitnessID ws) /\
    len ws = Checkpoint.VerifyWitnessesHybrid c trust /\
    Forall (Checkpoint.witnessed (Checkpoint.CanonicalForWitness c) trust) ws.
Proof.
  intros N. set (P w := Checkpoint.witness_counts (Checkpoint.CanonicalForWitness c) trust w = true).
  exists (filter P (Checkpoint.Witnesses c)). split_and!.
  - intros w [_ ?]%list_elem_of_filter. done.
  - clear -N. induction (Checkpoint.Witnesses c) as [|w ws IH]; [done|].
    apply NoDup_cons in N as [Nw N]. rewrite filter_cons. case_decide; [|by apply IH].
    apply NoDup_cons. split; [|by apply IH].
    intros (x & E & [_ Hx]%list_elem_of_filter)%list_elem_of_fmap. apply Nw.
    apply list_elem_of_fmap. by exists x.
  - unfold Checkpoint.VerifyWitnessesHybrid. rewrite Checkpoint.count_witnesses_spec. done.
  - apply Forall_forall. intros w [Hw _]%list_elem_of_filter. by apply Checkpoint.witness_counts_iff.
Qed.

(** A countersignature by a toy witness. *)
Definition demo_countersig (c : Checkpoint.t) : WitnessSig.t :=
  WitnessSig.mk (str "w1") (ed_public (str "w1")) [] (ed_sign (str "w1") (Checkpoint.CanonicalForWitness c))
    60 [] [].
Definition demo_trust (id : bytes) : option (bytes * bytes) :=
  if bool_decide (id = str "w1") then Some (ed_public (str "w1"), []) else None.
Definition cp_witnessed : Checkpoint.t := Checkpoint.add_witness cp1 (demo_countersig cp1).

Lemma witness_count_sound_witness :
  exists ws, ws ⊆ Checkpoint.Witnesses cp_witnessed /\ NoDup (map WitnessSig.WitnessID ws) /\
    len ws = Checkpoint.VerifyWitnessesHybrid cp_witnessed demo_trust /\
    Forall (Checkpoint.witnessed (Checkpoint.CanonicalForWitness cp_witnessed) demo_trust) ws.
Proof. apply (witness_count_sound cp_witnessed demo_trust). vm_compute. repeat constructor. set_solver. Defined.

(** Without that, one witness is counted as often as its countersignature
    is listed: a single trusted witness reaches a quorum of two. *)
Theorem witness_count_duplicates :
  Checkpoint.VerifyWitnessesHybrid (Checkpoint.add_witness cp_witnessed (demo_countersig cp1)) demo_trust = 2.
Proof. vm_compute. reflexivity. Qed.
