(* ===== verification/Vectors.v ===== *)
(** * The test vectors (cmd/stele-vectors)

    The program that writes the known answers other implementations are
    checked against, and the answers that are in the repository
    (testdata/vectors).  They were computed by the program itself; here the
    model computes them, so that its encodings, hashes, trees and proofs are
    compared with the code's byte for byte. *)

From stdpp Require Import base numbers list gmap strings.
From Stdlib Require Import ZArith Lia.
From S2P Require Import Prelude Crypto Codec Attest Rfc6962 Merkle RefMerkle MerkleProps Threshold Fwdsec Checkpoint.

#[local] Open Scope Z_scope.
#[local] Existing Instance rfc6962_hasher.

Module Vectors.

(** [bytes(b, n)] *)
Definition fill (b : Byte.byte) (n : nat) : bytes := replicate n b.

(** ** Envelopes *)

Record envelopeCase := mk_case { Name : bytes; Input : Envelope.t; ExpectedCanonHex : bytes; ExpectedHashHex : bytes }.

Definition pub : bytes := fill Byte.x01 32.
(** The named inputs, with the fields the table sets. *)
Definition envelope_inputs : list (bytes * Envelope.t) :=
  let case name pid time src data type evHash qpub :=
    (str name, Envelope.mk (str pid) time (str src) data pub (str type) evHash [] [] qpub []) in
  [case "minimal_classical" "alice" 1700000000123456789 "/var/log/x" (str "hello") "software" [] [];
   case "empty_data_and_source" "x" 0 "" [] "software" [] [];
   case "unicode_strings" "ñame-é" 1 "lögs" (str "data") "software" [] [];
   case "with_evidence_hash" "tpm-bound-prod" 1700000000000000000 "/var/log/y" (str "attested") "tpm2" (sha256 (str "opaque attestation evidence")) [];
   case "large_data_1mib" "alice" 1700000000000000000 "/var/log/big" (fill Byte.xaa (Z.to_nat (1024 * 1024))) "software" [] [];
   case "hybrid_quantum_pubkey" "alice" 1700000000000000000 "/var/log/x" (str "hello") "software" [] (fill Byte.xbb 1952)].

(** The loop of [envelopeCases] over the table. *)
Definition envelope_case (c : bytes * Envelope.t) : envelopeCase :=
  let canon := Envelope.Canonical c.2 in mk_case c.1 c.2 (hex canon) (hex (sha256 canon)).
Definition envelopeCases : list envelopeCase := map envelope_case envelope_inputs.

Definition emitEnvelopeCanonical : list envelopeCase := envelopeCases.
(** The name, the canonical bytes and their hash only. *)
Definition emitEnvelopeHash : list (bytes * bytes * bytes) :=
  map (fun c => (Name c, ExpectedCanonHex c, ExpectedHashHex c)) envelopeCases.

(** [pk]: the public key of the seed. *)
Definition signing_inputs (pk : bytes) : list (bytes * Envelope.t) :=
  let case name src data time := (str name, Envelope.mk (str "alice") time (str src) data pk TypeSoftware [] [] [] [] []) in
  [case "deterministic_seed_0x42" "/var/log/x" (str "first entry") 1700000000000000000;
   case "empty_data" "/var/log/x" [] 1700000000000000000].
(** [priv]: the key of the seed of 0x42.  A row: name, input, canonical
    bytes and signature. *)
Definition emitEnvelopeSigning `{Crypto} (priv : bytes) : list (bytes * Envelope.t * bytes * bytes) :=
  map (fun c => let canon := Envelope.Canonical c.2 in (c.1, c.2, hex canon, hex (ed_sign priv canon)))
    (signing_inputs (ed_public priv)).

(** ** Trees *)

Definition leaf (i : Z) : bytes := put_u64 i ++ str "stele-tv".
Definition leafSeq (n : nat) : list bytes := map (fun i => leaf (Z.of_nat i)) (seq 0 n).

Record leafCase := mk_leaf { l_index : Z; l_data : bytes; l_hash : bytes }.

Section Trees.
Context {CR : CompactRange} {PL : ProofLib}.

(** [NewTree] and [AppendLeaf] of each leaf, with what they return: the tree
    and the leaf hashes. *)
Definition tree_of (leaves : list bytes) : option (Tree.t (LSt := memLeafStore) * list bytes) :=
  foldl (fun acc l => '(tr, hs) ← acc; '(tr, h, _) ← Tree.AppendLeaf tr l; Some (tr, hs ++ [h])) (Some (Tree.NewTree, [])) leaves.

Definition root_case (n : nat) : option (Z * list leafCase * bytes) :=
  '(tr, hs) ← tree_of (leafSeq n);
  root ← Tree.Root tr;
  Some (Z.of_nat n, zip_with (fun i d => mk_leaf (Z.of_nat i) (hex d.1) (hex d.2)) (seq 0 n) (zip (leafSeq n) hs), hex root).
Definition emitMerkleRoot : option (list (Z * list leafCase * bytes)) := mapM root_case [0; 1; 2; 3; 4; 7; 8; 100]%nat.

Record inclusion_case := mk_inclusion { i_size : Z; i_idx : Z; i_leaf : bytes; i_proof : list bytes; i_root : bytes }.

(** The inner loop; an index past the size is skipped, and the first proof
    that cannot be had ends the program. *)
Definition inclusion_cases (indices : list Z) (n : nat) : option (list inclusion_case) :=
  '(tr, _) ← tree_of (leafSeq n);
  root ← Tree.Root tr;
  snd <$> foldl (fun acc idx =>
      '(tr, out) ← acc;
      if Z.of_nat n <=? idx then Some (tr, out) else
      match Tree.InclusionProof idx (Z.of_nat n) tr with
      | (_, Err _) => None
      | (tr, Ok prf) => Some (tr, out ++ [mk_inclusion (Z.of_nat n) idx (hex (leaf idx)) (map hex prf) (hex root)])
      end) (Some (tr, [])) indices.
Definition indices : list Z := [0; 4; 50; 999].
Definition emitMerkleInclusion : option (list inclusion_case) := (fun l => List.concat l) <$> mapM (inclusion_cases indices) [8; 100; 1000]%nat.

Record consistency_case := mk_consistency { c_old : Z; c_new : Z; c_oldRoot : bytes; c_newRoot : bytes; c_proof : list bytes }.

(** The body of the loop for one pair of sizes. *)
Definition consistency (p : nat * nat) : option consistency_case :=
  '(oldTree, _) ← tree_of (take p.1 (leafSeq p.2));
  '(newTree, _) ← tree_of (leafSeq p.2);
  match Tree.ConsistencyProof (Z.of_nat p.1) (Z.of_nat p.2) newTree with
  | (_, Err _) => None
  | (newTree, Ok prf) =>
      oldRoot ← Tree.Root oldTree;
      newRoot ← Tree.Root newTree;
      Some (mk_consistency (Z.of_nat p.1) (Z.of_nat p.2) (hex oldRoot) (hex newRoot) (map hex prf))
  end.
Definition emitMerkleConsistency : option (list consistency_case) :=
  mapM consistency [(0, 5); (1, 5); (3, 8); (8, 100); (50, 1000)]%nat.

(** What the descriptions say an implementation must find of a case. *)
Definition verifies_inclusion (c : inclusion_case) : bool :=
  match hex_decode (i_leaf c), mapM (fun p => match hex_decode p with Ok b => Some b | Err _ => None end) (i_proof c), hex_decode (i_root c) with
  | Ok l, Some prf, Ok root => Tree.VerifyInclusion (i_idx c) (i_size c) (HashLeaf l) prf root
  | _, _, _ => false
  end.
Definition verifies_consistency (c : consistency_case) : bool :=
  match hex_decode (c_oldRoot c), hex_decode (c_newRoot c), mapM (fun p => match hex_decode p with Ok b => Some b | Err _ => None end) (c_proof c) with
  | Ok o, Ok n, Some prf => Tree.VerifyConsistency (c_old c) (c_new c) prf o n
  | _, _, _ => false
  end.
End Trees.

(** ** Checkpoints *)

Definition checkpoint_inputs : list (bytes * Checkpoint.t) :=
  let case name origin size time epoch keyID :=
    (str name, Checkpoint.mk (str origin) size (fill Byte.xab 32) (fill Byte.xcd 32) time epoch (str keyID) None [] [] [] [] []) in
  [case "minimal" "stele.local/log" 1 1700000000000000000 0 "abcdef0123456789";
   case "size_1000" "example.com/audit" 1000 1700000000000000000 3 "0123456789abcdef"].
(** A row: name, input and canonical bytes. *)
Definition emitCheckpointCanonical : list (bytes * Checkpoint.t * bytes) :=
  map (fun c => (c.1, c.2, hex (Checkpoint.Canonical c.2))) checkpoint_inputs.

(** ** The committed answers *)

Definition known_envelopes : list (bytes * bytes) :=
  [(str "00000005616c69636517979cfe3d85cd150000000a2f7661722f6c6f672f780000000568656c6c6f00000020010101010101010101010101010101010101010101010101010101010101010100000008736f6674776172650000000000000000", str "74b5cb6c613c3cecbde579a55cd84f50e56673d5a7d8aff1b87aea803fca45ae");
   (str "00000001780000000000000000000000000000000000000020010101010101010101010101010101010101010101010101010101010101010100000008736f6674776172650000000000000000", str "56c21e2d57567939944ebf4eb051a54b2330321641a9db0c8a9943af71bde4ff");
   (str "00000008c3b1616d652dc3a90000000000000001000000056cc3b66773000000046461746100000020010101010101010101010101010101010101010101010101010101010101010100000008736f6674776172650000000000000000", str "803046f7335df629c23c13989be438f68fff6513ed070939ee377f354b0e4532");
   (str "0000000e74706d2d626f756e642d70726f6417979cfe362a00000000000a2f7661722f6c6f672f790000000861747465737465640000002001010101010101010101010101010101010101010101010101010101010101010000000474706d3200000020e5add430aedd0483ca5b0b162dec1497164f7590bff78dd711d5b075870e9c3400000000", str "be1199e55dc2220d8d3c8acce3fc7526f769dd31723d06457836c510f3f54a92");
   (str "00000005616c69636517979cfe362a00000000000a2f7661722f6c6f672f780000000568656c6c6f00000020010101010101010101010101010101010101010101010101010101010101010100000008736f66747761726500000000000007a0" ++ hex (fill Byte.xbb 1952), str "87e7ca4554e8a457fe9c43f451e2badb18e7adf52cc736591a08d387596def58")].
Definition known_leaves : list bytes :=
  [str "5fb2264dccfd136a8a671ae33fd4de58dee5309c119fcebf0b70b24906cf8e6b";
   str "fbf1a258d085914402f1158213fdbe4ddd23541a2eb63f523fc6700f7972df99";
   str "cb58b88ea4a642fa4024279a1eacda004bf18ccea40d48feb09e1be5ee481b2f";
   str "b8affc4a6e5253e1e68b732daed6f6da07c80be259c24f51411c78e6c5900b83";
   str "4553c5c8e45b45a98df22a475132f35f0aafb2c720732728b7c1ce81ba9e5c3d";
   str "72d3c1eb26f0cbe944788229dcb1e5c86a8842a8ff0514ea8587d4d63c4862af";
   str "f6b31cd5e9d61f0b53f5d446d24b1342cdce5215dfac3bf425f954678b3b985c";
   str "353ad4a086e6776aafb344a0fee7b592c28b57690788137d2a525e372f37059d"].
Definition known_roots : list (Z * bytes) :=
  [(0, str "e3b0c44298fc1c149afbf4c8996fb92427ae41e4649b934ca495991b7852b855");
   (1, str "5fb2264dccfd136a8a671ae33fd4de58dee5309c119fcebf0b70b24906cf8e6b");
   (2, str "8d441d1a70f7ca176e76f0b94f44bd165349684f25c6e514523a65cfa5a93cb6");
   (3, str "7334e29dda4286288438a9ef4de2509a44f60bc43eab9de7f1c9d9bc00ece15c");
   (4, str "996d855155f24f869ced637f493f6758872e35b3d68432e2f36da0027d65da96");
   (7, str "3e13f53eac4e2f7e75b5f2f77732df7931c93ffed7c57984286595259c1be7d7");
   (8, str "40a2ec7018fea9fd741bd1b02979e735030b2aea92dc87bf1a2fa793ff74fe85")].
Definition known_inclusion : list inclusion_case :=
  [mk_inclusion 8 0 (str "00000000000000007374656c652d7476") [str "fbf1a258d085914402f1158213fdbe4ddd23541a2eb63f523fc6700f7972df99";
      str "a3f8bec0be88f5d3503d53eb549ef266723f03d9f1f3c0984b451deddbe5ec08";
      str "454d83006506ea306c4107c15682e3b4669cab8f080241093cc08489ee084a5c"] (str "40a2ec7018fea9fd741bd1b02979e735030b2aea92dc87bf1a2fa793ff74fe85");
   mk_inclusion 8 4 (str "00000000000000047374656c652d7476") [str "72d3c1eb26f0cbe944788229dcb1e5c86a8842a8ff0514ea8587d4d63c4862af";
      str "7b696dc594bf2694ecd95b7fcc42acd8f3810e176fb9a31e461683c46a26c08e";
      str "996d855155f24f869ced637f493f6758872e35b3d68432e2f36da0027d65da96"] (str "40a2ec7018fea9fd741bd1b02979e735030b2aea92dc87bf1a2fa793ff74fe85");
   mk_inclusion 100 0 (str "00000000000000007374656c652d7476") [str "fbf1a258d085914402f1158213fdbe4ddd23541a2eb63f523fc6700f7972df99";
      str "a3f8bec0be88f5d3503d53eb549ef266723f03d9f1f3c0984b451deddbe5ec08";
      str "454d83006506ea306c4107c15682e3b4669cab8f080241093cc08489ee084a5c";
      str "6eb78c61a4408f0955f8ecbc64df04db9134767ca4daf6d468bc743ebe9d0ea6";
      str "f4f9c6878506f8bffbe1e52e17adb2ede1af5eeefdde1944ac2560d8ef673275";
      str "7f1270269303b633a5c8a18f21a75ec61f6b9bfde57d7098f87d2c200fff814f";
      str "282b330313c1e7ecc98c22c32a675840ec4aa82f73bfe8475ea6a53d29629c96"] (str "0e0fce12226bc221080aa18674b8b4e6306379787fdee6cf12644fa5168c34c2");
   mk_inclusion 100 4 (str "00000000000000047374656c652d7476") [str "72d3c1eb26f0cbe944788229dcb1e5c86a8842a8ff0514ea8587d4d63c4862af";
      str "7b696dc594bf2694ecd95b7fcc42acd8f3810e176fb9a31e461683c46a26c08e";
      str "996d855155f24f869ced637f493f6758872e35b3d68432e2f36da0027d65da96";
      str "6eb78c61a4408f0955f8ecbc64df04db9134767ca4daf6d468bc743ebe9d0ea6";
      str "f4f9c6878506f8bffbe1e52e17adb2ede1af5eeefdde1944ac2560d8ef673275";
      str "7f1270269303b633a5c8a18f21a75ec61f6b9bfde57d7098f87d2c200fff814f";
      str "282b330313c1e7ecc98c22c32a675840ec4aa82f73bfe8475ea6a53d29629c96"] (str "0e0fce12226bc221080aa18674b8b4e6306379787fdee6cf12644fa5168c34c2");
   mk_inclusion 100 50 (str "00000000000000327374656c652d7476") [str "a959e36a98ff26620b05d6a19478bd0ba07c3d7e44bab5157035c980d3ff95d0";
      str "182cdfbb62f7df5cce1677f2c331570be3a42b09e0fe4039ed618aeff2bd34e2";
      str "c3dbd03451ae68aa29d1d72b72e98b91eccc748d12e0ba56412b22dc91028ef7";
      str "71e4f71f582ebb8db576bd88a71748db207e69b480f1b5d872f8df810af12472";
      str "822fdae7832dad0a05b9cb5c766958ff57f0bc169ced1a697206cb514e5cca9b";
      str "2325d12dad65642b103255ee6c33e736d144d189073cdfe37dda36f78739b2d6";
      str "282b330313c1e7ecc98c22c32a675840ec4aa82f73bfe8475ea6a53d29629c96"] (str "0e0fce12226bc221080aa18674b8b4e6306379787fdee6cf12644fa5168c34c2");
   mk_inclusion 1000 0 (str "00000000000000007374656c652d7476") [str "fbf1a258d085914402f1158213fdbe4ddd23541a2eb63f523fc6700f7972df99";
      str "a3f8bec0be88f5d3503d53eb549ef266723f03d9f1f3c0984b451deddbe5ec08";
      str "454d83006506ea306c4107c15682e3b4669cab8f080241093cc08489ee084a5c";
      str "6eb78c61a4408f0955f8ecbc64df04db9134767ca4daf6d468bc743ebe9d0ea6";
      str "f4f9c6878506f8bffbe1e52e17adb2ede1af5eeefdde1944ac2560d8ef673275";
      str "7f1270269303b633a5c8a18f21a75ec61f6b9bfde57d7098f87d2c200fff814f";
      str "cd3168951dfec3fb002862d76b803d4bf226279ff105c0fdc22c86fd90519942";
      str "334650a2791ddbc121148602faab8af767f17fd6e755627a05778e9868b437b4";
      str "5c8e30062a51577d20127ec0fe218e8f5f790e4cdd560985f368570f2ec37e15";
      str "5c09426d30b3275e5f71506aec5321b7bdfd0e18a574ad6b22b11424d11eb918"] (str "0fe72280251db97880b55697d8ff13021d13fd75197b345c8bc31bb5a4f7d113");
   mk_inclusion 1000 4 (str "00000000000000047374656c652d7476") [str "72d3c1eb26f0cbe944788229dcb1e5c86a8842a8ff0514ea8587d4d63c4862af";
      str "7b696dc594bf2694ecd95b7fcc42acd8f3810e176fb9a31e461683c46a26c08e";
      str "996d855155f24f869ced637f493f6758872e35b3d68432e2f36da0027d65da96";
      str "6eb78c61a4408f0955f8ecbc64df04db9134767ca4daf6d468bc743ebe9d0ea6";
      str "f4f9c6878506f8bffbe1e52e17adb2ede1af5eeefdde1944ac2560d8ef673275";
      str "7f1270269303b633a5c8a18f21a75ec61f6b9bfde57d7098f87d2c200fff814f";
      str "cd3168951dfec3fb002862d76b803d4bf226279ff105c0fdc22c86fd90519942";
      str "334650a2791ddbc121148602faab8af767f17fd6e755627a05778e9868b437b4";
      str "5c8e30062a51577d20127ec0fe218e8f5f790e4cdd560985f368570f2ec37e15";
      str "5c09426d30b3275e5f71506aec5321b7bdfd0e18a574ad6b22b11424d11eb918"] (str "0fe72280251db97880b55697d8ff13021d13fd75197b345c8bc31bb5a4f7d113");
   mk_inclusion 1000 50 (str "00000000000000327374656c652d7476") [str "a959e36a98ff26620b05d6a19478bd0ba07c3d7e44bab5157035c980d3ff95d0";
      str "182cdfbb62f7df5cce1677f2c331570be3a42b09e0fe4039ed618aeff2bd34e2";
      str "c3dbd03451ae68aa29d1d72b72e98b91eccc748d12e0ba56412b22dc91028ef7";
      str "71e4f71f582ebb8db576bd88a71748db207e69b480f1b5d872f8df810af12472";
      str "822fdae7832dad0a05b9cb5c766958ff57f0bc169ced1a697206cb514e5cca9b";
      str "2325d12dad65642b103255ee6c33e736d144d189073cdfe37dda36f78739b2d6";
      str "cd3168951dfec3fb002862d76b803d4bf226279ff105c0fdc22c86fd90519942";
      str "334650a2791ddbc121148602faab8af767f17fd6e755627a05778e9868b437b4";
      str "5c8e30062a51577d20127ec0fe218e8f5f790e4cdd560985f368570f2ec37e15";
      str "5c09426d30b3275e5f71506aec5321b7bdfd0e18a574ad6b22b11424d11eb918"] (str "0fe72280251db97880b55697d8ff13021d13fd75197b345c8bc31bb5a4f7d113");
   mk_inclusion 1000 999 (str "00000000000003e77374656c652d7476") [str "b821a66fdf90282b541a864ac37b5d9fb384bad95df8602fb192f235fc6a8fff";
      str "5dbfba0ec9ea9e36010f40da8ebcf3df6fa3e4019f99c1c607684b2455bc2b28";
      str "d76cd9e0b6a3550eb9f7ea59aa1233ed435cce0271f02fec5dc874965a634389";
      str "3affcfe9418a848c290fc9d22d3ed9a9c96066279e36ca4d5af163744aaa361b";
      str "79a7a1e65d8c1a0551cb4e777e9ef76ae4480d11abe854d6583cd928c1a38a6f";
      str "6480367ccd5b6b2ce6968ba9de06c6d25b552802f3730ada129dba4d0fbd523d";
      str "d7c6f22517ecd49b13503a3577afafd62ee6b2cf1e224964ff3088037e5b2e55";
      str "468c4c9a3b5c27f195ea8e68e3479476e5d0d6033a8aa214bfaac719c29d98b0"] (str "0fe72280251db97880b55697d8ff13021d13fd75197b345c8bc31bb5a4f7d113")].
Definition known_consistency : list consistency_case :=
  [mk_consistency 0 5 (str "e3b0c44298fc1c149afbf4c8996fb92427ae41e4649b934ca495991b7852b855") (str "c716344fb0ed8d65ca6beb3c8a75e1b1f5b09953f9494a8e432a1268131cdf1f") [];
   mk_consistency 1 5 (str "5fb2264dccfd136a8a671ae33fd4de58dee5309c119fcebf0b70b24906cf8e6b") (str "c716344fb0ed8d65ca6beb3c8a75e1b1f5b09953f9494a8e432a1268131cdf1f") [str "fbf1a258d085914402f1158213fdbe4ddd23541a2eb63f523fc6700f7972df99";
      str "a3f8bec0be88f5d3503d53eb549ef266723f03d9f1f3c0984b451deddbe5ec08";
      str "4553c5c8e45b45a98df22a475132f35f0aafb2c720732728b7c1ce81ba9e5c3d"];
   mk_consistency 3 8 (str "7334e29dda4286288438a9ef4de2509a44f60bc43eab9de7f1c9d9bc00ece15c") (str "40a2ec7018fea9fd741bd1b02979e735030b2aea92dc87bf1a2fa793ff74fe85") [str "cb58b88ea4a642fa4024279a1eacda004bf18ccea40d48feb09e1be5ee481b2f";
      str "b8affc4a6e5253e1e68b732daed6f6da07c80be259c24f51411c78e6c5900b83";
      str "8d441d1a70f7ca176e76f0b94f44bd165349684f25c6e514523a65cfa5a93cb6";
      str "454d83006506ea306c4107c15682e3b4669cab8f080241093cc08489ee084a5c"];
   mk_consistency 8 100 (str "40a2ec7018fea9fd741bd1b02979e735030b2aea92dc87bf1a2fa793ff74fe85") (str "0e0fce12226bc221080aa18674b8b4e6306379787fdee6cf12644fa5168c34c2") [str "6eb78c61a4408f0955f8ecbc64df04db9134767ca4daf6d468bc743ebe9d0ea6";
      str "f4f9c6878506f8bffbe1e52e17adb2ede1af5eeefdde1944ac2560d8ef673275";
      str "7f1270269303b633a5c8a18f21a75ec61f6b9bfde57d7098f87d2c200fff814f";
      str "282b330313c1e7ecc98c22c32a675840ec4aa82f73bfe8475ea6a53d29629c96"];
   mk_consistency 50 1000 (str "7a338a03fbeab624456141063bb7097f86ba3499dfcb9b5789e9bd3edc1be015") (str "0fe72280251db97880b55697d8ff13021d13fd75197b345c8bc31bb5a4f7d113") [str "182cdfbb62f7df5cce1677f2c331570be3a42b09e0fe4039ed618aeff2bd34e2";
      str "d50234c0ab720da054459e2c52c5e23276b56981dfb700952bb89ebe92714a36";
      str "c3dbd03451ae68aa29d1d72b72e98b91eccc748d12e0ba56412b22dc91028ef7";
      str "71e4f71f582ebb8db576bd88a71748db207e69b480f1b5d872f8df810af12472";
      str "822fdae7832dad0a05b9cb5c766958ff57f0bc169ced1a697206cb514e5cca9b";
      str "2325d12dad65642b103255ee6c33e736d144d189073cdfe37dda36f78739b2d6";
      str "cd3168951dfec3fb002862d76b803d4bf226279ff105c0fdc22c86fd90519942";
      str "334650a2791ddbc121148602faab8af767f17fd6e755627a05778e9868b437b4";
      str "5c8e30062a51577d20127ec0fe218e8f5f790e4cdd560985f368570f2ec37e15";
      str "5c09426d30b3275e5f71506aec5321b7bdfd0e18a574ad6b22b11424d11eb918"]].
Definition known_checkpoints : list bytes :=
  [str "7374656c652f76310a6f726967696e3a207374656c652e6c6f63616c2f6c6f670a73697a653a20310a726f6f743a20616261626162616261626162616261626162616261626162616261626162616261626162616261626162616261626162616261626162616261626162616261620a686561643a20636463646364636463646364636463646364636463646364636463646364636463646364636463646364636463646364636463646364636463646364636463640a74696d653a20313730303030303030303030303030303030300a65706f63683a20300a626561636f6e3a206e6f6e650a7468726573686f6c645f67726f75703a206e6f6e650a";
   str "7374656c652f76310a6f726967696e3a206578616d706c652e636f6d2f61756469740a73697a653a20313030300a726f6f743a20616261626162616261626162616261626162616261626162616261626162616261626162616261626162616261626162616261626162616261626162616261620a686561643a20636463646364636463646364636463646364636463646364636463646364636463646364636463646364636463646364636463646364636463646364636463640a74696d653a20313730303030303030303030303030303030300a65706f63683a20330a626561636f6e3a206e6f6e650a7468726573686f6c645f67726f75703a206e6f6e650a"].
Definition known_signed : list bytes :=
  [str "00000005616c69636517979cfe362a00000000000a2f7661722f6c6f672f780000000b666972737420656e747279000000202152f8d19b791d24453242e15f2eab6cb7cffa7b6a5ed30097960e069881db1200000008736f6674776172650000000000000000";
   str "00000005616c69636517979cfe362a00000000000a2f7661722f6c6f672f7800000000000000202152f8d19b791d24453242e15f2eab6cb7cffa7b6a5ed30097960e069881db1200000008736f6674776172650000000000000000"].

(** ** The model gives them *)

(** All cases but the one of a mebibyte, the fifth. *)
Example envelopes_reproduced :
  map (fun c => (ExpectedCanonHex (envelope_case c), ExpectedHashHex (envelope_case c))) (take 4 envelope_inputs ++ drop 5 envelope_inputs)
  = known_envelopes.
Proof. vm_compute. reflexivity. Qed.

Example signed_reproduced :
  match hex_decode (str "2152f8d19b791d24453242e15f2eab6cb7cffa7b6a5ed30097960e069881db12") with
  | Ok pk => map (fun c => hex (Envelope.Canonical c.2)) (signing_inputs pk) = known_signed
  | Err _ => False
  end.
Proof. vm_compute. reflexivity. Qed.

Example roots_reproduced :
  mapM root_case [0; 1; 2; 3; 4; 7; 8]%nat
  = Some (map (fun r => (r.1, zip_with (fun i h => mk_leaf (Z.of_nat i) (hex (leaf (Z.of_nat i))) h) (seq 0 (Z.to_nat r.1)) known_leaves, r.2)) known_roots).
Proof. vm_compute. reflexivity. Qed.

Example inclusion_reproduced : inclusion_cases indices 8 = Some (take 2 known_inclusion).
Proof. vm_compute. reflexivity. Qed.

Example consistency_reproduced : mapM consistency [(0, 5); (1, 5); (3, 8)]%nat = Some (take 3 known_consistency).
Proof. vm_compute. reflexivity. Qed.

Example checkpoints_reproduced : map snd emitCheckpointCanonical = known_checkpoints.
Proof. vm_compute. reflexivity. Qed.

(** The proofs of the larger trees, of a hundred and a thousand leaves, are
    accepted. *)
Example known_proofs_verify :
  forallb verifies_inclusion known_inclusion && forallb verifies_consistency known_consistency = true.
Proof. vm_compute. reflexivity. Qed.
End Vectors.
