(* ===== verification/Ops.v ===== *)
(** * Process settings and clients

    The small packages every daemon starts with: pkg/obs's readiness registry,
    pkg/httpx's server settings, pkg/memlimit's memory limit, pkg/beacon's
    drand client. *)

From stdpp Require Import base numbers list gmap sets strings.
From Stdlib Require Import ZArith Lia SpecFloat.
From S2P Require Import Prelude Utf8 GoText Codec Crypto Checkpoint.

#[local] Open Scope Z_scope.

(** ** Readiness (pkg/obs/health.go, handlers.go) *)
Module Health.

(** A probe is what it answers when it is run. *)
Abbreviation probe := (res unit).
Definition t := gmap bytes probe.

Definition Register (name : bytes) (p : probe) (h : t) : t := <[name := p]> h.
Definition Unregister (name : bytes) (h : t) : t := delete name h.

Record Snapshot := mk_snapshot { Name : bytes; OK : bool; Err_ : error }.

Definition snapshot (x : bytes * probe) : Snapshot :=
  mk_snapshot x.1 (is_ok x.2) (match x.2 with Ok _ => [] | Err e => e end).

(** The loop over the copied map; [order] is the order its iteration takes. *)
Fixpoint check_loop (order : list (bytes * probe)) (out : list Snapshot) (allOK : bool) : list Snapshot * bool :=
  match order with
  | [] => (out, allOK)
  | x :: order' => check_loop order' (out ++ [snapshot x]) (allOK && is_ok x.2)
  end.

Definition Check (order : list (bytes * probe)) : list Snapshot * bool := check_loop order [] true.

(** [/healthz] and [/readyz]: status and body. *)
Definition handleLive : Z * bytes := (200, str "ok" ++ [nl]).
Definition handleReady (order : list (bytes * probe)) : Z * (bool * list Snapshot) :=
  let '(snaps, allOK) := Check order in (if allOK then 200 else 503, (allOK, snaps)).

Lemma check_loop_spec order out b : check_loop order out b = (out ++ map snapshot order, b && forallb (fun x => is_ok x.2) order).
Proof.
  revert out b; induction order as [|x order IH]; intros out b; cbn [check_loop map forallb].
  - by rewrite app_nil_r, andb_true_r.
  - rewrite IH, <- app_assoc. cbn. by rewrite andb_assoc.
Qed.

(** In whatever order the registry is iterated, [/readyz] answers 200 exactly
    when every registered probe passes, and 503 otherwise; the body has exactly
    one line for each probe. *)
Theorem ready_exact h order : order ≡ₚ map_to_list h ->
  (fst (handleReady order) = 200 <-> forall n p, h !! n = Some p -> p = Ok tt) /\
  (fst (handleReady order) = 200 \/ fst (handleReady order) = 503) /\
  map Name (snd (snd (handleReady order))) ≡ₚ (map_to_list h).*1.
Proof.
  intros P. unfold handleReady, Check. rewrite check_loop_spec. cbn [app andb fst snd]. split_and!.
  - destruct (forallb _ order) eqn:F; (split; [|intros A]); try done.
    + intros _ n p L. rewrite forallb_forall in F. specialize (F (n, p)). cbn in F.
      destruct p as [[]|]; [done|]. discriminate F. apply list_elem_of_In. rewrite P. by apply elem_of_map_to_list.
    + exfalso. apply not_true_iff_false in F. apply F, forallb_forall. intros [n p] I. apply list_elem_of_In in I.
      rewrite P, elem_of_map_to_list in I. by rewrite (A n p I).
  - destruct (forallb _ order); auto.
  - rewrite map_map. cbn. by rewrite <- P.
Qed.
End Health.

(** ** Server settings (pkg/httpx/server.go) *)
Module Httpx.

Definition second : Z := 1000000000.
Record Timeouts := mkTimeouts { ReadHeader : Z; Read : Z; Write : Z; Idle : Z }.
Definition DefaultTimeouts : Timeouts := mkTimeouts (10 * second) (30 * second) (30 * second) (120 * second).

Definition pickDuration (v fallback : Z) : Z := if v <=? 0 then fallback else v.

Record server := mkServer { Addr : bytes; ReadHeaderTimeout : Z; ReadTimeout : Z; WriteTimeout : Z; IdleTimeout : Z }.

Definition NewServer (addr : bytes) (t : Timeouts) : server :=
  mkServer addr (pickDuration (ReadHeader t) (ReadHeader DefaultTimeouts)) (pickDuration (Read t) (Read DefaultTimeouts))
    (pickDuration (Write t) (Write DefaultTimeouts)) (pickDuration (Idle t) (Idle DefaultTimeouts)).

(** No policy, however wrong, yields a server without timeouts: in net/http a
    duration that is not positive means none. *)
Theorem NewServer_bounded addr t : let s := NewServer addr t in
  0 < ReadHeaderTimeout s /\ 0 < ReadTimeout s /\ 0 < WriteTimeout s /\ 0 < IdleTimeout s.
Proof.
  assert (forall v d, 0 < d -> 0 < pickDuration v d) as P by (intros v d D; unfold pickDuration; destruct (Z.leb_spec v 0); lia).
  cbn [NewServer ReadHeaderTimeout ReadTimeout WriteTimeout IdleTimeout]. split_and!; by apply P.
Qed.
End Httpx.

(** ** Memory limit (pkg/memlimit/memlimit.go) *)
Module Memlimit.

(** [strings.Fields]; every word takes at least one byte, so the length of the
    line is fuel enough. *)
Fixpoint fields_loop (n : nat) (s : bytes) : list bytes :=
  match n with
  | O => []
  | S n =>
      match TrimLeft s with
      | [] => []
      | s => let '(w, r) := word (length s) s in w :: fields_loop n r
      end
  end.
Definition Fields (s : bytes) : list bytes := fields_loop (length s) s.

Fixpoint mem_total (lines : list bytes) : res Z :=
  match lines with
  | [] => errorf "memlimit: MemTotal not found in /proc/meminfo"
  | line :: lines' =>
      if negb (starts_with (str "MemTotal:") line) then mem_total lines'
      else match Fields line with
      | _ :: f1 :: _ :: _ =>
          let! kib := wrap_err "memlimit: parsing MemTotal" (ParseUint f1) in
          Ok (wrap64 (kib * 1024))
      | _ => errorf "memlimit: unexpected MemTotal line"
      end
  end.

(** [meminfo] is the file, or the error of reading it. *)
Definition detectLinux (meminfo : res bytes) : res Z :=
  let! b := meminfo in mem_total (Split nl b).

Definition Detect (meminfo : res bytes) : res Z :=
  match detectLinux meminfo with
  | Ok v => Ok v
  | Err _ => errorf "memlimit: could not detect host memory; pass --mem-limit-bytes manually"
  end.

(** [debug.SetMemoryLimit]: a negative argument leaves the limit alone. *)
Definition SetMemoryLimit (limit : Z) (cur : Z) : Z := if limit <? 0 then cur else limit.

(** float64 of a uint64, and int64 of a float64: truncation, with the value the
    x86 conversion gives out of range. *)
Definition float_of_u64 (z : Z) : spec_float := binary_normalize 53 1024 z 0 false.
Definition min_int64 : Z := - 2 ^ 63.
Definition int64_of_float (f : spec_float) : Z :=
  match f with
  | S754_finite s m e =>
      let a := if e <? 0 then Z.shiftr (Z.pos m) (- e) else Z.shiftl (Z.pos m) e in
      let v := if s then - a else a in
      if (min_int64 <=? v) && (v <? 2 ^ 63) then v else min_int64
  | S754_zero _ => 0
  | _ => min_int64
  end.

Definition float_zero : spec_float := S754_zero false.
Definition float_one : spec_float := S754_finite false 4503599627370496 (-52).

(** The limit before and after, and the value returned.  [env] is GOMEMLIMIT.
    Comparisons with a NaN are false, as in Go. *)
Definition Apply (env : bytes) (fraction : spec_float) (meminfo : res bytes) (cur : Z) : Z * Z :=
  if negb (bool_decide (env = [])) then (cur, 0)
  else if SFleb fraction float_zero then (cur, 0)
  else if SFltb float_one fraction then (cur, 0)
  else match Detect meminfo with
  | Err _ => (cur, 0)
  | Ok host =>
      if host =? 0 then (cur, 0)
      else
        let limit := int64_of_float (SFmul 53 1024 (float_of_u64 host) fraction) in
        if limit <=? 0 then (cur, 0) else (SetMemoryLimit limit cur, wrap64 limit)
  end.

(** int64 of a uint64 *)
Definition to_i64 (z : Z) : Z := (z + 2 ^ 63) mod 2 ^ 64 - 2 ^ 63.

(** The limit before and after, and whether the message says it was set. *)
Definition ApplyExact (b : Z) (cur : Z) : Z * bool :=
  if b =? 0 then (cur, false) else (SetMemoryLimit (to_i64 b) cur, true).

(** The automatic limit never overrides an operator's choice, and what it
    reports is what it did: it returns 0 and leaves the limit alone, or returns
    the positive limit now in force; the latter only when GOMEMLIMIT is unset and
    the host's memory could be read. *)
Theorem Apply_honest env fraction meminfo cur :
  Apply env fraction meminfo cur = (cur, 0) \/
  exists limit host, Apply env fraction meminfo cur = (limit, limit) /\ 0 < limit < 2 ^ 63 /\
    env = [] /\ Detect meminfo = Ok host /\ host <> 0.
Proof.
  unfold Apply. destruct (bool_decide (env = [])) eqn:E; cbn [negb]; [|by left]. apply bool_decide_eq_true in E.
  destruct (SFleb fraction float_zero); [by left|]. destruct (SFltb float_one fraction); [by left|].
  destruct (Detect meminfo) as [host|]; [|by left]. destruct (Z.eqb_spec host 0); [by left|].
  set (f := SFmul _ _ _ _). destruct (Z.leb_spec (int64_of_float f) 0); [by left|]. right.
  assert (int64_of_float f < 2 ^ 63) as B.
  { unfold int64_of_float, min_int64 in *. destruct f; try lia. destruct (_ && _) eqn:R; [|lia]. btauto_props. lia. }
  exists (int64_of_float f), host. unfold SetMemoryLimit, wrap64. rewrite (Z.mod_small _ (2 ^ 64)) by lia.
  destruct (Z.ltb_spec (int64_of_float f) 0); [lia|]. by split_and!.
Qed.

(** An explicit limit below 2^63 is set exactly; from 2^63 on the conversion is
    negative, no limit is set, and the message still says that one was. *)
Theorem ApplyExact_cases b cur : is_u64 b -> b <> 0 ->
  ApplyExact b cur = (if b <? 2 ^ 63 then b else cur, true).
Proof.
  intros U N. unfold ApplyExact, SetMemoryLimit, to_i64, is_u64 in *. destruct (Z.eqb_spec b 0); [done|].
  destruct (Z.ltb_spec b (2 ^ 63)).
  - rewrite Z.mod_small by lia. destruct (Z.ltb_spec (b + 2 ^ 63 - 2 ^ 63) 0); [lia|]. f_equal. lia.
  - replace ((b + 2 ^ 63) mod 2 ^ 64) with (b - 2 ^ 63) by (apply Z.mod_unique with 1; lia).
    destruct (Z.ltb_spec (b - 2 ^ 63 - 2 ^ 63) 0); [done|lia].
Qed.

Definition demo_meminfo : bytes := str "MemFree: 1 kB" ++ [nl] ++ str "MemTotal:       16384256 kB" ++ [nl].
(** 0.7 *)
Definition seven_tenths : spec_float := S754_finite false 6305039478318694 (-53).

Example Apply_demo : Apply [] seven_tenths (Ok demo_meminfo) 0 = (11744234700, 11744234700).
Proof. vm_compute. reflexivity. Qed.
Lemma ApplyExact_cases_witness : ApplyExact (2 ^ 64 - 1) 7 = (7, true).
Proof. apply (ApplyExact_cases (2 ^ 64 - 1) 7); [unfold is_u64; lia|lia]. Defined.
End Memlimit.

(** ** The drand client (pkg/beacon/drand.go) *)
Module Drand.

Definition DefaultEndpoint : bytes := str "https://api.drand.sh".
Definition DefaultChainHash : bytes := str "8990e7a9aaed2ffed73dbd7092123d6f289930540d7651336225dc172e51b2ce".

Record Client := mkClient { Endpoint : bytes; ChainHash : bytes }.
Definition New : Client := mkClient DefaultEndpoint DefaultChainHash.

Record drandResponse := mkResponse { Round : Z; Randomness : bytes; Sig : bytes }.

Definition url (c : Client) : bytes := Endpoint c ++ str "/" ++ ChainHash c ++ str "/public/latest".

(** What [hex.DecodeString] returns besides its error: the bytes decoded before
    it. *)
Fixpoint hex_prefix (s : bytes) : bytes :=
  match s with
  | a :: b :: s' =>
      match hex_value a, hex_value b with
      | Some va, Some vb => byte_of_Z (va * 16 + vb) :: hex_prefix s'
      | _, _ => []
      end
  | _ => []
  end.

(** [get] answers a request with a status and the decoded body. *)
Definition Latest (c : Client) (get : bytes -> res (Z * res drandResponse)) : res Beacon.t :=
  let! (status, body) := wrap_err "beacon: fetch" (get (url c)) in
  fail_if negb (status / 100 =? 2) with "beacon: HTTP" ;;
  let! dr := wrap_err "beacon: parse" body in
  fail_if (Round dr =? 0) || bool_decide (Randomness dr = []) with "beacon: empty response" ;;
  let! rand := wrap_err "beacon: bad randomness hex" (hex_decode (Randomness dr)) in
  Ok (Beacon.mk (str "drand") (Round dr) rand (hex_prefix (Sig dr)) (hex_prefix (ChainHash c))).

(** A beacon is taken from an answer exactly when it is a 2xx whose body
    decodes to a non-zero round with non-empty hexadecimal randomness; the beacon
    then names that round and those bytes.  The signature is not checked: a
    malformed one is cut at its first bad digit. *)
Theorem Latest_exact c get b : Latest c get = Ok b <->
  exists status dr rand, get (url c) = Ok (status, Ok dr) /\ status / 100 = 2 /\ Round dr <> 0 /\
    Randomness dr <> [] /\ hex_decode (Randomness dr) = Ok rand /\
    b = Beacon.mk (str "drand") (Round dr) rand (hex_prefix (Sig dr)) (hex_prefix (ChainHash c)).
Proof.
  unfold Latest. split.
  - destruct (get (url c)) as [[status body]|]; [|done]. cbn [wrap_err res_bind]. intros P. res_inv P.
    apply orb_false_iff in E1 as [R N]. btauto_props. apply bool_decide_eq_false in N. subst b.
    destruct body as [x|]; [|done]. injection E0 as ->.
    destruct (hex_decode (Randomness a)) as [y|] eqn:X; [|done]. injection E2 as ->. by exists status, a, a0.
  - intros (status & dr & rand & -> & S & R & N & H & ->). cbn [wrap_err res_bind]. rewrite S. cbn [negb Z.eqb Pos.eqb res_bind].
    rewrite (proj2 (Z.eqb_neq _ _) R), bool_decide_false by done. cbn [orb]. by rewrite H.
Qed.

Lemma hex_prefix_hex b : hex_prefix (hex b) = b.
Proof.
  pose proof (hex_decode_encode b) as D. revert D. generalize (hex b). intros s. revert b.
  assert (forall s b, hex_decode s = Ok b -> hex_prefix s = b) as K; [|intros b D; by apply K].
  fix IH 1. intros [|x [|y r]] b D; cbn [hex_decode hex_prefix] in *; [by injection D|by destruct (hex_value x)|].
  destruct (hex_value x); [|done]. destruct (hex_value y); [|done]. res_inv D. subst b. f_equal. by apply IH.
Qed.
End Drand.
