(* ===== verification/Float64.v ===== *)
(** * Products in float64

    Scaling an integer by a fraction, as the percentiles of the load generator
    do it: [int(float64(n) * p)].  The standard library's specification of
    IEEE 754 computes it; here is how far the result is from the exact product:
    it is the integer part or one more. *)

From stdpp Require Import base numbers.
From Stdlib Require Import ZArith Lia SpecFloat.
From S2P Require Import Prelude Ops.

#[local] Open Scope Z_scope.

Module Float64.

Definition float_of (z : Z) : spec_float := binary_normalize 53 1024 z 0 false.
(** [int(float64(n) * p)] *)
Definition scaled (n : Z) (p : spec_float) : Z := Memlimit.int64_of_float (SFmul 53 1024 (float_of n) p).

(** ** Digits *)

Lemma digits_bound p : 2 ^ (Zpos (digits2_pos p) - 1) <= Zpos p < 2 ^ Zpos (digits2_pos p).
Proof.
  induction p as [p IH|p IH|]; cbn [digits2_pos]; [..|done]; rewrite Pos2Z.inj_succ;
    replace (Z.succ (Zpos (digits2_pos p)) - 1) with (Z.succ (Zpos (digits2_pos p) - 1)) by lia;
    rewrite !Z.pow_succ_r by lia; lia.
Qed.

Lemma digits_unique p d : 0 < d -> 2 ^ (d - 1) <= Zpos p < 2 ^ d -> Zpos (digits2_pos p) = d.
Proof.
  intros D [L U]. destruct (digits_bound p) as [L' U'].
  assert (d - 1 < Zpos (digits2_pos p)) by (apply (Z.pow_lt_mono_r_iff 2); lia).
  assert (Zpos (digits2_pos p) - 1 < d) by (apply (Z.pow_lt_mono_r_iff 2); lia). lia.
Qed.

(** ** Shifts *)

Lemma iter_pos_nat {A} (f : A -> A) n : forall x, iter_pos f n x = Nat.iter (Pos.to_nat n) f x.
Proof.
  induction n as [n IH|n IH|]; intros x; cbn [iter_pos]; [..|done]; rewrite !IH, <- Nat.iter_add.
  - rewrite Pos2Nat.inj_xI. replace (S (2 * Pos.to_nat n))%nat with ((Pos.to_nat n + Pos.to_nat n) + 1)%nat by lia. by rewrite (Nat.iter_add (_ + _) 1).
  - rewrite Pos2Nat.inj_xO. f_equal. lia.
Qed.

Lemma shr_1_half r : 0 <= shr_m r -> shr_m (shr_1 r) = shr_m r / 2 /\ 0 <= shr_m (shr_1 r).
Proof.
  destruct r as [[|[p|p|]|p] a b]; cbn [shr_1 shr_m]; intros H; zmod.
Qed.

Lemma shr_div n r : 0 <= shr_m r -> shr_m (iter_pos shr_1 n r) = shr_m r / 2 ^ Zpos n.
Proof.
  rewrite iter_pos_nat. intros H. replace (Zpos n) with (Z.of_nat (Pos.to_nat n)) by lia.
  assert (shr_m (Nat.iter (Pos.to_nat n) shr_1 r) = shr_m r / 2 ^ Z.of_nat (Pos.to_nat n) /\ 0 <= shr_m (Nat.iter (Pos.to_nat n) shr_1 r)) as [E _]; [|done].
  induction (Pos.to_nat n) as [|k [IH P]]; [by rewrite Z.div_1_r|]. cbn [Nat.iter nat_rect]. change (nat_rect _ r _ k) with (Nat.iter k shr_1 r).
  destruct (shr_1_half _ P) as [E P']. split; [|done]. rewrite E, IH, Nat2Z.inj_succ, Z.pow_succ_r, Z.div_div by lia. f_equal. lia.
Qed.

Lemma round_near m l : round_nearest_even m l = m \/ round_nearest_even m l = m + 1.
Proof. destruct l as [|[]]; cbn; auto. destruct (Z.even m); auto. Qed.

(** ** Rounding a mantissa of at least 53 digits *)

Lemma round_spec m e d : 53 <= d -> 2 ^ (d - 1) <= Zpos m < 2 ^ d -> -1074 <= e + d - 53 -> e + d - 52 <= 971 ->
  exists r m' e', binary_round_aux 53 1024 false (Zpos m) e loc_Exact = S754_finite false m' e' /\
    (r = Zpos m / 2 ^ (d - 53) \/ r = Zpos m / 2 ^ (d - 53) + 1) /\ (d = 53 -> r = Zpos m) /\
    ((Zpos m' = r /\ e' = e + d - 53) \/ (r = 2 ^ 53 /\ Zpos m' = 2 ^ 52 /\ e' = e + d - 52)).
Proof.
  intros D B E1 E2. unfold binary_round_aux, shr_fexp at 1. cbn [Zdigits2]. rewrite (digits_unique m d) by lia.
  assert (fexp 53 1024 (d + e) - e = d - 53) as -> by (unfold fexp, emin; lia).
  set (q := Zpos m / 2 ^ (d - 53)).
  assert (2 ^ 52 <= q < 2 ^ 53) as Q.
  { unfold q. split; [apply Z.div_le_lower_bound; [lia|]; rewrite <- Z.pow_add_r by lia; replace (d - 53 + 52) with (d - 1) by lia; lia|].
    apply Z.div_lt_upper_bound; [lia|]. rewrite <- Z.pow_add_r by lia. replace (d - 53 + 53) with d by lia. lia. }
  assert (exists mrs, shr (shr_record_of_loc (Zpos m) loc_Exact) e (d - 53) = (mrs, e + d - 53) /\ shr_m mrs = q /\ (d = 53 -> loc_of_shr_record mrs = loc_Exact)) as (mrs & S & Sm & Se).
  { unfold shr. destruct (d - 53) as [|n|n] eqn:Dn; [|..|lia].
    - eexists. split; [f_equal; lia|]. split; [|done]. unfold q. by rewrite Z.div_1_r.
    - eexists. split; [f_equal; lia|]. split; [by apply shr_div|lia]. }
  rewrite S. set (r := round_nearest_even (shr_m mrs) (loc_of_shr_record mrs)).
  assert (r = q \/ r = q + 1) as R by (unfold r; rewrite <- Sm; apply round_near).
  assert (d = 53 -> r = Zpos m) as Rx.
  { intros Hd. unfold r. rewrite (Se Hd), Sm. unfold q. subst d. by rewrite Z.div_1_r. }
  destruct r as [|p|p] eqn:Rp; [lia| |lia]. unfold shr_fexp. cbn [Zdigits2].
  destruct (decide (Zpos p = 2 ^ 53)) as [T|T].
  - rewrite (digits_unique p 54) by (split; lia || (rewrite T; done)).
    assert (fexp 53 1024 (54 + (e + d - 53)) - (e + d - 53) = 1) as -> by (unfold fexp, emin; lia). cbn [shr iter_pos shr_record_of_loc].
    assert (shr_m (shr_1 {| shr_m := Zpos p; shr_r := false; shr_s := false |}) = 2 ^ 52) as ->.
    { rewrite (proj1 (shr_1_half {| shr_m := Zpos p; shr_r := false; shr_s := false |} ltac:(cbn; lia))). cbn [shr_m]. by rewrite T. }
    change (2 ^ 52) with (Zpos (2 ^ 52)%positive). cbv iota. rewrite (proj2 (Z.leb_le _ _)) by lia.
    exists (Zpos p), (2 ^ 52)%positive, (e + d - 53 + 1). split_and!; [done|lia|done|]. right. split_and!; [done|done|lia].
  - rewrite (digits_unique p 53) by (split; lia || (change (2 ^ (53 - 1)) with (2 ^ 52); lia)).
    assert (fexp 53 1024 (53 + (e + d - 53)) - (e + d - 53) = 0) as -> by (unfold fexp, emin; lia). cbn [shr shr_record_of_loc shr_m].
    rewrite (proj2 (Z.leb_le _ _)) by lia. exists (Zpos p), p, (e + d - 53). split_and!; [done|lia|done|]. by left.
Qed.

(** ** Integers below 2^53 are exact *)

Lemma iter_xO n p : Zpos (Pos.iter xO p n) = Zpos p * 2 ^ Zpos n.
Proof.
  revert p. induction n as [|n IH] using Pos.peano_ind; intros p; [cbn; lia|].
  rewrite Pos.iter_succ, Pos2Z.inj_xO, IH, Pos2Z.inj_succ, Z.pow_succ_r by lia. lia.
Qed.

Lemma float_of_exact n : 0 < n < 2 ^ 53 -> exists m d, float_of n = S754_finite false m (d - 53) /\
  1 <= d <= 53 /\ Zpos m = n * 2 ^ (53 - d) /\ 2 ^ 52 <= Zpos m < 2 ^ 53.
Proof.
  destruct n as [|n|n]; [lia| |lia]. intros [_ U]. unfold float_of, binary_normalize, binary_round.
  destruct (digits_bound n) as [L H]. set (d := Zpos (digits2_pos n)) in *. assert (1 <= d) as D1 by lia.
  assert (d <= 53) as D2 by (assert (d - 1 < 53); [apply (Z.pow_lt_mono_r_iff 2); lia|lia]).
  rewrite Z.add_0_r. assert (fexp 53 1024 d = d - 53) as -> by (unfold fexp, emin; lia).
  assert (exists m, shl_align n 0 (d - 53) = (m, d - 53) /\ Zpos m = Zpos n * 2 ^ (53 - d)) as (m & -> & M).
  { unfold shl_align. destruct (d - 53 - 0) as [|k|k] eqn:K; [|lia|].
    - exists n. split; [f_equal; lia|]. replace (53 - d) with 0 by lia. lia.
    - eexists. split; [done|]. rewrite iter_xO. f_equal. f_equal. lia. }
  assert (2 ^ 52 <= Zpos m < 2 ^ 53) as B.
  { rewrite M. split.
    - replace 52 with (d - 1 + (53 - d)) by lia. rewrite Z.pow_add_r by lia. apply Z.mul_le_mono_nonneg_r; lia.
    - replace 53 with (d + (53 - d)) at 2 by lia. rewrite Z.pow_add_r by lia. apply Z.mul_lt_mono_pos_r; lia. }
  destruct (round_spec m (d - 53) 53) as (r & m' & e' & -> & _ & R & C); [lia|done|lia|lia|]. specialize (R eq_refl).
  exists m, d. split_and!; try done; try lia. destruct C as [[C ->]|(T & _ & _)]; [|lia].
  rewrite R in C. injection C as ->. by replace (d - 53 + 53 - 53) with (d - 53) by lia.
Qed.

(** ** The integer part of a product *)

Lemma int_of_rounded r m e e' : 0 <= r -> e <= 0 -> (Zpos m = r /\ e' = e) \/ (r = 2 ^ 53 /\ Zpos m = 2 ^ 52 /\ e' = e + 1) -> r < 2 ^ 63 ->
  Memlimit.int64_of_float (S754_finite false m e') = r / 2 ^ (- e).
Proof.
  intros R0 E C B. assert (0 < 2 ^ (- e)) as P by (apply Z.pow_pos_nonneg; lia).
  assert ((if e' <? 0 then Z.shiftr (Zpos m) (- e') else Z.shiftl (Zpos m) e') = r / 2 ^ (- e)) as V.
  { destruct C as [[<- ->]|(-> & -> & ->)].
    - destruct (Z.ltb_spec e 0); [by rewrite Z.shiftr_div_pow2 by lia|]. replace e with 0 by lia. cbn [Z.opp Z.pow]. by rewrite Z.div_1_r, Z.shiftl_0_r.
    - destruct (Z.ltb_spec (e + 1) 0) as [L|L].
      + rewrite Z.shiftr_div_pow2 by lia. replace (- e) with (Z.succ (- (e + 1))) by lia. rewrite Z.pow_succ_r by lia.
        replace (2 ^ 53) with (2 * 2 ^ 52) by done. rewrite Z.div_mul_cancel_l by lia. done.
      + assert (e = 0 \/ e = -1) as [-> | ->] by lia; reflexivity. }
  unfold Memlimit.int64_of_float, Memlimit.min_int64. rewrite V.
  assert (0 <= r / 2 ^ (- e) <= r) as [V1 V2] by (split; [by apply Z.div_pos|apply Z.div_le_upper_bound; nia]).
  rewrite (proj2 (Z.leb_le _ _)), (proj2 (Z.ltb_lt _ _)) by lia. done.
Qed.

(** With a fraction [P / 2^k] of 53 digits below one: the integer part of the
    exact product, or one more. *)
Theorem scaled_near n P k : 0 < n < 2 ^ 53 -> 2 ^ 52 <= Zpos P < 2 ^ 53 -> 53 <= k <= 64 ->
  scaled n (S754_finite false P (- k)) = n * Zpos P / 2 ^ k \/ scaled n (S754_finite false P (- k)) = n * Zpos P / 2 ^ k + 1.
Proof.
  intros N HP K. destruct (float_of_exact n N) as (m & d & F & D & M & B). unfold scaled. rewrite F. cbn [SFmul xorb].
  set (x := (m * P)%positive). assert (Zpos x = n * Zpos P * 2 ^ (53 - d)) as X by (unfold x; rewrite Pos2Z.inj_mul, M; lia).
  destruct (digits_bound x) as [L U]. set (D' := Zpos (digits2_pos x)) in *.
  assert (2 ^ 104 <= Zpos x < 2 ^ 106) as Bx.
  { unfold x. rewrite Pos2Z.inj_mul. change (2 ^ 104) with (2 ^ 52 * 2 ^ 52). change (2 ^ 106) with (2 ^ 53 * 2 ^ 53). split; [apply Z.mul_le_mono_nonneg|apply Z.mul_lt_mono_nonneg]; lia. }
  assert (105 <= D' <= 106) as HD.
  { assert (104 < D') by (apply (Z.pow_lt_mono_r_iff 2); lia). assert (D' - 1 < 106) by (apply (Z.pow_lt_mono_r_iff 2); lia). lia. }
  set (e := d - 53 + - k). assert (e + D' - 53 <= 0) as E0 by (unfold e; lia).
  destruct (round_spec x e D') as (r & m' & e' & -> & R & _ & C); [lia|done|unfold e; lia|unfold e; lia|].
  set (q := Zpos x / 2 ^ (D' - 53)) in *.
  assert (0 <= q < 2 ^ 53) as Q.
  { unfold q. split; [apply Z.div_pos; lia|]. apply Z.div_lt_upper_bound; [lia|]. rewrite <- Z.pow_add_r by lia. by replace (D' - 53 + 53) with D' by lia. }
  assert (Memlimit.int64_of_float (S754_finite false m' e') = r / 2 ^ (- (e + D' - 53))) as ->.
  { apply int_of_rounded; [lia|lia| |lia]. destruct C as [C|C]; [by left|right]. destruct C as (C1 & C2 & C3). split_and!; [done|done|lia]. }
  assert (q / 2 ^ (- (e + D' - 53)) = n * Zpos P / 2 ^ k) as V.
  { unfold q. rewrite Z.div_div by lia. rewrite <- Z.pow_add_r by (unfold e; lia).
    replace (D' - 53 + - (e + D' - 53)) with (k + (53 - d)) by (unfold e; lia). rewrite X, Z.pow_add_r by lia. apply Z.div_mul_cancel_r; lia. }
  destruct R as [-> | ->]; [by left|]. set (s := 2 ^ (- (e + D' - 53))) in *. assert (0 < s) as S by (apply Z.pow_pos_nonneg; lia).
  assert (q / s <= (q + 1) / s <= q / s + 1) as W.
  { split; [apply Z.div_le_mono; lia|]. rewrite <- (Z.div_add q 1 s) by lia. apply Z.div_le_mono; lia. }
  lia.
Qed.
End Float64.
