(* ===== verification/Anchor.v ===== *)
(** * Anchors (pkg/anchor)

    Signed checkpoints are published to sinks the operator does not control: an
    append-only file with a head pointer, Sigstore Rekor with a local fallback,
    and the fan-out to several sinks. *)

From S2P Require Import Prelude Utf8 GoText Codec Crypto Threshold Fwdsec Checkpoint.
From stdpp Require Import base numbers list strings.
From Stdlib Require Import ZArith Lia.

#[local] Open Scope Z_scope.

Module Record_.
Record t := mk {
  Checkpoint : Checkpoint.t;
  SinkName : bytes;
  SinkRef : bytes;
  AnchoredAt : Z;
  RecordHash : bytes;
}.
End Record_.

(** The guard both sinks start with: [c == nil || c.Signature == nil]. *)
Definition unsigned (c : option Checkpoint.t) : bool :=
  match c with None => true | Some c => bool_decide (Checkpoint.Signature c = []) end.

Module FileSink.

(** The bytes of the file, as far as [ReadAll] tells them apart: a whole JSON
    object, a strict non-empty part of one, a newline. *)
Inductive piece := Obj (r : Record_.t) | Frag | Newline.

Record t := mk { path : bytes; file : option (list piece); headFile : option bytes }.

Definition Name (s : t) : bytes := str "file:" ++ path s.
Definition contents (s : t) : list piece := default [] (file s).

(** What a failed write left behind. *)
Inductive torn := Nothing | Fragment | Whole.

(** The outcomes of the file operations, in order; [wrote = None]: the line was
    written. *)
Record io := mk_io { opened : bool; offset : res Z; wrote : option torn; synced : bool; headTmp : bool; renamed : bool }.

Definition landed (w : option torn) (r : Record_.t) : list piece :=
  match w with
  | None => [Obj r; Newline]
  | Some Whole => [Obj r]
  | Some Fragment => [Frag]
  | Some Nothing => []
  end.

Definition record (now : Z) (off : Z) (s : t) (c : Checkpoint.t) : Record_.t :=
  Record_.mk c (Name s) (str "offset=" ++ fmt_d off) now (hex (sha256 (Checkpoint.Canonical c))).

Definition Publish (now : Z) (io : io) (c : option Checkpoint.t) (s : t) : t * res Record_.t :=
  match c with
  | None => (s, Err ["anchor: refusing to publish unsigned checkpoint"%string])
  | Some c =>
      if unsigned (Some c) then (s, Err ["anchor: refusing to publish unsigned checkpoint"%string])
      else if negb (opened io) then (s, Err ["open"%string])
      else
        let s := mk (path s) (Some (contents s)) (headFile s) in
        match offset io with
        | Err e => (s, Err e)
        | Ok off =>
            let rec := record now off s c in
            let s := mk (path s) (Some (contents s ++ landed (wrote io) rec)) (headFile s) in
            match wrote io with
            | Some _ => (s, Err ["write"%string])
            | None =>
                if negb (synced io) then (s, Err ["fsync"%string])
                else if negb (headTmp io) then (s, Err ["write head"%string])
                else if negb (renamed io) then (s, Err ["rename"%string])
                else (mk (path s) (file s) (Some (Record_.RecordHash rec ++ [nl])), Ok rec)
            end
        end
  end.

(** Opening creates the file if it is missing; [ok] tells whether the directory,
    the file and its closing succeeded. *)
Definition NewFileSink (ok : bool * bool * bool) (path : bytes) (onDisk : option (list piece)) (head : option bytes) : res t :=
  let '(dir, opened, closed) := ok in
  fail_if negb dir with "mkdir" ;; fail_if negb opened with "open" ;; fail_if negb closed with "close" ;;
  Ok (mk path (Some (default [] onDisk)) head).

(** [json.Unmarshal] of one line. *)
Definition decode (m : string) (line : list piece) : res Record_.t :=
  match line with [Obj r] => Ok r | _ => Err [m] end.

(** The loop over the bytes, with the current line. *)
Fixpoint read_loop (line : list piece) (data : list piece) : res (list Record_.t) :=
  match data with
  | [] =>
      if 0 <? len line then let! r := decode "anchor: malformed trailing record" line in Ok [r] else Ok []
  | Newline :: data' =>
      if 0 <? len line then
        let! r := decode "anchor: malformed record" line in
        let! out := read_loop [] data' in Ok (r :: out)
      else read_loop [] data'
  | p :: data' => read_loop (line ++ [p]) data'
  end.

Definition ReadAll (readable : bool) (s : t) : res (list Record_.t) :=
  match file s with
  | None => Ok []
  | Some data => if negb readable then Err ["read"%string] else read_loop [] data
  end.

(** The head pointer with line ends and spaces dropped. *)
Definition HeadHash (s : t) : bytes :=
  match headFile s with
  | None => []
  | Some buf => filter (fun b => b <> Byte.x0a /\ b <> Byte.x0d /\ b <> Byte.x20) buf
  end.

(** *** What is in the file *)

Definition lines (rs : list Record_.t) : list piece := concat (map (fun r => [Obj r; Newline]) rs).

Lemma lines_snoc rs r : lines (rs ++ [r]) = lines rs ++ [Obj r; Newline].
Proof. unfold lines. by rewrite map_app, concat_app. Qed.

Lemma read_lines rs : read_loop [] (lines rs) = Ok rs.
Proof.
  induction rs as [|r rs IH]; [done|]. unfold lines in *. cbn [map concat app read_loop]. cbn [decode res_bind].
  rewrite IH. done.
Qed.

(** Opening loses no record. *)
Lemma NewFileSink_reads ok path onDisk head s : NewFileSink ok path onDisk head = Ok s -> ReadAll true s = ReadAll true (mk path onDisk head) /\ headFile s = head.
Proof. unfold NewFileSink. destruct ok as [[[] []] []]; try done. intros [= <-]. by destruct onDisk. Qed.

Definition hex_clean (b : Byte.byte) : Prop := b <> Byte.x0a /\ b <> Byte.x0d /\ b <> Byte.x20.
Lemma hex_no_space h : Forall hex_clean (hex h).
Proof.
  induction h as [|b h IH]; [constructor|]. rewrite hex_cons. apply Forall_app. split; [|done].
  unfold hex_clean. destruct b; vm_compute; repeat constructor; discriminate.
Qed.

Lemma head_clean h : filter hex_clean (hex h ++ [nl]) = hex h.
Proof.
  rewrite filter_app. rewrite (filter_cons_False _ nl []); [|by intros [? _]]. rewrite filter_nil, app_nil_r.
  pose proof (hex_no_space h) as F. induction F as [|b l Hb F IH]; [done|].
  by rewrite filter_cons_True, IH.
Qed.
End FileSink.

(** ** JSON texts *)

(** A map of texts already encoded, its keys in increasing order. *)
Fixpoint json_texts (l : list (bytes * bytes)) : bytes :=
  match l with
  | [] => []
  | [(k, v)] => json_quote k ++ str ":" ++ v
  | (k, v) :: l' => json_quote k ++ str ":" ++ v ++ str "," ++ json_texts l'
  end.
Definition json_map (l : list (bytes * bytes)) : bytes := str "{" ++ json_texts l ++ str "}".

Definition truncate (b : bytes) (n : nat) : bytes := if len b <=? Z.of_nat n then b else take n b ++ str "...(truncated)".

Module RekorSink.

(** A line of the fallback file. *)
Record line := mk_line { reason : bytes; payload : bytes; rec : Record_.t; at_ : Z }.

Record t := mk { Endpoint : bytes; FallbackPath : bytes; StrictRekor : bool; SignatureFormat : bytes; fallback_log : list line }.

Definition NewRekorSink (endpoint fallbackPath : bytes) : t :=
  mk (if bool_decide (endpoint = []) then str "https://rekor.sigstore.dev" else endpoint) fallbackPath false (str "raw") [].

Definition Name (s : t) : bytes := str "rekor:" ++ Endpoint s.

Definition stele_meta (c : Checkpoint.t) : bytes :=
  json_object [(str "epoch_idx", JNum (Checkpoint.EpochIdx c)); (str "key_id", JStr (Checkpoint.KeyID c)); (str "origin", JStr (Checkpoint.Origin c))].

Definition encode (s : t) (c : Checkpoint.t) : bytes :=
  let sum := sha256 (Checkpoint.Canonical c) in
  json_map [(str "apiVersion", json_quote (str "0.0.1")); (str "kind", json_quote (str "hashedrekord"));
    (str "spec", json_map [
      (str "data", json_map [(str "hash", json_map [(str "algorithm", json_quote (str "sha256")); (str "value", json_quote (hex sum))])]);
      (str "signature", json_map [(str "content", json_quote (base64 (Checkpoint.Signature c))); (str "format", json_quote (SignatureFormat s));
        (str "publicKey", json_map [(str "content", json_quote (base64 (stele_meta c)))])])])].

Definition record (now : Z) (ref : bytes) (s : t) (c : Checkpoint.t) : Record_.t :=
  Record_.mk c (Name s) ref now (hex (sha256 (Checkpoint.Canonical c))).

(** A failed write of the fallback line ([saved = false]) is ignored. *)
Definition fallback (now : Z) (saved : bool) (reason : bytes) (body : bytes) (c : Checkpoint.t) (s : t) : t * res Record_.t :=
  let rec := record now (str "fallback: " ++ reason) s c in
  (if negb (bool_decide (FallbackPath s = [])) && saved
   then mk (Endpoint s) (FallbackPath s) (StrictRekor s) (SignatureFormat s) (fallback_log s ++ [mk_line reason body rec (Record_.AnchoredAt rec)]) else s, Ok rec).

(** What becomes of the POST: no request for this URL, the text of the network
    error, or the status with the body and a key of the map it decodes to. *)
Inductive reply := NoRequest (e : error) | NoReply (text : bytes) | Replied (status : Z) (body uuid : bytes).

Definition Publish (now : Z) (saved : bool) (resp : bytes -> bytes -> reply) (c : option Checkpoint.t) (s : t) :
  t * res Record_.t :=
  match c with
  | None => (s, Err ["rekor: refusing to publish unsigned checkpoint"%string])
  | Some c =>
      if unsigned (Some c) then (s, Err ["rekor: refusing to publish unsigned checkpoint"%string])
      else
        let body := encode s c in
        match resp (Endpoint s ++ str "/api/v1/log/entries") body with
        | NoRequest e => (s, Err e)
        | NoReply text => if StrictRekor s then (s, Err ["network"%string]) else fallback now saved (str "network: " ++ text) body c s
        | Replied status respBody uuid =>
            if negb (Z.quot status 100 =? 2) then
              if StrictRekor s then (s, Err ["rekor: HTTP"%string])
              else fallback now saved (str "rekor HTTP " ++ fmt_d status ++ str ": " ++ truncate respBody 200) body c s
            else (s, Ok (record now (str "rekor_uuid=" ++ uuid) s c))
        end
  end.

(** *** What a submission says *)

(** Bytes that need no escaping. *)
Definition plain_byte (b : Byte.byte) : bool := (byte_to_Z b <? 0x80) && bool_decide (escape_byte b = [b]).

Lemma escape_plain s : Forall (fun b => plain_byte b = true) s -> escape_loop (length s) s = s.
Proof.
  induction 1 as [|b s P _ IH]; [done|]. cbn [length escape_loop]. apply andb_true_iff in P as [L E%bool_decide_eq_true].
  assert (rune_width (b :: s) = 1%nat) as -> by (unfold rune_width; by rewrite L).
  cbn [take drop]. unfold escape_rune. rewrite !bool_decide_eq_false_2 by (by intros [= _]). rewrite E, drop_0, IH. done.
Qed.

Lemma quote_plain s : Forall (fun b => plain_byte b = true) s -> json_quote s = quote :: s ++ [quote].
Proof. intros P. unfold json_quote. by rewrite escape_plain. Qed.

Lemma hex_plain h : Forall (fun b => plain_byte b = true) (hex h).
Proof.
  induction h as [|x h IH]; [constructor|]. rewrite hex_cons. apply Forall_app. split; [|done]. unfold hex1. clear IH. repeat constructor; all_bytes x.
Qed.

Lemma base64_plain h : Forall (fun b => plain_byte b = true) (base64 h).
Proof.
  apply Forall_forall. intros x Hx%base64_alphabet.
  assert (negb (match base64_value x with Some _ => true | None => bool_decide (x = Byte.x3d) end) || plain_byte x = true) as P by (clear Hx; all_bytes x).
  destruct Hx as [[v E]| ->]; [by rewrite E in P|done].
Qed.

Lemma plain_no_quote s : Forall (fun b => plain_byte b = true) s -> quote ∉ s.
Proof. intros F I. apply (proj1 (Forall_forall _ _) F) in I. by vm_compute in I. Qed.

(** The fixed parts of the text. *)
Definition head_text : bytes :=
  str "{" ++ json_quote (str "apiVersion") ++ str ":" ++ json_quote (str "0.0.1") ++ str "," ++ json_quote (str "kind") ++ str ":" ++
  json_quote (str "hashedrekord") ++ str "," ++ json_quote (str "spec") ++ str ":{" ++ json_quote (str "data") ++ str ":{" ++ json_quote (str "hash") ++ str ":{" ++
  json_quote (str "algorithm") ++ str ":" ++ json_quote (str "sha256") ++ str "," ++ json_quote (str "value") ++ str ":" ++ [quote].
Definition mid_text : bytes :=
  [quote] ++ str "}}," ++ json_quote (str "signature") ++ str ":{" ++ json_quote (str "content") ++ str ":" ++ [quote].
Definition key_text (s : t) : bytes :=
  str "," ++ json_quote (str "format") ++ str ":" ++ json_quote (SignatureFormat s) ++ str "," ++ json_quote (str "publicKey") ++ str ":{" ++ json_quote (str "content") ++ str ":" ++ [quote].
Definition tail_text : bytes := str "}}}}".

Lemma encode_text s c : encode s c =
  head_text ++ hex (sha256 (Checkpoint.Canonical c)) ++ mid_text ++ base64 (Checkpoint.Signature c) ++ quote :: key_text s ++ base64 (stele_meta c) ++ quote :: tail_text.
Proof.
  unfold encode. rewrite (quote_plain (hex _) (hex_plain _)), (quote_plain (base64 (Checkpoint.Signature c)) (base64_plain _)), (quote_plain (base64 (stele_meta c)) (base64_plain _)).
  generalize (hex (sha256 (Checkpoint.Canonical c))), (base64 (Checkpoint.Signature c)), (base64 (stele_meta c)). intros h g m.
  unfold json_map, head_text, mid_text, key_text, tail_text. generalize (json_quote (SignatureFormat s)). intros f.
  cbn [json_texts]. rewrite <- ?app_assoc. cbn [app]. rewrite <- ?app_assoc. cbn [app]. rewrite <- ?app_assoc. cbn [app]. reflexivity.
Qed.

(** The submission binds what the record is about: equal texts have the same
    digest of the signed text, the same signature and the same key metadata. *)
Lemma encode_binds s c1 c2 : encode s c1 = encode s c2 ->
  sha256 (Checkpoint.Canonical c1) = sha256 (Checkpoint.Canonical c2) /\ Checkpoint.Signature c1 = Checkpoint.Signature c2 /\ stele_meta c1 = stele_meta c2.
Proof.
  rewrite !encode_text. intros E%app_inv_head. apply app_inj_1 in E as [E1%hex_inj E]; [|by rewrite !hex_length, !sha256_length].
  apply app_inv_head, sep_inj in E as [E2 E]; [|apply plain_no_quote, base64_plain..].
  apply app_inv_head, sep_inj in E as [E3 _]; [|apply plain_no_quote, base64_plain..].
  assert (forall a b, base64 a = base64 b -> a = b) as Inj.
  { intros a b H. apply (f_equal decode_quanta) in H. rewrite !decode_quanta_encode in H. by injection H. }
  auto.
Qed.
End RekorSink.

Module MultiSink.

(** The fan-out: [results] pairs each sink with what its [Publish] returned, in
    order; the first record and the joined errors. *)
Fixpoint fan_out (results : list (bytes * res Record_.t)) (first : option Record_.t) (errs : list error) :
  option Record_.t * list error :=
  match results with
  | [] => (first, errs)
  | (name, Err e) :: rs => fan_out rs first (errs ++ [e])
  | (name, Ok r) :: rs => fan_out rs (match first with None => Some r | Some _ => first end) errs
  end.

Definition Publish (results : list (bytes * res Record_.t)) : option Record_.t * list error := fan_out results None [].

Lemma fan_out_spec results first errs :
  fan_out results first errs =
  (match first with Some r => Some r | None => head (omap (fun x => match x.2 with Ok r => Some r | Err _ => None end) results) end,
   errs ++ omap (fun x => match x.2 with Ok _ => None | Err e => Some e end) results).
Proof.
  revert first errs. induction results as [|[n [r|e]] rs IH]; intros first errs; cbn [fan_out].
  - rewrite app_nil_r. by destruct first.
  - rewrite IH. cbn. by destruct first.
  - rewrite IH. cbn. by rewrite <- app_assoc.
Qed.
End MultiSink.

(** ** Properties *)

(** The life of a file sink whose failing writes leave nothing behind. *)
Inductive file_run (p : bytes) : FileSink.t -> list Record_.t -> Prop :=
| file_new : file_run p (FileSink.mk p (Some []) None) []
| file_published now io c s rs s' r :
    file_run p s rs -> FileSink.Publish now io c s = (s', Ok r) -> file_run p s' (rs ++ [r])
| file_failed now io c s rs s' e :
    file_run p s rs -> FileSink.Publish now io c s = (s', Err e) ->
    FileSink.wrote io = Some FileSink.Nothing -> file_run p s' rs.

Lemma Publish_ok now io c s s' r :
  FileSink.Publish now io c s = (s', Ok r) ->
  exists c0, c = Some c0 /\ Checkpoint.Signature c0 <> [] /\ Record_.Checkpoint r = c0 /\
    Record_.RecordHash r = hex (sha256 (Checkpoint.Canonical c0)) /\
    FileSink.contents s' = FileSink.contents s ++ [FileSink.Obj r; FileSink.Newline] /\
    FileSink.headFile s' = Some (Record_.RecordHash r ++ [nl]).
Proof.
  unfold FileSink.Publish. destruct c as [c|]; [|done]. unfold unsigned. case_bool_decide as U; [done|].
  destruct (FileSink.opened io); [|done]. cbn [negb]. destruct (FileSink.offset io) as [off|]; [|done].
  destruct (FileSink.wrote io); [done|]. destruct (FileSink.synced io); [|done]. destruct (FileSink.headTmp io); [|done].
  destruct (FileSink.renamed io); [|done]. cbn [negb]. intros [= <- <-]. by exists c.
Qed.

Lemma file_run_ok p s rs :
  file_run p s rs -> FileSink.contents s = FileSink.lines rs /\
    FileSink.HeadHash s = match last rs with Some r => Record_.RecordHash r | None => [] end /\
    Forall (fun r => Record_.RecordHash r = hex (sha256 (Checkpoint.Canonical (Record_.Checkpoint r)))) rs /\
    is_Some (FileSink.file s).
Proof.
  induction 1 as [|now io c s rs s' r R (I1 & I2 & I3 & I4) P|now io c s rs s' e R (I1 & I2 & I3 & I4) P W].
  - by split_and!.
  - pose proof P as (c0 & -> & U & <- & Hr & Hc & Hh)%Publish_ok. split_and!.
    + by rewrite FileSink.lines_snoc, Hc, I1.
    + rewrite last_snoc. unfold FileSink.HeadHash. rewrite Hh, Hr. apply FileSink.head_clean.
    + apply Forall_app. split; [done|by constructor].
    + unfold FileSink.contents in Hc. destruct (FileSink.file s'); [done|]. by destruct (default [] (FileSink.file s)).
  - unfold FileSink.Publish in P. destruct c as [c|]; [|by injection P as <- _].
    destruct (unsigned (Some c)); [by injection P as <- _|]. destruct (FileSink.opened io); cbn [negb] in P; [|by injection P as <- _].
    destruct (FileSink.offset io) as [off|]; [|injection P as <- _; by split_and!].
    rewrite W in P. injection P as <- _. cbn. rewrite app_nil_r. by split_and!.
Qed.

(** The anchor file is readable evidence: after any sequence of publishes in
    which failing writes left nothing behind, [ReadAll] returns exactly the
    published records in order, each carrying the hash of its checkpoint's
    signed bytes, and the head pointer is the hash of the last one. *)
Theorem anchor_file_roundtrip p s rs :
  file_run p s rs ->
  FileSink.ReadAll true s = Ok rs /\
  FileSink.HeadHash s = match last rs with Some r => Record_.RecordHash r | None => [] end /\
  Forall (fun r => Record_.RecordHash r = hex (sha256 (Checkpoint.Canonical (Record_.Checkpoint r)))) rs.
Proof.
  intros (I1 & I2 & I3 & [l Hl])%file_run_ok. split_and!; [|done|done].
  unfold FileSink.contents in I1. rewrite Hl in I1. simpl in I1. subst l.
  unfold FileSink.ReadAll. rewrite Hl. apply FileSink.read_lines.
Qed.

(** Threshold checkpoints cannot be anchored: in threshold mode the signer
    leaves [Signature] empty, so every checkpoint it produces is refused by the
    file sink and by the Rekor sink as unsigned. *)
Theorem threshold_checkpoint_not_anchored `{Crypto} s g now size root hd beacon arrivals c :
  CheckpointSigner.threshGroup s = Some g ->
  CheckpointSigner.Sign s now size root hd beacon arrivals = Ok c ->
  (forall t io f, FileSink.Publish t io (Some c) f = (f, Err ["anchor: refusing to publish unsigned checkpoint"%string])) /\
  (forall t sv resp k, RekorSink.Publish t sv resp (Some c) k = (k, Err ["rekor: refusing to publish unsigned checkpoint"%string])).
Proof.
  intros G S. unfold CheckpointSigner.Sign in S. rewrite G in S.
  destruct (Coordinator.Sign _ _ _) as [sigs [[]|]]; [|done]. injection S as <-. done.
Qed.

(** The fan-out loses nothing: the record returned is that of the first sink
    that succeeded, there is none only when all failed, and the joined error
    lists every failure. *)
Theorem multisink_exact results :
  let '(first, errs) := MultiSink.Publish results in
  first = head (omap (fun x => match x.2 with Ok r => Some r | Err _ => None end) results) /\
  errs = omap (fun x => match x.2 with Ok _ => None | Err e => Some e end) results.
Proof. unfold MultiSink.Publish. by rewrite MultiSink.fan_out_spec. Qed.

(** *** Witnesses *)

Definition sink_fine : FileSink.io := FileSink.mk_io true (Ok 0) None true true true.
Definition sink1 : FileSink.t * res Record_.t :=
  FileSink.Publish 7 sink_fine (Some cp1) (FileSink.mk (str "a.log") (Some []) None).

Lemma anchor_file_roundtrip_witness :
  exists r, FileSink.ReadAll true sink1.1 = Ok [r] /\ Record_.Checkpoint r = cp1 /\
    FileSink.HeadHash sink1.1 = Record_.RecordHash r.
Proof.
  destruct (run_ok sink1 ltac:(vm_compute; reflexivity)) as [r E].
  destruct (anchor_file_roundtrip (str "a.log") sink1.1 [r]) as (R & Hh & _);
    [apply (file_published (str "a.log") 7 sink_fine (Some cp1) (FileSink.mk (str "a.log") (Some []) None) []);
      [constructor|exact E]|].
  exists r. split; [exact R|]. split; [|exact Hh].
  unfold sink1 at 1 in E. apply Publish_ok in E as (c0 & Ec & _ & X & _). injection Ec as <-. exact X.
Defined.

Definition threshold_signer : CheckpointSigner.t := CheckpointSigner.mk (signer1 false) (Some demo_group).
(** The bytes the cosigners are asked to sign, and the answers of two of them. *)
Definition threshold_bytes : bytes :=
  Checkpoint.Canonical (Checkpoint.mk (Signer.origin (signer1 false)) 3 (str "root") (str "head") 50
    (Signer.ActiveEpoch (signer1 false)) [] None [] [] (hex (Group.Digest demo_group)) [] []).
Definition threshold_arrivals : list (Member.t * Coordinator.reply) :=
  map (fun m => (m, Coordinator.Response 200 (Some (Some (Cosigner.Sign (demo_serve m) 5 threshold_bytes))))) [bob; carol].
Definition threshold_signed : res Checkpoint.t :=
  CheckpointSigner.Sign threshold_signer 50 3 (str "root") (str "head") None threshold_arrivals.

Lemma threshold_checkpoint_not_anchored_witness :
  exists c, threshold_signed = Ok c /\
    RekorSink.Publish 7 true (fun _ _ => RekorSink.Replied 201 [] (str "uuid")) (Some c) (RekorSink.NewRekorSink [] []) =
      (RekorSink.NewRekorSink [] [], Err ["rekor: refusing to publish unsigned checkpoint"%string]).
Proof.
  assert (is_ok threshold_signed = true) as S by (vm_compute; reflexivity).
  destruct threshold_signed as [c|] eqn:E; [|discriminate S]. exists c. split; [reflexivity|].
  apply (threshold_checkpoint_not_anchored threshold_signer demo_group 50 3 (str "root") (str "head") None
    threshold_arrivals c eq_refl E).
Defined.
