(* ===== verification/Badger.v ===== *)
(** * The key-value store's interface (dgraph-io/badger)

    What the storage layer calls, as a class, with the documented behaviour it
    relies on as laws: reads see the committed map, an update transaction
    commits all of its writes or none, iteration is in byte order. *)

From S2P Require Import Prelude.
From stdpp Require Import base numbers list gmap strings sorting.
From Stdlib Require Import ZArith Lia.

#[local] Open Scope Z_scope.

(** One write of a transaction: [Set], [SetEntry] with a TTL, or [Delete]. *)
Record write (V : Type) := mk_write { w_key : bytes; w_val : option V; w_ttl : Z }.
Arguments mk_write {V} _ _ _.
Arguments w_key {V} _.
Arguments w_val {V} _.
Arguments w_ttl {V} _.

Definition set_key {V} (k : bytes) (v : V) : write V := mk_write k (Some v) 0.
Definition del_key {V} (k : bytes) : write V := mk_write k None 0.

(** What the transaction leaves, at the time it commits.  A value with a TTL is
    there until its time has passed: that is a later step of the database, on
    its own ([Store.expires]). *)
Definition apply_write {V} (m : gmap bytes V) (w : write V) : gmap bytes V :=
  match w_val w with
  | Some v => <[w_key w := v]> m
  | None => delete (w_key w) m
  end.
Definition apply_writes {V} (ws : list (write V)) (m : gmap bytes V) : gmap bytes V :=
  foldl apply_write m ws.

(** [db_get] is [txn.Get] with the item's value ([Ok None] is
    [ErrKeyNotFound]); [db_commit] is the commit of an update transaction that
    made the given writes; [db_scan] and [db_scan_rev] list the items an
    iterator visits from a seek key on, forwards or in reverse. *)
Class Badger (V : Type) := {
  DB : Type;
  db_get : DB -> bytes -> res (option V);
  db_commit : DB -> list (write V) -> DB * res unit;
  db_scan : DB -> bytes -> list (bytes * V);
  db_scan_rev : DB -> bytes -> list (bytes * V);
}.
Arguments DB {V} _.

Definition key_lt {V} (x y : bytes * V) : Prop := bytes_cmp x.1 y.1 = Lt.
Definition key_gt {V} (x y : bytes * V) : Prop := bytes_cmp y.1 x.1 = Lt.

(** [view] is the committed map; [readable] says that reads do not fail,
    [writable] that commits do not. *)
Class BadgerLaws {V} (B : Badger V) := {
  view : DB B -> gmap bytes V;
  readable : DB B -> Prop;
  writable : DB B -> Prop;
  get_view : forall d k r, db_get d k = Ok r -> r = view d !! k;
  commit_view : forall d ws d' u, db_commit d ws = (d', Ok u) -> view d' = apply_writes ws (view d);
  commit_atomic : forall d ws d' e, db_commit d ws = (d', Err e) -> view d' = view d;
  readable_get : forall d k, readable d -> exists r, db_get d k = Ok r;
  readable_commit : forall d ws d' r, readable d -> db_commit d ws = (d', r) -> readable d';
  writable_commit : forall d ws, writable d -> exists d', db_commit d ws = (d', Ok tt) /\ writable d';
  scan_sorted : forall d seek, StronglySorted key_lt (db_scan d seek);
  scan_elem : forall d seek k v,
    (k, v) ∈ db_scan d seek <-> view d !! k = Some v /\ bytes_le seek k;
  scan_rev_sorted : forall d seek, StronglySorted key_gt (db_scan_rev d seek);
  scan_rev_elem : forall d seek k v,
    (k, v) ∈ db_scan_rev d seek <-> view d !! k = Some v /\ bytes_le k seek;
}.

Definition healthy {V} {B : Badger V} {L : BadgerLaws B} (d : DB B) : Prop := readable d /\ writable d.

(** ** Sorted listings *)

Lemma bytes_cmp_irrefl a : bytes_cmp a a <> Lt.
Proof. by rewrite (proj2 (bytes_cmp_eq a a)). Qed.

Lemma key_lt_nodup {V} (l : list (bytes * V)) : StronglySorted key_lt l -> NoDup l.
Proof.
  induction 1 as [|x l S IH F]; constructor; [|done]. intros Hx.
  rewrite Forall_forall in F. apply (bytes_cmp_irrefl x.1), (F x Hx).
Qed.

(** Two listings in key order of the same items are the same listing. *)
Lemma key_lt_unique {V} (l1 l2 : list (bytes * V)) :
  StronglySorted key_lt l1 -> StronglySorted key_lt l2 -> (forall x, x ∈ l1 <-> x ∈ l2) -> l1 = l2.
Proof.
  intros S1 S2 E. apply (StronglySorted_unique_strong key_lt); [|done|done|].
  - intros x y _ _ H1 H2. unfold key_lt in *. rewrite (bytes_cmp_opp x.1 y.1), H1 in H2. done.
  - apply NoDup_Permutation; [by apply key_lt_nodup|by apply key_lt_nodup|done].
Qed.

Lemma key_lt_filter {V} (P : bytes * V -> Prop) `{!forall x, Decision (P x)} l :
  StronglySorted key_lt l -> StronglySorted key_lt (filter P l).
Proof.
  induction 1 as [|x l S IH F]; [constructor|]. rewrite filter_cons. case_decide; [|done].
  constructor; [done|]. apply Forall_forall. intros y [_ Hy]%list_elem_of_filter.
  rewrite Forall_forall in F. by apply F.
Qed.

(** ** Prefixes *)

(** [bytes.HasPrefix], and the loop [for it.Seek; it.ValidForPrefix; it.Next]. *)
Fixpoint has_prefix (p k : bytes) : bool :=
  match p, k with
  | [], _ => true
  | _ :: _, [] => false
  | x :: p', y :: k' => bool_decide (x = y) && has_prefix p' k'
  end.

Fixpoint while_prefix {V} (p : bytes) (l : list (bytes * V)) : list (bytes * V) :=
  match l with
  | [] => []
  | x :: l' => if has_prefix p x.1 then x :: while_prefix p l' else []
  end.

Lemma has_prefix_iff p k : has_prefix p k = true <-> exists r, k = p ++ r.
Proof.
  revert k. induction p as [|x p IH]; intros k; [naive_solver|].
  destruct k as [|y k]; simpl; [naive_solver|].
  rewrite andb_true_iff, bool_decide_eq_true, IH. naive_solver.
Qed.

(** The keys with a prefix are an interval. *)
Lemma has_prefix_between p r b s :
  bytes_cmp (p ++ r) b = Lt -> bytes_cmp b (p ++ s) = Lt -> has_prefix p b = true.
Proof.
  revert b. induction p as [|x p IH]; intros b H1 H2; [done|].
  destruct b as [|y b]; [done|]. simpl in *.
  destruct (Z.compare_spec (byte_to_Z x) (byte_to_Z y)) as [E|E|E]; [| |done].
  - apply byte_to_Z_inj in E as ->. rewrite Z.compare_refl in H2.
    rewrite bool_decide_eq_true_2 by done. simpl. by apply IH.
  - rewrite (proj2 (Z.compare_gt_iff (byte_to_Z y) (byte_to_Z x)) E) in H2. done.
Qed.

Lemma while_prefix_sub {V} p (l : list (bytes * V)) x :
  x ∈ while_prefix p l -> x ∈ l /\ has_prefix p x.1 = true.
Proof.
  induction l as [|y l IH]; cbn [while_prefix]; [by intros ?%elem_of_nil|].
  destruct (has_prefix p y.1) eqn:E; [|by intros ?%elem_of_nil].
  intros [->|Hx]%elem_of_cons; [split; [left|done]|]. destruct (IH Hx). split; [by right|done].
Qed.

(** Stopping at the first key without the prefix misses none, when the seek
    key has it. *)
Lemma while_prefix_elem {V} p r (l : list (bytes * V)) x :
  StronglySorted key_lt l -> (forall y, y ∈ l -> bytes_le (p ++ r) y.1) ->
  x ∈ l -> has_prefix p x.1 = true -> x ∈ while_prefix p l.
Proof.
  intros S. induction S as [|y l S IH F]; intros B Hx Hp; [by apply elem_of_nil in Hx|].
  cbn [while_prefix]. destruct (has_prefix p y.1) eqn:E.
  - apply elem_of_cons in Hx as [->|Hx]; [left|right]. apply IH; [|done|done].
    intros z Hz. apply B. by right.
  - exfalso. apply elem_of_cons in Hx as [->|Hx]; [congruence|].
    apply has_prefix_iff in Hp as [s Es]. rewrite Forall_forall in F. specialize (F x Hx).
    unfold key_lt in F. rewrite Es in F.
    assert (bytes_le (p ++ r) y.1) as L by (apply B; left). unfold bytes_le in L.
    destruct (bytes_cmp (p ++ r) y.1) eqn:C; [|by rewrite (has_prefix_between p r y.1 s) in E|done].
    apply bytes_cmp_eq in C. rewrite <- C, (proj2 (has_prefix_iff p _)) in E by eauto. done.
Qed.

(** The same for a reverse iterator. *)
Lemma while_prefix_elem_rev {V} p r (l : list (bytes * V)) x :
  StronglySorted key_gt l -> (forall y, y ∈ l -> bytes_le y.1 (p ++ r)) ->
  x ∈ l -> has_prefix p x.1 = true -> x ∈ while_prefix p l.
Proof.
  intros S. induction S as [|y l S IH F]; intros B Hx Hp; [by apply elem_of_nil in Hx|].
  cbn [while_prefix]. destruct (has_prefix p y.1) eqn:E.
  - apply elem_of_cons in Hx as [->|Hx]; [left|right]. apply IH; [|done|done].
    intros z Hz. apply B. by right.
  - exfalso. apply elem_of_cons in Hx as [->|Hx]; [congruence|].
    apply has_prefix_iff in Hp as [s Es]. rewrite Forall_forall in F. specialize (F x Hx).
    unfold key_gt in F. rewrite Es in F.
    assert (bytes_le y.1 (p ++ r)) as L by (apply B; left). unfold bytes_le in L.
    destruct (bytes_cmp y.1 (p ++ r)) eqn:C; [|by rewrite (has_prefix_between p s y.1 r) in E|done].
    apply bytes_cmp_eq in C. rewrite C, (proj2 (has_prefix_iff p _)) in E by eauto. done.
Qed.

Lemma while_prefix_sorted_rev {V} p (l : list (bytes * V)) :
  StronglySorted key_gt l -> StronglySorted key_gt (while_prefix p l).
Proof.
  induction 1 as [|x l S IH F]; cbn [while_prefix]; [constructor|].
  destruct (has_prefix p x.1); [|constructor]. constructor; [done|].
  apply Forall_forall. intros y [Hy _]%while_prefix_sub. rewrite Forall_forall in F. by apply F.
Qed.

Lemma while_prefix_sorted {V} p (l : list (bytes * V)) :
  StronglySorted key_lt l -> StronglySorted key_lt (while_prefix p l).
Proof.
  induction 1 as [|x l S IH F]; cbn [while_prefix]; [constructor|].
  destruct (has_prefix p x.1); [|constructor]. constructor; [done|].
  apply Forall_forall. intros y [Hy _]%while_prefix_sub. rewrite Forall_forall in F. by apply F.
Qed.

(** ** A concrete store: the map itself *)

Definition le_keys {V} (x y : bytes * V) : Prop := bytes_le x.1 y.1.
#[export] Instance le_keys_dec {V} : RelDecision (@le_keys V).
Proof. intros x y. unfold le_keys. apply _. Defined.

Definition sorted_items {V} (m : gmap bytes V) : list (bytes * V) := merge_sort le_keys (map_to_list m).

#[export] Instance map_badger (V : Type) : Badger V := {|
  DB := gmap bytes V;
  db_get m k := Ok (m !! k);
  db_commit m ws := (apply_writes ws m, Ok tt);
  db_scan m seek := filter (fun x => bytes_le seek x.1) (sorted_items m);
  db_scan_rev m seek := reverse (filter (fun x => bytes_le x.1 seek) (sorted_items m));
|}.

#[export] Instance le_keys_total {V} : Total (@le_keys V).
Proof. intros x y. apply bytes_le_total. Qed.
#[export] Instance le_keys_trans {V} : Transitive (@le_keys V).
Proof. intros x y z. apply bytes_le_trans. Qed.

Lemma sorted_items_elem {V} (m : gmap bytes V) k v : (k, v) ∈ sorted_items m <-> m !! k = Some v.
Proof. unfold sorted_items. by rewrite merge_sort_Permutation, elem_of_map_to_list. Qed.

Lemma sorted_items_lt {V} (m : gmap bytes V) : StronglySorted key_lt (sorted_items m).
Proof.
  assert (NoDup (sorted_items m).*1) as N.
  { unfold sorted_items. rewrite merge_sort_Permutation. apply NoDup_fst_map_to_list. }
  assert (StronglySorted le_keys (sorted_items m)) as S by (apply StronglySorted_merge_sort; apply _).
  induction S as [|x l S IH F]; [constructor|]. apply NoDup_cons in N as [Nx N].
  constructor; [by apply IH|]. apply Forall_forall. intros y Hy. rewrite Forall_forall in F.
  specialize (F y Hy). unfold le_keys, bytes_le, key_lt in *.
  destruct (bytes_cmp x.1 y.1) eqn:E; [|done|done].
  exfalso. apply bytes_cmp_eq in E. apply Nx. rewrite E. apply list_elem_of_fmap. by exists y.
Qed.

Lemma sorted_reverse {V} (l : list (bytes * V)) :
  StronglySorted key_lt l -> StronglySorted key_gt (reverse l).
Proof.
  induction 1 as [|x l S IH F]; [constructor|]. rewrite reverse_cons.
  assert (forall l' : list (bytes * V), StronglySorted key_gt l' -> Forall (fun y => key_gt y x) l' ->
    StronglySorted key_gt (l' ++ [x])) as X.
  { clear. induction 1 as [|y l' S IH F]; intros G; simpl; [repeat constructor|].
    apply Forall_cons in G as [G1 G2]. constructor; [by apply IH|].
    apply Forall_app. split; [done|by constructor]. }
  apply X; [done|]. apply Forall_forall. intros y Hy. rewrite elem_of_reverse in Hy.
  rewrite Forall_forall in F. by apply F.
Qed.

#[export] Program Instance map_badger_laws (V : Type) : BadgerLaws (map_badger V) := {|
  view m := m;
  readable _ := True;
  writable _ := True;
|}.
Next Obligation. by intros V d k r [= <-]. Qed.
Next Obligation. by intros V d ws d' u [= <-]. Qed.
Next Obligation. by intros V d ws d' e [=]. Qed.
Next Obligation. intros V d k _. by eexists. Qed.
Next Obligation. done. Qed.
Next Obligation. intros V d ws _. by eexists. Qed.
Next Obligation. intros V d seek. cbn. apply key_lt_filter, sorted_items_lt. Qed.
Next Obligation.
  intros V d seek k v. cbn. rewrite list_elem_of_filter, sorted_items_elem. naive_solver.
Qed.
Next Obligation. intros V d seek. cbn. apply sorted_reverse, key_lt_filter, sorted_items_lt. Qed.
Next Obligation.
  intros V d seek k v. cbn. rewrite elem_of_reverse, list_elem_of_filter, sorted_items_elem. naive_solver.
Qed.

(** ** A store whose commits may fail

    The outcomes of the coming commits are part of the state; when they run
    out, commits succeed. *)
Definition flaky_commit {V} (d : gmap bytes V * list bool) (ws : list (write V)) : (gmap bytes V * list bool) * res unit :=
  match d.2 with
  | false :: os => ((d.1, os), Err ["disk full"%string])
  | true :: os => ((apply_writes ws d.1, os), Ok tt)
  | [] => ((apply_writes ws d.1, []), Ok tt)
  end.

Definition flaky_badger (V : Type) : Badger V := {|
  DB := gmap bytes V * list bool;
  db_get d k := Ok (d.1 !! k);
  db_commit := flaky_commit;
  db_scan d seek := filter (fun x => bytes_le seek x.1) (sorted_items d.1);
  db_scan_rev d seek := reverse (filter (fun x => bytes_le x.1 seek) (sorted_items d.1));
|}.

#[export] Program Instance flaky_badger_laws (V : Type) : BadgerLaws (flaky_badger V) := {|
  view d := d.1;
  readable _ := True;
  writable d := Forall (eq true) d.2;
|}.
Next Obligation. by intros V d k r [= <-]. Qed.
Next Obligation. intros V [m [|[] os]] ws d' u; cbn; by intros [= <-]. Qed.
Next Obligation. intros V [m [|[] os]] ws d' u; cbn; by intros [= <-]. Qed.
Next Obligation. intros V d k _. by eexists. Qed.
Next Obligation. done. Qed.
Next Obligation.
  intros V [m [|o os]] ws W; cbn in *; [by eexists|]. apply Forall_cons in W as [<- W]. by eexists.
Qed.
Next Obligation. intros V d seek. cbn. apply key_lt_filter, sorted_items_lt. Qed.
Next Obligation.
  intros V d seek k v. cbn. rewrite list_elem_of_filter, sorted_items_elem. naive_solver.
Qed.
Next Obligation. intros V d seek. cbn. apply sorted_reverse, key_lt_filter, sorted_items_lt. Qed.
Next Obligation.
  intros V d seek k v. cbn. rewrite elem_of_reverse, list_elem_of_filter, sorted_items_elem. naive_solver.
Qed.
