(* ===== verification/Storage.v ===== *)
(** * The persistence layer (pkg/storage)

    Keys are the real byte keys; the records the code stores as JSON are typed
    values, so a value read under the wrong type is a decode error. *)

From S2P Require Import Prelude Crypto Attest LogEntry Threshold Checkpoint Anchor Badger.
From stdpp Require Import base numbers list gmap strings sorting.
From Stdlib Require Import ZArith Lia.

#[local] Open Scope Z_scope.

(** ** Producers *)
Module Producer.

Record t := mk {
  ID : bytes;
  PublicKey : bytes;
  QuantumPublicKey : bytes;
  AttestationType : bytes;
  Description : bytes;
  RegisteredAt : Z;
  Scope : bytes;
  IssuedAt : Z;
  ExpiresAt : Z;
  OperatorEpoch : Z;
  Signature : bytes;
  QuantumOperatorPubKey : bytes;
  QuantumSignature : bytes;
  Revoked : bool;
  RevokedAt : Z;
  RevokeReason : bytes;
  ChallengeNonce : bytes;
  ChallengeSignature : bytes;
  QuantumChallengeSignature : bytes;
}.

Definition set_registered (p : t) (at_ : Z) : t :=
  mk (ID p) (PublicKey p) (QuantumPublicKey p) (AttestationType p) (Description p) at_ (Scope p)
     (IssuedAt p) (ExpiresAt p) (OperatorEpoch p) (Signature p) (QuantumOperatorPubKey p)
     (QuantumSignature p) (Revoked p) (RevokedAt p) (RevokeReason p) (ChallengeNonce p)
     (ChallengeSignature p) (QuantumChallengeSignature p).
Definition set_enrollment (p : t) (issued epoch : Z) (nonce : bytes) : t :=
  mk (ID p) (PublicKey p) (QuantumPublicKey p) (AttestationType p) (Description p) (RegisteredAt p) (Scope p)
     issued (ExpiresAt p) epoch (Signature p) (QuantumOperatorPubKey p)
     (QuantumSignature p) (Revoked p) (RevokedAt p) (RevokeReason p) nonce
     (ChallengeSignature p) (QuantumChallengeSignature p).
Definition set_operator_sigs (p : t) (sig qpub qsig : bytes) : t :=
  mk (ID p) (PublicKey p) (QuantumPublicKey p) (AttestationType p) (Description p) (RegisteredAt p) (Scope p)
     (IssuedAt p) (ExpiresAt p) (OperatorEpoch p) sig qpub qsig (Revoked p) (RevokedAt p) (RevokeReason p)
     (ChallengeNonce p) (ChallengeSignature p) (QuantumChallengeSignature p).
Definition set_challenge_sigs (p : t) (sig qsig : bytes) : t :=
  mk (ID p) (PublicKey p) (QuantumPublicKey p) (AttestationType p) (Description p) (RegisteredAt p) (Scope p)
     (IssuedAt p) (ExpiresAt p) (OperatorEpoch p) (Signature p) (QuantumOperatorPubKey p) (QuantumSignature p)
     (Revoked p) (RevokedAt p) (RevokeReason p) (ChallengeNonce p) sig qsig.
Definition set_revoked (p : t) (at_ : Z) (reason : bytes) : t :=
  mk (ID p) (PublicKey p) (QuantumPublicKey p) (AttestationType p) (Description p) (RegisteredAt p) (Scope p)
     (IssuedAt p) (ExpiresAt p) (OperatorEpoch p) (Signature p) (QuantumOperatorPubKey p) (QuantumSignature p)
     true at_ reason (ChallengeNonce p) (ChallengeSignature p) (QuantumChallengeSignature p).

Definition CanonicalEnrollment (p : t) : bytes :=
  line "stele-enrollment/v0" [] ++
  put (ID p) ++
  put (PublicKey p) ++
  put (QuantumPublicKey p) ++
  put (Scope p) ++
  put (AttestationType p) ++
  put_u64 (u64_of_i64 (IssuedAt p)) ++
  put_u64 (u64_of_i64 (ExpiresAt p)) ++
  put_u64 (OperatorEpoch p).

Definition ChallengeBytes (p : t) : bytes :=
  if len (ChallengeNonce p) =? 0 then []
  else line "stele-enroll-challenge/v0" [] ++ CanonicalEnrollment p ++ ChallengeNonce p.

Definition HasChallengeResponse (p : t) : bool := 0 <? len (ChallengeSignature p).
Definition HasEnrollment (p : t) : bool := 0 <? len (Signature p).
Definition IsExpired (p : t) (now : Z) : bool :=
  if ExpiresAt p =? 0 then false else ExpiresAt p <=? now.

Definition ErrNoChallengeResponse : string := "producer carries no challenge response".

Section Verify.
Context `{Crypto}.

Definition VerifyConsent (p : t) : res unit :=
  fail_if negb (HasChallengeResponse p) with ErrNoChallengeResponse ;;
  fail_if negb (len (PublicKey p) =? PublicKeySize) with "consent: producer pubkey wrong length" ;;
  fail_if negb (len (ChallengeSignature p) =? SignatureSize)
    with "consent: classical signature wrong length" ;;
  let challenge := ChallengeBytes p in
  fail_if negb (ed_verify (PublicKey p) challenge (ChallengeSignature p))
    with "consent: classical signature invalid" ;;
  if 0 <? len (QuantumPublicKey p) then
    fail_if negb (len (QuantumChallengeSignature p) =? d3_SignatureSize)
      with "consent: quantum signature wrong length" ;;
    d3_check (QuantumPublicKey p) challenge (QuantumChallengeSignature p)
      "consent: decode quantum pubkey" "consent: quantum signature invalid"
  else Ok tt.

(** The two callbacks look an epoch's keys up in the operator's chain; nil is
    the empty key. *)
Definition VerifyEnrollment (p : t) (chainPubKey qChainPubKey : Z -> bytes) : res unit :=
  fail_if negb (HasEnrollment p) with "producer carries no enrollment signature" ;;
  fail_if negb (len (Signature p) =? SignatureSize)
    with "enrollment classical signature wrong length" ;;
  let opPub := chainPubKey (OperatorEpoch p) in
  fail_if bool_decide (opPub = []) with "enrollment epoch not found in operator chain" ;;
  let canon := CanonicalEnrollment p in
  fail_if negb (ed_verify opPub canon (Signature p)) with "enrollment classical signature invalid" ;;
  if (0 <? len (QuantumSignature p)) || (0 <? len (QuantumOperatorPubKey p)) then
    fail_if negb (len (QuantumSignature p) =? d3_SignatureSize)
      with "enrollment quantum signature wrong length" ;;
    fail_if negb (len (QuantumOperatorPubKey p) =? d3_PublicKeySize)
      with "enrollment quantum operator pubkey wrong length" ;;
    let expectedQ := qChainPubKey (OperatorEpoch p) in
    fail_if bool_decide (expectedQ = [])
      with "enrollment claims quantum signature but operator chain has no quantum key" ;;
    fail_if negb (bytesEqual (QuantumOperatorPubKey p) expectedQ)
      with "enrollment quantum operator pubkey does not match chain" ;;
    d3_check (QuantumOperatorPubKey p) canon (QuantumSignature p)
      "enrollment decode quantum operator pubkey" "enrollment quantum signature invalid"
  else Ok tt.
End Verify.

(** The producer's own signature(s) over the challenge. *)
Definition consent_valid `{Crypto} (p : t) : Prop :=
  len (PublicKey p) = PublicKeySize /\ len (ChallengeSignature p) = SignatureSize /\
  ed_verify (PublicKey p) (ChallengeBytes p) (ChallengeSignature p) = true /\
  (QuantumPublicKey p <> [] ->
    len (QuantumChallengeSignature p) = d3_SignatureSize /\
    d3_good (QuantumPublicKey p) (ChallengeBytes p) (QuantumChallengeSignature p)).

(** The operator's signature(s) over the terms, under the keys [chainPubKey]
    and [qChainPubKey] give for the epoch. *)
Definition enrollment_valid `{Crypto} (p : t) (chainPubKey qChainPubKey : Z -> bytes) : Prop :=
  len (Signature p) = SignatureSize /\ chainPubKey (OperatorEpoch p) <> [] /\
  ed_verify (chainPubKey (OperatorEpoch p)) (CanonicalEnrollment p) (Signature p) = true /\
  (QuantumSignature p <> [] \/ QuantumOperatorPubKey p <> [] ->
    len (QuantumSignature p) = d3_SignatureSize /\
    len (QuantumOperatorPubKey p) = d3_PublicKeySize /\
    QuantumOperatorPubKey p = qChainPubKey (OperatorEpoch p) /\
    d3_good (QuantumOperatorPubKey p) (CanonicalEnrollment p) (QuantumSignature p)).

Lemma neq_guard (a b : bytes) : negb (bytesEqual a b) = false <-> a = b.
Proof. rewrite negb_false_iff. apply bytesEqual_spec. Qed.

Lemma VerifyConsent_iff `{Crypto} p : VerifyConsent p = Ok tt <-> consent_valid p.
Proof.
  unfold VerifyConsent, consent_valid, HasChallengeResponse.
  etrans; [eapply guard_iff; [apply negb_false_iff|];
    eapply guard_iff; [apply eqb_guard|]; eapply guard_iff; [apply eqb_guard|];
    eapply guard_iff; [apply negb_false_iff|reflexivity]|].
  destruct (0 <? len (QuantumPublicKey p)) eqn:Q.
  - apply len_pos in Q. rewrite (guard_iff _ _ _ _ _ _ (eqb_guard _ _) (d3_check_ok _ _ _ _ _)).
    split; [by intros (_ & ? & ? & ? & ?)|]. intros (? & L & ? & X).
    split_and!; try done; [|by apply X..]. rewrite L. done.
  - apply len_zero in Q. split.
    + intros (_ & ? & ? & ? & _). by split_and!.
    + intros (? & L & ? & _). split_and!; try done. by rewrite L.
Qed.

Lemma VerifyEnrollment_iff `{Crypto} p chainPubKey qChainPubKey :
  VerifyEnrollment p chainPubKey qChainPubKey = Ok tt <-> enrollment_valid p chainPubKey qChainPubKey.
Proof.
  unfold VerifyEnrollment, enrollment_valid, HasEnrollment.
  etrans; [eapply guard_iff; [apply negb_false_iff|];
    eapply guard_iff; [apply eqb_guard|]; eapply guard_iff; [apply bool_decide_eq_false|];
    eapply guard_iff; [apply negb_false_iff|reflexivity]|].
  destruct (_ || _) eqn:Q.
  - apply orb_true_iff in Q. rewrite !len_pos in Q.
    etrans; [do 4 (apply and_iff_compat_l); eapply guard_iff; [apply eqb_guard|];
      eapply guard_iff; [apply eqb_guard|]; eapply guard_iff; [apply bool_decide_eq_false|];
      eapply guard_iff; [apply neq_guard|]; apply d3_check_ok|].
    split.
    + intros (_ & ? & ? & ? & ? & ? & _ & ? & ?). by split_and!.
    + intros (L & ? & ? & X). destruct (X Q) as (? & L2 & E & ?). split_and!; try done.
      * by rewrite L.
      * rewrite <- E. intros N. by rewrite N in L2.
  - apply orb_false_iff in Q as [Q1%len_zero Q2%len_zero]. split.
    + intros (_ & ? & ? & ? & _). split_and!; try done. rewrite Q1, Q2. by intros [].
    + intros (L & ? & ? & _). split_and!; try done. by rewrite L.
Qed.

(** The terms an enrollment signature covers. *)
Definition terms (p : t) :=
  (ID p, PublicKey p, QuantumPublicKey p, Scope p, AttestationType p, IssuedAt p, ExpiresAt p, OperatorEpoch p).

Definition wf (p : t) : Prop :=
  fits32 (ID p) /\ fits32 (PublicKey p) /\ fits32 (QuantumPublicKey p) /\ fits32 (Scope p) /\
  fits32 (AttestationType p) /\ is_i64 (IssuedAt p) /\ is_i64 (ExpiresAt p) /\ is_u64 (OperatorEpoch p).

Lemma CanonicalEnrollment_terms p1 p2 r1 r2 :
  wf p1 -> wf p2 -> CanonicalEnrollment p1 ++ r1 = CanonicalEnrollment p2 ++ r2 ->
  terms p1 = terms p2 /\ r1 = r2.
Proof.
  intros (?&?&?&?&?&?&?&?) (?&?&?&?&?&?&?&?) E. unfold CanonicalEnrollment in E.
  rewrite <- !app_assoc in E. apply prefix_inj in E.
  do 5 (apply put_inj in E as [? E]; [|done|done]).
  apply put_u64_app_inj in E as [?%u64_of_i64_inj E]; auto with stele.
  apply put_u64_app_inj in E as [?%u64_of_i64_inj E]; auto with stele.
  apply put_u64_app_inj in E as [? E]; [|done|done].
  split; [unfold terms; congruence|done].
Qed.
End Producer.

Module Witness.
Record t := mk {
  ID : bytes;
  URL : bytes;
  PublicKey : bytes;
  QuantumPublicKey : bytes;
  Description : bytes;
  AddedAt : Z;
}.
End Witness.

(** ** Stored values and keys *)

Inductive value :=
| VEntry (e : Entry.t)
| VProducer (p : Producer.t)
| VWitness (w : Witness.t)
| VCheckpoint (c : Checkpoint.t)
| VAnchor (r : Record_.t)
| VBytes (b : bytes).

Definition prefixEntry : bytes := str "entry/".
Definition prefixLeaf : bytes := str "leaf/".
Definition prefixCkpt : bytes := str "ckpt/".
Definition prefixAnchor : bytes := str "anchor/".
Definition prefixReplay : bytes := str "replay/".
Definition prefixProducer : bytes := str "producer/".
Definition prefixWitness : bytes := str "witness/".
Definition keyMetaSize : bytes := str "meta/size".
Definition keyMetaHead : bytes := str "meta/head_hash".

Definition leafKey (idx : Z) : bytes := prefixLeaf ++ put_u64 idx.
Definition entryKey (idx : Z) : bytes := prefixEntry ++ put_u64 idx.
Definition checkpointKey (size : Z) : bytes := prefixCkpt ++ put_u64 size.
Definition anchorKey (size : Z) : bytes := prefixAnchor ++ put_u64 size.
Definition replayKey (envelopeHash : bytes) : bytes := prefixReplay ++ hex envelopeHash.
Definition producerKey (id : bytes) : bytes := prefixProducer ++ id.
Definition witnessKey (id : bytes) : bytes := prefixWitness ++ id.

Definition value_bytes (v : value) : res bytes :=
  match v with VBytes b => Ok b | _ => Err ["value is not raw bytes"%string] end.

(** [logentry.Unmarshal] of a stored value. *)
Definition Unmarshal (v : value) : res Entry.t :=
  match v with
  | VEntry e =>
      fail_if bool_decide (Entry.EntryHash e = []) || bool_decide (Entry.LeafHash e = [])
        with "entry missing EntryHash or LeafHash" ;;
      Ok e
  | _ => Err ["unmarshal entry"%string]
  end.

Module Store.
Section Store.
Context {B : Badger value}.

Record t := mk { db : DB B; replayTTL : Z }.

Definition commit (s : t) (ws : list (write value)) : t * res unit :=
  let '(d, r) := db_commit (db s) ws in (mk d (replayTTL s), r).

Definition readSize (s : t) : res Z :=
  let! item := db_get (db s) keyMetaSize in
  match item with
  | None => Ok 0
  | Some v =>
      let! val := value_bytes v in
      fail_if negb (len val =? 8) with "meta/size wrong length" ;;
      Ok (be_dec val)
  end.

Definition readHead (s : t) : res bytes :=
  let! item := db_get (db s) keyMetaHead in
  match item with
  | None => Ok (replicate 32 Byte.x00)
  | Some v =>
      let! val := value_bytes v in
      fail_if negb (len val =? 32) with "meta/head_hash wrong length" ;;
      Ok val
  end.

Definition Size (s : t) : res Z := readSize s.
Definition HeadHash (s : t) : res bytes := readHead s.

(** Checks inside the transaction, then its four writes in one commit. *)
Definition append_checks (s : t) (e : Entry.t) : res (list (write value)) :=
  let! curSize := readSize s in
  fail_if negb (Entry.Index e =? curSize) with "storage: append out of order" ;;
  let! curHead := readHead s in
  fail_if negb (bytesEqual (Entry.PrevHash e) curHead) with "storage: PrevHash does not match head" ;;
  let key := entryKey (Entry.Index e) in
  let! item := db_get (db s) key in
  match item with
  | Some _ => Err ["storage: entry already present"%string]
  | None =>
      Ok [set_key key (VEntry e);
          set_key (leafKey (Entry.Index e)) (VBytes (Entry.LeafHash e));
          set_key keyMetaSize (VBytes (put_u64 (wrap64 (curSize + 1))));
          set_key keyMetaHead (VBytes (Entry.EntryHash e))]
  end.

Definition AppendEntry (s : t) (e : Entry.t) : t * res unit :=
  if bool_decide (Entry.EntryHash e = []) || bool_decide (Entry.LeafHash e = [])
  then (s, Err ["storage: entry not sealed"%string])
  else match append_checks s e with
  | Err err => (s, Err err)
  | Ok ws => commit s ws
  end.

Definition GetEntry (s : t) (idx : Z) : res Entry.t :=
  let! item := db_get (db s) (entryKey idx) in
  match item with
  | None => Err ["storage: entry not found"%string]
  | Some v => Unmarshal v
  end.

(** The boolean of the code is [hash != nil]: an empty value reads as absent. *)
Definition GetLeafHash (s : t) (idx : Z) : res (option bytes) :=
  let! item := db_get (db s) (leafKey idx) in
  match item with
  | None => Ok None
  | Some v =>
      let! hash := value_bytes v in
      Ok (if bool_decide (hash = []) then None else Some hash)
  end.

Definition PutLeafHash (s : t) (idx : Z) (hash : bytes) : t * res unit :=
  commit s [set_key (leafKey idx) (VBytes hash)].
Definition DeleteLeafHash (s : t) (idx : Z) : t * res unit :=
  commit s [del_key (leafKey idx)].

(** The loop of [IterateEntries]: the iterator runs over a snapshot, the
    callback may change the state [S]; [ctx n] is what [ctx.Err()] answers
    before the [n]-th item ([None] is nil). *)
Fixpoint visit {S} (ctx : nat -> option error) (n : nat) (items : list (bytes * value))
    (fn : S -> Entry.t -> S * res unit) (st : S) : S * res unit :=
  match items with
  | [] => (st, Ok tt)
  | (_, v) :: items' =>
      match ctx n with
      | Some err => (st, Err err)
      | None =>
          match Unmarshal v with
          | Err e => (st, Err e)
          | Ok e =>
              match fn st e with
              | (st, Err err) => (st, Err err)
              | (st, Ok _) => visit ctx (Datatypes.S n) items' fn st
              end
          end
      end
  end.

Definition IterateEntries {S} (s : t) (ctx : nat -> option error) (from : Z)
    (fn : S -> Entry.t -> S * res unit) (st : S) : S * res unit :=
  visit ctx 0 (while_prefix prefixEntry (db_scan (db s) (entryKey from))) fn st.

(** Checkpoint and anchor bodies are the documents they encode. *)
Definition SaveCheckpoint (s : t) (treeSize : Z) (body : value) : t * res unit :=
  commit s [set_key (checkpointKey treeSize) body].

(** Reverse iteration from [checkpointKey atSize]; keys of another length or a
    larger size are skipped. *)
Fixpoint find_checkpoint (items : list (bytes * value)) (atSize size : Z) : option value * Z :=
  match items with
  | [] => (None, size)
  | (k, v) :: items' =>
      if negb (len k =? len prefixCkpt + 8) then find_checkpoint items' atSize size
      else
        let size := be_dec (drop (length prefixCkpt) k) in
        if atSize <? size then find_checkpoint items' atSize size
        else (Some v, size)
  end.

Definition GetCheckpoint (s : t) (atSize : Z) : option value * Z :=
  find_checkpoint (while_prefix prefixCkpt (db_scan_rev (db s) (checkpointKey atSize))) atSize 0.

Definition LatestCheckpoint (s : t) : res (option value * Z) :=
  let! curSize := Size s in
  if curSize =? 0 then Ok (None, 0) else Ok (GetCheckpoint s curSize).

Definition SaveAnchor (s : t) (treeSize : Z) (body : Record_.t) : t * res unit :=
  commit s [set_key (anchorKey treeSize) (VAnchor body)].

Fixpoint visit_anchors {S} (items : list (bytes * value)) (fn : S -> Z -> value -> S * res unit) (st : S)
    : S * res unit :=
  match items with
  | [] => (st, Ok tt)
  | (k, v) :: items' =>
      if negb (len k =? len prefixAnchor + 8) then visit_anchors items' fn st
      else match fn st (be_dec (drop (length prefixAnchor) k)) v with
      | (st, Err e) => (st, Err e)
      | (st, Ok _) => visit_anchors items' fn st
      end
  end.

Definition IterateAnchors {S} (s : t) (fn : S -> Z -> value -> S * res unit) (st : S) : S * res unit :=
  visit_anchors (while_prefix prefixAnchor (db_scan (db s) prefixAnchor)) fn st.

(** A replay is refused with the index that first accepted the envelope (in
    the message); otherwise the hash is recorded, with a TTL if one is set. *)
Definition CheckAndRecordEnvelope (s : t) (envelopeHash : bytes) (entryIdx : Z) : t * res unit :=
  let k := replayKey envelopeHash in
  match db_get (db s) k with
  | Err e => (s, Err e)
  | Ok (Some _) => (s, Err ["replay: envelope already accepted"%string])
  | Ok None => commit s [mk_write k (Some (VBytes (put_u64 entryIdx))) (replayTTL s)]
  end.

Definition RegisterProducer (s : t) (now : Z) (p : option Producer.t) : t * res unit :=
  match p with
  | None => (s, Err ["storage: producer requires id"%string])
  | Some p =>
      if bool_decide (Producer.ID p = []) then (s, Err ["storage: producer requires id"%string])
      else if negb (len (Producer.PublicKey p) =? PublicKeySize)
      then (s, Err ["storage: producer public key wrong length"%string])
      else
        let p := if Producer.RegisteredAt p =? 0 then Producer.set_registered p now else p in
        commit s [set_key (producerKey (Producer.ID p)) (VProducer p)]
  end.

Definition value_producer (v : value) : res Producer.t :=
  match v with VProducer p => Ok p | _ => Err ["unmarshal producer"%string] end.

Definition GetProducer (s : t) (id : bytes) : res Producer.t :=
  let! item := db_get (db s) (producerKey id) in
  match item with
  | None => Err ["storage: producer not registered"%string]
  | Some v => value_producer v
  end.

Fixpoint list_producers (items : list (bytes * value)) : res (list Producer.t) :=
  match items with
  | [] => Ok []
  | (_, v) :: items' =>
      let! p := value_producer v in
      let! ps := list_producers items' in Ok (p :: ps)
  end.
(** With the callback that collects the records. *)
Definition ListProducers (s : t) : res (list Producer.t) :=
  list_producers (while_prefix prefixProducer (db_scan (db s) prefixProducer)).

Definition RevokeProducer (s : t) (now : Z) (id reason : bytes) : t * res unit :=
  match db_get (db s) (producerKey id) with
  | Err e => (s, Err e)
  | Ok None => (s, Err ["Key not found"%string])
  | Ok (Some v) =>
      match value_producer v with
      | Err e => (s, Err e)
      | Ok rec => commit s [set_key (producerKey id) (VProducer (Producer.set_revoked rec now reason))]
      end
  end.

Definition RegisterWitness (s : t) (w : option Witness.t) : t * res unit :=
  match w with
  | None => (s, Err ["storage: witness id is required"%string])
  | Some w =>
      if bool_decide (Witness.ID w = []) then (s, Err ["storage: witness id is required"%string])
      else if bool_decide (Witness.URL w = []) then (s, Err ["storage: witness URL is required"%string])
      else if negb (len (Witness.PublicKey w) =? PublicKeySize)
      then (s, Err ["storage: witness public key wrong length"%string])
      else commit s [set_key (witnessKey (Witness.ID w)) (VWitness w)]
  end.

Definition value_witness (v : value) : res Witness.t :=
  match v with VWitness w => Ok w | _ => Err ["unmarshal witness"%string] end.

Definition GetWitness (s : t) (id : bytes) : res Witness.t :=
  let! item := db_get (db s) (witnessKey id) in
  match item with
  | None => Err ["storage: witness not registered"%string]
  | Some v => value_witness v
  end.

Fixpoint list_witnesses (items : list (bytes * value)) : res (list Witness.t) :=
  match items with
  | [] => Ok []
  | (_, v) :: items' =>
      let! w := value_witness v in
      let! ws := list_witnesses items' in Ok (w :: ws)
  end.
Definition ListWitnesses (s : t) : res (list Witness.t) :=
  list_witnesses (while_prefix prefixWitness (db_scan (db s) prefixWitness)).

(** *** What the store holds *)

(** Hashes of the size [Seal] gives them. *)
Definition sealed (e : Entry.t) : Prop :=
  length (Entry.EntryHash e) = 32%nat /\ length (Entry.LeafHash e) = 32%nat.

(** The map stores the log [es]: entries under their keys and no others under
    the prefix, size and head of the last append; and the leaf mirror, which
    may lack leaves but has no wrong one. *)
Record stores (m : gmap bytes value) (es : list Entry.t) : Prop := {
  st_size : m !! keyMetaSize = match es with [] => None | _ => Some (VBytes (put_u64 (len es))) end;
  st_head : m !! keyMetaHead = (fun e => VBytes (Entry.EntryHash e)) <$> last es;
  st_entry : forall i, is_u64 i -> m !! entryKey i = VEntry <$> es !! Z.to_nat i;
  st_keys : forall k v, m !! k = Some v -> has_prefix prefixEntry k = true ->
    exists i, is_u64 i /\ k = entryKey i;
  st_leaf : forall i v, is_u64 i -> m !! leafKey i = Some v ->
    exists e, es !! Z.to_nat i = Some e /\ v = VBytes (Entry.LeafHash e);
  st_sealed : Forall sealed es;
  st_small : len es < 2 ^ 63;
}.

(** The mirror has the leaves of [es]. *)
Definition mirrored (m : gmap bytes value) (es : list Entry.t) : Prop :=
  forall i e, es !! i = Some e -> m !! leafKey (Z.of_nat i) = Some (VBytes (Entry.LeafHash e)).

Lemma empty_stores : stores ∅ [].
Proof.
  split; done.
Qed.

Lemma entryKey_inj i j : is_u64 i -> is_u64 j -> entryKey i = entryKey j -> i = j.
Proof. intros Hi Hj E%prefix_inj. by apply put_u64_inj. Qed.
Lemma leafKey_inj i j : is_u64 i -> is_u64 j -> leafKey i = leafKey j -> i = j.
Proof. intros Hi Hj E%prefix_inj. by apply put_u64_inj. Qed.

Lemma entryKey_prefix i : has_prefix prefixEntry (entryKey i) = true.
Proof. apply has_prefix_iff. by eexists. Qed.

(** A write outside the key space of the log. *)
Definition foreign (k : bytes) : Prop :=
  k <> keyMetaSize /\ k <> keyMetaHead /\ (forall i, k <> entryKey i) /\ (forall i, k <> leafKey i) /\
  has_prefix prefixEntry k = false.

Lemma stores_foreign m es k v : foreign k -> stores m es -> stores (<[k := v]> m) es.
Proof.
  intros (K1 & K2 & K3 & K4 & K5) [S1 S2 S3 S4 S5 S6 S7]. split; try done.
  - by rewrite lookup_insert_ne.
  - by rewrite lookup_insert_ne.
  - intros i Hi. rewrite lookup_insert_ne by done. by apply S3.
  - intros k' v' Hk Hp. destruct (decide (k' = k)) as [->|Hne]; [congruence|].
    rewrite lookup_insert_ne in Hk by done. by eapply S4.
  - intros i v' Hi Hv. rewrite lookup_insert_ne in Hv by done. by apply S5.
Qed.

Lemma mirrored_foreign m es k v : foreign k -> mirrored m es -> mirrored (<[k := v]> m) es.
Proof.
  intros (_ & _ & _ & K4 & _) M i e He. rewrite lookup_insert_ne by done. by apply M.
Qed.

Lemma replay_foreign h : foreign (replayKey h).
Proof. by split_and!. Qed.
Lemma producer_foreign id : foreign (producerKey id).
Proof. by split_and!. Qed.
Lemma witness_foreign id : foreign (witnessKey id).
Proof. by split_and!. Qed.
Lemma checkpoint_foreign n : foreign (checkpointKey n).
Proof. by split_and!. Qed.
Lemma anchor_foreign n : foreign (anchorKey n).
Proof. by split_and!. Qed.

(** Backfilling one leaf. *)
Lemma stores_leaf m es i e :
  stores m es -> es !! i = Some e ->
  stores (<[leafKey (Z.of_nat i) := VBytes (Entry.LeafHash e)]> m) es.
Proof.
  intros [S1 S2 S3 S4 S5 S6 S7] He.
  assert (is_u64 (Z.of_nat i)) as Hi.
  { apply lookup_lt_Some in He. unfold is_u64, len in *. lia. }
  split; try done.
  - by rewrite lookup_insert_ne.
  - by rewrite lookup_insert_ne.
  - intros j Hj. rewrite lookup_insert_ne by done. by apply S3.
  - intros k v Hk Hp. apply lookup_insert_Some in Hk as [[<- _]|[_ Hk]]; [done|]. by eapply S4.
  - intros j v Hj Hv. destruct (decide (leafKey (Z.of_nat i) = leafKey j)) as [E|Hne].
    + rewrite E, lookup_insert_eq in Hv. injection Hv as <-. apply leafKey_inj in E as <-; [|done|done].
      rewrite Nat2Z.id. by exists e.
    + rewrite lookup_insert_ne in Hv by done. by apply S5.
Qed.

(** Dropping one. *)
Lemma stores_delete_leaf m es i : stores m es -> stores (delete (leafKey i) m) es.
Proof.
  intros [S1 S2 S3 S4 S5 S6 S7]. split; try done.
  - by rewrite lookup_delete_ne.
  - by rewrite lookup_delete_ne.
  - intros j Hj. rewrite lookup_delete_ne by done. by apply S3.
  - intros k v Hk Hp. apply lookup_delete_Some in Hk as [_ Hk]. by eapply S4.
  - intros j v Hj Hv. apply lookup_delete_Some in Hv as [_ Hv]. by apply S5.
Qed.

(** The four writes of an append. *)
Lemma stores_append m es e :
  stores m es -> sealed e -> len es + 1 < 2 ^ 63 -> Entry.Index e = len es ->
  stores (apply_writes
    [set_key (entryKey (Entry.Index e)) (VEntry e);
     set_key (leafKey (Entry.Index e)) (VBytes (Entry.LeafHash e));
     set_key keyMetaSize (VBytes (put_u64 (wrap64 (len es + 1))));
     set_key keyMetaHead (VBytes (Entry.EntryHash e))] m) (es ++ [e]).
Proof.
  intros [S1 S2 S3 S4 S5 S6 S7] He Hb Hi. unfold apply_writes. cbn [foldl apply_write set_key w_val w_key].
  assert (len (es ++ [e]) = len es + 1) as L by (unfold len; rewrite length_app; simpl; lia).
  assert (is_u64 (len es)) as U by (unfold is_u64, len in *; lia).
  assert (Z.to_nat (len es) = length es) as N by (unfold len; lia).
  rewrite Hi. split.
  - rewrite lookup_insert_ne, lookup_insert_eq by done. rewrite L.
    unfold wrap64. rewrite Z.mod_small by (unfold len in *; lia). by destruct es.
  - by rewrite lookup_insert_eq, last_snoc.
  - intros i Hu. rewrite !lookup_insert_ne by done.
    destruct (decide (i = len es)) as [->|Hne].
    + by rewrite lookup_insert_eq, N, list_lookup_middle.
    + rewrite lookup_insert_ne by (intros E; apply entryKey_inj in E; done).
      rewrite S3 by done. f_equal. unfold is_u64 in *.
      destruct (decide (i < len es)) as [Hlt|Hge].
      * rewrite lookup_app_l; [done|]. unfold len in *. lia.
      * rewrite !lookup_ge_None_2; [done| |]; rewrite ?length_app; simpl; unfold len in *; lia.
  - intros k v Hk Hp.
    repeat (apply lookup_insert_Some in Hk as [[<- _]|[_ Hk]];
      [try done; by eexists|]). by eapply S4.
  - intros i v Hu Hv. do 2 (rewrite lookup_insert_ne in Hv by done).
    destruct (decide (i = len es)) as [->|Hne].
    + rewrite lookup_insert_eq in Hv. injection Hv as <-. exists e.
      by rewrite N, list_lookup_middle.
    + rewrite lookup_insert_ne in Hv by (intros E; apply leafKey_inj in E; done).
      rewrite lookup_insert_ne in Hv by done.
      destruct (S5 i v Hu Hv) as (e' & He' & ->). exists e'. split; [|done]. by apply lookup_app_l_Some.
  - apply Forall_app. split; [done|by constructor].
  - lia.
Qed.

Lemma mirrored_append m es e :
  stores m es -> mirrored m es -> len es + 1 < 2 ^ 63 -> Entry.Index e = len es ->
  mirrored (apply_writes
    [set_key (entryKey (Entry.Index e)) (VEntry e);
     set_key (leafKey (Entry.Index e)) (VBytes (Entry.LeafHash e));
     set_key keyMetaSize (VBytes (put_u64 (wrap64 (len es + 1))));
     set_key keyMetaHead (VBytes (Entry.EntryHash e))] m) (es ++ [e]).
Proof.
  intros S M Hb Hi i x Hx. unfold apply_writes. cbn [foldl apply_write set_key w_val w_key].
  do 2 (rewrite lookup_insert_ne by done). rewrite Hi.
  destruct (decide (i = length es)) as [->|Hne].
  - rewrite list_lookup_middle in Hx by done. injection Hx as <-. by rewrite lookup_insert_eq.
  - assert (i < length (es ++ [e]))%nat as Hl by (by eapply lookup_lt_Some).
    rewrite length_app in Hl. simpl in Hl.
    rewrite lookup_app_l in Hx by lia.
    rewrite lookup_insert_ne.
    + rewrite lookup_insert_ne by done. by apply M.
    + intros E. apply leafKey_inj in E; unfold is_u64, len in *; lia.
Qed.

(** *** Reading and writing the log *)

Context {BL : BadgerLaws B}.

Definition head_of (es : list Entry.t) : bytes :=
  match last es with Some e => Entry.EntryHash e | None => ZeroHash end.

Lemma get_readable s k : readable (db s) -> db_get (db s) k = Ok (view (db s) !! k).
Proof. intros Hh. destruct (readable_get (db s) k Hh) as [r E]. by rewrite E, (get_view _ _ _ E). Qed.

Lemma commit_cases s ws s' r :
  commit s ws = (s', r) ->
  (replayTTL s' = replayTTL s /\ (readable (db s) -> readable (db s'))) /\
  ((r = Ok tt /\ view (db s') = apply_writes ws (view (db s))) \/
   (exists e, r = Err e) /\ view (db s') = view (db s)).
Proof.
  unfold commit. destruct (db_commit (db s) ws) as [d [[]|e]] eqn:E; intros [= <- <-];
    (split; [split; [done|]; intros R; by eapply readable_commit|]).
  - left. split; [done|]. by eapply commit_view.
  - right. split; [by eexists|]. by eapply commit_atomic.
Qed.

Lemma commit_healthy s ws :
  healthy (db s) -> exists s', commit s ws = (s', Ok tt) /\ healthy (db s') /\
    replayTTL s' = replayTTL s /\ view (db s') = apply_writes ws (view (db s)).
Proof.
  intros [Hr Hw]. unfold commit. destruct (writable_commit (db s) ws Hw) as (d & E & Hd). rewrite E.
  eexists. split_and!; [done|split; [by eapply readable_commit|done]|done|]. by eapply commit_view.
Qed.

Lemma readSize_inv s es n : stores (view (db s)) es -> readSize s = Ok n -> n = len es.
Proof.
  intros S R. unfold readSize in R. destruct (db_get (db s) keyMetaSize) as [v|] eqn:E; [|done].
  cbn [res_bind] in R. apply get_view in E. rewrite (st_size _ _ S) in E.
  destruct es as [|x es]; subst v; [by injection R as <-|]. cbn [value_bytes res_bind] in R.
  unfold len in R at 1. rewrite put_u64_length in R. change (negb (Z.of_nat 8 =? 8)) with false in R. injection R as <-.
  apply be_dec_put_u64. pose proof (st_small _ _ S). unfold is_u64, len in *. lia.
Qed.

Lemma readHead_inv s es h : stores (view (db s)) es -> readHead s = Ok h -> h = head_of es.
Proof.
  intros S R. unfold readHead in R. destruct (db_get (db s) keyMetaHead) as [v|] eqn:E; [|done].
  cbn [res_bind] in R. apply get_view in E. rewrite (st_head _ _ S) in E.
  unfold head_of. destruct (last es) as [x|]; subst v;
    cbn [fmap option_fmap option_map value_bytes res_bind] in R; [|by injection R as <-].
  destruct (negb _) in R; [done|congruence].
Qed.

Lemma readSize_ok s es : readable (db s) -> stores (view (db s)) es -> readSize s = Ok (len es).
Proof.
  intros Hh S. destruct (readSize s) as [n|e] eqn:E; [by rewrite (readSize_inv s es n S E)|].
  exfalso. unfold readSize in E. rewrite (get_readable s _ Hh), (st_size _ _ S) in E.
  destruct es; [done|]. cbn [res_bind value_bytes] in E. unfold len in E at 1.
  by rewrite put_u64_length in E.
Qed.

Lemma last_sealed es e : Forall sealed es -> last es = Some e -> sealed e.
Proof. intros F [es' ->]%last_Some. by apply Forall_app in F as [_ F%Forall_inv]. Qed.

Lemma readHead_ok s es : readable (db s) -> stores (view (db s)) es -> readHead s = Ok (head_of es).
Proof.
  intros Hh S. destruct (readHead s) as [n|e] eqn:E; [by rewrite (readHead_inv s es n S E)|].
  exfalso. unfold readHead in E. rewrite (get_readable s _ Hh), (st_head _ _ S) in E.
  destruct (last es) as [x|] eqn:L; [|done]. cbn in E.
  destruct (last_sealed es x (st_sealed _ _ S) L) as [Hx _].
  unfold len in E. by rewrite Hx in E.
Qed.

(** Sealed and next in line. *)
Definition extends (es : list Entry.t) (e : Entry.t) : Prop :=
  sealed e /\ Entry.Index e = len es /\ Entry.PrevHash e = head_of es /\ len es + 1 < 2 ^ 63.

Lemma sealed_set e :
  sealed e -> bool_decide (Entry.EntryHash e = []) || bool_decide (Entry.LeafHash e = []) = false.
Proof.
  intros [H1 H2]. rewrite !bool_decide_eq_false_2; [done| |]; intros E; by rewrite E in *.
Qed.

(** An append that succeeds extends the log, and one that fails changes
    nothing, whatever the I/O does. *)
Lemma AppendEntry_cases s es e s' r :
  stores (view (db s)) es -> sealed e -> len es + 1 < 2 ^ 63 -> AppendEntry s e = (s', r) ->
  (replayTTL s' = replayTTL s /\ (readable (db s) -> readable (db s'))) /\
  ((r = Ok tt /\ extends es e /\ stores (view (db s')) (es ++ [e]) /\
    (mirrored (view (db s)) es -> mirrored (view (db s')) (es ++ [e])) /\
    (forall k, foreign k -> view (db s') !! k = view (db s) !! k)) \/
   ((exists x, r = Err x) /\ view (db s') = view (db s))).
Proof.
  intros S Hs Hb A. unfold AppendEntry in A. rewrite (sealed_set e Hs) in A.
  destruct (append_checks s e) as [ws|x] eqn:C; [|injection A as <- <-; split; [done|]; right; eauto].
  apply commit_cases in A as [T [[-> V]|[He V]]]; (split; [done|]); [left|by right].
  unfold append_checks in C. res_inv C.
  rewrite (readSize_inv s es _ S E) in *. rewrite (readHead_inv s es _ S E1) in *.
  subst ws. btauto_props. apply bytesEqual_spec in E2.
  split_and!; [done|done| | |].
  - rewrite V. by apply stores_append.
  - intros M. rewrite V. by apply mirrored_append.
  - intros k (K1 & K2 & K3 & K4 & _). rewrite V. unfold apply_writes. cbn [foldl apply_write set_key w_val w_key].
    by rewrite !lookup_insert_ne.
Qed.

Lemma AppendEntry_healthy s es e :
  healthy (db s) -> stores (view (db s)) es -> extends es e ->
  exists s', AppendEntry s e = (s', Ok tt) /\ healthy (db s').
Proof.
  intros Hh S (Hs & Hi & Hp & Hb). unfold AppendEntry, append_checks. pose proof (proj1 Hh) as Hr.
  rewrite (sealed_set e Hs), (readSize_ok s es Hr S), (readHead_ok s es Hr S).
  cbn [res_bind]. rewrite Hi, Hp, Z.eqb_refl, bytesEqual_refl. cbn [negb].
  rewrite (get_readable s _ Hr), (st_entry _ _ S) by (unfold is_u64, len in *; lia).
  rewrite lookup_ge_None_2 by (unfold len; lia). cbn [res_bind fmap option_fmap option_map].
  match goal with |- context [commit s ?ws] => destruct (commit_healthy s ws Hh) as (s' & E & Hd & _) end.
  by exists s'.
Qed.

Lemma Unmarshal_sealed e : sealed e -> Unmarshal (VEntry e) = Ok e.
Proof. intros Hs. cbn [Unmarshal]. by rewrite sealed_set. Qed.

Lemma GetEntry_iff s es i e :
  readable (db s) -> stores (view (db s)) es -> is_u64 i ->
  GetEntry s i = Ok e <-> es !! Z.to_nat i = Some e.
Proof.
  intros Hh S Hi. unfold GetEntry. rewrite (get_readable s _ Hh), (st_entry _ _ S) by done. cbn [res_bind].
  destruct (es !! Z.to_nat i) as [x|] eqn:E; cbn [fmap option_fmap option_map]; [|done].
  rewrite Unmarshal_sealed; [split; congruence|].
  pose proof (st_sealed _ _ S) as F. rewrite Forall_forall in F. apply F. by eapply list_elem_of_lookup_2.
Qed.

Lemma GetLeafHash_mirrored s es i e :
  readable (db s) -> Forall sealed es -> mirrored (view (db s)) es -> es !! i = Some e ->
  GetLeafHash s (Z.of_nat i) = Ok (Some (Entry.LeafHash e)).
Proof.
  intros Hh F M He. unfold GetLeafHash. rewrite (get_readable s _ Hh), (M i e He). cbn [res_bind value_bytes].
  rewrite bool_decide_eq_false_2; [done|]. rewrite Forall_forall in F.
  destruct (F e) as [_ L]; [by eapply list_elem_of_lookup_2|]. intros E. by rewrite E in L.
Qed.

(** *** Iteration order *)

Fixpoint items_from (i : nat) (es : list Entry.t) : list (bytes * value) :=
  match es with
  | [] => []
  | e :: es' => (entryKey (Z.of_nat i), VEntry e) :: items_from (Datatypes.S i) es'
  end.

Lemma items_from_elem n es k v :
  (k, v) ∈ items_from n es <->
  exists i e, es !! i = Some e /\ k = entryKey (Z.of_nat (n + i)) /\ v = VEntry e.
Proof.
  revert n. induction es as [|e es IH]; intros n; cbn [items_from].
  - split; [by intros ?%elem_of_nil|]. by intros (i & e & ? & _).
  - rewrite elem_of_cons, IH. split.
    + intros [[= -> ->]|(i & x & Hx & -> & ->)].
      * exists 0%nat, e. by rewrite Nat.add_0_r.
      * exists (Datatypes.S i), x. split_and!; [done| |done]. do 2 f_equal. lia.
    + intros ([|i] & x & Hx & -> & ->).
      * left. injection Hx as <-. by rewrite Nat.add_0_r.
      * right. exists i, x. split_and!; [done| |done]. do 2 f_equal. lia.
Qed.

Lemma entryKey_cmp i j : is_u64 i -> is_u64 j -> bytes_cmp (entryKey i) (entryKey j) = (i ?= j).
Proof. intros Hi Hj. unfold entryKey. rewrite bytes_cmp_prefix. by apply (bytes_cmp_be 8). Qed.

Lemma items_from_sorted n es :
  Z.of_nat n + len es < 2 ^ 64 -> StronglySorted key_lt (items_from n es).
Proof.
  revert n. induction es as [|e es IH]; intros n Hb; cbn [items_from]; constructor.
  - apply IH. unfold len in *. simpl in Hb. lia.
  - apply Forall_forall. intros [k v] Hx. apply items_from_elem in Hx as (i & x & Hx & -> & ->).
    apply lookup_lt_Some in Hx. unfold key_lt, len in *. cbn [length fst] in *.
    rewrite entryKey_cmp by (unfold is_u64; lia). apply Z.compare_lt_iff. lia.
Qed.

(** The iterator lists the entries from the seek index on, in index order. *)
Lemma scan_entries s es from :
  stores (view (db s)) es -> 0 <= from <= len es ->
  while_prefix prefixEntry (db_scan (db s) (entryKey from)) =
  items_from (Z.to_nat from) (drop (Z.to_nat from) es).
Proof.
  intros S Hf. pose proof (st_small _ _ S) as Hb.
  apply key_lt_unique.
  - apply while_prefix_sorted, scan_sorted.
  - apply items_from_sorted. unfold len in *. rewrite length_drop. lia.
  - intros [k v]. rewrite items_from_elem. split.
    + intros [Hk Hp]%while_prefix_sub. apply scan_elem in Hk as [Hk Hle].
      destruct (st_keys _ _ S k v Hk Hp) as (i & Hi & ->).
      rewrite (st_entry _ _ S i Hi) in Hk. apply fmap_Some in Hk as (e & He & ->).
      unfold bytes_le in Hle. rewrite entryKey_cmp in Hle; [|unfold is_u64, len in *; lia|done].
      assert (from <= i) by (by apply Z.compare_le_iff).
      exists (Z.to_nat i - Z.to_nat from)%nat, e. rewrite lookup_drop.
      replace (Z.to_nat from + (Z.to_nat i - Z.to_nat from))%nat with (Z.to_nat i) by lia.
      split_and!; [done| |done]. f_equal. unfold is_u64 in Hi. lia.
    + intros (i & e & He & -> & ->). rewrite lookup_drop in He.
      pose proof (lookup_lt_Some _ _ _ He) as Hl.
      assert (is_u64 (Z.of_nat (Z.to_nat from + i))) as Hi by (unfold is_u64, len in *; lia).
      assert (forall k' v', (k', v') ∈ db_scan (db s) (entryKey from) ->
        bytes_le (prefixEntry ++ put_u64 from) k') as X.
      { intros k' v' [_ Hle]%scan_elem. done. }
      apply (while_prefix_elem prefixEntry (put_u64 from)); [apply scan_sorted| | |apply entryKey_prefix].
      * intros [k' v']. apply X.
      * apply scan_elem. split.
        -- rewrite (st_entry _ _ S _ Hi), Nat2Z.id, He. done.
        -- unfold bytes_le. rewrite entryKey_cmp; [|unfold is_u64, len in *; lia|done].
           apply Z.compare_le_iff. lia.
Qed.

(** The callback run over a list of entries, stopping at its first error. *)
Fixpoint for_each {S} (fn : S -> Entry.t -> S * res unit) (es : list Entry.t) (st : S) : S * res unit :=
  match es with
  | [] => (st, Ok tt)
  | e :: es' =>
      match fn st e with
      | (st, Err err) => (st, Err err)
      | (st, Ok _) => for_each fn es' st
      end
  end.

Lemma visit_items {S} (fn : S -> Entry.t -> S * res unit) es n i st :
  Forall sealed es -> visit (fun _ => None) n (items_from i es) fn st = for_each fn es st.
Proof.
  intros F. revert n i st. induction F as [|e es Hs F IH]; intros n i st; [done|].
  cbn [items_from visit for_each]. rewrite Unmarshal_sealed by done.
  destruct (fn st e) as [st' [u|err]]; [apply IH|done].
Qed.

Lemma IterateEntries_spec {S} s es from (fn : S -> Entry.t -> S * res unit) st :
  stores (view (db s)) es -> 0 <= from <= len es ->
  IterateEntries s (fun _ => None) from fn st = for_each fn (drop (Z.to_nat from) es) st.
Proof.
  intros Hs Hf. unfold IterateEntries. rewrite (scan_entries s es from Hs Hf).
  apply visit_items, Forall_drop, (st_sealed _ _ Hs).
Qed.

(** *** Writes outside the log *)

Lemma commit_foreign s es k v t s' r :
  foreign k -> stores (view (db s)) es -> commit s [mk_write k (Some v) t] = (s', r) ->
  (replayTTL s' = replayTTL s /\ (readable (db s) -> readable (db s'))) /\
  stores (view (db s')) es /\ (mirrored (view (db s)) es -> mirrored (view (db s')) es) /\
  (forall k', k' <> k -> view (db s') !! k' = view (db s) !! k').
Proof.
  intros F S [X [[_ V]|[_ V]]]%commit_cases; rewrite V; (split; [exact X|]); [|done].
  unfold apply_writes. cbn [foldl apply_write w_val w_key]. split_and!.
  - by apply stores_foreign.
  - by apply mirrored_foreign.
  - intros k' Hk. by rewrite lookup_insert_ne.
Qed.

(** *** Expiry

    [CheckAndRecordEnvelope] writes its key with the store's TTL; while there is
    one, the database drops such keys as their time comes, on its own.  Nothing
    else is written with a TTL. *)
Record expires (s s' : t) : Prop := {
  ex_window : 0 < replayTTL s;
  ex_ttl : replayTTL s' = replayTTL s;
  ex_readable : readable (db s) -> readable (db s');
  ex_view : forall k, view (db s') !! k = view (db s) !! k \/
    (exists h, k = replayKey h) /\ view (db s') !! k = None;
}.

Lemma expires_foreign s s' k : expires s s' -> ~ foreign k -> view (db s') !! k = view (db s) !! k.
Proof. intros X N. destruct (ex_view _ _ X k) as [?|[[h ->] _]]; [done|]. by destruct N; apply replay_foreign. Qed.

Lemma stores_expire s s' es : expires s s' -> stores (view (db s)) es -> stores (view (db s')) es.
Proof.
  intros X [S1 S2 S3 S4 S5 S6 S7].
  assert (forall k v, view (db s') !! k = Some v -> view (db s) !! k = Some v) as Sub.
  { intros k v. destruct (ex_view _ _ X k) as [->|[_ ->]]; done. }
  split; try done.
  - rewrite (expires_foreign s s' _ X); [done|]. by intros (? & _).
  - rewrite (expires_foreign s s' _ X); [done|]. by intros (_ & ? & _).
  - intros i Hi. rewrite (expires_foreign s s' _ X); [by apply S3|]. intros (_ & _ & N & _). by eapply N.
  - intros k v Hk. by apply (S4 k v), Sub.
  - intros i v Hi Hv. by apply S5, Sub.
Qed.

Lemma mirrored_expire s s' es : expires s s' -> mirrored (view (db s)) es -> mirrored (view (db s')) es.
Proof.
  intros X M i e He. rewrite (expires_foreign s s' _ X); [by apply M|]. intros (_ & _ & _ & N & _). by eapply N.
Qed.

(** *** Checkpoints by size *)

Lemma checkpointKey_cmp i j :
  is_u64 i -> is_u64 j -> bytes_cmp (checkpointKey i) (checkpointKey j) = (i ?= j).
Proof. intros Hi Hj. unfold checkpointKey. rewrite bytes_cmp_prefix. by apply (bytes_cmp_be 8). Qed.

(** The size a key of the right length encodes. *)
Lemma checkpointKey_decode k :
  has_prefix prefixCkpt k = true -> len k = len prefixCkpt + 8 ->
  k = checkpointKey (be_dec (drop (length prefixCkpt) k)) /\
  is_u64 (be_dec (drop (length prefixCkpt) k)).
Proof.
  intros [r ->]%has_prefix_iff L. rewrite drop_app_length.
  assert (length r = 8%nat) as Lr by (unfold len in L; rewrite length_app in L; lia).
  unfold checkpointKey, put_u64. rewrite <- Lr, be_enc_dec. split; [done|].
  pose proof (be_dec_bound r) as X. rewrite Lr in X. exact X.
Qed.

(** The first listed key of the right length and size, if any. *)
Lemma find_checkpoint_spec items atSize size :
  StronglySorted key_gt items -> is_u64 atSize ->
  (forall k v, (k, v) ∈ items -> has_prefix prefixCkpt k = true) ->
  match find_checkpoint items atSize size with
  | (Some v, m) => is_u64 m /\ m <= atSize /\ (checkpointKey m, v) ∈ items /\
      (forall j w, m < j <= atSize -> (checkpointKey j, w) ∉ items)
  | (None, _) => forall j w, 0 <= j <= atSize -> (checkpointKey j, w) ∉ items
  end.
Proof.
  intros S Ha. revert size. induction S as [|[k v] items S IH F]; intros size P.
  { intros j w _. apply not_elem_of_nil. }
  assert (P' : forall k v, (k, v) ∈ items -> has_prefix prefixCkpt k = true) by (intros; eapply P; by right).
  assert (Hskip : forall j w, is_u64 j -> checkpointKey j <> k ->
    (checkpointKey j, w) ∉ items -> (checkpointKey j, w) ∉ (k, v) :: items).
  { intros j w _ Hk Hn [[= E]|Hin]%elem_of_cons; [by rewrite E in Hk|done]. }
  assert (Hk : has_prefix prefixCkpt k = true) by (eapply P; left).
  assert (len (checkpointKey 0) = len prefixCkpt + 8) as L0 by done.
  assert (forall j, len (checkpointKey j) = len prefixCkpt + 8) as LK
    by (intros j; unfold len, checkpointKey; rewrite length_app, put_u64_length; done).
  cbn [find_checkpoint].
  destruct (Z.eqb_spec (len k) (len prefixCkpt + 8)) as [E|E]; cbn [negb].
  - destruct (checkpointKey_decode k Hk E) as [Ek Hm]. set (m := be_dec _) in *. clearbody m.
    destruct (Z.ltb_spec atSize m) as [Hgt|Hle].
    + specialize (IH m P').
      destruct (find_checkpoint items atSize m) as [[v'|] m'].
      * destruct IH as (I1 & I2 & I3 & I4). split_and!; [done|done|by right|].
        intros j w Hj. apply Hskip; [unfold is_u64 in *; lia| |by apply I4].
        rewrite Ek. intros X%prefix_inj%put_u64_inj; unfold is_u64 in *; lia.
      * intros j w Hj. apply Hskip; [unfold is_u64 in *; lia| |by apply IH].
        rewrite Ek. intros X%prefix_inj%put_u64_inj; unfold is_u64 in *; lia.
    + split_and!; [done|done|rewrite <- Ek; left|].
      intros j w Hj. assert (is_u64 j) as Hju by (unfold is_u64 in *; lia).
      apply Hskip; [done| |].
      * rewrite Ek. intros X%prefix_inj%put_u64_inj; unfold is_u64 in *; lia.
      * intros Hin. rewrite Forall_forall in F. specialize (F _ Hin). unfold key_gt in F. cbn [fst] in F.
        rewrite Ek, checkpointKey_cmp in F by done. change (j < m) in F. lia.
  - specialize (IH size P').
    destruct (find_checkpoint items atSize size) as [[v'|] m'].
    + destruct IH as (I1 & I2 & I3 & I4). split_and!; [done|done|by right|].
      intros j w Hj. apply Hskip; [unfold is_u64 in *; lia| |by apply I4]. intros <-. by rewrite LK in E.
    + intros j w Hj. apply Hskip; [unfold is_u64 in *; lia| |by apply IH]. intros <-. by rewrite LK in E.
Qed.

Lemma scan_checkpoints s n j w :
  is_u64 n -> 0 <= j <= n ->
  (checkpointKey j, w) ∈ while_prefix prefixCkpt (db_scan_rev (db s) (checkpointKey n)) <->
  view (db s) !! checkpointKey j = Some w.
Proof.
  intros Hn Hj. assert (is_u64 j) by (unfold is_u64 in *; lia). split.
  - intros [Hk _]%while_prefix_sub. by apply scan_rev_elem in Hk as [Hk _].
  - intros Hv. apply (while_prefix_elem_rev prefixCkpt (put_u64 n)); [apply scan_rev_sorted| | |].
    + intros [k v] [_ Hle]%scan_rev_elem. done.
    + apply scan_rev_elem. split; [done|]. unfold bytes_le. rewrite checkpointKey_cmp by done.
      apply Z.compare_le_iff. lia.
    + apply has_prefix_iff. by eexists.
Qed.
Lemma GetCheckpoint_spec s n :
  is_u64 n ->
  match GetCheckpoint s n with
  | (Some v, m) => 0 <= m <= n /\ view (db s) !! checkpointKey m = Some v /\
      (forall j, m < j <= n -> view (db s) !! checkpointKey j = None)
  | (None, _) => forall j, 0 <= j <= n -> view (db s) !! checkpointKey j = None
  end.
Proof.
  intros Hn. pose proof (find_checkpoint_spec
    (while_prefix prefixCkpt (db_scan_rev (db s) (checkpointKey n))) n 0) as F.
  unfold GetCheckpoint. destruct (find_checkpoint _ n 0) as [[v|] m].
  - destruct F as (Hm & Hle & Hv & Hno); [apply while_prefix_sorted_rev, scan_rev_sorted|done|
      by intros ? ? [_ ?]%while_prefix_sub|].
    unfold is_u64 in *. split_and!; [lia|done| |].
    + eapply scan_checkpoints; [exact Hn|lia|exact Hv].
    + intros j Hj. apply eq_None_not_Some. intros [w Hw]. apply (Hno j w Hj).
      apply scan_checkpoints; [done|lia|done].
  - intros j Hj. apply eq_None_not_Some. intros [w Hw].
    apply (F (while_prefix_sorted_rev _ _ (scan_rev_sorted _ _)) Hn) with j w; [|done|].
    + by intros ? ? [_ ?]%while_prefix_sub.
    + by apply scan_checkpoints.
Qed.

Lemma GetCheckpoint_at s n v :
  is_u64 n -> view (db s) !! checkpointKey n = Some v -> GetCheckpoint s n = (Some v, n).
Proof.
  intros Hn Hv. pose proof (GetCheckpoint_spec s n Hn) as X. destruct (GetCheckpoint s n) as [[w|] m].
  - destruct X as (Hm & Hw & Hno). assert (m = n) as ->; [|congruence].
    destruct (decide (m = n)); [done|]. rewrite Hno in Hv by lia. done.
  - unfold is_u64 in Hn. rewrite X in Hv by lia. done.
Qed.
End Store.
End Store.

(** ** Properties *)

(** Appending to the store is all or nothing, whatever the database does:
    if [AppendEntry] succeeds then the entry was next in line (its index is the
    size, its [PrevHash] the head) and the store holds the log with that entry
    added, leaf mirror included; if it fails, for any reason, the committed
    contents are what they were. *)
Theorem store_append_atomic {B : Badger value} {BL : BadgerLaws B} (s : Store.t) es e s' r :
  Store.stores (view (Store.db s)) es -> Store.sealed e -> len es + 1 < 2 ^ 63 ->
  Store.AppendEntry s e = (s', r) ->
  (r = Ok tt /\ Entry.Index e = len es /\ Entry.PrevHash e = Store.head_of es /\
   Store.stores (view (Store.db s')) (es ++ [e]) /\
   (Store.mirrored (view (Store.db s)) es -> Store.mirrored (view (Store.db s')) (es ++ [e]))) \/
  ((exists x, r = Err x) /\ view (Store.db s') = view (Store.db s)).
Proof.
  intros S Hs Hb A.
  destruct (Store.AppendEntry_cases s es e s' r S Hs Hb A) as [_ [(-> & (_ & ? & ? & _) & ? & ? & _)|?]];
    [left; by split_and!|by right].
Qed.

Definition store0 : Store.t (B := map_badger value) := Store.mk (B := map_badger value) (∅ : gmap bytes value) 0.

Lemma store0_healthy : healthy (Store.db store0).
Proof. by split. Qed.
Lemma store0_stores : Store.stores (view (Store.db store0)) [].
Proof. exact Store.empty_stores. Qed.
Lemma entry0_sealed : Store.sealed entry0.
Proof. by vm_compute. Qed.
Lemma entry0_extends : Store.extends [] entry0.
Proof. split_and!; by vm_compute. Qed.

Lemma store_append_atomic_witness :
  exists s', Store.AppendEntry store0 entry0 = (s', Ok tt) /\
    Store.stores (view (Store.db s')) [entry0].
Proof.
  destruct (Store.AppendEntry_healthy store0 [] entry0 store0_healthy store0_stores entry0_extends) as (s' & E & _).
  exists s'. split; [done|].
  destruct (store_append_atomic store0 [] entry0 s' (Ok tt)) as [(_ & _ & _ & X & _)|[[x X] _]];
    [apply store0_stores|apply entry0_sealed|done|done|exact X|discriminate X].
Defined.

(** Iteration visits exactly the entries from the start index on, once
    each and in index order, stopping at the callback's first error: the
    byte order of the keys is the order of the log. *)
Theorem store_iterates_in_order {B : Badger value} {BL : BadgerLaws B} {S}
    (s : Store.t) es from (fn : S -> Entry.t -> S * res unit) st :
  Store.stores (view (Store.db s)) es -> 0 <= from <= len es ->
  Store.IterateEntries s (fun _ => None) from fn st =
  Store.for_each fn (drop (Z.to_nat from) es) st.
Proof. apply Store.IterateEntries_spec. Qed.

Lemma store_iterates_in_order_witness :
  exists s', Store.AppendEntry store0 entry0 = (s', Ok tt) /\
  Store.IterateEntries s' (fun _ => None) 0 (fun l e => (e :: l, Ok tt)) [] = ([entry0], Ok tt).
Proof.
  destruct (Store.AppendEntry_healthy store0 [] entry0 store0_healthy store0_stores entry0_extends) as (s' & E & _).
  exists s'. split; [done|].
  rewrite (store_iterates_in_order s' [entry0]); [done| |by vm_compute].
  by destruct (Store.AppendEntry_cases store0 [] entry0 s' (Ok tt) store0_stores entry0_sealed)
    as [_ [(_ & _ & X & _)|[[x X] _]]].
Defined.

(** [GetCheckpoint] returns the checkpoint of the largest size at or
    before the one asked for, and none only when no checkpoint is that old. *)
Theorem get_checkpoint_latest {B : Badger value} {BL : BadgerLaws B} (s : Store.t) n :
  is_u64 n ->
  match Store.GetCheckpoint s n with
  | (Some v, m) => 0 <= m <= n /\ view (Store.db s) !! checkpointKey m = Some v /\
      (forall j, m < j <= n -> view (Store.db s) !! checkpointKey j = None)
  | (None, _) => forall j, 0 <= j <= n -> view (Store.db s) !! checkpointKey j = None
  end.
Proof. apply Store.GetCheckpoint_spec. Qed.

Definition stored_checkpoint : value := VBytes (str "checkpoint 3").

Definition store_ckpt : Store.t := fst (Store.SaveCheckpoint store0 3 stored_checkpoint).

Lemma get_checkpoint_latest_witness :
  Store.GetCheckpoint store_ckpt 5 = (Some stored_checkpoint, 3) /\
  (forall j, 3 < j <= 5 -> view (Store.db store_ckpt) !! checkpointKey j = None).
Proof.
  assert (Store.GetCheckpoint store_ckpt 5 = (Some stored_checkpoint, 3)) as E by (vm_compute; reflexivity).
  split; [exact E|]. pose proof (get_checkpoint_latest store_ckpt 5) as X. rewrite E in X.
  apply X. split; [discriminate|reflexivity].
Defined.

(** An enrollment is accepted exactly when the operator's key of the named
    epoch signed its terms and, if it carries any quantum field, the chain's
    quantum key of that epoch signed them too. *)
Theorem enrollment_verify_exact `{Crypto} p chainPubKey qChainPubKey :
  Producer.VerifyEnrollment p chainPubKey qChainPubKey = Ok tt <->
  len (Producer.Signature p) = SignatureSize /\ chainPubKey (Producer.OperatorEpoch p) <> [] /\
  ed_verify (chainPubKey (Producer.OperatorEpoch p)) (Producer.CanonicalEnrollment p)
    (Producer.Signature p) = true /\
  (Producer.QuantumSignature p <> [] \/ Producer.QuantumOperatorPubKey p <> [] ->
    len (Producer.QuantumSignature p) = d3_SignatureSize /\
    len (Producer.QuantumOperatorPubKey p) = d3_PublicKeySize /\
    Producer.QuantumOperatorPubKey p = qChainPubKey (Producer.OperatorEpoch p) /\
    d3_good (Producer.QuantumOperatorPubKey p) (Producer.CanonicalEnrollment p)
      (Producer.QuantumSignature p)).
Proof. apply Producer.VerifyEnrollment_iff. Qed.

(** Enrollment signatures and challenge responses cover the terms: equal
    enrollment bytes mean equal identity, keys, scope, attestation type,
    validity and epoch; equal challenge bytes mean equal terms and nonce. *)
Theorem enrollment_terms_bound p1 p2 :
  Producer.wf p1 -> Producer.wf p2 ->
  (Producer.CanonicalEnrollment p1 = Producer.CanonicalEnrollment p2 ->
   Producer.terms p1 = Producer.terms p2) /\
  (Producer.ChallengeNonce p1 <> [] -> Producer.ChallengeNonce p2 <> [] ->
   Producer.ChallengeBytes p1 = Producer.ChallengeBytes p2 ->
   Producer.terms p1 = Producer.terms p2 /\ Producer.ChallengeNonce p1 = Producer.ChallengeNonce p2).
Proof.
  intros W1 W2. split.
  - intros E. apply (Producer.CanonicalEnrollment_terms p1 p2 [] [] W1 W2). by rewrite !app_nil_r.
  - intros N1 N2. unfold Producer.ChallengeBytes.
    rewrite (proj2 (len_zero_eqb (Producer.ChallengeNonce p1)) N1),
      (proj2 (len_zero_eqb (Producer.ChallengeNonce p2)) N2).
    intros E%prefix_inj. by apply Producer.CanonicalEnrollment_terms.
Qed.

(** A producer enrolled by the holder of key [str "op"] at epoch 0, before and
    after signing. *)
Definition producer_terms : Producer.t :=
  Producer.mk (Envelope.ProducerID plain_env) (Envelope.PublicKey plain_env) [] (str "software") [] 7 (str "ci")
    5 0 0 [] [] [] false 0 [] (str "nonce") [] [].
Definition enrolled (p : Producer.t) : Producer.t :=
  let canon := Producer.CanonicalEnrollment p in
  Producer.set_operator_sigs p (ed_sign (str "op") canon) (d3_public (str "qop")) (d3_sign (str "qop") canon).

Lemma producer_terms_wf : Producer.wf producer_terms.
Proof. split_and!; by vm_compute. Qed.

Lemma enrollment_terms_bound_witness :
  Producer.terms producer_terms = Producer.terms producer_terms /\
  Producer.ChallengeNonce producer_terms = Producer.ChallengeNonce producer_terms.
Proof.
  apply (enrollment_terms_bound producer_terms producer_terms producer_terms_wf producer_terms_wf);
    [discriminate|discriminate|reflexivity].
Defined.

(** The quantum half of an enrollment can be removed: dropping both quantum
    operator fields from an accepted enrollment leaves one that is still
    accepted, even when the chain has a quantum key for that epoch. *)
Theorem enrollment_quantum_strippable `{Crypto} p chainPubKey qChainPubKey :
  Producer.VerifyEnrollment p chainPubKey qChainPubKey = Ok tt ->
  Producer.VerifyEnrollment (Producer.set_operator_sigs p (Producer.Signature p) [] [])
    chainPubKey qChainPubKey = Ok tt.
Proof.
  intros (? & ? & ? & _)%Producer.VerifyEnrollment_iff. apply Producer.VerifyEnrollment_iff.
  split_and!; try done. by intros [].
Qed.

Lemma enrollment_quantum_strippable_witness :
  let p := enrolled producer_terms in
  Producer.QuantumSignature p <> [] /\
  Producer.VerifyEnrollment (Producer.set_operator_sigs p (Producer.Signature p) [] [])
    (fun _ => ed_public (str "op")) (fun _ => d3_public (str "qop")) = Ok tt.
Proof.
  split; [|apply enrollment_quantum_strippable; vm_compute; reflexivity]. vm_compute. discriminate.
Defined.
