(* ===== verification/Core.v ===== *)
(** * The log (pkg/core)

    The object that ties store, Merkle tree and signer together: append,
    start-up replay, the enrollment ceremony, checkpoints with witness
    signatures, anchoring.  The [Store] the log holds and the one its tree
    reads leaves through are the same object, so the log's state keeps it once,
    inside the tree. *)

From S2P Require Import Prelude Crypto Attest Rfc6962 Merkle MerkleProps LogEntry Threshold Fwdsec Checkpoint Anchor Badger Storage.
From stdpp Require Import base numbers list gmap strings relations.
From Stdlib Require Import ZArith Lia.

#[local] Open Scope Z_scope.
#[local] Existing Instance rfc6962_hasher.

(** [int64] arithmetic. *)
Definition i64 (z : Z) : Z := (z + 2 ^ 63) mod 2 ^ 64 - 2 ^ 63.

(** The tree's view of the store: leaves are read through, and written by
    [AppendEntry]'s own transaction, so the tree's write does nothing. *)
#[export] Instance leafStoreAdapter {B : Badger value} : LeafStore := {|
  LS := Store.t;
  GetLeafHash := Store.GetLeafHash;
  PutLeafHash s _ _ := s;
|}.

#[export] Instance leafStoreAdapter_laws {B : Badger value} : LeafStoreLaws leafStoreAdapter.
Proof. by intros ls l i h. Qed.

Module Log.
Section Log.
Context {B : Badger value} {CR : CompactRange} {PL : ProofLib} {C : Crypto}.

Record pendingEnrollment := mk_pending {
  challengeID : bytes;
  prod : Producer.t;
  expiresAt : Z;
}.

Record t := mk {
  tree : Tree.t (LSt := leafStoreAdapter);
  signer : CheckpointSigner.t;
  requireEnrollment : bool;
  pending : gmap bytes pendingEnrollment;
}.

Definition store (l : t) : Store.t := Tree.leafStore (LSt := leafStoreAdapter) (tree l).

Definition set_tree (l : t) tr : t := mk tr (signer l) (requireEnrollment l) (pending l).
Definition set_store (l : t) (s : Store.t) : t :=
  set_tree l (Tree.mk (LSt := leafStoreAdapter) (Tree.rng (tree l)) s (Tree.leaves (tree l)) (Tree.internal (tree l))).
Definition set_signer (l : t) s : t := mk (tree l) s (requireEnrollment l) (pending l).
Definition set_pending (l : t) p : t := mk (tree l) (signer l) (requireEnrollment l) p.

(** A call on the store. *)
Definition on_store {A} (l : t) (r : Store.t * res A) : t * res A := (set_store l r.1, r.2).

(** *** Start-up *)

(** The callback of [replay]: the leaf mirror of logs written before it
    existed. *)
Definition backfill (l : t) (e : Entry.t) : t * res unit :=
  match Store.GetLeafHash (store l) (Entry.Index e) with
  | Err err => (l, Err ("replay: leaf check"%string :: err))
  | Ok (Some _) => (l, Ok tt)
  | Ok None =>
      let '(s, r) := Store.PutLeafHash (store l) (Entry.Index e) (Entry.LeafHash e) in
      (set_store l s, wrap_err "replay: leaf backfill" r)
  end.

(** The callback, on the log, the previous entry and the count. *)
Definition replay_entry (st : t * option Entry.t * Z) (e : Entry.t) : (t * option Entry.t * Z) * res unit :=
  let '(l, prev, count) := st in
  match Entry.Verify e with
  | Err err => (st, Err ("replay: entry failed self-verify"%string :: err))
  | Ok _ =>
      match Entry.VerifyChain e prev with
      | Err err => (st, Err ("replay"%string :: err))
      | Ok _ =>
          match backfill l e with
          | (l, Err err) => ((l, prev, count), Err err)
          | (l, Ok _) =>
              match Tree.AppendLeafHash (tree l) (Entry.LeafHash e) with
              | None => ((l, prev, count), Err ["panic: merkle append"%string])
              | Some (tr, _) => ((set_tree l tr, Some e, count + 1), Ok tt)
              end
          end
      end
  end.

Definition replay (ctx : nat -> option error) (l : t) : t * res unit :=
  match Store.IterateEntries (store l) ctx 0 replay_entry (l, None, 0) with
  | ((l, _, _), Err e) => (l, Err e)
  | ((l, _, count), Ok _) =>
      if negb (wrap64 count =? Tree.Size (tree l))
      then (l, Err ["replay: tree size != entries replayed"%string])
      else (l, Ok tt)
  end.

(** The log under construction and whether it is returned; without a store or
    a signer there is none. *)
Definition New (ctx : nat -> option error) (st : option Store.t) (sg : option CheckpointSigner.t)
    (requireEnr : bool) (MerkleCacheNodes MerkleLeafCacheNodes : Z) : res (t * res unit) :=
  match st, sg with
  | None, _ => Err ["core: Store is required"%string]
  | Some _, None => Err ["core: Signer is required"%string]
  | Some s, Some sg =>
      Ok (replay ctx (mk (Tree.NewBoundedTreeWithStore (LSt := leafStoreAdapter)
                            MerkleCacheNodes MerkleLeafCacheNodes s) sg requireEnr ∅))
  end.

Definition Size (l : t) : Z := Tree.Size (tree l).
Definition Root (l : t) : option bytes := Tree.Root (tree l).

(** *** Append *)

(** The checks before the lock is taken. *)
Definition authorise (l : t) (now : Z) (env : option Envelope.t) : res Envelope.t :=
  match env with
  | None => Err ["core: nil envelope"%string]
  | Some env =>
      let! _ := wrap_err "core: envelope rejected" (Envelope.Verify env) in
      let! prod := Store.GetProducer (store l) (Envelope.ProducerID env) in
      fail_if Producer.Revoked prod with "core: producer is revoked" ;;
      fail_if negb (bytesEqual (Producer.PublicKey prod) (Envelope.PublicKey env))
        with "core: producer classical public key mismatch" ;;
      let! _ :=
        if 0 <? len (Producer.QuantumPublicKey prod) then
          fail_if len (Envelope.QuantumPublicKey env) =? 0
            with "core: producer is registered as hybrid but envelope has no quantum_public_key (downgrade attempt?)" ;;
          fail_if negb (bytesEqual (Producer.QuantumPublicKey prod) (Envelope.QuantumPublicKey env))
            with "core: producer quantum public key mismatch" ;;
          Ok tt
        else Ok tt in
      let! _ :=
        if requireEnrollment l then
          fail_if negb (Producer.HasEnrollment prod)
            with "core: producer has no enrollment but --require-enrollment is on" ;;
          fail_if Producer.IsExpired prod now with "core: producer enrollment expired" ;;
          let chain := Signer.chain (CheckpointSigner.fws (signer l)) in
          wrap_err "core: producer enrollment invalid"
            (Producer.VerifyEnrollment prod (Chain.PublicKeyAt chain) (Chain.QuantumPublicKeyAt chain))
        else Ok tt in
      Ok env
  end.

(** The part under the lock; [now] is the clock [logentry.New] reads. *)
Definition append_locked (l : t) (now : Z) (env : Envelope.t) (honeypot : bool) : t * res Entry.t :=
  let idx := Tree.Size (tree l) in
  match Store.CheckAndRecordEnvelope (store l) (Envelope.Hash env) idx with
  | (s, Err e) => (set_store l s, Err ("core"%string :: e))
  | (s, Ok _) =>
      let l := set_store l s in
      match Store.HeadHash s with
      | Err e => (l, Err e)
      | Ok head =>
          let prevEntry :=
            if idx =? 0 then None else Some (Entry.mk (wrap64 (idx - 1)) 0 [] None false head []) in
          let entry := Entry.New now idx prevEntry (Some env) honeypot in
          match Store.AppendEntry s entry with
          | (s, Err e) => (set_store l s, Err e)
          | (s, Ok _) =>
              let l := set_store l s in
              match Tree.AppendLeafHash (tree l) (Entry.LeafHash entry) with
              | None => (l, Err ["panic: merkle append"%string])
              | Some (tr, _) => (set_tree l tr, Ok entry)
              end
          end
      end
  end.

(** [now1] and [now2]: the clock at the enrollment check and at sealing. *)
Definition AppendCtx (l : t) (now1 now2 : Z) (env : option Envelope.t) (honeypot : bool) : t * res Entry.t :=
  match authorise l now1 env with
  | Err e => (l, Err e)
  | Ok env => append_locked l now2 env honeypot
  end.

Definition Append (l : t) (now1 now2 : Z) (env : option Envelope.t) (honeypot : bool) : t * res Entry.t :=
  AppendCtx l now1 now2 env honeypot.

Definition Origin (l : t) : bytes := Signer.origin (CheckpointSigner.fws (signer l)).
Definition PublicKey (l : t) : bytes := Signer.Public (CheckpointSigner.fws (signer l)).

Definition RegisterProducer (l : t) (now : Z) (p : option Producer.t) : t * res unit :=
  on_store l (Store.RegisterProducer (store l) now p).
Definition RevokeProducer (l : t) (now : Z) (id reason : bytes) : t * res unit :=
  on_store l (Store.RevokeProducer (store l) now id reason).
Definition ListProducers (l : t) : res (list Producer.t) := Store.ListProducers (store l).

(** *** Enrollment *)

Record EnrollmentRequest := mk_req {
  r_ID : bytes;
  r_PublicKey : bytes;
  r_QuantumPublicKey : bytes;
  r_AttestationType : bytes;
  r_Description : bytes;
  r_Scope : bytes;
  r_Validity : Z;
}.

(** The record both enrollment paths start from. *)
Definition requested (req : EnrollmentRequest) (now epoch : Z) (nonce : bytes) : Producer.t :=
  let expires := if 0 <? r_Validity req then i64 (now + r_Validity req) else 0 in
  Producer.mk (r_ID req) (r_PublicKey req) (r_QuantumPublicKey req) (r_AttestationType req)
    (r_Description req) now (r_Scope req) now expires epoch [] [] [] false 0 [] nonce [] [].

(** The operator's signatures over a record, the active key's epoch checked
    against the record's. *)
Definition operator_sign (fws : Signer.t) (p : Producer.t) (csign drift qsign : string) : res Producer.t :=
  let canon := Producer.CanonicalEnrollment p in
  let! (epoch, sig) := wrap_err csign (Signer.Sign fws canon) in
  fail_if negb (epoch =? Producer.OperatorEpoch p) with drift ;;
  if Signer.Hybrid fws && (0 <? len (Producer.QuantumPublicKey p)) then
    let! qsig := wrap_err qsign (Signer.QuantumSign fws canon) in
    Ok (Producer.set_operator_sigs p sig
          (Chain.QuantumPublicKeyAt (Signer.chain fws) (Producer.OperatorEpoch p)) qsig)
  else Ok (Producer.set_operator_sigs p sig [] []).

(** [RegisterProducer] of a finished record, which is then returned. *)
Definition register (l : t) (now : Z) (p : Producer.t) : t * res Producer.t :=
  let '(s, r) := Store.RegisterProducer (store l) now (Some p) in
  (set_store l s, match r with Ok _ => Ok p | Err e => Err e end).

Definition IssueEnrollment (l : t) (now : Z) (req : EnrollmentRequest) : t * res Producer.t :=
  if bool_decide (r_ID req = []) then (l, Err ["enrollment: ID required"%string])
  else if len (r_PublicKey req) =? 0 then (l, Err ["enrollment: PublicKey required"%string])
  else
    let fws := CheckpointSigner.fws (signer l) in
    let prod := requested req now (Chain.ActiveEpoch (Signer.chain fws)) [] in
    match operator_sign fws prod "enrollment classical sign" "enrollment signed by epoch, expected active"
            "enrollment quantum sign" with
    | Err e => (l, Err e)
    | Ok prod => register l now prod
    end.

Record BeginEnrollmentResult := mk_begin {
  ChallengeID : bytes;
  ChallengeBytes : bytes;
  ExpiresAt : Z;
}.

Definition defaultChallengeTTL : Z := 5 * 60 * 1000000000.

(** [idRaw] and [nonce]: what the two reads of the random source return. *)
Definition BeginEnrollment (l : t) (now1 now2 : Z) (idRaw nonce : res bytes) (req : EnrollmentRequest)
    : t * res BeginEnrollmentResult :=
  if bool_decide (r_ID req = []) then (l, Err ["enrollment: ID required"%string])
  else if len (r_PublicKey req) =? 0 then (l, Err ["enrollment: PublicKey required"%string])
  else
    match idRaw with
    | Err e => (l, Err ("enrollment: nonce"%string :: e))
    | Ok idRaw =>
        match nonce with
        | Err e => (l, Err ("enrollment: nonce"%string :: e))
        | Ok nonce =>
            let chain := Signer.chain (CheckpointSigner.fws (signer l)) in
            let prod := requested req now1 (Chain.ActiveEpoch chain) nonce in
            let challenge := Producer.ChallengeBytes prod in
            if len challenge =? 0 then (l, Err ["enrollment: failed to build challenge bytes"%string])
            else
              let chID := hex idRaw in
              let expires := now2 + defaultChallengeTTL in
              (set_pending l (<[chID := mk_pending idRaw prod expires]> (pending l)),
               Ok (mk_begin chID challenge expires))
        end
    end.

(** The producer's answer, filled in and checked. *)
Definition consented (p : Producer.t) (classicalSig quantumSig : bytes) : res Producer.t :=
  fail_if (0 <? len (Producer.QuantumPublicKey p)) && (len quantumSig =? 0)
    with "enrollment: hybrid producer requires quantum signature on challenge" ;;
  let p := Producer.set_challenge_sigs p classicalSig
             (if 0 <? len (Producer.QuantumPublicKey p) then quantumSig
              else Producer.QuantumChallengeSignature p) in
  let! _ := wrap_err "enrollment: producer consent" (Producer.VerifyConsent p) in
  Ok p.

Definition ConfirmEnrollment (l : t) (now1 now2 : Z) (challengeID : bytes) (classicalSig quantumSig : bytes)
    : t * res Producer.t :=
  match pending l !! challengeID with
  | None => (l, Err ["enrollment: unknown or expired challenge"%string])
  | Some p =>
      let l := set_pending l (delete challengeID (pending l)) in
      if expiresAt p <? now1 then (l, Err ["enrollment: challenge expired"%string])
      else match consented (prod p) classicalSig quantumSig with
      | Err e => (l, Err e)
      | Ok prod =>
          match operator_sign (CheckpointSigner.fws (signer l)) prod "enrollment: operator sign"
                  "enrollment: operator epoch drift" "enrollment: operator quantum sign" with
          | Err e => (l, Err e)
          | Ok prod => register l now2 prod
          end
      end
  end.

(** One tick of the janitor. *)
Definition janitor_tick (l : t) (now : Z) : t :=
  set_pending l (filter (fun x => ~ (expiresAt x.2 < now)) (pending l)).

(** *** Proofs and entries *)

Definition Get (l : t) (idx : Z) : res Entry.t := Store.GetEntry (store l) idx.
Definition InclusionProof (l : t) (idx treeSize : Z) : t * res (list bytes) :=
  let '(tr, r) := Tree.InclusionProof idx treeSize (tree l) in (set_tree l tr, r).
Definition ConsistencyProof (l : t) (oldSize newSize : Z) : t * res (list bytes) :=
  let '(tr, r) := Tree.ConsistencyProof oldSize newSize (tree l) in (set_tree l tr, r).

(** *** Witnesses *)

Definition RegisterWitness (l : t) (w : option Witness.t) : t * res unit :=
  on_store l (Store.RegisterWitness (store l) w).
Definition ListWitnesses (l : t) : res (list Witness.t) := Store.ListWitnesses (store l).

Fixpoint trusted_key (witnesses : list Witness.t) (id : bytes) : bytes :=
  match witnesses with
  | [] => []
  | w :: ws => if bool_decide (Witness.ID w = id) then Witness.PublicKey w else trusted_key ws id
  end.

Definition validateWitnessSig (c : Checkpoint.t) (sig : WitnessSig.t) (witnesses : list Witness.t) : res unit :=
  let pub := trusted_key witnesses (WitnessSig.WitnessID sig) in
  fail_if bool_decide (pub = []) with "unknown witness id" ;;
  fail_if negb (bytesEqual (WitnessSig.PublicKey sig) pub)
    with "witness returned a public key different from the one we trust" ;;
  fail_if negb (ed_verify pub (Checkpoint.CanonicalForWitness c) (WitnessSig.Signature sig))
    with "witness signature does not verify" ;;
  Ok tt.

(** The loop over the result channel: [results] is what arrives, in order. *)
Fixpoint collect (c : Checkpoint.t) (witnesses : list Witness.t) (status : gmap bytes (res unit))
    (results : list (bytes * res WitnessSig.t)) : Checkpoint.t * gmap bytes (res unit) :=
  match results with
  | [] => (c, status)
  | (id, Err e) :: rs => collect c witnesses (<[id := Err e]> status) rs
  | (id, Ok sig) :: rs =>
      match validateWitnessSig c sig witnesses with
      | Err e => collect c witnesses (<[id := Err ("returned sig invalid"%string :: e)]> status) rs
      | Ok _ => collect (Checkpoint.add_witness c sig) witnesses (<[id := Ok tt]> status) rs
      end
  end.

Definition GatherWitnessSignatures (l : t) (c : Checkpoint.t) (results : list (bytes * res WitnessSig.t))
    : Checkpoint.t * res (gmap bytes (res unit)) :=
  match ListWitnesses l with
  | Err e => (c, Err e)
  | Ok witnesses =>
      if len witnesses =? 0 then (c, Ok ∅)
      else let '(c, status) := collect c witnesses ∅ results in (c, Ok status)
  end.

(** *** Checkpoints and anchors *)

Definition DefaultMaxClockSkew : Z := 5 * 60.
Definition drandGenesis : Z := 1692489600.
Definition drandPeriod : Z := 3.

(** The clock check, in [int64] seconds. *)
Definition clock_refused (beacon : option Beacon.t) (nowSec : Z) : bool :=
  match beacon with
  | None => false
  | Some b =>
      if (0 <? Beacon.Round b) && bool_decide (Beacon.Source b = str "drand") then
        let expected := i64 (drandGenesis + i64 (drandPeriod * i64 (Beacon.Round b))) in
        let skew := i64 (nowSec - expected) in
        let skew := if skew <? 0 then i64 (- skew) else skew in
        DefaultMaxClockSkew <? skew
      else false
  end.

(** What the outside world contributes to one checkpoint: the beacon fetcher
    ([None]: not configured), the clock, the cosigners, the witnesses. *)
Record checkpoint_io := mk_cio {
  beacon_fetch : option (res Beacon.t);
  nowSec : Z;
  signTime : Z;
  arrivals : list (Member.t * Coordinator.reply);
  results : list (bytes * res WitnessSig.t);
}.

(** [if b, ferr := l.beacon(); ferr == nil { beacon = b }] *)
Definition fetched (io : checkpoint_io) : option Beacon.t :=
  match beacon_fetch io with Some (Ok b) => Some b | _ => None end.

Definition CheckpointCtx (l : t) (io : checkpoint_io) : t * res Checkpoint.t :=
  match Tree.Root (tree l) with
  | None => (l, Err ["panic: merkle root"%string])
  | Some root =>
      match Store.HeadHash (store l) with
      | Err e => (l, Err e)
      | Ok head =>
          let size := Tree.Size (tree l) in
          let beacon := fetched io in
          if clock_refused beacon (nowSec io)
          then (l, Err ["core: refusing to checkpoint: operator clock disagrees with drand round"%string])
          else match CheckpointSigner.Sign (signer l) (signTime io) size root head beacon (arrivals io) with
          | Err e => (l, Err e)
          | Ok c =>
              let '(c, _) := GatherWitnessSignatures l c (results io) in
              match Store.SaveCheckpoint (store l) (Checkpoint.Size c) (VCheckpoint c) with
              | (s, Err e) => (set_store l s, Err e)
              | (s, Ok _) => (set_store l s, Ok c)
              end
          end
      end
  end.

(** [Checkpoint()] *)
Definition MakeCheckpoint (l : t) (io : checkpoint_io) : t * res Checkpoint.t := CheckpointCtx l io.

Definition Rotate (l : t) (now : Z) (gen : res KeyStore.fresh) (wr : bool)
    (io_new io_prev : KeyStore.destroy_io) : t * res unit :=
  let '(f, r) := Signer.Rotate now gen wr io_new io_prev (CheckpointSigner.fws (signer l)) in
  (set_signer l (CheckpointSigner.mk f (CheckpointSigner.threshGroup (signer l))),
   match r with Ok _ => Ok tt | Err e => Err e end).

Definition LatestCheckpoint (l : t) : res (option Checkpoint.t) :=
  let! (body, _) := Store.LatestCheckpoint (store l) in
  match body with
  | None => Ok None
  | Some (VCheckpoint c) => Ok (Some c)
  | Some _ => Err ["checkpoint: unmarshal"%string]
  end.

(** The loop over the sinks: [published] pairs each sink's name with what its
    [Publish] returned; a failed write of the record is ignored. *)
Fixpoint publish (l : t) (size : Z) (published : list (bytes * res Record_.t))
    (recs : gmap bytes Record_.t) (errs : list error) : t * gmap bytes Record_.t * list error :=
  match published with
  | [] => (l, recs, errs)
  | (name, Err e) :: ps => publish l size ps recs (errs ++ [e])
  | (name, Ok rec) :: ps =>
      publish (set_store l (fst (Store.SaveAnchor (store l) size rec))) size ps (<[name := rec]> recs) errs
  end.

(** The records and the joined errors, or the error that comes before them. *)
Definition Anchor (l : t) (published : list (bytes * res Record_.t)) : t * res (gmap bytes Record_.t * list error) :=
  match LatestCheckpoint l with
  | Err e => (l, Err e)
  | Ok None => (l, Err ["anchor: no checkpoint exists yet"%string])
  | Ok (Some c) =>
      let '(l, recs, errs) := publish l (Checkpoint.Size c) published ∅ [] in
      (l, Ok (recs, errs))
  end.

Definition CheckpointAndAnchor (l : t) (io : checkpoint_io) (published : list (bytes * res Record_.t))
    : t * res (Checkpoint.t * res (gmap bytes Record_.t * list error)) :=
  match CheckpointCtx l io with
  | (l, Err e) => (l, Err e)
  | (l, Ok c) => let '(l, r) := Anchor l published in (l, Ok (c, r))
  end.

(** *** Invariant *)

Context {BL : BadgerLaws B} {CRL : CompactRangeLaws CR} {PLL : ProofLibLaws PL} {CL : CryptoLaws C}.

(** The log holds [es]: on disk, mirrored, chained, and in the tree.  [lasting] stands
    for "replay records never expire": under it the store has no replay window,
    and every envelope of the log is on record, once. *)
Record held (lasting : Prop) (l : t) (es : list Entry.t) : Prop := {
  ok_stores : Store.stores (view (Store.db (store l))) es;
  ok_mirror : Store.mirrored (view (Store.db (store l))) es;
  ok_readable : readable (Store.db (store l));
  ok_tree : Tree.ok (LSt := leafStoreAdapter) (tree l) (map Entry.LeafHash es);
  ok_chain : Entry.chain None es;
  ok_window : lasting -> Store.replayTTL (store l) <= 0;
  ok_replay : lasting -> forall h, h ∈ map Entry.env_hash es -> is_Some (view (Store.db (store l)) !! replayKey h);
  ok_unique : lasting -> NoDup (map Entry.env_hash es);
}.
#[global] Arguments ok_stores {lasting} _ _ _.
#[global] Arguments ok_mirror {lasting} _ _ _.
#[global] Arguments ok_readable {lasting} _ _ _.
#[global] Arguments ok_tree {lasting} _ _ _.
#[global] Arguments ok_chain {lasting} _ _ _.
#[global] Arguments ok_window {lasting} _ _ _ _.
#[global] Arguments ok_replay {lasting} _ _ _ _.
#[global] Arguments ok_unique {lasting} _ _ _ _.

(** Most of what follows does not depend on it. *)
Context {lasting : Prop}.
#[local] Abbreviation ok := (held lasting).

Lemma map_lookup_inv {A D} (f : A -> D) (l : list A) i y : map f l !! i = Some y ->
  exists x, l !! i = Some x /\ y = f x.
Proof. intros E. apply list_lookup_fmap_Some in E as (x & -> & E). by exists x. Qed.

Lemma holds_prefix (s : Store.t) es1 es2 :
  readable (Store.db s) -> Store.stores (view (Store.db s)) (es1 ++ es2) ->
  Store.mirrored (view (Store.db s)) es1 ->
  holds (H := leafStoreAdapter) s (map Entry.LeafHash es1).
Proof.
  intros R S M i h (e & He & ->)%map_lookup_inv.
  apply (Store.GetLeafHash_mirrored s es1); [done| |done|done].
  pose proof (Store.st_sealed _ _ S) as F. by apply Forall_app in F as [F _].
Qed.

Lemma holds_store (s : Store.t) es :
  readable (Store.db s) -> Store.stores (view (Store.db s)) es -> Store.mirrored (view (Store.db s)) es ->
  holds (H := leafStoreAdapter) s (map Entry.LeafHash es).
Proof. intros R S M. apply (holds_prefix s es []); [done|by rewrite app_nil_r|done]. Qed.

Lemma log_size l es : ok l es -> Tree.Size (tree l) = len es.
Proof. intros O. rewrite (Tree.ok_size _ _ (ok_tree _ _ O)). apply len_map. Qed.

(** Exchanging the store for one that still holds the log. *)
Lemma ok_set_store l es s :
  ok l es -> Store.stores (view (Store.db s)) es -> Store.mirrored (view (Store.db s)) es ->
  readable (Store.db s) ->
  Store.replayTTL s = Store.replayTTL (store l) ->
  (lasting -> forall h, is_Some (view (Store.db (store l)) !! replayKey h) -> is_Some (view (Store.db s) !! replayKey h)) ->
  ok (set_store l s) es.
Proof.
  intros [S M R [T1 T2 T3 T4 T5] Ch Wi Re U] S' M' R' Et K. split; try done.
  - split; try done. by apply holds_store.
  - change (store (set_store l s)) with s. by rewrite Et.
  - intros HP h Hh. by apply K, Re.
Qed.

(** A write under a key outside the log, replay keys kept. *)
Lemma ok_commit_foreign l es k v ttl s r :
  ok l es -> Store.foreign k -> Store.commit (store l) [mk_write k (Some v) ttl] = (s, r) ->
  ok (set_store l s) es.
Proof.
  intros O F E. pose proof (Store.commit_cases _ _ _ _ E) as [_ V].
  destruct (Store.commit_foreign _ es k v ttl s r F (ok_stores _ _ O) E) as ([Et R] & S & M & K).
  apply ok_set_store; [done|done|by apply M, O|by apply R, O|done|].
  intros _ h [x Hx]. destruct (decide (replayKey h = k)) as [<-|Hne].
  - destruct V as [[_ V]|[_ V]]; rewrite V; [|by exists x].
    unfold apply_writes. cbn [foldl apply_write w_val w_key]. exists v. by rewrite lookup_insert_eq.
  - exists x. rewrite K; done.
Qed.

Lemma ok_same l es : ok l es -> ok (set_store l (store l)) es.
Proof. intros O. by apply ok_set_store; try apply O. Qed.

(** *** Appending *)

Lemma replayKey_inj h1 h2 : replayKey h1 = replayKey h2 -> h1 = h2.
Proof. intros E%prefix_inj. by apply hex_inj. Qed.

Lemma CheckAndRecord_cases l es h i s r :
  ok l es -> Store.CheckAndRecordEnvelope (store l) h i = (s, r) ->
  ok (set_store l s) es /\
  (r = Ok tt -> view (Store.db (store l)) !! replayKey h = None /\ is_Some (view (Store.db s) !! replayKey h)).
Proof.
  intros O. unfold Store.CheckAndRecordEnvelope.
  rewrite (Store.get_readable _ _ (ok_readable _ _ O)).
  destruct (view _ !! replayKey h) as [v|] eqn:E; [intros [= <- <-]; split; [by apply ok_same|done]|].
  intros Ec. split; [by eapply ok_commit_foreign; [|apply Store.replay_foreign|]|].
  intros ->. split; [done|]. apply Store.commit_cases in Ec as [_ [[_ V]|[[x Hx] _]]]; [|done].
  rewrite V. unfold apply_writes. cbn [foldl apply_write w_val w_key]. by rewrite lookup_insert_eq.
Qed.

(** The entry the locked section builds. *)
Definition next_entry (now : Z) (es : list Entry.t) (env : Envelope.t) (honeypot : bool) : Entry.t :=
  Entry.New now (len es) (last es) (Some env) honeypot.

Lemma New_stub now idx prev e env hp :
  Entry.EntryHash prev = Entry.EntryHash e ->
  Entry.New now idx (Some prev) (Some env) hp = Entry.New now idx (Some e) (Some env) hp.
Proof. intros E. unfold Entry.New. by rewrite E. Qed.

Lemma next_entry_extends now es env hp :
  len es + 1 < 2 ^ 63 -> Store.extends es (next_entry now es env hp).
Proof.
  intros Hb. split; [split; apply sha256_length|]. split_and!; [done| |done].
  unfold Store.head_of. cbn. by destruct (last es).
Qed.

Lemma next_entry_chain now es env hp :
  Envelope.valid env -> Entry.chain None es -> len es + 1 < 2 ^ 63 ->
  Entry.chain None (es ++ [next_entry now es env hp]).
Proof.
  intros V Ch Hb. apply Entry.entry_chain_snoc. split; [done|].
  assert (len es = match last es with Some p => wrap64 (Entry.Index p + 1) | None => 0 end) as Hi.
  { destruct (last es) as [p|] eqn:L; [|by apply last_None in L as ->].
    apply last_Some in L as [es' ->]. unfold len in *. rewrite length_app in *. simpl in *.
    rewrite (Entry.entry_chain_index es' p Ch) by (unfold len; lia).
    unfold len, wrap64. rewrite Z.mod_small; lia. }
  unfold next_entry. rewrite Hi. by apply Entry.New_verifies.
Qed.

(** The entry the code seals, whose predecessor is a stub with the head hash. *)
Lemma stub_next now es env hp :
  Entry.New now (len es)
    (if len es =? 0 then None
     else Some (Entry.mk (wrap64 (len es - 1)) 0 [] None false (Store.head_of es) [])) (Some env) hp =
  next_entry now es env hp.
Proof.
  unfold next_entry. destruct (Z.eqb_spec (len es) 0) as [E|E].
  - destruct es; [done|]. unfold len in E. simpl in E. lia.
  - unfold Store.head_of. destruct (last es) as [p|] eqn:L; [by apply New_stub|].
    apply last_None in L. by subst es.
Qed.

Lemma AppendLeafHash_store (tr tr' : Tree.t (LSt := leafStoreAdapter)) h i :
  Tree.AppendLeafHash tr h = Some (tr', i) -> Tree.leafStore tr' = Tree.leafStore tr.
Proof.
  unfold Tree.AppendLeafHash. destruct (RangeAppend _ _) as [[r vis]|]; [|done]. intros [= <- _]. cbn [Tree.leafStore].
  assert (forall vis (t : Tree.t), Tree.leafStore (foldl (fun tr p => Tree.putNode tr p.1 p.2) t vis) =
    Tree.leafStore t) as X.
  { clear. induction vis as [|p vis IH]; intros t; [done|]. simpl. rewrite IH. unfold Tree.putNode.
    by destruct (Nat.eqb _ _). }
  by rewrite X.
Qed.

Lemma append_tree l ls (s : Store.t) h :
  Tree.ok (tree l) ls -> holds (H := leafStoreAdapter) s (ls ++ [h]) -> len ls + 1 < 2 ^ 63 ->
  exists tr i, Tree.AppendLeafHash (tree (set_store l s)) h = Some (tr, i) /\
    Tree.ok tr (ls ++ [h]) /\ Tree.leafStore tr = s.
Proof.
  intros [T1 T2 T3 T4 T5] Hs Hb. set (tr0 := tree (set_store l s)).
  assert (Tree.ok tr0 ls) as O0.
  { split; try done. intros i x Hi. apply Hs. by apply lookup_app_l_Some. }
  destruct (Tree.AppendLeafHash_ok tr0 ls h O0 Hb Hs) as (tr & E & O1).
  exists tr, (len ls). split; [done|]. split; [done|].
  by rewrite (AppendLeafHash_store _ _ _ _ E).
Qed.

Lemma append_tree_entry l es (s : Store.t) e :
  Tree.ok (tree l) (map Entry.LeafHash es) -> holds (H := leafStoreAdapter) s (map Entry.LeafHash (es ++ [e])) ->
  len es + 1 < 2 ^ 63 ->
  exists tr i, Tree.AppendLeafHash (tree (set_store l s)) (Entry.LeafHash e) = Some (tr, i) /\
    Tree.ok tr (map Entry.LeafHash (es ++ [e])) /\ Tree.leafStore tr = s.
Proof. intros T Hs Hb. rewrite map_app in *. apply append_tree; [done|done|by rewrite len_map]. Qed.

(** Whatever the database does, the locked section leaves a consistent log,
    one entry longer exactly when it returns that entry. *)
Lemma append_locked_cases l es now env hp l' r :
  ok l es -> Envelope.valid env -> len es + 1 < 2 ^ 63 -> append_locked l now env hp = (l', r) ->
  (r = Ok (next_entry now es env hp) /\ ok l' (es ++ [next_entry now es env hp])) \/
  ((exists x, r = Err x) /\ ok l' es).
Proof.
  intros O V Hb A. unfold append_locked in A. rewrite (log_size l es O) in A.
  destruct (Store.CheckAndRecordEnvelope _ _ _) as [s1 [[]|x1]] eqn:E1.
  2:{ injection A as <- <-. right. split; [eauto|]. by eapply CheckAndRecord_cases. }
  destruct (CheckAndRecord_cases l es _ _ s1 _ O E1) as [O1 Hr]. destruct (Hr eq_refl) as [Hnew Hrec].
  set (l1 := set_store l s1) in *.
  unfold Store.HeadHash in A. rewrite (Store.readHead_ok s1 es (ok_readable _ _ O1) (ok_stores _ _ O1)) in A.
  rewrite stub_next in A. set (e := next_entry now es env hp) in *.
  destruct (next_entry_extends now es env hp Hb) as (Hs & Hext). fold e in Hs, Hext.
  destruct (Store.AppendEntry s1 e) as [s2 r2] eqn:E2.
  destruct (Store.AppendEntry_cases s1 es e s2 r2 (ok_stores _ _ O1) Hs Hb E2)
    as [[Et2 R2] [(-> & _ & S2 & M2 & K2)|[[x ->] V2]]].
  - destruct (append_tree_entry l1 es s2 e (ok_tree _ _ O1)
      (holds_store s2 _ (R2 (ok_readable _ _ O1)) S2 (M2 (ok_mirror _ _ O1))) Hb) as (tr & i & Et & Ot & Es).
    rewrite Et in A. injection A as <- <-. left. split; [done|].
    assert (forall h, is_Some (view (Store.db s1) !! replayKey h) ->
      is_Some (view (Store.db s2) !! replayKey h)) as K
      by (intros h; rewrite (K2 _ (Store.replay_foreign h)); done).
    assert (Entry.env_hash e = Envelope.Hash env) as Eh by done.
    split; unfold store; cbn [set_tree tree]; rewrite ?Es.
    + done.
    + by apply M2, O1.
    + by apply R2, O1.
    + done.
    + by apply next_entry_chain; [|apply O|].
    + rewrite Et2. apply O1.
    + intros HP h. rewrite map_app, elem_of_app. intros [Hh|Hh]; apply K; [by apply O1|].
      apply list_elem_of_singleton in Hh as ->. rewrite Eh. done.
    + intros HP. rewrite map_app. apply NoDup_app. split_and!; [by apply O| |apply NoDup_singleton].
      intros h Hh ->%list_elem_of_singleton. rewrite Eh in Hh.
      destruct (ok_replay _ _ O HP _ Hh) as [v Hv]. congruence.
  - injection A as <- <-. right. split; [eauto|].
    apply ok_set_store; [done|rewrite V2; apply O1|rewrite V2; apply O1|apply R2, O1|done|].
    intros _ h. by rewrite V2.
Qed.

Lemma append_locked_healthy l es now env hp :
  ok l es -> writable (Store.db (store l)) -> Envelope.valid env -> len es + 1 < 2 ^ 63 ->
  view (Store.db (store l)) !! replayKey (Envelope.Hash env) = None ->
  (append_locked l now env hp).2 = Ok (next_entry now es env hp).
Proof.
  intros O W V Hb Hn. destruct (append_locked l now env hp) as [l' r] eqn:A.
  destruct (append_locked_cases l es now env hp l' r O V Hb A) as [[-> _]|[[x ->] _]]; [done|exfalso].
  unfold append_locked in A. rewrite (log_size l es O) in A.
  unfold Store.CheckAndRecordEnvelope in A. rewrite (Store.get_readable _ _ (ok_readable _ _ O)), Hn in A.
  destruct (Store.commit_healthy (store l)
    [mk_write (replayKey (Envelope.Hash env)) (Some (VBytes (put_u64 (len es)))) (Store.replayTTL (store l))])
    as (s1 & E1 & [R1 W1] & _ & V1); [split; [apply O|done]|].
  assert (ok (set_store l s1) es) as O1
    by (eapply ok_commit_foreign; [done|apply Store.replay_foreign|exact E1]).
  rewrite E1 in A. unfold Store.HeadHash in A.
  rewrite (Store.readHead_ok s1 es R1 (ok_stores _ _ O1)), stub_next in A.
  destruct (Store.AppendEntry_healthy s1 es (next_entry now es env hp)) as (s2 & E2 & _);
    [by split|apply O1|by apply next_entry_extends|].
  rewrite E2 in A. pose proof (next_entry_extends now es env hp Hb) as (Hs & _).
  destruct (Store.AppendEntry_cases s1 es _ s2 _ (ok_stores _ _ O1) Hs Hb E2)
    as [[_ R2] [(_ & _ & S2 & M2 & _)|[[y Hy] _]]]; [|done].
  destruct (append_tree_entry (set_store l s1) es s2 _ (ok_tree _ _ O1)
    (holds_store s2 _ (R2 R1) S2 (M2 (ok_mirror _ _ O1))) Hb) as (tr & i & Et & _).
  rewrite Et in A. done.
Qed.

(** An accepted envelope was not on record. *)
Lemma append_unrecorded l now env hp l' e :
  readable (Store.db (store l)) -> append_locked l now env hp = (l', Ok e) ->
  view (Store.db (store l)) !! replayKey (Envelope.Hash env) = None.
Proof.
  intros R. unfold append_locked, Store.CheckAndRecordEnvelope. rewrite (Store.get_readable _ _ R).
  by destruct (view _ !! _).
Qed.

(** *** The other operations *)

Lemma ok_register l es now p s r :
  ok l es -> Store.RegisterProducer (store l) now p = (s, r) -> ok (set_store l s) es.
Proof.
  intros O. unfold Store.RegisterProducer. destruct p as [p|]; [|intros [= <- _]; by apply ok_same].
  repeat (case_match; try (intros [= <- _]; by apply ok_same));
    intros E; (eapply ok_commit_foreign; [done|apply Store.producer_foreign|exact E]).
Qed.

Lemma ok_revoke l es now id reason s r :
  ok l es -> Store.RevokeProducer (store l) now id reason = (s, r) -> ok (set_store l s) es.
Proof.
  intros O. unfold Store.RevokeProducer.
  repeat (case_match; try (intros [= <- _]; by apply ok_same)).
  intros E; (eapply ok_commit_foreign; [done|apply Store.producer_foreign|exact E]).
Qed.

Lemma ok_register_witness l es w s r :
  ok l es -> Store.RegisterWitness (store l) w = (s, r) -> ok (set_store l s) es.
Proof.
  intros O. unfold Store.RegisterWitness.
  repeat (case_match; try (intros [= <- _]; by apply ok_same)).
  intros E; (eapply ok_commit_foreign; [done|apply Store.witness_foreign|exact E]).
Qed.

(** The invariant does not look at the signer or the pending challenges. *)
Lemma ok_same_tree l l' es : tree l' = tree l -> ok l es -> ok l' es.
Proof. intros E [S M R T Ch Wi Re U]. split; unfold store in *; by rewrite ?E. Qed.

Lemma ok_enroll l es now p l' r : ok l es -> register l now p = (l', r) -> ok l' es.
Proof.
  intros O. unfold register. destruct (Store.RegisterProducer _ _ _) as [s x] eqn:E. intros [= <- _].
  by eapply ok_register.
Qed.

Lemma ok_issue l es now req l' r : ok l es -> IssueEnrollment l now req = (l', r) -> ok l' es.
Proof.
  intros O. unfold IssueEnrollment. repeat (case_match; try (by intros [= <- _])). by apply ok_enroll.
Qed.

Lemma ok_begin l es now1 now2 id nonce req l' r :
  ok l es -> BeginEnrollment l now1 now2 id nonce req = (l', r) -> ok l' es.
Proof.
  intros O. unfold BeginEnrollment. repeat (case_match; try (by intros [= <- _])). intros [= <- _].
  by apply (ok_same_tree l).
Qed.

Lemma ok_confirm l es now1 now2 id sig qsig l' r :
  ok l es -> ConfirmEnrollment l now1 now2 id sig qsig = (l', r) -> ok l' es.
Proof.
  intros O. unfold ConfirmEnrollment. case_match; [|by intros [= <- _]].
  assert (ok (set_pending l (delete id (pending l))) es) as O' by by apply (ok_same_tree l).
  repeat (case_match; try (by intros [= <- _])). by apply ok_enroll.
Qed.

Lemma ok_checkpoint l es io l' r : ok l es -> CheckpointCtx l io = (l', r) -> ok l' es.
Proof.
  intros O. unfold CheckpointCtx, Store.SaveCheckpoint.
  repeat (case_match; try (by intros [= <- _])); intros [= <- _];
    (eapply ok_commit_foreign; [done|apply Store.checkpoint_foreign|eassumption]).
Qed.

Lemma ok_publish l es size ps recs errs : ok l es -> ok (publish l size ps recs errs).1.1 es.
Proof.
  revert l recs errs. induction ps as [|[name [rec|e]] ps IH]; intros l recs errs O; cbn [publish].
  - done.
  - apply IH. destruct (Store.SaveAnchor (store l) size rec) as [s r] eqn:E.
    eapply ok_commit_foreign; [done|apply Store.anchor_foreign|exact E].
  - by apply IH.
Qed.

Lemma ok_anchor l es ps l' r : ok l es -> Anchor l ps = (l', r) -> ok l' es.
Proof.
  intros O. unfold Anchor. destruct (LatestCheckpoint l) as [[c|]|e]; [|by intros [= <- _]..].
  pose proof (ok_publish l es (Checkpoint.Size c) ps ∅ [] O) as P.
  destruct (publish _ _ _ _ _) as [[l1 recs] errs]. by intros [= <- _].
Qed.

(** Proof queries keep the tree's invariant and its store. *)
Lemma nodeHash_store id : keeps (LSt := leafStoreAdapter) Tree.leafStore (Tree.nodeHash id).
Proof.
  intros tr tr' r. unfold Tree.nodeHash. destruct (Nat.eqb (Level id) 0).
  - destruct (Lru.hit _ _) as [[h c]|]; [by intros [= <- _]|].
    destruct (GetLeafHash _ _) as [[h|]|e]; by intros [= <- _].
  - destruct (Lru.hit _ _) as [[h c]|]; by intros [= <- _].
Qed.

Lemma ok_set_tree l es tr :
  ok l es -> Tree.ok tr (map Entry.LeafHash es) -> Tree.leafStore tr = store l -> ok (set_tree l tr) es.
Proof. intros [S M R T Ch Wi Re U] T' E. split; unfold store in *; cbn [set_tree tree]; by rewrite ?E. Qed.

Lemma ok_inclusion l es i n l' r : ok l es -> InclusionProof l i n = (l', r) -> ok l' es.
Proof.
  intros O. unfold InclusionProof. destruct (Tree.InclusionProof i n (tree l)) as [tr x] eqn:E.
  intros [= <- _]. apply ok_set_tree; [done| |].
  - eapply InclusionProof_keeps_ok; [apply O|exact E].
  - by eapply (InclusionProof_keeps Tree.leafStore nodeHash_store).
Qed.

Lemma ok_consistency l es m n l' r :
  0 <= m -> ok l es -> ConsistencyProof l m n = (l', r) -> ok l' es.
Proof.
  intros Hm O. unfold ConsistencyProof. destruct (Tree.ConsistencyProof m n (tree l)) as [tr x] eqn:E.
  intros [= <- _]. apply ok_set_tree; [done| |].
  - eapply ConsistencyProof_keeps_ok; [done|apply O|exact E].
  - by eapply (ConsistencyProof_keeps Tree.leafStore nodeHash_store).
Qed.

(** *** Start-up *)

(** Midway through [replay] of [es], [es1] of it done; [m0] is the database at
    the start. *)
Record replaying (m0 : gmap bytes value) (es : list Entry.t) (l : t) (es1 : list Entry.t) : Prop := {
  rp_stores : Store.stores (view (Store.db (store l))) es;
  rp_mirror : Store.mirrored (view (Store.db (store l))) es1;
  rp_readable : readable (Store.db (store l));
  rp_tree : Tree.ok (LSt := leafStoreAdapter) (tree l) (map Entry.LeafHash es1);
  rp_chain : Entry.chain None es1;
  rp_foreign : forall k, Store.foreign k -> view (Store.db (store l)) !! k = m0 !! k;
}.

(** Missing leaves can be written, or none is missing. *)
Definition can_backfill (l : t) (es : list Entry.t) : Prop :=
  writable (Store.db (store l)) \/ Store.mirrored (view (Store.db (store l))) es.

Lemma sealed_at es i e : Forall Store.sealed es -> es !! i = Some e -> Store.sealed e.
Proof. intros F Hi. by eapply Forall_lookup_1. Qed.

(** What a leaf read finds: nothing, or this entry's leaf. *)
Lemma GetLeafHash_stored (s : Store.t) es i e :
  readable (Store.db s) -> Store.stores (view (Store.db s)) es -> es !! i = Some e ->
  (Store.GetLeafHash s (Z.of_nat i) = Ok None /\ view (Store.db s) !! leafKey (Z.of_nat i) = None) \/
  (Store.GetLeafHash s (Z.of_nat i) = Ok (Some (Entry.LeafHash e)) /\
   view (Store.db s) !! leafKey (Z.of_nat i) = Some (VBytes (Entry.LeafHash e))).
Proof.
  intros R S Hi. unfold Store.GetLeafHash. rewrite (Store.get_readable s _ R).
  pose proof (lookup_lt_Some _ _ _ Hi) as Hl. pose proof (Store.st_small _ _ S) as Hb.
  destruct (view _ !! leafKey _) as [v|] eqn:E; [right|by left].
  destruct (Store.st_leaf _ _ S (Z.of_nat i) v) as (e' & He' & ->);
    [unfold is_u64, len in *; lia|done|]. rewrite Nat2Z.id, Hi in He'. injection He' as <-.
  split; [|done]. cbn [res_bind value_bytes]. rewrite bool_decide_eq_false_2; [done|].
  destruct (sealed_at es i e (Store.st_sealed _ _ S) Hi) as [_ L]. intros X. by rewrite X in L.
Qed.

Lemma backfill_inv m0 es l es1 e es2 l' r :
  replaying m0 es l es1 -> es = es1 ++ e :: es2 -> Entry.Index e = len es1 ->
  backfill l e = (l', r) ->
  (r = Ok tt -> Store.stores (view (Store.db (store l'))) es /\
    Store.mirrored (view (Store.db (store l'))) (es1 ++ [e]) /\ readable (Store.db (store l')) /\
    (forall k, Store.foreign k -> view (Store.db (store l')) !! k = m0 !! k) /\
    tree l' = tree (set_store l (store l'))) /\
  (can_backfill l es -> r = Ok tt /\ can_backfill l' es).
Proof.
  intros RP Hes Hidx. destruct RP as [S M R T Ch F].
  assert (es !! length es1 = Some e) as He by (rewrite Hes; by apply list_lookup_middle).
  assert (forall m, Store.mirrored m es1 -> m !! leafKey (Z.of_nat (length es1)) = Some (VBytes (Entry.LeafHash e)) ->
    Store.mirrored m (es1 ++ [e])) as Msnoc.
  { intros m Mm Hm i x Hx. apply lookup_app_Some in Hx as [Hx|[Hge Hx]]; [by apply Mm|].
    assert (i - length es1 = 0)%nat as Hz by (apply lookup_lt_Some in Hx; simpl in Hx; lia).
    rewrite Hz in Hx. injection Hx as <-. by replace i with (length es1) by lia. }
  unfold backfill. rewrite Hidx. unfold len.
  destruct (GetLeafHash_stored (store l) es (length es1) e R S He) as [[E Hn]|[E Hv]]; rewrite E.
  - unfold Store.PutLeafHash. destruct (Store.commit _ _) as [s x] eqn:Ec. intros [= <- <-].
    pose proof (Store.commit_cases _ _ _ _ Ec) as [[_ R'] V]. split.
    + destruct V as [[-> V]|[[y ->] _]]; [|done]. intros _. change (store (set_store l s)) with s.
      rewrite V. unfold apply_writes. cbn [foldl apply_write w_val w_key set_key]. split_and!.
      * by apply Store.stores_leaf.
      * apply Msnoc; [|by rewrite lookup_insert_eq]. intros i y Hy.
        destruct (decide (i = length es1)) as [->|Hne]; [apply lookup_lt_Some in Hy; lia|].
        rewrite lookup_insert_ne; [by apply M|]. intros X%Store.leafKey_inj; [lia|..];
          apply lookup_lt_Some in Hy; apply lookup_lt_Some in He; pose proof (Store.st_small _ _ S);
          unfold is_u64, len in *; lia.
      * by apply R'.
      * intros k Hk. rewrite lookup_insert_ne by (destruct Hk as (_ & _ & _ & Hk & _); by intros ?; eapply Hk).
        by apply F.
      * done.
    + intros [W|Mall]; [|by rewrite (Mall _ _ He) in Hn].
      destruct (Store.commit_healthy (store l)
        [set_key (leafKey (Z.of_nat (length es1))) (VBytes (Entry.LeafHash e))]) as (s' & Ec' & [_ W'] & _); [done|].
      rewrite Ec in Ec'. injection Ec' as -> ->. split; [done|by left].
  - intros [= <- <-]. split; [|done]. intros _. split_and!; try done; [by apply Msnoc|].
    unfold set_store, store. by destruct l as [[] ? ? ?].
Qed.

Lemma replay_entry_inv m0 es l es1 e es2 st r :
  replaying m0 es l es1 -> es = es1 ++ e :: es2 ->
  replay_entry (l, last es1, len es1) e = (st, r) ->
  (r = Ok tt -> exists l', st = (l', Some e, len es1 + 1) /\ replaying m0 es l' (es1 ++ [e])) /\
  (can_backfill l es -> Entry.chain None es ->
    exists l', st = (l', Some e, len es1 + 1) /\ r = Ok tt /\ can_backfill l' es).
Proof.
  intros RP Hes. cbn [replay_entry].
  assert (len es1 + 1 < 2 ^ 63) as Hb.
  { pose proof (Store.st_small _ _ (rp_stores _ _ _ _ RP)) as X. rewrite Hes in X.
    unfold len in *. rewrite length_app in X. simpl in X. lia. }
  assert (Entry.chain None es -> Entry.chain None (es1 ++ [e])) as Hch.
  { intros X. rewrite Hes, (app_assoc es1 [e] es2 : es1 ++ e :: es2 = _) in X. by apply Entry.entry_chain_app in X as [? _]. }
  destruct (Entry.Verify e) as [[]|x1] eqn:E1.
  2:{ intros [= <- <-]. split; [done|]. intros _ X%Hch%Entry.entry_chain_snoc. destruct X as (_ & X & _). congruence. }
  destruct (Entry.VerifyChain e (last es1)) as [[]|x2] eqn:E2.
  2:{ intros [= <- <-]. split; [done|]. intros _ X%Hch%Entry.entry_chain_snoc. destruct X as (_ & _ & X). congruence. }
  assert (Entry.chain None (es1 ++ [e])) as Ch by (apply Entry.entry_chain_snoc; split_and!; [apply RP|done|done]).
  assert (Entry.Index e = len es1) as Hidx by (apply Entry.entry_chain_index; [done|lia]).
  destruct (backfill l e) as [l1 r1] eqn:E3.
  destruct (backfill_inv m0 es l es1 e es2 l1 r1 RP Hes Hidx E3) as [Hok Hcan].
  destruct r1 as [[]|x3]; [|intros [= <- <-]; split; [done|]; intros HC _; by destruct (Hcan HC)].
  destruct (Hok eq_refl) as (S1 & M1 & R1 & F1 & T1).
  destruct (append_tree_entry l es1 (store l1) e (rp_tree _ _ _ _ RP)) as (tr & i & Et & Ot & Es); [|done|].
  { apply (holds_prefix _ _ es2); [done| |done]. rewrite <- app_assoc. cbn [app]. by rewrite <- Hes. }
  rewrite T1, Et. intros [= <- <-]. split.
  - intros _. eexists. split; [done|]. split; unfold store in *; cbn [set_tree tree]; by rewrite ?Es.
  - intros HC _. eexists. split; [done|]. split; [done|]. destruct (Hcan HC) as [_ HC1].
    unfold can_backfill, store in *. cbn [set_tree tree]. by rewrite Es.
Qed.

Lemma for_each_replay m0 es es2 : forall l es1 st r,
  replaying m0 es l es1 -> es = es1 ++ es2 ->
  Store.for_each replay_entry es2 (l, last es1, len es1) = (st, r) ->
  (r = Ok tt -> exists l', st = (l', last es, len es) /\ replaying m0 es l' es) /\
  (can_backfill l es -> Entry.chain None es -> r = Ok tt).
Proof.
  induction es2 as [|e es2 IH]; intros l es1 st r RP Hes.
  - rewrite app_nil_r in Hes. subst es1. intros [= <- <-]. split; [|done]. intros _. by exists l.
  - cbn [Store.for_each]. destruct (replay_entry (l, last es1, len es1) e) as [st1 r1] eqn:E.
    destruct (replay_entry_inv m0 es l es1 e es2 st1 r1 RP Hes E) as [Hok Hcan].
    destruct r1 as [[]|x].
    + destruct (Hok eq_refl) as (l1 & -> & RP1). intros F.
      assert (es = (es1 ++ [e]) ++ es2) as Hes' by (by rewrite <- app_assoc).
      assert (len (es1 ++ [e]) = len es1 + 1) as Hl by (unfold len; rewrite length_app; simpl; lia).
      destruct (IH l1 (es1 ++ [e]) st r RP1 Hes') as [I1 I2]; [by rewrite last_snoc, Hl|].
      split; [done|]. intros HC Ch. destruct (Hcan HC Ch) as (l2 & [= <-] & _ & HC2). by apply I2.
    + intros [= <- <-]. split; [done|]. intros HC Ch. by destruct (Hcan HC Ch) as (? & _ & ? & _).
Qed.

Lemma visit_ctx {S} ctx n m items (fn : S -> Entry.t -> S * res unit) st st' u :
  Store.visit ctx n items fn st = (st', Ok u) -> Store.visit (fun _ => None) m items fn st = (st', Ok u).
Proof.
  revert n m st. induction items as [|[k v] items IH]; intros n m st; cbn [Store.visit]; [done|].
  destruct (ctx n); [done|]. destruct (Unmarshal v); [|done].
  destruct (fn st a) as [st1 [y|y]]; [apply IH|done].
Qed.

(** The log [New] builds before [replay]. *)
Definition fresh (s : Store.t) (sg : CheckpointSigner.t) (enr : bool) (mi ml : Z) : t :=
  mk (Tree.NewBoundedTreeWithStore (LSt := leafStoreAdapter) mi ml s) sg enr ∅.

Lemma replay_spec s es ctx sg enr mi ml l r :
  readable (Store.db s) -> Store.stores (view (Store.db s)) es ->
  replay ctx (fresh s sg enr mi ml) = (l, r) ->
  (r = Ok tt -> replaying (view (Store.db s)) es l es) /\
  (can_backfill (fresh s sg enr mi ml) es -> Entry.chain None es -> (forall n, ctx n = None) -> r = Ok tt).
Proof.
  intros R S. unfold replay. change (store (fresh s sg enr mi ml)) with s.
  assert (replaying (view (Store.db s)) es (fresh s sg enr mi ml) []) as RP0
    by (split; try done; apply Tree.New_ok).
  assert (0 <= 0 <= len es) as H0 by (unfold len; lia).
  pose proof (Store.IterateEntries_spec s es 0 replay_entry (fresh s sg enr mi ml, None, 0) S H0) as Hspec.
  rewrite drop_0 in Hspec.
  assert (len es < 2 ^ 63) as Hb by apply (Store.st_small _ _ S).
  assert (forall l', replaying (view (Store.db s)) es l' es ->
    (wrap64 (len es) =? Tree.Size (tree l')) = true) as Hcount.
  { intros l' RP. rewrite (Tree.ok_size _ _ (rp_tree _ _ _ _ RP)), len_map.
    unfold wrap64. rewrite Z.mod_small by (unfold len in *; lia). apply Z.eqb_refl. }
  destruct (Store.IterateEntries s ctx 0 replay_entry (fresh s sg enr mi ml, None, 0)) as [[[l1 p1] c1] [[]|x]] eqn:EI.
  - unfold Store.IterateEntries in EI. apply (visit_ctx _ _ 0) in EI.
    fold (Store.IterateEntries s (fun _ => None) 0 replay_entry (fresh s sg enr mi ml, None, 0)) in EI.
    rewrite Hspec in EI.
    destruct (for_each_replay (view (Store.db s)) es es _ [] _ _ RP0 eq_refl EI) as [Hok _].
    destruct (Hok eq_refl) as (l' & [= -> -> ->] & RP). rewrite (Hcount l' RP). cbn [negb].
    intros [= <- <-]. split; [done|]. done.
  - intros [= <- <-]. split; [done|]. intros HC Ch Hctx.
    destruct (Store.for_each replay_entry es (fresh s sg enr mi ml, None, 0)) as [st r] eqn:EF.
    destruct (for_each_replay (view (Store.db s)) es es _ [] _ _ RP0 eq_refl EF) as [_ Hgo].
    rewrite (Hgo HC Ch) in Hspec. unfold Store.IterateEntries in EI, Hspec.
    assert (forall items n m st0, Store.visit ctx n items replay_entry st0 =
      Store.visit (fun _ => None) m items replay_entry st0) as X.
    { induction items as [|[k v] items IH]; intros n m st0; cbn [Store.visit]; [done|]. rewrite Hctx.
      destruct (Unmarshal v); [|done]. by destruct (replay_entry st0 a) as [st2 [y|y]]. }
    rewrite (X _ 0%nat 0%nat), Hspec in EI. done.
Qed.

(** The replay keys and uniqueness of a stored log, which [replay] does not
    rebuild. *)
Definition recorded (m : gmap bytes value) (es : list Entry.t) : Prop :=
  (forall h, h ∈ map Entry.env_hash es -> is_Some (m !! replayKey h)) /\ NoDup (map Entry.env_hash es).

(** It keeps the store's window. *)
Lemma replay_entry_ttl l p n e st r :
  replay_entry (l, p, n) e = (st, r) -> Store.replayTTL (store st.1.1) = Store.replayTTL (store l).
Proof.
  unfold replay_entry. destruct (Entry.Verify e) as [[]|]; [|by intros [= <- _]].
  destruct (Entry.VerifyChain e p) as [[]|]; [|by intros [= <- _]]. unfold backfill, Store.PutLeafHash.
  assert (forall l1 : t, match Tree.AppendLeafHash (tree l1) (Entry.LeafHash e) with
    | Some (tr, _) => Store.replayTTL (store (set_tree l1 tr)) = Store.replayTTL (store l1) | None => True end) as X.
  { intros l1. destruct (Tree.AppendLeafHash _ _) as [[tr i]|] eqn:E; [|done].
    unfold store. cbn [set_tree tree]. by rewrite (AppendLeafHash_store _ _ _ _ E). }
  destruct (Store.GetLeafHash _ _) as [[h|]|x].
  - specialize (X l). destruct (Tree.AppendLeafHash _ _) as [[tr i]|]; by intros [= <- _].
  - destruct (Store.commit _ _) as [s y] eqn:Ec. apply Store.commit_cases in Ec as [[Et _] _].
    destruct y as [u|y]; [|by intros [= <- _]]. specialize (X (set_store l s)).
    destruct (Tree.AppendLeafHash _ _) as [[tr i]|]; intros [= <- _]; [|done]. etrans; [exact X|exact Et].
  - by intros [= <- _].
Qed.

Lemma visit_ttl ctx items : forall n l p k st r,
  Store.visit ctx n items replay_entry (l, p, k) = (st, r) -> Store.replayTTL (store st.1.1) = Store.replayTTL (store l).
Proof.
  induction items as [|[k v] items IH]; intros n l p c st r; cbn [Store.visit]; [by intros [= <- _]|].
  destruct (ctx n); [by intros [= <- _]|]. destruct (Unmarshal v) as [e|]; [|by intros [= <- _]].
  destruct (replay_entry (l, p, c) e) as [[[l1 p1] c1] [y|y]] eqn:E; apply replay_entry_ttl in E; cbn in E.
  - intros V%IH. by rewrite V.
  - by intros [= <- _].
Qed.

Lemma replay_ttl ctx l l' r : replay ctx l = (l', r) -> Store.replayTTL (store l') = Store.replayTTL (store l).
Proof.
  unfold replay, Store.IterateEntries. destruct (Store.visit _ _ _ _ _) as [[[l1 p] c] x] eqn:E.
  apply visit_ttl in E. cbn in E. repeat case_match; by intros [= <- _].
Qed.

Lemma replaying_ok m0 es l :
  replaying m0 es l es -> (lasting -> Store.replayTTL (store l) <= 0 /\ recorded m0 es) -> ok l es.
Proof.
  intros [S M R T Ch F] Re. split; try done; intros HP; destruct (Re HP) as (W & Hr & Hu); try done.
  intros h Hh. rewrite F by apply Store.replay_foreign. by apply Hr.
Qed.

(** *** Start-up on any database *)

Lemma AppendLeafHash_range (tr tr' : Tree.t (LSt := leafStoreAdapter)) l h i :
  range_of (Tree.rng tr) l -> Tree.AppendLeafHash tr h = Some (tr', i) -> range_of (Tree.rng tr') (l ++ [h]).
Proof.
  intros R E. unfold Tree.AppendLeafHash in E.
  change (Tree.rng (Tree.putNode tr (NewNodeID 0 (RangeEnd (Tree.rng tr))) h)) with (Tree.rng tr) in E.
  destruct (range_of_append (Tree.rng tr) l h R) as (r & vis & Er & R' & _). rewrite Er in E.
  by injection E as <- _.
Qed.

Lemma backfill_rng l e l' r : backfill l e = (l', r) -> Tree.rng (tree l') = Tree.rng (tree l).
Proof.
  unfold backfill, Store.PutLeafHash. destruct (Store.GetLeafHash _ _) as [[h|]|x]; [by intros [= <- _]| |by intros [= <- _]].
  destruct (Store.commit _ _) as [s y]. by intros [= <- _].
Qed.

Lemma visit_replay ctx items : forall n l es1 st u,
  Entry.chain None es1 -> range_of (Tree.rng (tree l)) (map Entry.LeafHash es1) ->
  Store.visit ctx n items replay_entry (l, last es1, len es1) = (st, Ok u) ->
  exists es2, items.*2 = VEntry <$> es2 /\ Entry.chain None (es1 ++ es2) /\
    range_of (Tree.rng (tree st.1.1)) (map Entry.LeafHash (es1 ++ es2)) /\ st.2 = len (es1 ++ es2).
Proof.
  induction items as [|[k v] items IH]; intros n l es1 st u Ch Rg; cbn [Store.visit].
  { intros [= <- _]. exists []. by rewrite app_nil_r. }
  destruct (ctx n); [done|]. destruct (Unmarshal v) as [e|] eqn:Eu; [|done].
  assert (v = VEntry e) as ->.
  { destruct v as [e'| | | | |]; try done. cbn [Unmarshal] in Eu. by res_inv Eu; subst. }
  cbn [replay_entry].
  destruct (Entry.Verify e) as [[]|] eqn:E1; [|done]. destruct (Entry.VerifyChain e (last es1)) as [[]|] eqn:E2; [|done].
  destruct (backfill l e) as [l1 [y|y]] eqn:E3; [|done].
  destruct (Tree.AppendLeafHash (tree l1) (Entry.LeafHash e)) as [[tr i]|] eqn:E4; [|done].
  assert (len (es1 ++ [e]) = len es1 + 1) as Hl by (unfold len; rewrite length_app; simpl; lia).
  intros V. destruct (IH (S n) (set_tree l1 tr) (es1 ++ [e]) st u) as (es2 & I1 & I2 & I3 & I4).
  - by apply Entry.entry_chain_snoc.
  - rewrite map_app. eapply AppendLeafHash_range; [|exact E4]. by rewrite (backfill_rng _ _ _ _ E3).
  - by rewrite last_snoc, Hl.
  - exists (e :: es2). rewrite <- app_assoc in I2, I3, I4. cbn [fmap list_fmap snd]. by rewrite I1.
Qed.

Lemma range_root (tr : Tree.t (LSt := leafStoreAdapter)) l :
  range_of (Tree.rng tr) l -> Tree.Size tr = len l /\ Tree.Root tr = Some (MTH l).
Proof.
  intros R. pose proof (range_of_end _ _ R) as E. split; [done|]. unfold Tree.Root, Tree.Size. rewrite E.
  destruct l as [|x l]; [done|]. rewrite (proj2 (Z.eqb_neq _ _)) by (unfold len; simpl; lia).
  by apply range_of_root.
Qed.

(** *** Who may append *)

Definition permitted (l : t) (now : Z) (env : Envelope.t) : Prop :=
  Envelope.valid env /\ exists p,
    view (Store.db (store l)) !! producerKey (Envelope.ProducerID env) = Some (VProducer p) /\
    Producer.Revoked p = false /\ Producer.PublicKey p = Envelope.PublicKey env /\
    (Producer.QuantumPublicKey p <> [] -> Producer.QuantumPublicKey p = Envelope.QuantumPublicKey env) /\
    (requireEnrollment l = true ->
      let chain := Signer.chain (CheckpointSigner.fws (signer l)) in
      Producer.IsExpired p now = false /\
      Producer.enrollment_valid p (Chain.PublicKeyAt chain) (Chain.QuantumPublicKeyAt chain)).

Lemma bind_iff {A D} (r : res A) (k : A -> res D) y :
  res_bind r k = Ok y <-> exists x, r = Ok x /\ k x = Ok y.
Proof. destruct r as [x|e]; cbn; naive_solver. Qed.

Lemma wrap_unit_iff m (r : res unit) : (exists x, wrap_err m r = Ok x) <-> r = Ok tt.
Proof. destruct r as [[]|e]; cbn; naive_solver. Qed.

Lemma hybrid_bound_iff (pq eq : bytes) m1 m2 :
  (if 0 <? len pq then
     fail_if len eq =? 0 with m1 ;; fail_if negb (bytesEqual pq eq) with m2 ;; Ok tt
   else Ok tt) = Ok tt <-> (pq <> [] -> pq = eq).
Proof.
  destruct (0 <? len pq) eqn:Q.
  - apply len_pos in Q. etrans; [eapply guard_iff; [apply len_zero_eqb|]; eapply guard_iff;
      [apply Producer.neq_guard|reflexivity]|].
    split; [by intros (_ & ? & _)|]. intros X. split_and!; [rewrite <- X by done; done|by apply X|done].
  - apply len_zero in Q. by subst.
Qed.

Lemma enrollment_gate_iff (req : bool) p now c q m1 m2 m3 :
  (if req then
     fail_if negb (Producer.HasEnrollment p) with m1 ;; fail_if Producer.IsExpired p now with m2 ;;
     wrap_err m3 (Producer.VerifyEnrollment p c q)
   else Ok tt) = Ok tt <->
  (req = true -> Producer.IsExpired p now = false /\ Producer.enrollment_valid p c q).
Proof.
  destruct req; [|done]. etrans; [eapply guard_iff; [apply negb_false_iff|]; eapply guard_iff; [reflexivity|];
    rewrite wrap_err_ok; apply Producer.VerifyEnrollment_iff|].
  split; [by intros (_ & ? & ?)|]. intros X. destruct (X eq_refl) as [? V]. split_and!; [|done|done].
  destruct V as [L _]. unfold Producer.HasEnrollment. by rewrite L.
Qed.

Lemma unit_bind_iff {D} (r : res unit) (k : res D) y P :
  (r = Ok tt <-> P) -> (let! _ := r in k) = Ok y <-> P /\ k = Ok y.
Proof. intros <-. destruct r as [[]|e]; cbn; naive_solver. Qed.

Lemma authorise_iff l now env v :
  readable (Store.db (store l)) ->
  authorise l now (Some env) = Ok v <-> v = env /\ permitted l now env.
Proof.
  intros R. unfold authorise, permitted, Store.GetProducer. rewrite (Store.get_readable _ _ R).
  rewrite (unit_bind_iff _ _ _ (Envelope.valid env)) by (rewrite wrap_err_ok; apply Envelope.Verify_valid).
  cbn [res_bind].
  destruct (view _ !! _) as [[e|p|w|c|r|b]|] eqn:E; cbn [Store.value_producer res_bind];
    try (split; [by intros [_ ?]|by intros (_ & _ & p & ? & _)]).
  rewrite (guard_iff _ _ _ _ (Producer.Revoked p = false)) by (done || reflexivity).
  rewrite (guard_iff _ _ _ _ _ _ (Producer.neq_guard _ _)) by reflexivity.
  rewrite (unit_bind_iff _ _ _ _ (hybrid_bound_iff _ _ _ _)).
  rewrite (unit_bind_iff _ _ _ _ (enrollment_gate_iff _ _ _ _ _ _ _ _)).
  split.
  - intros (? & ? & ? & ? & ? & [= <-]). split; [done|]. split; [done|]. exists p. by split_and!.
  - intros (-> & ? & p' & [= <-] & ? & ? & ? & ?). by split_and!.
Qed.

(** *** The log as a step system

    Every call a client, operator or timer can make, in any order and with any
    outcome of the database's writes.  An append is its locked section: the
    checks before the lock may have run against any earlier state.  While the
    store has a replay window, replay records may expire at any time. *)
Inductive step : t -> t -> Prop :=
| step_append l now env hp l' r :
    Envelope.Verify env = Ok tt -> Size l + 1 < 2 ^ 63 ->
    append_locked l now env hp = (l', r) -> step l l'
| step_register l now p l' r : RegisterProducer l now p = (l', r) -> step l l'
| step_revoke l now id reason l' r : RevokeProducer l now id reason = (l', r) -> step l l'
| step_issue l now req l' r : IssueEnrollment l now req = (l', r) -> step l l'
| step_begin l now1 now2 id nonce req l' r :
    BeginEnrollment l now1 now2 id nonce req = (l', r) -> step l l'
| step_confirm l now1 now2 id sig qsig l' r :
    ConfirmEnrollment l now1 now2 id sig qsig = (l', r) -> step l l'
| step_janitor l now : step l (janitor_tick l now)
| step_witness l w l' r : RegisterWitness l w = (l', r) -> step l l'
| step_inclusion l i n l' r : InclusionProof l i n = (l', r) -> step l l'
| step_consistency l m n l' r : 0 <= m -> ConsistencyProof l m n = (l', r) -> step l l'
| step_checkpoint l io l' r : CheckpointCtx l io = (l', r) -> step l l'
| step_anchor l ps l' r : Anchor l ps = (l', r) -> step l l'
| step_rotate l now gen wr io1 io2 l' r : Rotate l now gen wr io1 io2 = (l', r) -> step l l'
| step_restart l ctx sg enr mi ml l' :
    New ctx (Some (store l)) (Some sg) enr mi ml = Ok (l', Ok tt) -> step l l'
| step_expire l s : Store.expires (store l) s -> step l (set_store l s).

(** A log started on an empty database. *)
Definition start (l : t) : Prop :=
  exists ctx s sg enr mi ml, readable (Store.db s) /\ view (Store.db s) = ∅ /\
    New ctx (Some s) (Some sg) enr mi ml = Ok (l, Ok tt).

Lemma log_New_ok s es ctx sg enr mi ml l :
  readable (Store.db s) -> Store.stores (view (Store.db s)) es ->
  (lasting -> Store.replayTTL s <= 0 /\ recorded (view (Store.db s)) es) ->
  New ctx (Some s) (Some sg) enr mi ml = Ok (l, Ok tt) -> ok l es.
Proof.
  intros R S Re [= E]. change (replay ctx (fresh s sg enr mi ml) = (l, Ok tt)) in E.
  destruct (replay_spec s es ctx sg enr mi ml l _ R S E) as [X _]. eapply replaying_ok; [by apply X|].
  by rewrite (replay_ttl _ _ _ _ E).
Qed.

Lemma start_held l : start l -> (lasting -> Store.replayTTL (store l) <= 0) -> ok l [].
Proof.
  intros (ctx & s & sg & enr & mi & ml & R & V & E) W. eapply log_New_ok; [done| | |exact E]; rewrite V.
  - apply Store.empty_stores.
  - intros HP. split; [|split; [by intros h ?%elem_of_nil|constructor]].
    injection E as E. change (replay ctx (fresh s sg enr mi ml) = (l, Ok tt)) in E.
    apply replay_ttl in E. change (store (fresh s sg enr mi ml)) with s in E. rewrite <- E. by apply W.
Qed.

(** Expiry happens only where replay records are not meant to last. *)
Lemma ok_expire l es s : ok l es -> Store.expires (store l) s -> ok (set_store l s) es.
Proof.
  intros O X. apply ok_set_store; [done|by eapply Store.stores_expire; [|apply O]
    |by eapply Store.mirrored_expire; [|apply O]|by apply X, O|apply X|].
  intros HP%(ok_window _ _ O). pose proof (Store.ex_window _ _ X). lia.
Qed.

Lemma step_ok l es l' : ok l es -> step l l' -> ok l' es \/ exists e, ok l' (es ++ [e]).
Proof.
  intros O. inversion 1; subst.
  - destruct (append_locked_cases l es now env hp l' r) as [[_ ?]|[_ ?]]; eauto.
    + by apply Envelope.Verify_valid.
    + by rewrite <- (log_size l es O).
  - left. injection H0 as <- _. by eapply ok_register; [|apply surjective_pairing].
  - left. injection H0 as <- _. by eapply ok_revoke; [|apply surjective_pairing].
  - left. by eapply ok_issue.
  - left. by eapply ok_begin.
  - left. by eapply ok_confirm.
  - left. by apply (ok_same_tree l).
  - left. injection H0 as <- _. by eapply ok_register_witness; [|apply surjective_pairing].
  - left. by eapply ok_inclusion.
  - left. by eapply ok_consistency.
  - left. by eapply ok_checkpoint.
  - left. by eapply ok_anchor.
  - left. unfold Rotate in H0. destruct (Signer.Rotate _ _ _ _ _ _) as [f x]. injection H0 as <- _.
    by apply (ok_same_tree l).
  - left. eapply log_New_ok; [apply O|apply O| |exact H0]. intros HP. split; [|split]; by apply O.
  - left. by apply ok_expire.
Qed.

Lemma steps_ok l es l' : ok l es -> rtc step l l' -> exists es', ok l' es' /\ es `prefix_of` es'.
Proof.
  intros O S. revert es O. induction S as [l|l1 l2 l3 S1 _ IH]; intros es O; [by exists es|].
  destruct (step_ok l1 es l2 O S1) as [O2|[e O2]]; destruct (IH _ O2) as (es' & O3 & P); exists es'.
  - done.
  - split; [done|]. etrans; [|exact P]. by apply prefix_app_r.
Qed.

(** What callers can observe of a log that holds [es]. *)
Definition observes (l : t) (es : list Entry.t) : Prop :=
  Size l = len es /\ Root l = Some (MTH (map Entry.LeafHash es)) /\
  (forall i e, is_u64 i -> Get l i = Ok e <-> es !! Z.to_nat i = Some e) /\
  Entry.chain None es.

Lemma observes_unique l es1 es2 : ok l es1 -> observes l es2 -> es1 = es2.
Proof.
  intros O (Hs & _ & Hg & _). pose proof (log_size l es1 O) as Hl. unfold Size in Hs. rewrite Hs in Hl.
  pose proof (Store.st_small _ _ (ok_stores _ _ O)) as Hb.
  apply list_eq_same_length with (length es1); [unfold len in Hl; lia|done|].
  intros i x y Hi H1 H2.
  assert (is_u64 (Z.of_nat i)) as Hu by (unfold is_u64, len in *; lia).
  assert (Get l (Z.of_nat i) = Ok x) as G1
    by (apply (Store.GetEntry_iff _ es1); [apply O|apply O|done|by rewrite Nat2Z.id]).
  assert (Get l (Z.of_nat i) = Ok y) as G2 by (apply Hg; [done|by rewrite Nat2Z.id]). congruence.
Qed.

Lemma held_observes l es : ok l es -> observes l es.
Proof.
  intros O. split_and!.
  - by apply log_size.
  - unfold Root. by apply Tree.Root_ok, O.
  - intros i e Hi. by apply Store.GetEntry_iff; [apply O|apply O|].
  - apply O.
Qed.

(** *** Checkpoints *)

(** The trusted-key check on a returned witness signature. *)
Definition vouched (c : Checkpoint.t) (witnesses : list Witness.t) (sig : WitnessSig.t) : Prop :=
  exists w, w ∈ witnesses /\ Witness.ID w = WitnessSig.WitnessID sig /\
    WitnessSig.PublicKey sig = Witness.PublicKey w /\
    ed_verify (Witness.PublicKey w) (Checkpoint.CanonicalForWitness c) (WitnessSig.Signature sig) = true.

Lemma trusted_key_in ws id : trusted_key ws id <> [] ->
  exists w, w ∈ ws /\ Witness.ID w = id /\ trusted_key ws id = Witness.PublicKey w.
Proof.
  induction ws as [|w ws IH]; cbn [trusted_key]; [done|]. case_bool_decide as E.
  - intros _. exists w. split; [left|done].
  - intros N. destruct (IH N) as (w' & Hin & ?). exists w'. split; [by right|done].
Qed.

Lemma validateWitnessSig_vouched c sig ws : validateWitnessSig c sig ws = Ok tt -> vouched c ws sig.
Proof.
  intros V. unfold validateWitnessSig in V. res_inv V. apply bool_decide_eq_false in E.
  destruct (trusted_key_in ws _ E) as (w & Hin & Hid & Ek). rewrite Ek in *.
  apply negb_false_iff, bytesEqual_spec in E0. apply negb_false_iff in E1.
  exists w. by split_and!.
Qed.

Definition add_witnesses (c : Checkpoint.t) (sigs : list WitnessSig.t) : Checkpoint.t :=
  foldl Checkpoint.add_witness c sigs.

Lemma add_witness_vouched c w ws sig : vouched (Checkpoint.add_witness c w) ws sig <-> vouched c ws sig.
Proof. done. Qed.

Lemma add_witnesses_verify c sigs chain root group :
  Checkpoint.Verify (add_witnesses c sigs) chain root group = Checkpoint.Verify c chain root group /\
  Checkpoint.signed_fields (add_witnesses c sigs) = Checkpoint.signed_fields c /\
  Checkpoint.Witnesses (add_witnesses c sigs) = Checkpoint.Witnesses c ++ sigs.
Proof.
  revert c. induction sigs as [|w sigs IH]; intros c; [by rewrite app_nil_r|].
  change (add_witnesses c (w :: sigs)) with (add_witnesses (Checkpoint.add_witness c w) sigs).
  destruct (IH (Checkpoint.add_witness c w)) as (-> & -> & ->). split_and!; [done|done|].
  cbn. by rewrite <- app_assoc.
Qed.

Lemma collect_spec ws rs : forall c st c' st',
  collect c ws st rs = (c', st') -> exists sigs, c' = add_witnesses c sigs /\ Forall (vouched c ws) sigs.
Proof.
  induction rs as [|[id [sig|e]] rs IH]; intros c st c' st'; cbn [collect].
  - intros [= <- _]. by exists [].
  - destruct (validateWitnessSig c sig ws) as [[]|x] eqn:V; intros E.
    + destruct (IH _ _ _ _ E) as (sigs & -> & F). exists (sig :: sigs). split; [done|].
      constructor; [by apply validateWitnessSig_vouched|done].
    + by eapply IH.
  - apply IH.
Qed.

Lemma gather_spec l c rs c' r :
  GatherWitnessSignatures l c rs = (c', r) ->
  exists sigs, c' = add_witnesses c sigs /\
    Forall (fun sig => exists ws, ListWitnesses l = Ok ws /\ vouched c ws sig) sigs.
Proof.
  unfold GatherWitnessSignatures. destruct (ListWitnesses l) as [ws|x] eqn:L; [|intros [= <- _]; by exists []].
  destruct (len ws =? 0); [intros [= <- _]; by exists []|].
  destruct (collect c ws ∅ rs) as [c1 st] eqn:E. intros [= <- _].
  destruct (collect_spec ws rs _ _ _ _ E) as (sigs & -> & F). exists sigs. split; [done|].
  eapply Forall_impl; [exact F|]. intros sig V. by exists ws.
Qed.

Lemma signed_unwitnessed s now size root hd b arr c :
  CheckpointSigner.Sign s now size root hd b arr = Ok c -> Checkpoint.Witnesses c = [].
Proof.
  unfold CheckpointSigner.Sign. destruct (CheckpointSigner.threshGroup s) as [g|].
  - destruct (Coordinator.Sign _ _ _) as [sigs [u|e]]; [by intros [= <-]|done].
  - destruct (Signer.Sign _ _) as [[ep sig]|e]; cbn [res_bind]; [|done].
    destruct (Signer.Hybrid _); [|by intros [= <-]].
    destruct (wrap_err _ _) as [qsig|e]; cbn [res_bind]; [by intros [= <-]|done].
Qed.

(** Whoever signs, the checkpoint says what was asked. *)
Lemma sign_states s now size root hd b arr c :
  CheckpointSigner.Sign s now size root hd b arr = Ok c ->
  Checkpoint.Size c = size /\ Checkpoint.RootHash c = root /\ Checkpoint.HeadHash c = hd.
Proof.
  unfold CheckpointSigner.Sign. destruct (CheckpointSigner.threshGroup s) as [g|].
  - destruct (Coordinator.Sign _ _ _) as [sigs [u|e]]; [by intros [= <-]|done].
  - destruct (Signer.Sign _ _) as [[ep sig]|e]; cbn [res_bind]; [|done].
    destruct (Signer.Hybrid _); [|by intros [= <-]].
    destruct (wrap_err _ _) as [qsig|e]; cbn [res_bind]; [by intros [= <-]|done].
Qed.

Lemma add_witnesses_canonical c sigs : Checkpoint.CanonicalForWitness (add_witnesses c sigs) = Checkpoint.CanonicalForWitness c.
Proof. revert c. induction sigs as [|x sigs IH]; intros c; [done|]. exact (IH (Checkpoint.add_witness c x)). Qed.

(** What [CheckpointCtx] returns: what the signer made of the log's size, root
    and head, with countersignatures, and on record. *)
Lemma checkpoint_made l es io l' c :
  ok l es -> CheckpointCtx l io = (l', Ok c) ->
  ok l' es /\
  (exists c0 sigs, CheckpointSigner.Sign (signer l) (signTime io) (len es) (MTH (map Entry.LeafHash es)) (Store.head_of es)
    (fetched io) (arrivals io) = Ok c0 /\ c = add_witnesses c0 sigs) /\
  Checkpoint.Size c = len es /\ Checkpoint.RootHash c = MTH (map Entry.LeafHash es) /\
  Checkpoint.HeadHash c = Store.head_of es /\
  Forall (fun sig => exists ws, ListWitnesses l = Ok ws /\ vouched c ws sig) (Checkpoint.Witnesses c) /\
  LatestCheckpoint l' = Ok (if len es =? 0 then None else Some c).
Proof.
  intros O E. pose proof (ok_checkpoint l es io l' _ O E) as O'. split; [done|]. unfold CheckpointCtx in E.
  rewrite (Tree.Root_ok _ _ (ok_tree _ _ O)) in E. unfold Store.HeadHash in E.
  rewrite (Store.readHead_ok _ _ (ok_readable _ _ O) (ok_stores _ _ O)), (log_size l es O) in E.
  destruct (clock_refused _ _); [done|]. destruct (CheckpointSigner.Sign _ _ _ _ _ _ _) as [c0|] eqn:Es; [|done].
  destruct (GatherWitnessSignatures l c0 (results io)) as [c1 st] eqn:G.
  destruct (gather_spec l c0 (results io) c1 st G) as (sigs & -> & F).
  destruct (add_witnesses_verify c0 sigs None [] None) as (_ & Ef & Ew). injection Ef as _ Esz Er Eh _ _ _ _.
  destruct (sign_states _ _ _ _ _ _ _ _ Es) as (Hsz & Hr & Hh). unfold Store.SaveCheckpoint in E.
  destruct (Store.commit _ _) as [s [u|x]] eqn:Ec; [|done]. injection E as <- <-.
  apply Store.commit_cases in Ec as [_ [[_ Hv]|[[x ?] _]]]; [|done].
  split; [by exists c0, sigs|]. rewrite Esz, Er, Eh. split_and!; [done|done|done| |].
  - rewrite Ew, (signed_unwitnessed _ _ _ _ _ _ _ _ Es).
    eapply Forall_impl; [exact F|]. intros sig (ws & Hw & w & Hv'). exists ws. split; [done|]. exists w.
    by rewrite add_witnesses_canonical.
  - unfold LatestCheckpoint, Store.LatestCheckpoint, Store.Size.
    rewrite (Store.readSize_ok _ _ (ok_readable _ _ O') (ok_stores _ _ O')). cbn [res_bind].
    destruct (Z.eqb_spec (len es) 0) as [Ez|_]; [done|].
    rewrite (Store.GetCheckpoint_at _ (len es) (VCheckpoint (add_witnesses c0 sigs))); [done| |].
    + pose proof (Store.st_small _ _ (ok_stores _ _ O)). unfold is_u64, len in *. lia.
    + change (store (set_store l s)) with s. rewrite Hv, Esz, Hsz. unfold apply_writes.
      cbn [foldl apply_write set_key w_val w_key]. by rewrite lookup_insert_eq.
Qed.

(** A checkpoint that can be signed is made, on a database that takes writes. *)
Lemma checkpoint_goes l es io c0 :
  ok l es -> writable (Store.db (store l)) -> clock_refused (fetched io) (nowSec io) = false ->
  CheckpointSigner.Sign (signer l) (signTime io) (len es) (MTH (map Entry.LeafHash es)) (Store.head_of es)
    (fetched io) (arrivals io) = Ok c0 ->
  exists l' sigs, CheckpointCtx l io = (l', Ok (add_witnesses c0 sigs)) /\
    (GatherWitnessSignatures l c0 (results io)).1 = add_witnesses c0 sigs.
Proof.
  intros O W Hclock Es. unfold CheckpointCtx.
  rewrite (Tree.Root_ok _ _ (ok_tree _ _ O)). unfold Store.HeadHash.
  rewrite (Store.readHead_ok _ _ (ok_readable _ _ O) (ok_stores _ _ O)), (log_size l es O), Hclock, Es.
  destruct (GatherWitnessSignatures l c0 (results io)) as [c1 st] eqn:G.
  destruct (gather_spec l c0 (results io) c1 st G) as (sigs & -> & F). unfold Store.SaveCheckpoint.
  destruct (Store.commit_healthy (store l)
    [set_key (checkpointKey (Checkpoint.Size (add_witnesses c0 sigs))) (VCheckpoint (add_witnesses c0 sigs))])
    as (s & Ec & _); [split; [apply O|done]|].
  rewrite Ec. by exists (set_store l s), sigs.
Qed.

Lemma checkpoint_signed l es f io :
  ok l es -> writable (Store.db (store l)) -> signer l = CheckpointSigner.NewSigner f ->
  Signer.ok None f -> len (Chain.Certs (Signer.chain f)) <= 2 ^ 64 ->
  clock_refused (fetched io) (nowSec io) = false ->
  exists l' c, CheckpointCtx l io = (l', Ok c) /\
    Checkpoint.Verify c (Some (Signer.chain f)) (Signer.RootPublicKey f) None = Ok tt.
Proof.
  intros O W Hs Of Hc Hclock.
  destruct (CheckpointSigner.single_signed f (signTime io) (len es) (MTH (map Entry.LeafHash es))
    (Store.head_of es) (fetched io) Of Hc) as (c0 & Es & V & _).
  destruct (checkpoint_goes l es io c0 O W Hclock) as (l' & sigs & E & _); [by rewrite Hs|].
  exists l', (add_witnesses c0 sigs). split; [done|].
  destruct (add_witnesses_verify c0 sigs (Some (Signer.chain f)) (Signer.RootPublicKey f) None) as (-> & _).
  apply Checkpoint.checkpoint_Verify_iff. by left.
Qed.

(** *** Enrollment *)

(** The operator's signatures on a record of the active epoch verify against
    the published chain. *)
Lemma operator_sign_ok group f p m1 m2 m3 :
  Signer.ok group f -> len (Chain.Certs (Signer.chain f)) <= 2 ^ 64 ->
  Producer.OperatorEpoch p = Chain.ActiveEpoch (Signer.chain f) ->
  exists sig q qsig, operator_sign f p m1 m2 m3 = Ok (Producer.set_operator_sigs p sig q qsig) /\
    Producer.enrollment_valid (Producer.set_operator_sigs p sig q qsig)
      (Chain.PublicKeyAt (Signer.chain f)) (Chain.QuantumPublicKeyAt (Signer.chain f)).
Proof.
  intros O Hb He. destruct (Signer.active_key group f O Hb) as (k & pk & c & Ha & Hp & Hc & EP & EQ & Eq).
  set (canon := Producer.CanonicalEnrollment p).
  assert (forall q qsig, (qsig <> [] \/ q <> [] -> len qsig = d3_SignatureSize /\ len q = d3_PublicKeySize /\
      q = Chain.QuantumPublicKeyAt (Signer.chain f) (Producer.OperatorEpoch p) /\ d3_good q canon qsig) ->
    Producer.enrollment_valid (Producer.set_operator_sigs p (ed_sign pk canon) q qsig)
      (Chain.PublicKeyAt (Signer.chain f)) (Chain.QuantumPublicKeyAt (Signer.chain f))) as V.
  { intros q qsig Hq. split; [apply ed_sign_length|].
    assert (Chain.PublicKeyAt (Signer.chain f) (Producer.OperatorEpoch p) = ed_public pk) as Epk
      by (unfold Chain.PublicKeyAt; by rewrite He, Hc).
    split; [|split; [|exact Hq]]; cbn [Producer.set_operator_sigs Producer.OperatorEpoch]; rewrite Epk.
    - intros X. pose proof (ed_public_length pk) as L. by rewrite X in L.
    - apply ed_sign_verify. }
  unfold operator_sign. unfold Signer.Sign. rewrite Ha. unfold KeyStore.Sign. rewrite Hp. cbn [res_bind wrap_err].
  rewrite He, Z.eqb_refl. cbn [negb]. unfold Signer.Hybrid. rewrite Ha. unfold KeyStore.QuantumPublic.
  destruct (negb (bool_decide (KeyStore.qPub k = [])) && (0 <? len (Producer.QuantumPublicKey p))) eqn:Hh.
  - apply andb_true_iff in Hh as [Hh _]. apply negb_true_iff, bool_decide_eq_false in Hh.
    unfold Signer.QuantumSign. rewrite Ha. unfold KeyStore.QuantumSign. rewrite Eq in Hh.
    destruct (KeyStore.qPriv k) as [qk|]; [|done]. cbn [wrap_err res_bind].
    assert (Chain.QuantumPublicKeyAt (Signer.chain f) (Producer.OperatorEpoch p) = d3_public qk) as Eqk
      by (unfold Chain.QuantumPublicKeyAt; by rewrite He, Hc, EQ, Eq).
    rewrite <- He, Eqk. eexists _, _, _. split; [done|]. apply V. intros _. rewrite Eqk.
    split_and!; [apply d3_sign_length|apply d3_public_length|done|apply d3_sign_verify].
  - eexists _, _, _. split; [done|]. apply V. by intros [].
Qed.

Lemma register_ok l es now p :
  ok l es -> writable (Store.db (store l)) -> Producer.ID p <> [] ->
  len (Producer.PublicKey p) = PublicKeySize -> Producer.RegisteredAt p <> 0 ->
  exists l', register l now p = (l', Ok p) /\ ok l' es /\ pending l' = pending l /\
    Store.GetProducer (store l') (Producer.ID p) = Ok p.
Proof.
  intros O W Hid Hk Hr. destruct (register l now p) as [l' r] eqn:E.
  pose proof (ok_enroll l es now p l' r O E) as O'. unfold register, Store.RegisterProducer in E.
  rewrite bool_decide_eq_false_2, Hk, Z.eqb_refl in E by done. cbn [negb] in E.
  rewrite (proj2 (Z.eqb_neq _ _) Hr) in E.
  destruct (Store.commit_healthy (store l) [set_key (producerKey (Producer.ID p)) (VProducer p)])
    as (s & Ec & _ & _ & Hv); [split; [apply O|done]|].
  rewrite Ec in E. injection E as <- <-. eexists. split; [done|]. split; [done|]. split; [done|].
  unfold Store.GetProducer. rewrite (Store.get_readable _ _ (ok_readable _ _ O')).
  change (store (set_store l s)) with s. rewrite Hv. unfold apply_writes.
  cbn [foldl apply_write set_key w_val w_key]. by rewrite lookup_insert_eq.
Qed.

Lemma consented_ok p0 k qk :
  Producer.PublicKey p0 = ed_public k ->
  (Producer.QuantumPublicKey p0 <> [] -> Producer.QuantumPublicKey p0 = d3_public qk) ->
  exists p1, consented p0 (ed_sign k (Producer.ChallengeBytes p0)) (d3_sign qk (Producer.ChallengeBytes p0)) = Ok p1 /\
    Producer.consent_valid p1 /\
    p1 = Producer.set_challenge_sigs p0 (Producer.ChallengeSignature p1) (Producer.QuantumChallengeSignature p1).
Proof.
  intros Hk Hq. unfold consented. set (ch := Producer.ChallengeBytes p0).
  assert ((len (d3_sign qk ch) =? 0) = false) as E0 by (by rewrite d3_sign_length). rewrite E0, andb_false_r.
  set (p1 := Producer.set_challenge_sigs _ _ _).
  assert (Producer.consent_valid p1) as V.
  { split_and!; cbn [p1 Producer.set_challenge_sigs Producer.PublicKey Producer.ChallengeSignature
      Producer.QuantumPublicKey Producer.QuantumChallengeSignature]; rewrite ?Hk.
    - apply ed_public_length.
    - apply ed_sign_length.
    - apply ed_sign_verify.
    - intros Hne. rewrite (proj2 (len_pos _) Hne), (Hq Hne).
      split; [apply d3_sign_length|apply d3_sign_verify]. }
  exists p1. rewrite (proj2 (Producer.VerifyConsent_iff p1) V). done.
Qed.

(** The ceremony of a producer that holds its keys. *)
Lemma ceremony l es f req idRaw nonce now1 now2 now3 now4 k qk :
  ok l es -> writable (Store.db (store l)) -> CheckpointSigner.fws (signer l) = f ->
  Signer.ok None f -> len (Chain.Certs (Signer.chain f)) <= 2 ^ 64 ->
  r_ID req <> [] -> nonce <> [] -> now1 <> 0 ->
  r_PublicKey req = ed_public k -> (r_QuantumPublicKey req <> [] -> r_QuantumPublicKey req = d3_public qk) ->
  now3 <= now2 + defaultChallengeTTL ->
  exists l1 b l2 p,
    BeginEnrollment l now1 now2 (Ok idRaw) (Ok nonce) req = (l1, Ok b) /\
    ConfirmEnrollment l1 now3 now4 (ChallengeID b) (ed_sign k (ChallengeBytes b))
      (d3_sign qk (ChallengeBytes b)) = (l2, Ok p) /\
    Store.GetProducer (store l2) (r_ID req) = Ok p /\
    Producer.terms p = Producer.terms (requested req now1 (Chain.ActiveEpoch (Signer.chain f)) nonce) /\
    Producer.consent_valid p /\
    Producer.enrollment_valid p (Chain.PublicKeyAt (Signer.chain f)) (Chain.QuantumPublicKeyAt (Signer.chain f)) /\
    (forall n1 n2 s q, is_ok (ConfirmEnrollment l2 n1 n2 (ChallengeID b) s q).2 = false).
Proof.
  intros O W Hf Of Hb Hid Hn Ht Hk Hq Hdl.
  set (p0 := requested req now1 (Chain.ActiveEpoch (Signer.chain f)) nonce).
  set (ch := Producer.ChallengeBytes p0).
  assert (len (r_PublicKey req) = PublicKeySize) as Lk by (rewrite Hk; apply ed_public_length).
  assert ((len ch =? 0) = false) as Hch.
  { apply len_zero_eqb. unfold ch, Producer.ChallengeBytes, p0. cbn [requested Producer.ChallengeNonce].
    rewrite (proj2 (len_zero_eqb nonce) Hn). done. }
  set (l1 := set_pending l (<[hex idRaw := mk_pending idRaw p0 (now2 + defaultChallengeTTL)]> (pending l))).
  assert (BeginEnrollment l now1 now2 (Ok idRaw) (Ok nonce) req =
    (l1, Ok (mk_begin (hex idRaw) ch (now2 + defaultChallengeTTL)))) as EB.
  { unfold BeginEnrollment. rewrite bool_decide_eq_false_2, Lk by done. cbn [Z.eqb PublicKeySize].
    rewrite Hf. fold p0 ch. rewrite Hch. done. }
  assert (ok l1 es) as O1 by by apply (ok_same_tree l).
  destruct (consented_ok p0 k qk) as (p1 & Ec & V1 & T1); [done|done|].
  destruct (operator_sign_ok None f p1 "enrollment: operator sign" "enrollment: operator epoch drift"
    "enrollment: operator quantum sign" Of Hb) as (sig & q & qsig & Es & V2); [by rewrite T1|].
  set (p := Producer.set_operator_sigs p1 sig q qsig) in *.
  set (l2 := set_pending l1 (delete (hex idRaw) (pending l1))).
  assert (ok l2 es) as O2 by by apply (ok_same_tree l1).
  destruct (register_ok l2 es now4 p O2) as (l3 & Er & O3 & Hp3 & Hg);
    [done|unfold p; by rewrite T1|unfold p; cbn; rewrite T1; exact Lk|unfold p; by rewrite T1|].
  exists l1, (mk_begin (hex idRaw) ch (now2 + defaultChallengeTTL)), l3, p. split; [done|].
  cbn [ChallengeID ChallengeBytes]. split_and!.
  - unfold ConfirmEnrollment. unfold l1 at 1. cbn [set_pending pending]. rewrite lookup_insert_eq.
    cbn [expiresAt prod]. rewrite (proj2 (Z.ltb_ge _ _)) by done. fold l1. unfold ch. rewrite Ec.
    change (CheckpointSigner.fws (signer (set_pending l1 (delete (hex idRaw) (pending l1)))))
      with (CheckpointSigner.fws (signer l)). rewrite Hf, Es. exact Er.
  - assert (Producer.ID p = r_ID req) as <- by (unfold p; by rewrite T1). done.
  - unfold p. by rewrite T1.
  - unfold p. done.
  - done.
  - intros n1 n2 s qs. unfold ConfirmEnrollment. rewrite Hp3. unfold l2. cbn [set_pending pending].
    by rewrite lookup_delete_eq.
Qed.
End Log.

(** The invariant that needs nothing of the replay window. *)
Abbreviation ok := (held False).

Lemma start_ok `{BL : !BadgerLaws B, CRL : !CompactRangeLaws CR} {PL : ProofLib} {C : Crypto} {CL : CryptoLaws C} l :
  start l -> ok l [].
Proof. intros S. by apply start_held. Qed.

Lemma ok_observes `{BL : !BadgerLaws B, CRL : !CompactRangeLaws CR} {PL : ProofLib} {C : Crypto} {CL : CryptoLaws C} l es :
  ok l es -> observes l es.
Proof. apply held_observes. Qed.
End Log.
