(* ===== verification/CoreProps.v ===== *)
(** * Properties of the log

    The theorems about [Core], over every state its step system reaches and
    every behaviour of the database the laws of [Badger] allow, and the
    concrete log they are exercised on. *)

From S2P Require Import Prelude Crypto Attest Rfc6962 Merkle RefMerkle MerkleProps LogEntry Threshold Fwdsec.
From S2P Require Import Checkpoint Badger Storage Core.
From stdpp Require Import base numbers list gmap strings relations.
From Stdlib Require Import ZArith Lia.

#[local] Open Scope Z_scope.
#[local] Existing Instance rfc6962_hasher.

Section Props.
Context {B : Badger value} {CR : CompactRange} {PL : ProofLib} {C : Crypto}.
Context {BL : BadgerLaws B} {CRL : CompactRangeLaws CR} {PLL : ProofLibLaws PL} {CL : CryptoLaws C}.

Definition reachable (l : Log.t) : Prop := exists l0, Log.start l0 /\ rtc Log.step l0 l.

Lemma reachable_ok l : reachable l -> exists es, Log.ok l es.
Proof.
  intros (l0 & S & R). destruct (Log.steps_ok l0 [] l (Log.start_ok l0 S) R) as (es & O & _). by exists es.
Qed.

(** C1. The log is append-only.  Start it on an empty database and let appends,
    registrations, enrollments, proofs, checkpoints, rotations, restarts and the
    expiry of replay records happen in any order, with any database write
    failing: at every moment there is one list of entries that the size, the
    Merkle root and every [Get] agree on, it is a verified hash chain, and
    whatever happens next only extends it.  If the store is opened without a
    replay window (a TTL of 0, kept at every restart), no envelope ever occurs
    twice in it; with a window, as steled has by default, replay records expire
    and an envelope may be entered again after its window. *)
Theorem log_append_only l0 l l' :
  Log.start l0 -> rtc Log.step l0 l -> rtc Log.step l l' ->
  exists es es', Log.observes l es /\ Log.observes l' es' /\ es `prefix_of` es' /\
    (Store.replayTTL (Log.store l0) <= 0 -> NoDup (map Entry.env_hash es')).
Proof.
  intros S R1 R2. set (W := Store.replayTTL (Log.store l0) <= 0).
  destruct (Log.steps_ok (lasting := W) l0 [] l (Log.start_held l0 S (fun w => w)) R1) as (es & O & _).
  destruct (Log.steps_ok l es l' O R2) as (es' & O' & P).
  exists es, es'. split_and!; [by eapply Log.held_observes|by eapply Log.held_observes|done|apply O'].
Qed.

(** C4. What an append does, on every branch.  If [AppendCtx] returns an entry,
    the producer was permitted, the envelope was not on record, the entry is the
    next one of the chain over that envelope, and the log is the old one with it
    added; if it fails, for any reason, the log is what it was.  And while the
    database accepts writes, a permitted envelope that is not on record is never
    refused. *)
Theorem append_exact l now1 now2 env hp l' r :
  reachable l -> Log.Size l + 1 < 2 ^ 63 -> Log.AppendCtx l now1 now2 (Some env) hp = (l', r) ->
  exists es, Log.observes l es /\
  (match r with
   | Ok e => Log.permitted l now1 env /\
       view (Store.db (Log.store l)) !! replayKey (Envelope.Hash env) = None /\
       e = Log.next_entry now2 es env hp /\ Log.observes l' (es ++ [e])
   | Err _ => Log.observes l' es
   end) /\
  (writable (Store.db (Log.store l)) -> Log.permitted l now1 env ->
   view (Store.db (Log.store l)) !! replayKey (Envelope.Hash env) = None -> is_ok r = true).
Proof.
  intros [es O]%reachable_ok Hb A. exists es. split; [by apply Log.ok_observes|].
  pose proof (Log.log_size l es O) as Hz. unfold Log.Size in Hb. rewrite Hz in Hb.
  unfold Log.AppendCtx in A.
  destruct (Log.authorise l now1 (Some env)) as [v|x] eqn:Ea.
  - apply Log.authorise_iff in Ea as [-> P]; [|apply O]. split.
    + destruct (Log.append_locked_cases l es now2 env hp l' r O (proj1 P) Hb A) as [[-> O']|[[y ->] O']].
      * split_and!; [done| |done|by apply Log.ok_observes].
        apply Log.append_unrecorded in A; [done|apply O].
      * by apply Log.ok_observes.
    + intros W _ Hn. pose proof (Log.append_locked_healthy l es now2 env hp O W (proj1 P) Hb Hn) as X.
      rewrite A in X. cbn in X. by rewrite X.
  - injection A as <- <-. split; [by apply Log.ok_observes|]. intros _ P _.
    rewrite (proj2 (Log.authorise_iff l now1 env env (Log.ok_readable _ _ O))) in Ea by done. done.
Qed.

(** Who may append: the checks before the lock accept an envelope exactly
    when it verifies, its producer is registered and not revoked, the keys match
    the registered ones (the quantum key too, when one is registered), and, if
    enrollment is required, the producer's enrollment is unexpired and signed
    under the operator's published chain. *)
Theorem append_authorised_exactly l now env v :
  reachable l -> Log.authorise l now (Some env) = Ok v <-> v = env /\ Log.permitted l now env.
Proof. intros [es O]%reachable_ok. apply Log.authorise_iff, O. Qed.

(** C16. A restart rebuilds the log: [New] on the store of any reachable log
    succeeds, needing no database write, and the new log has the same entries,
    size and root, whatever cache bounds, signer or policy it is given. *)
Theorem restart_rebuilds l sg enr mi ml :
  reachable l ->
  exists l' es, Log.New (fun _ => None) (Some (Log.store l)) (Some sg) enr mi ml = Ok (l', Ok tt) /\
    Log.observes l es /\ Log.observes l' es.
Proof.
  intros [es O]%reachable_ok. destruct (Log.replay (fun _ => None) (Log.fresh (Log.store l) sg enr mi ml)) as [l' r] eqn:E.
  destruct (Log.replay_spec (Log.store l) es (fun _ => None) sg enr mi ml l' r) as [Hok Hgo];
    [apply O|apply O|done|].
  assert (r = Ok tt) as -> by (apply Hgo; [right; apply O|apply O|done]).
  exists l', es. split; [unfold Log.New; by rewrite <- E|]. split; [by apply Log.ok_observes|].
  apply Log.ok_observes. eapply (Log.replaying_ok (lasting := False)); [by apply Hok|done].
Qed.

(** A log written before the leaf mirror existed is upgraded: on a database
    that takes writes, [New] over a stored, verified chain with any part of the
    mirror missing succeeds and leaves the mirror complete. *)
Theorem restart_backfills (s : Store.t) es sg enr mi ml :
  healthy (Store.db s) -> Store.stores (view (Store.db s)) es -> Entry.chain None es ->
  exists l, Log.New (fun _ => None) (Some s) (Some sg) enr mi ml = Ok (l, Ok tt) /\
    Log.Size l = len es /\ Log.Root l = Some (MTH (map Entry.LeafHash es)) /\
    Store.mirrored (view (Store.db (Log.store l))) es.
Proof.
  intros [R W] S Ch. destruct (Log.replay (fun _ => None) (Log.fresh s sg enr mi ml)) as [l r] eqn:E.
  destruct (Log.replay_spec s es (fun _ => None) sg enr mi ml l r) as [Hok Hgo]; [done|done|done|].
  assert (r = Ok tt) as -> by (apply Hgo; [by left|done|done]).
  exists l. split; [unfold Log.New; by rewrite <- E|].
  destruct (Hok eq_refl) as [_ M _ T _ _]. split_and!; [|by apply Tree.Root_ok|done].
  unfold Log.Size. rewrite (Tree.ok_size _ _ T). apply len_map.
Qed.

Lemma new_chain ctx (s : Store.t) sg enr mi ml l :
  Log.New ctx (Some s) (Some sg) enr mi ml = Ok (l, Ok tt) ->
  exists es, (while_prefix prefixEntry (db_scan (Store.db s) (entryKey 0))).*2 = VEntry <$> es /\
    Entry.chain None es /\ Log.Size l = len es /\ Log.Root l = Some (MTH (map Entry.LeafHash es)).
Proof.
  intros [= E]. change (Log.replay ctx (Log.fresh s sg enr mi ml) = (l, Ok tt)) in E. unfold Log.replay in E.
  change (Log.store (Log.fresh s sg enr mi ml)) with s in E.
  destruct (Store.IterateEntries s ctx 0 Log.replay_entry (Log.fresh s sg enr mi ml, None, 0))
    as [[[l1 p] c] [[]|x]] eqn:EI; [|done].
  destruct (negb _) in E; [done|]. injection E as <-.
  destruct (Log.visit_replay ctx _ 0 (Log.fresh s sg enr mi ml) [] _ tt I range_of_empty EI) as (es & E1 & Ch & R & _).
  exists es. destruct (Log.range_root _ _ R) as [Hz Hr]. cbn [fst] in Hz, Hr. split_and!; [done|done| |done].
  unfold Log.Size. rewrite Hz. apply len_map.
Qed.

(** Start-up checks what it serves: whatever is in the database, if [New]
    returns a log then the items under the entry prefix are entries that form
    one verified chain from index 0, and size and root are theirs. *)
Theorem new_checks_chain ctx (s : Store.t) sg enr mi ml l :
  Log.New ctx (Some s) (Some sg) enr mi ml = Ok (l, Ok tt) ->
  exists es, (while_prefix prefixEntry (db_scan (Store.db s) (entryKey 0))).*2 = VEntry <$> es /\
    Entry.chain None es /\ Log.Size l = len es /\ Log.Root l = Some (MTH (map Entry.LeafHash es)).
Proof. apply new_chain. Qed.

(** C17. Checkpoints commit to the log, whatever signer it has (single-key, hybrid
    or threshold) and whatever the witnesses answer: if [CheckpointCtx] returns a
    checkpoint, it states the log's size, root and head, every countersignature
    on it is by a registered witness over it, the entries are untouched, and
    [LatestCheckpoint] then returns it - or nothing, while the log is empty.
    And with a single-key signer that is in step with its chain ([Signer.ok]: the
    chain verifies, its last certificate is for the key the signer holds), a
    database that takes writes and a clock the beacon does not contradict, it
    does return one, and it verifies against the operator's chain. *)
Theorem checkpoint_commits_log l io :
  reachable l -> exists es, Log.observes l es /\
  (forall l' c, Log.CheckpointCtx l io = (l', Ok c) ->
    Log.observes l' es /\ Checkpoint.Size c = len es /\ Checkpoint.RootHash c = MTH (map Entry.LeafHash es) /\
    Checkpoint.HeadHash c = Store.head_of es /\
    Forall (fun sig => exists ws, Log.ListWitnesses l = Ok ws /\ Log.vouched c ws sig) (Checkpoint.Witnesses c) /\
    Log.LatestCheckpoint l' = Ok (if len es =? 0 then None else Some c)) /\
  (forall f, Log.signer l = CheckpointSigner.NewSigner f -> Signer.ok None f -> len (Chain.Certs (Signer.chain f)) <= 2 ^ 64 ->
    writable (Store.db (Log.store l)) -> Log.clock_refused (Log.fetched io) (Log.nowSec io) = false ->
    exists l' c, Log.CheckpointCtx l io = (l', Ok c) /\
      Checkpoint.Verify c (Some (Signer.chain f)) (Signer.RootPublicKey f) None = Ok tt).
Proof.
  intros [es O]%reachable_ok. exists es. split; [by apply Log.ok_observes|]. split.
  - intros l' c E. destruct (Log.checkpoint_made l es io l' c O E) as (O' & _ & F). split; [by apply Log.ok_observes|done].
  - intros f Hs Of Hb W Hc. exact (Log.checkpoint_signed (lasting := False) l es f io O W Hs Of Hb Hc).
Qed.

(** Every entry is provable: for any entry of a reachable log and any past
    size that contains it, the log's inclusion proof verifies against the root
    of that size, and the log is unchanged. *)
Theorem log_inclusion_end_to_end l es i n e :
  reachable l -> Log.observes l es -> 0 <= i < n -> n <= len es -> es !! Z.to_nat i = Some e ->
  exists l' p, Log.InclusionProof l i n = (l', Ok p) /\ Log.observes l' es /\
    Tree.VerifyInclusion i n (Entry.LeafHash e) p (MTH (map Entry.LeafHash (take (Z.to_nat n) es))) = true.
Proof.
  intros [es1 O]%reachable_ok Ob Hi Hn He. assert (es1 = es) as -> by by eapply Log.observes_unique.
  destruct (Tree.InclusionProof_ok (Log.tree l) (map Entry.LeafHash es) i n (Log.ok_tree _ _ O) Hi)
    as (tr & E & _); [by rewrite len_map|].
  exists (Log.set_tree l tr), (PATH (Z.to_nat i) (take (Z.to_nat n) (map Entry.LeafHash es))).
  assert (Log.InclusionProof l i n = (Log.set_tree l tr, Ok (PATH (Z.to_nat i) (take (Z.to_nat n) (map Entry.LeafHash es)))))
    as EI by (unfold Log.InclusionProof; by rewrite E).
  split; [done|]. split; [by eapply Log.ok_observes, Log.ok_inclusion|].
  rewrite <- firstn_map. apply Tree.PATH_verifies; [done|by rewrite len_map| |].
  - rewrite list_lookup_fmap, He. done.
  - pose proof (Log.ok_chain _ _ O) as Ch. apply (Entry.chain_leaf_sized es e) in Ch; [done|].
    by eapply list_elem_of_lookup_2.
Qed.

(** The enrollment ceremony: a producer that answers the challenge of
    [BeginEnrollment] with its own key(s) before the deadline and in the same
    epoch is registered by [ConfirmEnrollment]: the record that is stored and
    returned carries the requested terms, the producer's consent and an operator
    signature that verify, and the challenge is spent - a second answer to it is
    refused. *)
Theorem enrollment_ceremony l f req idRaw nonce now1 now2 now3 now4 k qk :
  reachable l -> writable (Store.db (Log.store l)) -> CheckpointSigner.fws (Log.signer l) = f ->
  Signer.reach None f -> len (Chain.Certs (Signer.chain f)) <= 2 ^ 64 ->
  Log.r_ID req <> [] -> nonce <> [] -> now1 <> 0 ->
  Log.r_PublicKey req = ed_public k -> (Log.r_QuantumPublicKey req <> [] -> Log.r_QuantumPublicKey req = d3_public qk) ->
  now3 <= now2 + Log.defaultChallengeTTL ->
  exists l1 b l2 p,
    Log.BeginEnrollment l now1 now2 (Ok idRaw) (Ok nonce) req = (l1, Ok b) /\
    Log.ConfirmEnrollment l1 now3 now4 (Log.ChallengeID b) (ed_sign k (Log.ChallengeBytes b))
      (d3_sign qk (Log.ChallengeBytes b)) = (l2, Ok p) /\
    Store.GetProducer (Log.store l2) (Log.r_ID req) = Ok p /\
    Producer.terms p = Producer.terms (Log.requested req now1 (Chain.ActiveEpoch (Signer.chain f)) nonce) /\
    Producer.VerifyConsent p = Ok tt /\
    Producer.VerifyEnrollment p (Chain.PublicKeyAt (Signer.chain f)) (Chain.QuantumPublicKeyAt (Signer.chain f)) = Ok tt /\
    (forall n1 n2 s q, is_ok (Log.ConfirmEnrollment l2 n1 n2 (Log.ChallengeID b) s q).2 = false).
Proof.
  intros [es O]%reachable_ok W Hf R Hb Hid Hn Ht Hk Hq Hdl.
  destruct (Log.ceremony l es f req idRaw nonce now1 now2 now3 now4 k qk O W Hf
    (Signer.signer_reach_ok None f R) Hb Hid Hn Ht Hk Hq Hdl) as (l1 & b & l2 & p & H1 & H2 & H3 & H4 & H5 & H6 & H7).
  exists l1, b, l2, p. split_and!; try done.
  - by apply Producer.VerifyConsent_iff.
  - by apply Producer.VerifyEnrollment_iff.
Qed.
End Props.

(** ** A concrete log *)

Lemma authorise_verified {B : Badger value} {CR : CompactRange} {C : Crypto} (l : Log.t) now env v :
  Log.authorise l now env = Ok v -> Envelope.Verify v = Ok tt.
Proof.
  unfold Log.authorise. destruct env as [e|]; [|done]. intros A.
  destruct (Envelope.Verify e) as [[]|] eqn:E; [|done]. cbn [wrap_err res_bind] in A.
  by res_inv A; subst.
Qed.

(** A whole append is a step. *)
Lemma append_steps {B : Badger value} {BL : BadgerLaws B} {CR : CompactRange} {PL : ProofLib} {C : Crypto} (l : Log.t) n1 n2 env hp l' r :
  Log.Size l + 1 < 2 ^ 63 -> Log.AppendCtx l n1 n2 env hp = (l', r) -> rtc Log.step l l'.
Proof.
  intros Hb A. unfold Log.AppendCtx in A. destruct (Log.authorise l n1 env) as [v|x] eqn:E.
  - apply rtc_once. eapply Log.step_append; [by eapply authorise_verified|done|exact A].
  - by injection A as <- _.
Qed.

Definition sg0 : CheckpointSigner.t := CheckpointSigner.NewSigner (signer1 true).
Definition log0 : Log.t := (Log.replay (fun _ => None) (Log.fresh store0 sg0 false 2 2)).1.
Definition log1 : Log.t := (Log.RegisterProducer log0 1 (Some producer_terms)).1.
Definition log2 : Log.t := (Log.AppendCtx log1 5 6 (Some plain_env) false).1.

Lemma log0_start : Log.start log0.
Proof.
  exists (fun _ => None), store0, sg0, false, 2, 2. split; [exact I|]. split; [done|reflexivity].
Qed.

Lemma log1_steps : rtc Log.step log0 log1.
Proof. apply rtc_once. eapply Log.step_register. unfold log1. apply surjective_pairing. Qed.

Lemma log2_steps : rtc Log.step log1 log2.
Proof. eapply append_steps; [|unfold log2; apply surjective_pairing]. by vm_compute. Qed.

Lemma log1_reachable : reachable log1.
Proof. exists log0. split; [apply log0_start|apply log1_steps]. Qed.
Lemma log2_reachable : reachable log2.
Proof. exists log0. split; [apply log0_start|]. etrans; [apply log1_steps|apply log2_steps]. Qed.

Lemma log_append_only_witness :
  exists es es', Log.observes log1 es /\ Log.observes log2 es' /\ es `prefix_of` es' /\ NoDup (map Entry.env_hash es').
Proof.
  destruct (log_append_only log0 log1 log2 log0_start log1_steps log2_steps) as (es & es' & O & O' & P & U).
  exists es, es'. split_and!; [exact O|exact O'|exact P|]. apply U. vm_compute. discriminate.
Defined.

(** The envelope is accepted. *)
Lemma append_exact_witness :
  exists es e, Log.observes log1 es /\ Log.AppendCtx log1 5 6 (Some plain_env) false = (log2, Ok e) /\
    e = Log.next_entry 6 es plain_env false /\ Log.observes log2 (es ++ [e]).
Proof.
  destruct (run_ok (Log.AppendCtx log1 5 6 (Some plain_env) false)) as [e E]; [vm_compute; reflexivity|].
  destruct (append_exact log1 5 6 plain_env false log2 (Ok e) log1_reachable) as (es & Ob & (_ & _ & X & Y) & _);
    [vm_compute; reflexivity|exact E|].
  exists es, e. split; [exact Ob|]. split; [exact E|]. split; [exact X|exact Y].
Defined.

Lemma append_authorised_exactly_witness : Log.permitted log1 5 plain_env.
Proof.
  apply (append_authorised_exactly log1 5 plain_env plain_env log1_reachable). vm_compute. reflexivity.
Defined.

Lemma restart_rebuilds_witness :
  exists l' es, Log.New (fun _ => None) (Some (Log.store log2)) (Some sg0) true 0 1 = Ok (l', Ok tt) /\
    Log.observes log2 es /\ Log.observes l' es.
Proof. apply (restart_rebuilds log2 sg0 true 0 1 log2_reachable). Defined.

(** A store with one entry, and the same without its mirrored leaf. *)
Definition store1 : Store.t (B := map_badger value) := (Store.AppendEntry store0 entry0).1.
Definition store1_old : Store.t (B := map_badger value) := (Store.DeleteLeafHash store1 0).1.

Lemma store1_stores : Store.stores (view (Store.db store1)) [entry0].
Proof.
  destruct (Store.AppendEntry_healthy store0 [] entry0 store0_healthy store0_stores entry0_extends) as (s' & E & _).
  unfold store1. rewrite E.
  by destruct (Store.AppendEntry_cases store0 [] entry0 s' (Ok tt) store0_stores entry0_sealed)
    as [_ [(_ & _ & X & _)|[[x X] _]]].
Qed.

Lemma entry0_chain : Entry.chain None [entry0].
Proof. cbn [Entry.chain]. split_and!; [vm_compute; reflexivity|vm_compute; reflexivity|exact I]. Qed.

Lemma restart_backfills_witness :
  Store.GetLeafHash store1_old 0 = Ok None /\
  exists l, Log.New (fun _ => None) (Some store1_old) (Some sg0) false 0 0 = Ok (l, Ok tt) /\
    Log.Size l = 1 /\ Log.Root l = Some (MTH [Entry.LeafHash entry0]) /\
    Store.mirrored (view (Store.db (Log.store l))) [entry0].
Proof.
  split; [vm_compute; reflexivity|].
  apply (restart_backfills store1_old [entry0] sg0 false 0 0); [split; exact I| |apply entry0_chain].
  exact (Store.stores_delete_leaf (view (Store.db store1)) [entry0] 0 store1_stores).
Defined.

Definition log3 : Log.t := (Log.replay (fun _ => None) (Log.fresh (Log.store log2) sg0 true 0 1)).1.

Lemma new_checks_chain_witness :
  exists es, (while_prefix prefixEntry (db_scan (Store.db (Log.store log2)) (entryKey 0))).*2 = VEntry <$> es /\
    Entry.chain None es /\ Log.Size log3 = len es /\ Log.Root log3 = Some (MTH (map Entry.LeafHash es)).
Proof.
  apply (new_checks_chain (fun _ => None) (Log.store log2) sg0 true 0 1 log3). unfold Log.New. apply (f_equal Ok).
  destruct (run_ok (Log.replay (fun _ => None) (Log.fresh (Log.store log2) sg0 true 0 1))) as [[] E];
    [vm_compute; reflexivity|exact E].
Defined.

Definition demo_io : Log.checkpoint_io :=
  Log.mk_cio (Some (Ok (Beacon.mk (str "drand") 100 (str "v") [] []))) (Log.drandGenesis + 500) 60 []
    [(str "w1", Err ["network"%string])].

Lemma checkpoint_commits_log_witness :
  exists l' c es, Log.CheckpointCtx log2 demo_io = (l', Ok c) /\
    Log.observes log2 es /\ Checkpoint.Size c = len es /\ Checkpoint.RootHash c = MTH (map Entry.LeafHash es) /\
    Checkpoint.Verify c (Some (Signer.chain (signer1 true))) (Signer.RootPublicKey (signer1 true)) None = Ok tt.
Proof.
  destruct (checkpoint_commits_log log2 demo_io log2_reachable) as (es & O & Any & One).
  destruct (One (signer1 true)) as (l' & c & E & V);
    [reflexivity|apply Signer.signer_reach_ok, signer1_reach|vm_compute; discriminate|exact I|vm_compute; reflexivity|].
  destruct (Any l' c E) as (_ & S & R & _).
  exists l', c, es. split; [exact E|]. split; [exact O|]. split; [exact S|]. split; [exact R|exact V].
Defined.

Lemma log_inclusion_end_to_end_witness :
  exists es e l' p, Log.observes log2 es /\ es !! 0%nat = Some e /\
    Log.InclusionProof log2 0 1 = (l', Ok p) /\
    Tree.VerifyInclusion 0 1 (Entry.LeafHash e) p (MTH (map Entry.LeafHash (take 1 es))) = true.
Proof.
  destruct (reachable_ok log2 log2_reachable) as [es O].
  assert (len es = 1) as L by (rewrite <- (Log.log_size log2 es O); vm_compute; reflexivity).
  destruct es as [|e es]; [discriminate L|].
  destruct (log_inclusion_end_to_end log2 (e :: es) 0 1 e log2_reachable) as (l' & p & E & _ & V);
    [apply Log.ok_observes, O|lia|lia|reflexivity|].
  exists (e :: es), e, l', p. split; [apply Log.ok_observes, O|]. split; [reflexivity|]. split; [exact E|exact V].
Defined.

Definition demo_req : Log.EnrollmentRequest :=
  Log.mk_req (str "p9") (ed_public (str "pk")) (d3_public (str "qk")) (str "software") [] (str "ci") 1000.

Lemma enrollment_ceremony_witness :
  exists l1 b l2 p,
    Log.BeginEnrollment log1 10 11 (Ok (str "id")) (Ok (str "nonce")) demo_req = (l1, Ok b) /\
    Log.ConfirmEnrollment l1 12 13 (Log.ChallengeID b) (ed_sign (str "pk") (Log.ChallengeBytes b))
      (d3_sign (str "qk") (Log.ChallengeBytes b)) = (l2, Ok p) /\
    Producer.VerifyConsent p = Ok tt.
Proof.
  destruct (enrollment_ceremony log1 (signer1 true) demo_req (str "id") (str "nonce") 10 11 12 13 (str "pk") (str "qk")
    log1_reachable I) as (l1 & b & l2 & p & E1 & E2 & _ & _ & V & _);
    [reflexivity|apply signer1_reach|vm_compute; discriminate|discriminate|discriminate|discriminate|reflexivity
    |intros _; reflexivity|discriminate|].
  exists l1, b, l2, p. split; [exact E1|]. split; [exact E2|exact V].
Defined.

(** ** What failures leave behind *)

(** A log over a database whose next commit succeeds and the one after fails. *)
Definition flaky_log : Log.t (B := flaky_badger value) :=
  Log.mk (B := flaky_badger value)
    (Tree.NewBoundedTreeWithStore (LSt := leafStoreAdapter (B := flaky_badger value)) 0 0
       (Store.mk (B := flaky_badger value)
          ({[producerKey (Producer.ID producer_terms) := VProducer producer_terms]}, [true; false]) 0))
    sg0 false ∅.
Definition flaky_log1 := Log.AppendCtx (B := flaky_badger value) flaky_log 5 6 (Some plain_env) false.
Definition flaky_log2 := Log.AppendCtx (B := flaky_badger value) flaky_log1.1 7 8 (Some plain_env) false.

(** A failed append can use up its envelope: the replay record is committed
    before the entry, so when the entry's write fails the log stays empty but
    the on-disk state has changed, and the producer's retry of the same valid
    envelope is refused as a replay although writes succeed again. *)
Theorem failed_append_burns_envelope :
  flaky_log1.2 = Err ["disk full"%string] /\
  flaky_log2.2 = Err ["core"%string; "replay: envelope already accepted"%string] /\
  Log.Size (B := flaky_badger value) flaky_log2.1 = 0 /\
  (Store.db (B := flaky_badger value) (Log.store (B := flaky_badger value) flaky_log2.1)).2 = [].
Proof. split_and!; vm_compute; reflexivity. Qed.

(** The one-entry store with its last entry deleted. *)
Definition store1_cut : Store.t (B := map_badger value) :=
  Store.mk (B := map_badger value) (delete (entryKey 0) (Store.db store1)) 0.
Definition cut_log := Log.replay (fun _ => None) (Log.fresh store1_cut sg0 false 0 0).

(** Start-up does not compare what it replays with the stored size and
    head: a database whose last entry was deleted still opens, as a shorter
    log, while its own metadata says one entry more; and every later append to
    it is then refused. *)
Theorem truncated_tail_opens :
  Log.New (fun _ => None) (Some store1_cut) (Some sg0) false 0 0 = Ok cut_log /\
  cut_log.2 = Ok tt /\ Log.Size cut_log.1 = 0 /\ Store.Size store1_cut = Ok 1 /\
  (Log.append_locked cut_log.1 9 plain_env false).2 = Err ["storage: append out of order"%string].
Proof. split_and!; [reflexivity|vm_compute; reflexivity..]. Qed.
