(* ===== verification/StoreTypes.v ===== *)
(** * The types of the database (pkg/storage, pkg/core)

    Badger maps bytes to bytes; what gives the database its types is that each
    key prefix is written by one operation of the store only.  The typing of
    keys and values is an invariant of every log, so that no read of a log that
    was only ever used through pkg/core meets a value of another type, a record
    under another's key, or a hash of the wrong size. *)

From S2P Require Import Prelude Crypto Attest Rfc6962 Merkle RefMerkle MerkleProps LogEntry Threshold Fwdsec Checkpoint Anchor Badger Storage Core CoreProps.
From stdpp Require Import base numbers list gmap strings relations.
From Stdlib Require Import ZArith Lia.

#[local] Open Scope Z_scope.

Module Typing.
Section Typing.
Context {B : Badger value} {CR : CompactRange} {PL : ProofLib} {C : Crypto}.
Context {BL : BadgerLaws B} {CRL : CompactRangeLaws CR} {PLL : ProofLibLaws PL} {CL : CryptoLaws C}.

(** The checkpoint is over the first entries of [es]. *)
Definition commits (es : list Entry.t) (c : Checkpoint.t) : Prop :=
  0 <= Checkpoint.Size c <= len es /\ Checkpoint.RootHash c = MTH (map Entry.LeafHash (take (Z.to_nat (Checkpoint.Size c)) es)).

Lemma commits_prefix es es' c : es `prefix_of` es' -> commits es c -> commits es' c.
Proof.
  intros [ext ->] [[L1 L2] R]. split; [split; [done|]; unfold len in *; rewrite length_app; lia|].
  rewrite take_app_le; [done|]. unfold len in L2. lia.
Qed.

Section Typed.
(** What is known of the checkpoints that are stored. *)
Variable Q : Checkpoint.t -> Prop.

(** ** Keys and the values they hold *)

Inductive has_type : bytes -> value -> Prop :=
| ty_entry e : Store.sealed e -> has_type (entryKey (Entry.Index e)) (VEntry e)
| ty_leaf i h : length h = 32%nat -> has_type (leafKey i) (VBytes h)
| ty_size n : has_type keyMetaSize (VBytes (put_u64 n))
| ty_head h : length h = 32%nat -> has_type keyMetaHead (VBytes h)
| ty_replay h i : has_type (replayKey h) (VBytes (put_u64 i))
| ty_checkpoint c : Q c -> has_type (checkpointKey (Checkpoint.Size c)) (VCheckpoint c)
| ty_anchor n r : has_type (anchorKey n) (VAnchor r)
| ty_producer p : Producer.ID p <> [] -> len (Producer.PublicKey p) = PublicKeySize ->
    has_type (producerKey (Producer.ID p)) (VProducer p)
| ty_witness w : Witness.ID w <> [] -> Witness.URL w <> [] -> len (Witness.PublicKey w) = PublicKeySize ->
    has_type (witnessKey (Witness.ID w)) (VWitness w).

Definition typed (s : Store.t) : Prop := forall k v, view (Store.db s) !! k = Some v -> has_type k v.

Definition typed_write (w : write value) : Prop :=
  match w_val w with Some v => has_type (w_key w) v | None => True end.

(** What is under a producer's or a witness's key. *)
Lemma producer_typed id v : has_type (producerKey id) v ->
  exists p, v = VProducer p /\ Producer.ID p = id /\ id <> [] /\ len (Producer.PublicKey p) = PublicKeySize.
Proof.
  intros T. remember (producerKey id) as k eqn:Ek. destruct T as [| | | | | | |p N K|]; try discriminate Ek.
  apply app_inv_head in Ek. subst. by exists p.
Qed.

Lemma producer_prefix_typed k v : has_type k v -> has_prefix prefixProducer k = true -> exists p, v = VProducer p /\ k = producerKey (Producer.ID p).
Proof. destruct 1; intros P; try discriminate P. by eexists. Qed.

Lemma witness_prefix_typed k v : has_type k v -> has_prefix prefixWitness k = true -> exists w, v = VWitness w /\ k = witnessKey (Witness.ID w).
Proof. destruct 1; intros P; try discriminate P. by eexists. Qed.

Lemma checkpoint_prefix_typed k v : has_type k v -> has_prefix prefixCkpt k = true -> exists c, v = VCheckpoint c /\ k = checkpointKey (Checkpoint.Size c) /\ Q c.
Proof. destruct 1; intros P; try discriminate P. by eexists. Qed.

Lemma entry_prefix_typed k v : has_type k v -> has_prefix prefixEntry k = true -> exists e, v = VEntry e /\ Store.sealed e.
Proof. destruct 1; intros P; try discriminate P. by eexists. Qed.

(** ** Every operation of the store writes at its type *)

Lemma apply_typed ws : forall m, Forall typed_write ws -> (forall k v, m !! k = Some v -> has_type k v) ->
  forall k v, apply_writes ws m !! k = Some v -> has_type k v.
Proof.
  unfold apply_writes. induction ws as [|w ws IH]; intros m F T; [exact T|].
  apply Forall_cons in F as [W F]. cbn [foldl]. apply IH; [done|]. intros k v. unfold apply_write, typed_write in *.
  destruct (w_val w) as [x|].
  - intros [[<- <-]|[_ L]]%lookup_insert_Some; [done|by apply T].
  - intros [_ L]%lookup_delete_Some. by apply T.
Qed.

Lemma commit_typed s ws s' r : Forall typed_write ws -> typed s -> Store.commit s ws = (s', r) -> typed s'.
Proof.
  intros F T [_ [[_ V]|[_ V]]]%Store.commit_cases k v; rewrite V; [|apply T]. by apply apply_typed.
Qed.

Create HintDb typing.
#[local] Hint Constructors has_type : typing.
#[local] Hint Unfold typed_write : typing.

(** A store operation that ends in commits of typed writes keeps the typing. *)
Ltac by_commit :=
  repeat case_match; simplify_eq; try done;
  (eapply commit_typed; [|done|eassumption]); repeat constructor; cbn; auto with typing.

Lemma append_typed s e s' r : Store.sealed e -> typed s -> Store.AppendEntry s e = (s', r) -> typed s'.
Proof.
  intros [S1 S2] T A. unfold Store.AppendEntry in A. destruct (_ || _); [by injection A as <- _|].
  destruct (Store.append_checks s e) as [ws|] eqn:E; [|by injection A as <- _].
  unfold Store.append_checks in E. res_inv E. subst ws.
  eapply commit_typed; [|done|exact A]. repeat constructor; cbn; auto with typing.
Qed.

Lemma leaf_typed s i h s' r : length h = 32%nat -> typed s -> Store.PutLeafHash s i h = (s', r) -> typed s'.
Proof. intros L T P. unfold Store.PutLeafHash in P. by_commit. Qed.

Lemma record_typed s h i s' r : typed s -> Store.CheckAndRecordEnvelope s h i = (s', r) -> typed s'.
Proof. intros T P. unfold Store.CheckAndRecordEnvelope in P. by_commit. Qed.

Lemma checkpoint_typed s c s' r : Q c -> typed s -> Store.SaveCheckpoint s (Checkpoint.Size c) (VCheckpoint c) = (s', r) -> typed s'.
Proof. intros Hc T P. unfold Store.SaveCheckpoint in P. by_commit. Qed.

Lemma anchor_typed s n v s' r : typed s -> Store.SaveAnchor s n v = (s', r) -> typed s'.
Proof. intros T P. unfold Store.SaveAnchor in P. by_commit. Qed.

Lemma register_typed s now p s' r : typed s -> Store.RegisterProducer s now p = (s', r) -> typed s'.
Proof.
  intros T P. unfold Store.RegisterProducer in P. destruct p as [p|]; [|by injection P as <- _].
  case_bool_decide as N; [by injection P as <- _|]. destruct (Z.eqb_spec (len (Producer.PublicKey p)) PublicKeySize); cbn [negb] in P;
    [|by injection P as <- _].
  eapply commit_typed; [|done|exact P]. apply Forall_singleton. unfold typed_write. cbn [set_key w_val w_key].
  destruct (Producer.RegisteredAt p =? 0); by constructor.
Qed.

Lemma revoke_typed s now id reason s' r : typed s -> Store.RevokeProducer s now id reason = (s', r) -> typed s'.
Proof.
  intros T P. unfold Store.RevokeProducer in P. destruct (db_get _ _) as [[v|]|] eqn:G; [|by injection P as <- _..].
  destruct (Store.value_producer v) as [rec|] eqn:V; [|by injection P as <- _].
  apply get_view in G. destruct (producer_typed id v (T _ _ (eq_sym G))) as (p & -> & E & N & K). injection V as <-.
  eapply commit_typed; [|done|exact P]. apply Forall_singleton. unfold typed_write. cbn [set_key w_val w_key]. rewrite <- E at 1.
  change (Producer.ID p) with (Producer.ID (Producer.set_revoked p now reason)). constructor; [by rewrite <- E in N|done].
Qed.

Lemma witness_typed s w s' r : typed s -> Store.RegisterWitness s w = (s', r) -> typed s'.
Proof.
  intros T P. unfold Store.RegisterWitness in P. destruct w as [w|]; [|by injection P as <- _].
  do 2 (case_bool_decide; [by injection P as <- _|]).
  destruct (Z.eqb_spec (len (Witness.PublicKey w)) PublicKeySize); cbn [negb] in P; [|by injection P as <- _].
  eapply commit_typed; [|done|exact P]. apply Forall_singleton. by constructor.
Qed.

(** ** Every step of the log *)

Definition log_typed (l : Log.t) : Prop := typed (Log.store l).

Lemma register_record_typed l now p l' r : log_typed l -> Log.register l now p = (l', r) -> log_typed l'.
Proof.
  intros T. unfold Log.register. destruct (Store.RegisterProducer _ _ _) as [s x] eqn:E. intros [= <- _].
  by eapply register_typed in E.
Qed.

Lemma append_tree_store (tr tr' : Tree.t (LSt := leafStoreAdapter)) h i :
  Tree.AppendLeafHash tr h = Some (tr', i) -> Tree.leafStore tr' = Tree.leafStore tr.
Proof.
  unfold Tree.AppendLeafHash. destruct (RangeAppend _ _) as [[rg vis]|]; [|done]. intros [= <- _]. cbn [Tree.leafStore].
  assert (forall vis (t : Tree.t (LSt := leafStoreAdapter)), Tree.leafStore (foldl (fun tr p => Tree.putNode tr p.1 p.2) t vis) =
    Tree.leafStore t) as X.
  { clear. induction vis as [|p vis IH]; intros t; [done|]. simpl. rewrite IH. unfold Tree.putNode. by destruct (Nat.eqb _ _). }
  rewrite X. unfold Tree.putNode, Tree.putLeaf. by destruct (Nat.eqb _ _).
Qed.

Lemma append_locked_typed l now env hp l' r : log_typed l -> Log.append_locked l now env hp = (l', r) -> log_typed l'.
Proof.
  intros T. unfold Log.append_locked. destruct (Store.CheckAndRecordEnvelope _ _ _) as [s1 x1] eqn:E1.
  apply (record_typed _ _ _ _ _ T) in E1. destruct x1; [|by intros [= <- _]].
  destruct (Store.HeadHash s1); [|by intros [= <- _]]. set (e := Entry.New _ _ _ _ _).
  destruct (Store.AppendEntry s1 e) as [s2 x2] eqn:E2. apply append_typed in E2; [|split; apply sha256_length|done].
  destruct x2; [|by intros [= <- _]].
  destruct (Tree.AppendLeafHash _ _) as [[tr i]|] eqn:E3; intros [= <- _]; [|done].
  apply append_tree_store in E3. unfold log_typed, Log.store. cbn [Log.set_tree Log.tree]. by rewrite E3.
Qed.

Lemma confirm_typed l n1 n2 id sg q l' r : log_typed l -> Log.ConfirmEnrollment l n1 n2 id sg q = (l', r) -> log_typed l'.
Proof.
  intros T. unfold Log.ConfirmEnrollment. destruct (Log.pending l !! id) as [p|]; [|by intros [= <- _]].
  destruct (_ <? _); [by intros [= <- _]|]. destruct (Log.consented _ _ _); [|by intros [= <- _]].
  destruct (Log.operator_sign _ _ _ _ _); [|by intros [= <- _]]. by apply register_record_typed.
Qed.

Lemma issue_typed l now req l' r : log_typed l -> Log.IssueEnrollment l now req = (l', r) -> log_typed l'.
Proof.
  intros T. unfold Log.IssueEnrollment. case_bool_decide; [by intros [= <- _]|]. destruct (_ =? 0); [by intros [= <- _]|].
  destruct (Log.operator_sign _ _ _ _ _); [|by intros [= <- _]]. by apply register_record_typed.
Qed.

Lemma begin_typed l n1 n2 id nonce req l' r : log_typed l -> Log.BeginEnrollment l n1 n2 id nonce req = (l', r) -> log_typed l'.
Proof. intros T. unfold Log.BeginEnrollment. repeat case_match; by intros [= <- _]. Qed.

Lemma signed_as_asked sg now size root hd b arr c :
  CheckpointSigner.Sign sg now size root hd b arr = Ok c -> Checkpoint.Size c = size /\ Checkpoint.RootHash c = root.
Proof.
  unfold CheckpointSigner.Sign. destruct (CheckpointSigner.threshGroup sg) as [g|].
  - destruct (Coordinator.Sign _ _ _) as [sigs [u|e]]; [by intros [= <-]|done].
  - destruct (Signer.Sign _ _) as [[ep sig]|e]; cbn [res_bind]; [|done].
    destruct (Signer.Hybrid _); [|by intros [= <-]].
    destruct (wrap_err _ _) as [qsig|e]; cbn [res_bind]; [by intros [= <-]|done].
Qed.

(** Every checkpoint the log can sign now is as [Q] says. *)
Definition signs_kept (l : Log.t) : Prop :=
  forall c, Checkpoint.Size c = Tree.Size (Log.tree l) -> Tree.Root (Log.tree l) = Some (Checkpoint.RootHash c) -> Q c.

Lemma checkpoint_ctx_typed l io l' r : signs_kept l -> log_typed l -> Log.CheckpointCtx l io = (l', r) -> log_typed l'.
Proof.
  intros K T. unfold Log.CheckpointCtx. destruct (Tree.Root _) as [root|] eqn:Er; [|by intros [= <- _]]. destruct (Store.HeadHash _); [|by intros [= <- _]].
  destruct (Log.clock_refused _ _); [by intros [= <- _]|]. destruct (CheckpointSigner.Sign _ _ _ _ _ _ _) as [c0|] eqn:Es; [|by intros [= <- _]].
  destruct (signed_as_asked _ _ _ _ _ _ _ _ Es) as [Hs Hr].
  destruct (Log.GatherWitnessSignatures _ _ _) as [c' w] eqn:G. destruct (Log.gather_spec _ _ _ _ _ G) as (sigs & -> & _).
  destruct (Log.add_witnesses_verify c0 sigs None [] None) as (_ & Ef & _). injection Ef as _ Esz Ert _ _ _ _ _.
  destruct (Store.SaveCheckpoint _ _ _) as [s x] eqn:E. apply checkpoint_typed in E; [|apply K; congruence|done]. destruct x; by intros [= <- _].
Qed.

Lemma publish_typed size ps : forall l recs errs, log_typed l -> log_typed (Log.publish l size ps recs errs).1.1.
Proof.
  induction ps as [|[n [v|e]] ps IH]; intros l recs errs T; cbn [Log.publish]; [done| |by apply IH].
  apply IH. unfold log_typed. cbn. by eapply anchor_typed, surjective_pairing.
Qed.

Lemma replay_entry_typed st e : Store.sealed e -> log_typed st.1.1 -> log_typed (Log.replay_entry st e).1.1.1.
Proof.
  destruct st as [[l pr] n]. intros [_ S] T. cbn [fst] in T. unfold Log.replay_entry.
  destruct (Entry.Verify e); [|done]. destruct (Entry.VerifyChain e pr); [|done].
  assert (log_typed (Log.backfill l e).1) as T1.
  { unfold Log.backfill. destruct (Store.GetLeafHash _ _) as [[h|]|]; [done| |done].
    destruct (Store.PutLeafHash _ _ _) as [s x] eqn:E. by apply (leaf_typed _ _ _ _ _ S T) in E. }
  destruct (Log.backfill l e) as [l1 [u|x]]; [|done]. cbn [fst] in T1.
  destruct (Tree.AppendLeafHash _ _) as [[tr i]|] eqn:E; [|done]. apply append_tree_store in E.
  unfold log_typed, Log.store. cbn [fst Log.set_tree Log.tree]. by rewrite E.
Qed.

Lemma visit_typed ctx items : Forall (fun x => exists e, x.2 = VEntry e /\ Store.sealed e) items -> forall n st,
  log_typed st.1.1 -> log_typed (Store.visit ctx n items Log.replay_entry st).1.1.1.
Proof.
  induction 1 as [|[k v] items (e & E & S) _ IH]; intros n st T; cbn [Store.visit]; [done|]. cbn [snd] in E. subst v.
  destruct (ctx n); [done|]. destruct (Storage.Unmarshal (VEntry e)) as [e'|] eqn:U; [|done].
  rewrite Store.Unmarshal_sealed in U by done. injection U as <-.
  pose proof (replay_entry_typed st e S T) as T1. destruct (Log.replay_entry st e) as [st1 [u|x]]; [by apply IH|done].
Qed.

Lemma scanned_typed (s : Store.t) p r : typed s -> Forall (fun x => has_type x.1 x.2 /\ has_prefix p x.1 = true) (while_prefix p (db_scan (Store.db s) r)).
Proof.
  intros T. apply Forall_forall. intros [k v] H. apply while_prefix_sub in H as [H P]. split; [|done]. cbn.
  apply T. by apply scan_elem in H as [H _].
Qed.

Lemma New_typed ctx s sg enr mi ml l r : typed s -> Log.New ctx (Some s) (Some sg) enr mi ml = Ok (l, r) -> log_typed l.
Proof.
  intros T [= E]. change (Log.replay ctx (Log.fresh s sg enr mi ml) = (l, r)) in E. unfold Log.replay, Store.IterateEntries in E.
  change (Log.store (Log.fresh s sg enr mi ml)) with s in E.
  pose proof (visit_typed ctx (while_prefix prefixEntry (db_scan (Store.db s) (entryKey 0)))) as V.
  specialize (V ltac:(eapply Forall_impl; [by apply scanned_typed|]; intros [k v] [H P]; by eapply entry_prefix_typed) 0%nat (Log.fresh s sg enr mi ml, None, 0) T).
  destruct (Store.visit _ _ _ _ _) as [[[l1 p1] c1] [u|x]]; cbn [fst] in V; [destruct (negb _)|]; by injection E as <- _.
Qed.

Lemma step_typed l l' : signs_kept l -> log_typed l -> Log.step l l' -> log_typed l'.
Proof.
  intros K T. destruct 1 as [l now env hp l' r _ _ E|l now p l' r E|l now id rs l' r E|l now req l' r E|l n1 n2 id no req l' r E
    |l n1 n2 id sg q l' r E|l now|l w l' r E|l i n l' r E|l m n l' r _ E|l io l' r E|l ps l' r E|l now g wr io1 io2 l' r E|l cx sg enr mi ml l' E|l s X].
  - by eapply append_locked_typed.
  - injection E as <- _. by eapply register_typed, surjective_pairing.
  - injection E as <- _. by eapply revoke_typed, surjective_pairing.
  - by eapply issue_typed.
  - by eapply begin_typed.
  - by eapply confirm_typed.
  - done.
  - injection E as <- _. by eapply witness_typed, surjective_pairing.
  - unfold Log.InclusionProof in E. destruct (Tree.InclusionProof _ _ _) as [tr x] eqn:I. injection E as <- _.
    apply (InclusionProof_keeps Tree.leafStore Log.nodeHash_store) in I. unfold log_typed, Log.store. cbn. by rewrite I.
  - unfold Log.ConsistencyProof in E. destruct (Tree.ConsistencyProof _ _ _) as [tr x] eqn:I. injection E as <- _.
    apply (ConsistencyProof_keeps Tree.leafStore Log.nodeHash_store) in I. unfold log_typed, Log.store. cbn. by rewrite I.
  - by eapply checkpoint_ctx_typed.
  - unfold Log.Anchor in E. destruct (Log.LatestCheckpoint l) as [[c|]|]; [|by injection E as <- _..].
    pose proof (publish_typed (Checkpoint.Size c) ps l ∅ [] T) as P. destruct (Log.publish _ _ _ _ _) as [[l1 recs] errs].
    by injection E as <- _.
  - unfold Log.Rotate in E. destruct (Signer.Rotate _ _ _ _ _ _) as [f x]. by injection E as <- _.
  - by eapply New_typed.
  - intros k v H. change (Log.store (Log.set_store l s)) with s in H. apply T.
    by destruct (Store.ex_view _ _ X k) as [E|[_ E]]; rewrite E in H.
Qed.

(** ** What reads of a typed database cannot meet *)

Lemma GetProducer_typed s id : readable (Store.db s) -> typed s ->
  (exists p, Store.GetProducer s id = Ok p /\ Producer.ID p = id /\ len (Producer.PublicKey p) = PublicKeySize) \/
  Store.GetProducer s id = Err ["storage: producer not registered"%string].
Proof.
  intros R T. unfold Store.GetProducer. rewrite Store.get_readable by done. cbn [res_bind].
  destruct (view (Store.db s) !! producerKey id) as [v|] eqn:E; [left|by right].
  destruct (producer_typed id v (T _ _ E)) as (p & -> & Ep & _ & K). by exists p.
Qed.

Lemma list_producers_typed items : Forall (fun x : bytes * value => has_type x.1 x.2 /\ has_prefix prefixProducer x.1 = true) items ->
  exists ps, Store.list_producers items = Ok ps.
Proof.
  induction 1 as [|[k v] items [T P] _ [ps E]]; cbn [Store.list_producers]; [by eexists|].
  destruct (producer_prefix_typed k v T P) as (p & -> & _). cbn. rewrite E. by eexists.
Qed.

Lemma list_witnesses_typed items : Forall (fun x : bytes * value => has_type x.1 x.2 /\ has_prefix prefixWitness x.1 = true) items ->
  exists ws, Store.list_witnesses items = Ok ws.
Proof.
  induction 1 as [|[k v] items [T P] _ [ws E]]; cbn [Store.list_witnesses]; [by eexists|].
  destruct (witness_prefix_typed k v T P) as (w & -> & _). cbn. rewrite E. by eexists.
Qed.

Lemma find_checkpoint_typed items : Forall (fun x : bytes * value => has_type x.1 x.2 /\ has_prefix prefixCkpt x.1 = true) items ->
  forall n m v, (Store.find_checkpoint items n m).1 = Some v -> exists c, v = VCheckpoint c /\ Q c.
Proof.
  induction 1 as [|[k v] items [T P] _ IH]; intros n m x; cbn [Store.find_checkpoint]; [done|].
  destruct (negb _); [apply IH|]. destruct (_ <? _); [apply IH|]. intros [= <-].
  destruct (checkpoint_prefix_typed k v T P) as (c & -> & _ & Hc). by exists c.
Qed.

Lemma GetCheckpoint_typed s n v : typed s -> (Store.GetCheckpoint s n).1 = Some v -> exists c, v = VCheckpoint c /\ Q c.
Proof.
  intros T. apply find_checkpoint_typed. apply Forall_forall. intros [k x] H. apply while_prefix_sub in H as [H P]. split; [|done].
  apply T. by apply scan_rev_elem in H as [H _].
Qed.

End Typed.

Lemma has_type_mono (Q Q' : Checkpoint.t -> Prop) k v : (forall c, Q c -> Q' c) -> has_type Q k v -> has_type Q' k v.
Proof. intros H. destruct 1; constructor; auto. Qed.

Lemma signs_commits l es : Log.ok l es -> signs_kept (commits es) l.
Proof.
  intros O c Hs Hr. rewrite (Log.log_size l es O) in Hs. rewrite (Tree.Root_ok _ _ (Log.ok_tree _ _ O)) in Hr. injection Hr as Hr.
  split; [rewrite Hs; unfold len; lia|]. rewrite Hs, <- Hr. unfold len. by rewrite Nat2Z.id, firstn_all.
Qed.

Lemma steps_typed l l' : rtc Log.step l l' -> forall es, Log.ok l es -> log_typed (commits es) l ->
  exists es', es `prefix_of` es' /\ Log.ok l' es' /\ log_typed (commits es') l'.
Proof.
  induction 1 as [l|l1 l2 l3 S _ IH]; intros es O T; [by exists es|].
  pose proof (step_typed (commits es) l1 l2 (signs_commits l1 es O) T S) as T2.
  assert (exists es2, es `prefix_of` es2 /\ Log.ok l2 es2) as (es2 & P & O2).
  { destruct (Log.step_ok l1 es l2 O S) as [O2|[e O2]]; [by exists es|]. exists (es ++ [e]). split; [by exists [e]|done]. }
  destruct (IH es2 O2) as (es3 & P3 & O3 & T3).
  { intros k v H. eapply has_type_mono; [|by apply T2]. intros c. by apply commits_prefix. }
  exists es3. split; [by etrans|done].
Qed.

Lemma reachable_typed l : reachable l -> exists es, Log.ok l es /\ log_typed (commits es) l.
Proof.
  intros (l0 & S & R). pose proof (Log.start_ok l0 S) as O. destruct S as (cx & s & sg & enr & mi & ml & _ & V & E).
  destruct (steps_typed l0 l R [] O) as (es & _ & H); [|by exists es].
  eapply New_typed; [|exact E]. intros k v. by rewrite V, lookup_empty.
Qed.

Lemma LatestCheckpoint_commits l es : Log.ok l es -> log_typed (commits es) l ->
  Log.LatestCheckpoint l = Ok None \/ exists c, Log.LatestCheckpoint l = Ok (Some c) /\ commits es c.
Proof.
  intros O T. unfold Log.LatestCheckpoint, Store.LatestCheckpoint, Store.Size.
  rewrite (Store.readSize_ok _ es (Log.ok_readable _ _ O) (Log.ok_stores _ _ O)). cbn [res_bind].
  destruct (len es =? 0); [by left|]. destruct (Store.GetCheckpoint _ _) as [[v|] n] eqn:G; cbn [res_bind]; [|by left].
  destruct (GetCheckpoint_typed (commits es) (Log.store l) (len es) v T ltac:(by rewrite G)) as (c & -> & Hc). right. by exists c.
Qed.

(** C25. The database of a log is well typed, whatever sequence of operations,
    failures and restarts produced it: every key that is present belongs to one
    of the store's prefixes and holds a value of the type of that prefix, records
    are stored under their own id or index, hashes have 32 bytes, registered
    keys their length, and every checkpoint on record is over the first entries
    of the log as it is now.  Hence reads that can fail on a foreign value never
    do: looking up a producer gives a record of that very id with a key of the
    right size or reports that there is none, listing producers and witnesses
    succeeds, and so does fetching the latest checkpoint, which commits to a
    prefix of the log. *)
Theorem store_well_typed l : reachable l -> exists es, Log.observes l es /\
  (forall k v, view (Store.db (Log.store l)) !! k = Some v -> has_type (commits es) k v) /\
  (forall id, (exists p, Store.GetProducer (Log.store l) id = Ok p /\ Producer.ID p = id /\ len (Producer.PublicKey p) = PublicKeySize) \/
    Store.GetProducer (Log.store l) id = Err ["storage: producer not registered"%string]) /\
  (exists ps, Log.ListProducers l = Ok ps) /\ (exists ws, Log.ListWitnesses l = Ok ws) /\
  (Log.LatestCheckpoint l = Ok None \/ exists c, Log.LatestCheckpoint l = Ok (Some c) /\ commits es c).
Proof.
  intros (es & O & T)%reachable_typed. exists es. split; [by apply Log.ok_observes|]. split_and!; [exact T| | | |by apply LatestCheckpoint_commits].
  - intros id. eapply GetProducer_typed; [apply O|exact T].
  - by eapply list_producers_typed, scanned_typed.
  - by eapply list_witnesses_typed, scanned_typed.
Qed.
End Typing.
End Typing.

Lemma store_well_typed_witness : exists p, Store.GetProducer (Log.store log2) (Producer.ID producer_terms) = Ok p /\ Producer.ID p = Producer.ID producer_terms.
Proof.
  destruct (Typing.store_well_typed log2 log2_reachable) as (es & _ & _ & G & _). destruct (G (Producer.ID producer_terms)) as [(p & E & I & _)|E].
  - exists p. split; [exact E|exact I].
  - exfalso. vm_compute in E. discriminate E.
Defined.
