(* ===== verification/StoreOpen.v ===== *)
(** * Opening, backing up and ageing the store

    pkg/storage's options and [Open]; its [Backup] and [Restore] with the
    commands of cmd/stele-backup; and what a TTL on the replay records means.
    The database's streaming format is a parameter ([BadgerBackup]), with what
    it documents: a full backup loaded into an empty database gives the same
    keys and values. *)

From stdpp Require Import base numbers list gmap sets strings sorting.
From Stdlib Require Import ZArith Lia.
From S2P Require Import Prelude Crypto Attest Rfc6962 Merkle RefMerkle MerkleProps LogEntry Threshold Fwdsec Checkpoint.
From S2P Require Import Badger Storage Core CoreProps.

#[local] Open Scope Z_scope.

(** ** Options *)
Module StoreOptions.

Record config := mk_config {
  blockCacheBytes : Z;
  indexCacheBytes : Z;
  numMemtables : Z;
  replayTTL : Z;
  numCompactors : Z;
  valueLogFileSizeBytes : Z;
}.

Definition defaultConfig : config := mk_config (Z.shiftl 64 20) (Z.shiftl 32 20) 2 0 2 (Z.shiftl 256 20).

Definition option_ := config -> config.

Definition pick (v d : Z) : Z := if 0 <? v then v else d.

Definition WithBlockCacheBytes (b : Z) : option_ := fun c =>
  mk_config (pick b (blockCacheBytes c)) (indexCacheBytes c) (numMemtables c) (replayTTL c) (numCompactors c) (valueLogFileSizeBytes c).
Definition WithIndexCacheBytes (b : Z) : option_ := fun c =>
  mk_config (blockCacheBytes c) (pick b (indexCacheBytes c)) (numMemtables c) (replayTTL c) (numCompactors c) (valueLogFileSizeBytes c).
Definition WithNumMemtables (n : Z) : option_ := fun c =>
  mk_config (blockCacheBytes c) (indexCacheBytes c) (pick n (numMemtables c)) (replayTTL c) (numCompactors c) (valueLogFileSizeBytes c).
Definition WithReplayTTL (d : Z) : option_ := fun c =>
  mk_config (blockCacheBytes c) (indexCacheBytes c) (numMemtables c) (pick d (replayTTL c)) (numCompactors c) (valueLogFileSizeBytes c).
Definition WithNumCompactors (n : Z) : option_ := fun c =>
  mk_config (blockCacheBytes c) (indexCacheBytes c) (numMemtables c) (replayTTL c) (pick n (numCompactors c)) (valueLogFileSizeBytes c).
Definition WithValueLogFileSizeBytes (b : Z) : option_ := fun c =>
  mk_config (blockCacheBytes c) (indexCacheBytes c) (numMemtables c) (replayTTL c) (numCompactors c) (pick b (valueLogFileSizeBytes c)).

Definition apply_options (opts : list option_) (c : config) : config := foldl (fun c o => o c) c opts.

(** The settings [Open] hands to the database. *)
Record bopts := mk_bopts {
  Dir : bytes; SyncWrites : bool; BlockCacheSize : Z; IndexCacheSize : Z; NumMemtables : Z; NumCompactors : Z; ValueLogFileSize : Z;
}.

Definition bopts_of (dir : bytes) (c : config) : bopts :=
  mk_bopts dir true (blockCacheBytes c) (indexCacheBytes c) (numMemtables c) (numCompactors c) (valueLogFileSizeBytes c).

Section Open.
Context {B : Badger value}.

(** [badger.Open] is what [open] answers. *)
Definition Open (open : bopts -> res (DB B)) (dir : bytes) (opts : list option_) : res Store.t :=
  let c := apply_options opts defaultConfig in
  let! db := wrap_err "storage: open" (open (bopts_of dir c)) in
  Ok (Store.mk db (replayTTL c)).
End Open.

(** The options of the package, as callers make them. *)
Inductive known : option_ -> Prop :=
| known_block b : known (WithBlockCacheBytes b)
| known_index b : known (WithIndexCacheBytes b)
| known_mem n : known (WithNumMemtables n)
| known_ttl d : known (WithReplayTTL d)
| known_compact n : known (WithNumCompactors n)
| known_vlog b : known (WithValueLogFileSizeBytes b).

Record sane (c : config) : Prop := {
  sane_block : 0 < blockCacheBytes c; sane_index : 0 < indexCacheBytes c; sane_mem : 0 < numMemtables c;
  sane_ttl : 0 <= replayTTL c; sane_compact : 0 < numCompactors c; sane_vlog : 0 < valueLogFileSizeBytes c;
}.

Lemma pick_pos v d : 0 < d -> 0 < pick v d.
Proof. unfold pick. destruct (Z.ltb_spec 0 v); lia. Qed.
Lemma pick_nonneg v d : 0 <= d -> 0 <= pick v d.
Proof. unfold pick. destruct (Z.ltb_spec 0 v); lia. Qed.

(** No list of options, whatever values it is given, opens the database
    without bounds on its caches, and writes are always synchronous. *)
Theorem options_sane opts dir : Forall known opts ->
  let c := apply_options opts defaultConfig in
  sane c /\ SyncWrites (bopts_of dir c) = true.
Proof.
  intros F. split; [|done]. unfold apply_options.
  assert (sane defaultConfig) as D by (by split).
  revert D. generalize defaultConfig. induction F as [|o opts K _ IH]; intros c S; [done|]. cbn [foldl]. apply IH.
  destruct S, K; split; cbn; auto using pick_pos, pick_nonneg.
Qed.

Lemma options_sane_witness : sane (apply_options [WithReplayTTL 5; WithNumMemtables (-1)] defaultConfig).
Proof. apply (options_sane [WithReplayTTL 5; WithNumMemtables (-1)] []). repeat constructor. Defined.
End StoreOptions.

(** ** Opening a log again *)

Section Reopen.
Context {B : Badger value} {CR : CompactRange} {PL : ProofLib} {C : Crypto}.
Context {BL : BadgerLaws B} {CRL : CompactRangeLaws CR} {PLL : ProofLibLaws PL} {CL : CryptoLaws C}.

(** A database with the contents of a log's opens as that log, whatever the
    options it is opened with. *)
Lemma reopen_log l d ttl ctx sg enr mi ml :
  reachable l -> view d = view (Store.db (Log.store l)) -> readable d -> (forall n, ctx n = None) ->
  exists l' es, Log.New ctx (Some (Store.mk d ttl)) (Some sg) enr mi ml = Ok (l', Ok tt) /\
    Log.observes l es /\ Log.observes l' es.
Proof.
  intros [es O]%reachable_ok V RD CX.
  destruct (Log.replay ctx (Log.fresh (Store.mk d ttl) sg enr mi ml)) as [l' r] eqn:X.
  destruct (Log.replay_spec (Store.mk d ttl) es ctx sg enr mi ml l' r) as [Hok Hgo]; cbn [Store.db];
    [done|rewrite V; apply O|done|].
  assert (r = Ok tt) as -> by (apply Hgo; [right; cbn; unfold Log.store; cbn; rewrite V; apply O|apply O|done]).
  exists l', es. split; [unfold Log.New; by rewrite <- X|].
  split; [by apply Log.ok_observes|]. apply Log.ok_observes. by eapply (Log.replaying_ok (lasting := False)); [apply Hok|].
Qed.
End Reopen.

(** ** Backups *)

(** [Backup] streams the keys of version above [since]; [Load] reads a stream
    into the database. *)
Class BadgerBackup {V} (B : Badger V) := {
  stream : Type;
  db_empty : DB B;
  db_backup : DB B -> Z -> res (stream * Z);
  db_load : DB B -> stream -> Z -> DB B * res unit;
}.

Class BadgerBackupLaws {V} (B : Badger V) `{!BadgerLaws B, !BadgerBackup B} : Prop := {
  empty_view : view db_empty = ∅;
  empty_readable : readable db_empty;
  backup_load : forall d s v n d', db_backup d 0 = Ok (s, v) -> db_load db_empty s n = (d', Ok tt) -> view d' = view d /\ readable d';
}.

Module Backup.
Section Backup.
Context {B : Badger value} `{!BadgerBackup B}.

Definition Store_Backup (s : Store.t) (since : Z) : res (stream * Z) := db_backup (Store.db s) since.

Definition Store_Restore (r : stream) (maxPendingWrites : Z) (s : Store.t) : Store.t * res unit :=
  let n := if maxPendingWrites <=? 0 then 256 else maxPendingWrites in
  let '(d, x) := db_load (Store.db s) r n in (Store.mk d (Store.replayTTL s), x).

(** The data directories of a host, by name, each with the database under it,
    and its files; [None] for a directory without a database. *)
Record host := mk_host { dbs : gmap bytes (DB B); files : gmap bytes stream }.

(** Outcomes: opening the database, opening the output or input, the final
    fsync, making the directory; and what a backup that fails has written until
    then. *)
Record env := mk_env { open_ok : bool; file_ok : bool; sync_ok : bool; mkdir_ok : bool; torn : stream }.

Definition dash : bytes := str "-".

(** [snapshot]: the stream goes to the file, which opening truncates, or to
    standard output. *)
Definition snapshot (e : env) (dir out : bytes) (since : Z) (h : host) : host * res stream :=
  if bool_decide (dir = []) || bool_decide (out = []) then (h, errorf "--dir and --out are required")
  else match dbs h !! dir with
  | None => (h, errorf "no badger dir")
  | Some d =>
      if negb (open_ok e) then (h, errorf "storage: open")
      else if negb (bool_decide (out = dash)) && negb (file_ok e) then (h, errorf "open output")
      else
        let write s := if bool_decide (out = dash) then h else mk_host (dbs h) (<[out := s]> (files h)) in
        match Store_Backup (Store.mk d 0) since with
      | Err x => (write (torn e), Err ("backup stream"%string :: x))
      | Ok (s, _) =>
          let h := write s in
          if negb (bool_decide (out = dash)) && negb (sync_ok e) then (h, errorf "fsync") else (h, Ok s)
      end
  end.

(** [restore] from a file; [stdin] is what standard input holds. *)
Definition restore (e : env) (dir inp : bytes) (maxPending : Z) (stdin : stream) (h : host) : host * res unit :=
  if bool_decide (dir = []) || bool_decide (inp = []) then (h, errorf "--dir and --in are required")
  else match dbs h !! dir with
  | Some _ => (h, errorf "destination is not empty")
  | None =>
      if negb (mkdir_ok e) then (h, errorf "mkdir")
      else if negb (open_ok e) then (h, errorf "storage: open")
      else
        let h := mk_host (<[dir := db_empty]> (dbs h)) (files h) in
        match (if bool_decide (inp = dash) then Some stdin else if file_ok e then files h !! inp else None) with
        | None => (h, errorf "open input")
        | Some s =>
            let '(st, r) := Store_Restore s maxPending (Store.mk db_empty 0) in
            (mk_host (<[dir := Store.db st]> (dbs h)) (files h), wrap_err "restore" r)
        end
  end.

Context {CR : CompactRange} {PL : ProofLib} {C : Crypto}.
Context `{BL : !BadgerLaws B, !BadgerBackupLaws B} {CRL : CompactRangeLaws CR} {PLL : ProofLibLaws PL} {CL : CryptoLaws C}.

(** C37. Disaster recovery: a full snapshot of a log's database, restored into a
    fresh directory, opens as the same log - same size, root and entries -
    whatever signer, enrollment policy and cache bounds it is opened with. *)
Theorem backup_restores_log l dir out dir' e e' n h h1 h2 s sg enr mi ml :
  reachable l -> out <> dash -> dbs h !! dir = Some (Store.db (Log.store l)) -> dbs h !! dir' = None ->
  snapshot e dir out 0 h = (h1, Ok s) -> restore e' dir' out n s h1 = (h2, Ok tt) ->
  exists d l' es, dbs h2 !! dir' = Some d /\
    Log.New (fun _ => None) (Some (Store.mk d 0)) (Some sg) enr mi ml = Ok (l', Ok tt) /\
    Log.observes l es /\ Log.observes l' es.
Proof.
  intros RE ND HD HN S R. unfold snapshot in S. destruct (_ || _); [done|]. rewrite HD in S.
  destruct (negb (open_ok e)); [done|]. destruct (negb (bool_decide (out = dash)) && negb (file_ok e)); [done|].
  unfold Store_Backup in S. cbn [Store.db] in S. destruct (db_backup (Store.db (Log.store l)) 0) as [[s' v]|] eqn:E; [|done].
  rewrite (bool_decide_eq_false_2 (out = dash)) in S by done. cbn [negb andb] in S.
  destruct (negb (sync_ok e)); [done|]. injection S as <- <-.
  unfold restore in R. cbn [dbs files] in R. destruct (_ || _); [done|]. rewrite HN in R.
  destruct (negb (mkdir_ok e')); [done|]. destruct (negb (open_ok e')); [done|].
  rewrite (bool_decide_eq_false_2 (out = dash)) in R by done. rewrite lookup_insert_eq in R.
  destruct (file_ok e'); [|done]. unfold Store_Restore in R. cbn [Store.db] in R.
  destruct (db_load db_empty s' _) as [d r] eqn:L. injection R as <- R. destruct r as [[]|]; [|done].
  destruct (backup_load _ _ _ _ _ E L) as [V RD]. cbn [Store.db dbs].
  destruct (reopen_log l d 0 (fun _ => None) sg enr mi ml RE V RD) as (l' & es & N & O1 & O2); [done|].
  exists d, l', es. by rewrite lookup_insert_eq.
Qed.

(** A directory is restored into once: whatever the first restore gave past the
    opening of its database, a second one is refused, so an incremental snapshot
    can never be applied on top of the full one it continues. *)
Theorem restore_once e e' dir inp inp' n n' i i' h h1 r :
  restore e dir inp n i h = (h1, r) -> dbs h !! dir = None -> is_ok r = true ->
  is_ok (restore e' dir inp' n' i' h1).2 = false /\ (restore e' dir inp' n' i' h1).1 = h1.
Proof.
  intros R N K. unfold restore in R. destruct (_ || _) eqn:D in R; [injection R as <- <-; discriminate K|]. rewrite N in R.
  destruct (negb (mkdir_ok e)); [injection R as <- <-; discriminate K|]. destruct (negb (open_ok e)); [injection R as <- <-; discriminate K|].
  assert (is_Some (dbs h1 !! dir)) as [d HD].
  { destruct (if bool_decide (inp = dash) then _ else _) as [x|]; [|injection R as <- <-; discriminate K].
    destruct (Store_Restore _ _ _) as [st y]. injection R as <- <-. cbn. rewrite lookup_insert_eq. by eexists. }
  unfold restore. rewrite HD. destruct (bool_decide (dir = []) || bool_decide (inp' = [])); by split.
Qed.
End Backup.
End Backup.

(** ** Replay records with a TTL

    A database with a clock: a value written with a TTL is gone once its time
    has passed.  At any one time it is a [Badger]; [tick] moves the clock. *)
Definition ttl_db (V : Type) : Type := gmap bytes (V * Z) * Z.

Definition alive (now : Z) {V} (x : V * Z) : option V := if (x.2 =? 0) || (now <? x.2) then Some x.1 else None.
Definition ttl_view {V} (d : ttl_db V) : gmap bytes V := omap (alive d.2) d.1.

Definition ttl_write {V} (now : Z) (m : gmap bytes (V * Z)) (w : write V) : gmap bytes (V * Z) :=
  match w_val w with
  | Some v => <[w_key w := (v, if 0 <? w_ttl w then now + w_ttl w else 0)]> m
  | None => delete (w_key w) m
  end.

Definition ttl_badger (V : Type) : Badger V := {|
  DB := ttl_db V;
  db_get d k := Ok (ttl_view d !! k);
  db_commit d ws := ((foldl (ttl_write d.2) d.1 ws, d.2), Ok tt);
  db_scan d seek := filter (fun x => bytes_le seek x.1) (sorted_items (ttl_view d));
  db_scan_rev d seek := reverse (filter (fun x => bytes_le x.1 seek) (sorted_items (ttl_view d)));
|}.

Definition tick {V} (t : Z) (d : ttl_db V) : ttl_db V := (d.1, d.2 + t).

Lemma ttl_write_view {V} (now : Z) (m : gmap bytes (V * Z)) (w : write V) : omap (alive now) (ttl_write now m w) = apply_write (omap (alive now) m) w.
Proof.
  unfold ttl_write, apply_write. destruct (w_val w) as [v|]; [|apply omap_delete].
  rewrite (omap_insert_Some _ _ _ _ v); [done|]. unfold alive. cbn.
  destruct (Z.ltb_spec 0 (w_ttl w)); [|done]. destruct (_ =? 0); [done|]. by destruct (Z.ltb_spec now (now + w_ttl w)); [|lia].
Qed.

Lemma ttl_writes_view {V} (now : Z) (ws : list (write V)) : forall (m : gmap bytes (V * Z)),
  omap (alive now) (foldl (ttl_write now) m ws) = apply_writes ws (omap (alive now) m).
Proof.
  unfold apply_writes. induction ws as [|w ws IH]; intros m; [done|]. cbn [foldl]. by rewrite IH, ttl_write_view.
Qed.

#[export] Program Instance ttl_badger_laws (V : Type) : BadgerLaws (ttl_badger V) := {|
  view := ttl_view;
  readable _ := True;
  writable _ := True;
|}.
Next Obligation. by intros V d k r [= <-]. Qed.
Next Obligation. intros V d ws d' u. cbn. intros [= <-]. apply ttl_writes_view. Qed.
Next Obligation. by intros V d ws d' e [=]. Qed.
Next Obligation. intros V d k _. by eexists. Qed.
Next Obligation. done. Qed.
Next Obligation. intros V d ws _. by eexists. Qed.
Next Obligation. intros V d seek. cbn. apply key_lt_filter, sorted_items_lt. Qed.
Next Obligation. intros V d seek k v. cbn. rewrite list_elem_of_filter, sorted_items_elem. naive_solver. Qed.
Next Obligation. intros V d seek. cbn. apply sorted_reverse, key_lt_filter, sorted_items_lt. Qed.
Next Obligation. intros V d seek k v. cbn. rewrite elem_of_reverse, list_elem_of_filter, sorted_items_elem. naive_solver. Qed.

Module ReplayWindow.
#[local] Existing Instance ttl_badger.

Definition later (t : Z) (s : Store.t (B := ttl_badger value)) : Store.t (B := ttl_badger value) :=
  Store.mk (B := ttl_badger value) (tick t (Store.db s)) (Store.replayTTL s).

(** Only replay records carry a time. *)
Definition only_replay (s : Store.t (B := ttl_badger value)) : Prop :=
  forall k x, (Store.db s).1 !! k = Some x -> x.2 <> 0 -> exists h, k = replayKey h.

(** The clock moving on is what [Store.expires] says. *)
Lemma later_expires s t : only_replay s -> 0 < Store.replayTTL s -> 0 <= t -> Store.expires s (later t s).
Proof.
  intros R W T. split; [done|done|done|]. intros k. cbn. unfold ttl_view, tick. cbn. rewrite !lookup_omap.
  destruct ((Store.db s).1 !! k) as [x|] eqn:E; [|by left]. cbn. unfold alive.
  destruct (Z.eqb_spec x.2 0) as [Z|N]; [by left|]. cbn. destruct (R k x E N) as [h ->].
  destruct (Z.ltb_spec (Store.db s).2 x.2), (Z.ltb_spec ((Store.db s).2 + t) x.2); try lia; [by left| |by left].
  right. split; [by exists h|done].
Qed.

(** Replay protection is exactly as long as the TTL: once an envelope has
    been recorded, its hash is refused at every later time before the TTL has
    passed, and accepted again from then on; without a TTL it is refused for
    ever. *)
Theorem replay_window (s s1 : Store.t (B := ttl_badger value)) h i j t :
  Store.CheckAndRecordEnvelope s h i = (s1, Ok tt) -> 0 <= (Store.db s).2 -> 0 <= t ->
  is_ok (Store.CheckAndRecordEnvelope (later t s1) h j).2 =
    (0 <? Store.replayTTL s) && (Store.replayTTL s <=? t).
Proof.
  intros E P T. unfold Store.CheckAndRecordEnvelope in E. cbn [db_get ttl_badger] in E.
  destruct (ttl_view (Store.db s) !! replayKey h); [done|]. unfold Store.commit in E. cbn in E. injection E as <-.
  unfold Store.CheckAndRecordEnvelope. cbn [db_get ttl_badger]. unfold later, tick, ttl_view. cbn [Store.db Store.replayTTL fst snd].
  rewrite lookup_omap. unfold ttl_write. cbn [foldl w_val w_key w_ttl]. rewrite lookup_insert_eq. cbn [mbind option_bind]. unfold alive. cbn [fst snd].
  destruct (Z.ltb_spec 0 (Store.replayTTL s)) as [L|L]; [|done]. cbn [andb].
  destruct (Z.eqb_spec ((Store.db s).2 + Store.replayTTL s) 0); [lia|]. cbn [orb].
  destruct (Z.ltb_spec ((Store.db s).2 + t) ((Store.db s).2 + Store.replayTTL s)), (Z.leb_spec (Store.replayTTL s) t); try lia; done.
Qed.

(** The same through the whole log, with the TTL steled starts with (a day, in
    seconds here): the envelope is refused a second before the day is over and
    is entered again a second after. *)
Definition day : Z := 86400.
Definition ttl_store : Store.t (B := ttl_badger value) := Store.mk (B := ttl_badger value) (∅, 100) day.
Definition ttl_log0 : Log.t (B := ttl_badger value) :=
  (Log.RegisterProducer (Log.replay (fun _ => None) (Log.fresh ttl_store sg0 false 2 2)).1 1 (Some producer_terms)).1.
Definition ttl_log1 : Log.t (B := ttl_badger value) := (Log.AppendCtx ttl_log0 5 6 (Some plain_env) false).1.
Definition log_later (t : Z) (l : Log.t (B := ttl_badger value)) : Log.t (B := ttl_badger value) := Log.set_store l (later t (Log.store l)).

Lemma ok_with {A} (r : res A) (P : A -> bool) : match r with Ok a => P a | Err _ => false end = true -> exists a, r = Ok a /\ P a = true.
Proof. destruct r as [a|]; [|done]. by exists a. Qed.

Lemma twice_checked : exists e, (Log.AppendCtx (log_later day ttl_log1) 7 8 (Some plain_env) false).2 = Ok e /\
  (Entry.Index e =? 1) && bool_decide (Entry.env_hash e = Envelope.Hash plain_env) = true.
Proof. apply (ok_with _ (fun e => (Entry.Index e =? 1) && bool_decide (Entry.env_hash e = Envelope.Hash plain_env))). vm_compute. reflexivity. Qed.
Lemma first_checked : exists e, Log.Get ttl_log1 0 = Ok e /\ bool_decide (Entry.env_hash e = Envelope.Hash plain_env) = true.
Proof. apply (ok_with _ (fun e => bool_decide (Entry.env_hash e = Envelope.Hash plain_env))). vm_compute. reflexivity. Qed.

(** The documented promise (README, replay protection) is that the same
    envelope cannot count twice. *)
Theorem envelope_accepted_twice :
  is_ok (Log.AppendCtx ttl_log0 5 6 (Some plain_env) false).2 = true /\
  is_ok (Log.AppendCtx (log_later (day - 1) ttl_log1) 7 8 (Some plain_env) false).2 = false /\
  (exists e, (Log.AppendCtx (log_later day ttl_log1) 7 8 (Some plain_env) false).2 = Ok e /\ Entry.Index e = 1 /\
     Entry.env_hash e = Envelope.Hash plain_env) /\
  (exists e, Log.Get ttl_log1 0 = Ok e /\ Entry.env_hash e = Envelope.Hash plain_env).
Proof.
  split; [vm_compute; reflexivity|]. split; [vm_compute; reflexivity|]. split.
  - destruct twice_checked as (e & E & P).
    apply andb_true_iff in P as [I H]. exists e. split; [exact E|]. split; [by apply Z.eqb_eq|by apply bool_decide_eq_true in H].
  - destruct first_checked as (e & E & H).
    exists e. split; [exact E|]. by apply bool_decide_eq_true in H.
Qed.

Lemma replay_window_witness :
  is_ok (Store.CheckAndRecordEnvelope (later day (Store.CheckAndRecordEnvelope ttl_store (str "h") 0).1) (str "h") 1).2 = true.
Proof. apply (replay_window ttl_store _ (str "h") 0 1 day); [reflexivity|vm_compute; discriminate|vm_compute; discriminate]. Defined.
End ReplayWindow.

(** ** Witnesses *)

#[export] Instance map_backup (V : Type) : BadgerBackup (map_badger V) := {|
  stream := gmap bytes V;
  db_empty := (∅ : gmap bytes V);
  db_backup (m : gmap bytes V) _ := Ok (m, 7);
  db_load (m : gmap bytes V) (s : gmap bytes V) _ := (s ∪ m, Ok tt);
|}.

#[export] Instance map_backup_laws (V : Type) : BadgerBackupLaws (map_badger V).
Proof. split; [done|done|]. intros d s v n d' [= <- _] [= <-]. cbn. split; [apply map_union_empty|done]. Qed.

Definition backup_env : Backup.env (B := map_badger value) := Backup.mk_env (B := map_badger value) true true true true ∅.
Definition backup_host (d : gmap bytes value) : Backup.host (B := map_badger value) :=
  Backup.mk_host (B := map_badger value) {[str "data" := d]} ∅.
Definition saved_host (d : gmap bytes value) : Backup.host (B := map_badger value) :=
  Backup.mk_host (B := map_badger value) {[str "data" := d]} {[str "b.bin" := d]}.

Lemma demo_snapshot d : Backup.snapshot backup_env (str "data") (str "b.bin") 0 (backup_host d) = (saved_host d, Ok d).
Proof. reflexivity. Qed.
Lemma demo_restore d : exists h, Backup.restore backup_env (str "new") (str "b.bin") 0 d (saved_host d) = (h, Ok tt).
Proof. eexists. reflexivity. Qed.

Lemma backup_restores_log_witness :
  exists h d l' es, Backup.dbs h !! str "new" = Some d /\
    Log.New (fun _ => None) (Some (Store.mk d 0)) (Some sg0) false 2 2 = Ok (l', Ok tt) /\
    Log.observes log2 es /\ Log.observes l' es.
Proof.
  destruct (demo_restore (Store.db (Log.store log2))) as [h R]. exists h.
  assert (str "data" <> str "new") as N by done. assert (str "b.bin" <> Backup.dash) as D by done.
  exact (Backup.backup_restores_log log2 (str "data") (str "b.bin") (str "new") backup_env backup_env 0 _ _ h _ sg0 false 2 2
    log2_reachable D (lookup_singleton_eq _ _) (lookup_singleton_ne _ _ _ N) (demo_snapshot _) R).
Defined.

Lemma restore_once_witness :
  is_ok (Backup.restore (B := map_badger value) backup_env (str "new") (str "-") 0 ∅
    (Backup.restore (B := map_badger value) backup_env (str "new") (str "-") 0 ∅ (backup_host ∅)).1).2 = false.
Proof.
  apply (Backup.restore_once (B := map_badger value) backup_env backup_env (str "new") (str "-") (str "-") 0 0 ∅ ∅ (backup_host ∅) _ (Ok tt));
    reflexivity.
Defined.
