(* ===== verification/WitnessServer.v ===== *)
(** * The witness server (pkg/witness)

    A witness countersigns operators' checkpoints and remembers, on disk, the
    root it signed at every size; witnesses exchange signed statements of what
    they have seen and flag forks.  The directory is part of the state, so a
    restart and a failed write are steps like any other. *)

From S2P Require Import Prelude Crypto Threshold Fwdsec Checkpoint.
From stdpp Require Import base numbers list gmap strings sorting.
From Stdlib Require Import ZArith Lia.

#[local] Open Scope Z_scope.

Module WatchedOperator.
Record t := mk { Origin : bytes; RootPublicKey : bytes; Description : bytes }.
End WatchedOperator.

Module Peer.
Record t := mk { ID : bytes; URL : bytes; PublicKey : bytes; Description : bytes; AddedAt : Z }.
End Peer.

Module ForkEvidence.
Record t := mk {
  Origin : bytes;
  Size : Z;
  DetectedAt : Z;
  OurCheckpoint : option Checkpoint.t;
  TheirCheckpoint : option Checkpoint.t;
  TheirPeerID : bytes;
}.
End ForkEvidence.

(** ** Signed statements *)

(** A [map[uint64]string] listed by ascending size. *)
Definition size_le (x y : Z * bytes) : Prop := x.1 <= y.1.
#[export] Instance size_le_dec : RelDecision size_le.
Proof. intros x y. unfold size_le. apply _. Defined.
#[export] Instance size_le_total : Total size_le.
Proof. intros x y. unfold size_le. lia. Qed.
#[export] Instance size_le_trans : Transitive size_le.
Proof. intros x y z. unfold size_le. lia. Qed.
Definition by_size (m : gmap Z bytes) : list (Z * bytes) := merge_sort size_le (map_to_list m).

(** One line [size:root]. *)
Definition size_line (x : Z * bytes) : bytes := fmt_d x.1 ++ [Checkpoint.colon] ++ x.2 ++ [nl].
Definition size_lines (l : list (Z * bytes)) : bytes := concat (map size_line l).

Module SignedSeen.
Record t := mk {
  WitnessID : bytes;
  PublicKey : bytes;
  KeyID : bytes;
  Origin : bytes;
  Seen : gmap Z bytes;
  IssuedAt : Z;
  Signature : bytes;
}.

Definition Canonical (s : t) : bytes :=
  line "stele-seen/v0" [] ++
  line "witness_id: " (WitnessID s) ++
  line "origin: " (Origin s) ++
  line "issued_at: " (fmt_d (IssuedAt s)) ++
  line "pubkey: " (hex (PublicKey s)) ++
  line "entries: " (fmt_d (len (by_size (Seen s)))) ++
  size_lines (by_size (Seen s)).

Definition Verify `{Crypto} (s : t) : res unit :=
  fail_if negb (len (PublicKey s) =? PublicKeySize) with "signed seen: bad public key length" ;;
  fail_if negb (len (Signature s) =? SignatureSize) with "signed seen: bad signature length" ;;
  fail_if negb (ed_verify (PublicKey s) (Canonical s) (Signature s))
    with "signed seen: signature does not verify" ;;
  Ok tt.
End SignedSeen.

Module CrossAttestation.
Record t := mk {
  AttesterID : bytes;
  AttesterKey : bytes;
  AttesterKeyID : bytes;
  PeerID : bytes;
  PeerKey : bytes;
  Origin : bytes;
  OverlappingSizes : gmap Z bytes;
  IssuedAt : Z;
  PeerStatementIssuedAt : Z;
  Signature : bytes;
}.

Definition Canonical (c : t) : bytes :=
  line "stele-cross/v0" [] ++
  line "attester: " (AttesterID c) ++
  line "peer: " (PeerID c) ++
  line "origin: " (Origin c) ++
  line "issued_at: " (fmt_d (IssuedAt c)) ++
  line "peer_statement_issued_at: " (fmt_d (PeerStatementIssuedAt c)) ++
  line "attester_key: " (hex (AttesterKey c)) ++
  line "peer_key: " (hex (PeerKey c)) ++
  line "overlap_count: " (fmt_d (len (by_size (OverlappingSizes c)))) ++
  size_lines (by_size (OverlappingSizes c)).

Definition Verify `{Crypto} (c : t) : res unit :=
  fail_if negb (len (AttesterKey c) =? PublicKeySize) with "cross-attestation: bad attester key length" ;;
  fail_if negb (len (Signature c) =? SignatureSize) with "cross-attestation: bad sig length" ;;
  fail_if negb (ed_verify (AttesterKey c) (Canonical c) (Signature c))
    with "cross-attestation: signature invalid" ;;
  Ok tt.
End CrossAttestation.

Module PeerAttestation.
Record t := mk { PeerID : bytes; Origin : bytes; ReceivedAt : Z; Statement : SignedSeen.t }.
End PeerAttestation.

(** ** The server *)
Module Server.
Section Server.
Context `{Crypto}.

(** A JSON or key file: absent, not decodable, or what it encodes. *)
Inductive file (A : Type) :=
| Missing
| Corrupt
| Contents (a : A).
Arguments Missing {A}.
Arguments Corrupt {A}.
Arguments Contents {A} _.

Record PeerAttestationStore := mk_attest {
  Latest : gmap bytes (gmap bytes PeerAttestation.t);
  History : list PeerAttestation.t;
}.

Abbreviation seen_map := (gmap bytes (gmap Z bytes)).
Abbreviation checkpoint_map := (gmap bytes (gmap Z Checkpoint.t)).

Record files := mk_files {
  key_file : file bytes;
  qkey_file : file bytes;
  ops_file : file (list WatchedOperator.t);
  seen_file : file seen_map;
  checkpoints_file : file checkpoint_map;
  peers_file : file (list Peer.t);
  forks_file : file (gmap bytes ForkEvidence.t);
  attestations_file : file PeerAttestationStore;
  crossAtts_file : file (list CrossAttestation.t);
}.

Record t := mk {
  dir : files;
  id : bytes;
  priv : bytes;
  qPriv : option bytes;
  operators : gmap bytes WatchedOperator.t;
  seen : seen_map;
  checkpoints : checkpoint_map;
  peers : gmap bytes Peer.t;
  forks : gmap bytes ForkEvidence.t;
  attest : PeerAttestationStore;
  crossAtts : list CrossAttestation.t;
}.

(** Fields the code derives from the private keys. *)
Definition pub (s : t) : bytes := ed_public (priv s).
Definition keyID (s : t) : bytes := Fwdsec.KeyID (pub s).
Definition qPub (s : t) : bytes := match qPriv s with Some q => d3_public q | None => [] end.

(** *** Field updates *)
Definition set_dir (s : t) d : t :=
  mk d (id s) (priv s) (qPriv s) (operators s) (seen s) (checkpoints s) (peers s) (forks s) (attest s) (crossAtts s).
Definition set_keys (s : t) k q : t :=
  mk (dir s) (id s) k q (operators s) (seen s) (checkpoints s) (peers s) (forks s) (attest s) (crossAtts s).
Definition set_operators (s : t) o : t :=
  mk (dir s) (id s) (priv s) (qPriv s) o (seen s) (checkpoints s) (peers s) (forks s) (attest s) (crossAtts s).
Definition set_seen (s : t) m c : t :=
  mk (dir s) (id s) (priv s) (qPriv s) (operators s) m c (peers s) (forks s) (attest s) (crossAtts s).
Definition set_peers (s : t) p : t :=
  mk (dir s) (id s) (priv s) (qPriv s) (operators s) (seen s) (checkpoints s) p (forks s) (attest s) (crossAtts s).
Definition set_forks (s : t) f : t :=
  mk (dir s) (id s) (priv s) (qPriv s) (operators s) (seen s) (checkpoints s) (peers s) f (attest s) (crossAtts s).
Definition set_attest (s : t) a : t :=
  mk (dir s) (id s) (priv s) (qPriv s) (operators s) (seen s) (checkpoints s) (peers s) (forks s) a (crossAtts s).
Definition set_cross (s : t) a : t :=
  mk (dir s) (id s) (priv s) (qPriv s) (operators s) (seen s) (checkpoints s) (peers s) (forks s) (attest s) a.

(** *** Persistence

    [atomicWrite] writes a temporary file and renames it: [wr] says whether
    that went through; if not, the old file stays. *)
Definition save (upd : files -> files) (wr : bool) (s : t) : t * res unit :=
  if wr then (set_dir s (upd (dir s)), Ok tt) else (s, Err ["write"%string]).

Definition saveOperators (wr : bool) (s : t) : t * res unit :=
  save (fun d => mk_files (key_file d) (qkey_file d) (Contents (map snd (map_to_list (operators s)))) (seen_file d)
          (checkpoints_file d) (peers_file d) (forks_file d) (attestations_file d) (crossAtts_file d)) wr s.
Definition saveSeen (wr : bool) (s : t) : t * res unit :=
  save (fun d => mk_files (key_file d) (qkey_file d) (ops_file d) (Contents (seen s))
          (checkpoints_file d) (peers_file d) (forks_file d) (attestations_file d) (crossAtts_file d)) wr s.
Definition saveCheckpoints (wr : bool) (s : t) : t * res unit :=
  save (fun d => mk_files (key_file d) (qkey_file d) (ops_file d) (seen_file d)
          (Contents (checkpoints s)) (peers_file d) (forks_file d) (attestations_file d) (crossAtts_file d)) wr s.
Definition savePeers (wr : bool) (s : t) : t * res unit :=
  save (fun d => mk_files (key_file d) (qkey_file d) (ops_file d) (seen_file d)
          (checkpoints_file d) (Contents (map snd (map_to_list (peers s)))) (forks_file d) (attestations_file d)
          (crossAtts_file d)) wr s.
Definition saveForks (wr : bool) (s : t) : t * res unit :=
  save (fun d => mk_files (key_file d) (qkey_file d) (ops_file d) (seen_file d)
          (checkpoints_file d) (peers_file d) (Contents (forks s)) (attestations_file d) (crossAtts_file d)) wr s.
Definition saveAttestationsLocked (wr : bool) (s : t) : t * res unit :=
  save (fun d => mk_files (key_file d) (qkey_file d) (ops_file d) (seen_file d)
          (checkpoints_file d) (peers_file d) (forks_file d) (Contents (attest s)) (crossAtts_file d)) wr s.
Definition saveCrossAttsLocked (wr : bool) (s : t) : t * res unit :=
  save (fun d => mk_files (key_file d) (qkey_file d) (ops_file d) (seen_file d)
          (checkpoints_file d) (peers_file d) (forks_file d) (attestations_file d) (Contents (crossAtts s))) wr s.

(** [os.ReadFile] and [json.Unmarshal]: a missing file is no error. *)
Definition load {A} (f : file A) (k : A -> t) (s : t) : t * res unit :=
  match f with
  | Missing => (s, Ok tt)
  | Corrupt => (s, Err ["unmarshal"%string])
  | Contents a => (k a, Ok tt)
  end.

Definition by_origin (l : list WatchedOperator.t) (m : gmap bytes WatchedOperator.t) :=
  foldl (fun m op => <[WatchedOperator.Origin op := op]> m) m l.
Definition by_id (l : list Peer.t) (m : gmap bytes Peer.t) := foldl (fun m p => <[Peer.ID p := p]> m) m l.

Definition loadOperators (s : t) : t * res unit :=
  load (ops_file (dir s)) (fun l => set_operators s (by_origin l (operators s))) s.
Definition loadSeen (s : t) : t * res unit :=
  load (seen_file (dir s)) (fun m => set_seen s m (checkpoints s)) s.
Definition loadCheckpoints (s : t) : t * res unit :=
  load (checkpoints_file (dir s)) (fun m => set_seen s (seen s) m) s.
Definition loadPeers (s : t) : t * res unit :=
  load (peers_file (dir s)) (fun l => set_peers s (by_id l (peers s))) s.
Definition loadForks (s : t) : t * res unit := load (forks_file (dir s)) (fun m => set_forks s m) s.
Definition loadAttestations (s : t) : t * res unit := load (attestations_file (dir s)) (fun a => set_attest s a) s.
Definition loadCrossAtts (s : t) : t * res unit := load (crossAtts_file (dir s)) (fun l => set_cross s l) s.

(** [gen]: what key generation draws; [wr1], [wr2]: the writes of the private
    and the public key file. *)
Definition loadOrCreateKey (gen : res bytes) (wr1 wr2 : bool) (s : t) : t * res unit :=
  match key_file (dir s) with
  | Contents raw =>
      if negb (len raw =? PrivateKeySize) then (s, Err ["witness key wrong length"%string])
      else (set_keys s raw (qPriv s), Ok tt)
  | Corrupt => (s, Err ["decode"%string])
  | Missing =>
      match gen with
      | Err e => (s, Err e)
      | Ok p =>
          let s := set_keys s p (qPriv s) in
          if negb wr1 then (s, Err ["write"%string])
          else
            let d := dir s in
            (set_dir s (mk_files (Contents p) (qkey_file d) (ops_file d) (seen_file d) (checkpoints_file d)
                          (peers_file d) (forks_file d) (attestations_file d) (crossAtts_file d)),
             if wr2 then Ok tt else Err ["write"%string])
      end
  end.

Definition loadOrCreateQuantumKey (hybrid : bool) (gen : res bytes) (wr1 wr2 : bool) (s : t) : t * res unit :=
  match qkey_file (dir s) with
  | Contents raw => (set_keys s (priv s) (Some raw), Ok tt)
  | Corrupt => (s, Err ["witness quantum key parse"%string])
  | Missing =>
      if negb hybrid then (s, Ok tt)
      else match gen with
      | Err e => (s, Err e)
      | Ok q =>
          let s := set_keys s (priv s) (Some q) in
          if negb wr1 then (s, Err ["write"%string])
          else
            let d := dir s in
            (set_dir s (mk_files (key_file d) (Contents q) (ops_file d) (seen_file d) (checkpoints_file d)
                          (peers_file d) (forks_file d) (attestations_file d) (crossAtts_file d)),
             if wr2 then Ok tt else Err ["write"%string])
      end
  end.

(** The draws and writes of a first start. *)
Record start_io := mk_start { gen_key : res bytes; gen_qkey : res bytes; wr_keys : bool * bool; wr_qkeys : bool * bool }.

Definition newServer (sid : bytes) (d : files) (hybrid : bool) (io : start_io) : t * res unit :=
  let s := mk d sid [] None ∅ ∅ ∅ ∅ ∅ (mk_attest ∅ []) [] in
  (do! _ <- loadOrCreateKey (gen_key io) (wr_keys io).1 (wr_keys io).2;
   do! _ <- loadOrCreateQuantumKey hybrid (gen_qkey io) (wr_qkeys io).1 (wr_qkeys io).2;
   do! _ <- loadOperators;
   do! _ <- loadSeen;
   do! _ <- loadCheckpoints;
   do! _ <- loadPeers;
   do! _ <- loadForks;
   do! _ <- loadAttestations;
   loadCrossAtts) s.

Definition NewServer (sid : bytes) (d : files) (io : start_io) : t * res unit := newServer sid d false io.
Definition NewHybridServer (sid : bytes) (d : files) (io : start_io) : t * res unit := newServer sid d true io.

(** *** Operators, peers, forks *)

Definition AddOperator (wr : bool) (op : option WatchedOperator.t) (s : t) : t * res unit :=
  match op with
  | None => (s, Err ["witness: invalid operator descriptor"%string])
  | Some op =>
      if bool_decide (WatchedOperator.Origin op = []) || negb (len (WatchedOperator.RootPublicKey op) =? PublicKeySize)
      then (s, Err ["witness: invalid operator descriptor"%string])
      else saveOperators wr (set_operators s (<[WatchedOperator.Origin op := op]> (operators s)))
  end.

Definition AddPeer (now : Z) (wr : bool) (p : option Peer.t) (s : t) : t * res unit :=
  match p with
  | None => (s, Err ["witness: peer requires id + url"%string])
  | Some p =>
      if bool_decide (Peer.ID p = []) || bool_decide (Peer.URL p = [])
      then (s, Err ["witness: peer requires id + url"%string])
      else if negb (len (Peer.PublicKey p) =? PublicKeySize)
      then (s, Err ["witness: peer public key wrong length"%string])
      else
        let p := if Peer.AddedAt p =? 0
                 then Peer.mk (Peer.ID p) (Peer.URL p) (Peer.PublicKey p) (Peer.Description p) now else p in
        savePeers wr (set_peers s (<[Peer.ID p := p]> (peers s)))
  end.

(** The write's outcome is ignored by the code. *)
Definition ClearFork (wr : bool) (origin : bytes) (s : t) : t :=
  (saveForks wr (set_forks s (delete origin (forks s)))).1.

Definition recordForkLocked (now : Z) (wr : bool) (origin : bytes) (size : Z)
    (ours theirs : option Checkpoint.t) (peerID : bytes) (s : t) : t :=
  (saveForks wr (set_forks s (<[origin := ForkEvidence.mk origin size now ours theirs peerID]> (forks s)))).1.

(** *** Reads *)

(** [s.seen[origin][size]] and the like: a missing inner map reads as empty. *)
Definition at2 {A} (m : gmap bytes (gmap Z A)) (origin : bytes) (size : Z) : option A :=
  m !! origin ≫= (.!! size).
Definition put2 {A} (m : gmap bytes (gmap Z A)) (origin : bytes) (size : Z) (a : A) : gmap bytes (gmap Z A) :=
  <[origin := <[size := a]> (default ∅ (m !! origin))]> m.

Definition SeenFor (s : t) (origin : bytes) : gmap Z bytes := default ∅ (seen s !! origin).
Definition CheckpointAt (s : t) (origin : bytes) (size : Z) : option Checkpoint.t := at2 (checkpoints s) origin size.

(** *** Countersigning *)

Definition countersign (now : Z) (c : Checkpoint.t) (s : t) : WitnessSig.t :=
  let msg := Checkpoint.CanonicalForWitness c in
  WitnessSig.mk (id s) (pub s) (keyID s) (ed_sign (priv s) msg) now
    (match qPriv s with Some _ => qPub s | None => [] end)
    (match qPriv s with Some q => d3_sign q msg | None => [] end).

(** [wr_fork], [wr_seen], [wr_ckpt]: the writes of forks.json, seen.json and
    checkpoints.json. *)
Definition Cosign (now : Z) (wr_fork wr_seen wr_ckpt : bool) (c : Checkpoint.t) (chain : option Chain.t)
    (group : option Group.t) (s : t) : t * res WitnessSig.t :=
  let origin := Checkpoint.Origin c in
  let size := Checkpoint.Size c in
  match forks s !! origin with
  | Some _ => (s, Err ["witness: refusing to cosign: origin is flagged as FORKED"%string])
  | None =>
      match operators s !! origin with
      | None => (s, Err ["witness: operator is not on the watch list"%string])
      | Some op =>
          match Checkpoint.Verify c chain (WatchedOperator.RootPublicKey op) group with
          | Err e => (s, Err ("witness: operator signature did not verify"%string :: e))
          | Ok _ =>
              let rootHex := hex (Checkpoint.RootHash c) in
              let conflict := match at2 (seen s) origin size with
                              | Some existing => negb (bool_decide (existing = rootHex))
                              | None => false
                              end in
              if conflict then
                (recordForkLocked now wr_fork origin size (at2 (checkpoints s) origin size) (Some c) [] s,
                 Err ["witness: FORK detected"%string])
              else
                let s := set_seen s (put2 (seen s) origin size rootHex) (put2 (checkpoints s) origin size c) in
                match saveSeen wr_seen s with
                | (s, Err e) => (s, Err e)
                | (s, Ok _) =>
                    match saveCheckpoints wr_ckpt s with
                    | (s, Err e) => (s, Err e)
                    | (s, Ok _) => (s, Ok (countersign now c s))
                    end
                end
          end
      end
  end.

(** *** Gossip *)

(** The loop over the peer's map; [order] is the order the runtime iterates it
    in, [fetch] the callback for the peer's checkpoint ([None] when nil). *)
Fixpoint first_conflict (mine : gmap Z bytes) (order : list (Z * bytes)) : option Z :=
  match order with
  | [] => None
  | (size, theirRoot) :: order' =>
      match mine !! size with
      | None => first_conflict mine order'
      | Some ourRoot => if bool_decide (ourRoot = theirRoot) then first_conflict mine order' else Some size
      end
  end.

Definition CompareWithPeer (now : Z) (wr : bool) (origin : bytes) (order : list (Z * bytes)) (peer : Peer.t)
    (fetch : option (Z -> res (option Checkpoint.t))) (s : t) : t * res unit :=
  match first_conflict (default ∅ (seen s !! origin)) order with
  | None => (s, Ok tt)
  | Some size =>
      let theirCP := match fetch with
                     | Some f => match f size with Ok cp => cp | Err _ => None end
                     | None => None
                     end in
      (recordForkLocked now wr origin size (at2 (checkpoints s) origin size) theirCP (Peer.ID peer) s,
       Err ["FORK"%string])
  end.

Definition IssueSignedSeen (now : Z) (origin : bytes) (s : t) : SignedSeen.t :=
  let unsigned := SignedSeen.mk (id s) (pub s) (keyID s) origin (SeenFor s origin) now [] in
  SignedSeen.mk (id s) (pub s) (keyID s) origin (SeenFor s origin) now
    (ed_sign (priv s) (SignedSeen.Canonical unsigned)).

(** The size at which two statements disagree, which is what is read back from
    the message; [order] iterates [prev.Seen]. *)
Definition findContradiction (order : list (Z * bytes)) (next : SignedSeen.t) : option Z :=
  first_conflict (SignedSeen.Seen next) order.

Definition recordAttestationLocked (now : Z) (wr_fork wr : bool) (order : list (Z * bytes)) (peerID : bytes)
    (ss : SignedSeen.t) (s : t) : t * res unit :=
  let a := attest s in
  let mine := default ∅ (Latest a !! peerID) in
  let origin := SignedSeen.Origin ss in
  let att := PeerAttestation.mk peerID origin now ss in
  let s := match mine !! origin with
           | None => s
           | Some _ =>
               match findContradiction order ss with
               | None => s
               | Some size => recordForkLocked now wr_fork origin size None None peerID s
               end
           end in
  saveAttestationsLocked wr
    (set_attest s (mk_attest (<[peerID := <[origin := att]> mine]> (Latest a)) (History a ++ [att]))).

Definition PeerAttestations (peerID : bytes) (s : t) : list PeerAttestation.t :=
  filter (fun a => peerID = [] \/ PeerAttestation.PeerID a = peerID) (History (attest s)).

(** Sizes at which both views agree. *)
Definition overlap (mine theirs : gmap Z bytes) : gmap Z bytes :=
  map_imap (fun size theirRoot =>
    match mine !! size with
    | Some ourRoot => if bool_decide (ourRoot = theirRoot) then Some ourRoot else None
    | None => None
    end) theirs.

Definition issueCrossAttestation (now : Z) (peer : Peer.t) (stmt : SignedSeen.t) (s : t)
    : option CrossAttestation.t :=
  let o := overlap (default ∅ (seen s !! SignedSeen.Origin stmt)) (SignedSeen.Seen stmt) in
  if bool_decide (o = ∅) then None
  else
    let att sig := CrossAttestation.mk (id s) (pub s) (keyID s) (Peer.ID peer) (Peer.PublicKey peer)
                     (SignedSeen.Origin stmt) o now (SignedSeen.IssuedAt stmt) sig in
    Some (att (ed_sign (priv s) (CrossAttestation.Canonical (att [])))).

Definition recordCrossAttestationLocked (wr : bool) (att : CrossAttestation.t) (s : t) : t * res unit :=
  saveCrossAttsLocked wr (set_cross s (crossAtts s ++ [att])).

Definition CrossAttestationsAbout (peerID : bytes) (s : t) : list CrossAttestation.t :=
  filter (fun a => peerID = [] \/ CrossAttestation.PeerID a = peerID \/ CrossAttestation.AttesterID a = peerID)
    (crossAtts s).

(** What one exchange with a peer draws from outside: clock, writes, iteration
    orders, and the callback. *)
Record gossip_io := mk_gio {
  g_now : Z;
  g_prev : list (Z * bytes);
  g_seen : list (Z * bytes);
  g_fetch : Z -> res (option Checkpoint.t);
  g_wr : bool * bool * bool * bool;
}.

(** The event is what [EventSink] would be given. *)
Definition gossipOne (io : gossip_io) (peer : Peer.t) (op : WatchedOperator.t) (fetched : res SignedSeen.t)
    (s : t) : t * option ForkEvidence.t :=
  let '(w1, w2, w3, w4) := g_wr io in
  match fetched with
  | Err _ => (s, None)
  | Ok stmt =>
      match SignedSeen.Verify stmt with
      | Err _ => (s, None)
      | Ok _ =>
          if negb (bytesEqual (SignedSeen.PublicKey stmt) (Peer.PublicKey peer)) then (s, None)
          else if negb (bool_decide (SignedSeen.WitnessID stmt = Peer.ID peer)) then (s, None)
          else
            let s := (recordAttestationLocked (g_now io) w1 w2 (g_prev io) (Peer.ID peer) stmt s).1 in
            match CompareWithPeer (g_now io) w3 (WatchedOperator.Origin op) (g_seen io) peer (Some (g_fetch io)) s with
            | (s, Err _) => (s, forks s !! WatchedOperator.Origin op)
            | (s, Ok _) =>
                match issueCrossAttestation (g_now io) peer stmt s with
                | None => (s, None)
                | Some att => ((recordCrossAttestationLocked w4 att s).1, None)
                end
            end
      end
  end.

(** *** Which calls touch the record of signed roots *)

Lemma at2_put2_eq {A} (m : gmap bytes (gmap Z A)) o n a : at2 (put2 m o n a) o n = Some a.
Proof. unfold at2, put2. rewrite lookup_insert_eq. cbn. by rewrite lookup_insert_eq. Qed.

Lemma at2_put2_ne {A} (m : gmap bytes (gmap Z A)) o n a o' n' :
  o' <> o \/ n' <> n -> at2 (put2 m o n a) o' n' = at2 m o' n'.
Proof.
  unfold at2, put2. intros Hne. destruct (decide (o' = o)) as [->|Ho]; [|by rewrite lookup_insert_ne].
  destruct Hne as [?|Hn]; [done|]. rewrite lookup_insert_eq. cbn. rewrite lookup_insert_ne by done.
  by destruct (m !! o).
Qed.

(** The record of roots in memory and on disk, and the key, are as before. *)
Definition same (s s' : t) : Prop :=
  seen s' = seen s /\ seen_file (dir s') = seen_file (dir s) /\ key_file (dir s') = key_file (dir s) /\
  priv s' = priv s.

Lemma same_refl s : same s s.
Proof. by split. Qed.
Lemma same_trans s1 s2 s3 : same s1 s2 -> same s2 s3 -> same s1 s3.
Proof. intros (A1 & A2 & A3 & A4) (B1 & B2 & B3 & B4). split_and!; congruence. Qed.

Lemma save_same upd wr s s' r :
  (forall d, seen_file (upd d) = seen_file d /\ key_file (upd d) = key_file d) ->
  save upd wr s = (s', r) -> same s s'.
Proof.
  intros U. unfold save. destruct wr; intros [= <- _]; [|apply same_refl].
  destruct (U (dir s)) as [U1 U2]. by split.
Qed.

Ltac saves := eapply save_same; [|eassumption]; by intros d.

Lemma saveForks_same wr s f s' r : saveForks wr (set_forks s f) = (s', r) -> same s s'.
Proof. intros E. apply (same_trans s (set_forks s f)); [by split|]. unfold saveForks in E. saves. Qed.

Lemma recordFork_same now wr o n a b p s : same s (recordForkLocked now wr o n a b p s).
Proof. unfold recordForkLocked. eapply saveForks_same, surjective_pairing. Qed.

Lemma ClearFork_same wr o s : same s (ClearFork wr o s).
Proof. unfold ClearFork. eapply saveForks_same, surjective_pairing. Qed.

Lemma AddOperator_same wr op s s' r : AddOperator wr op s = (s', r) -> same s s'.
Proof.
  unfold AddOperator. destruct op as [op|]; [|intros [= <- _]; apply same_refl].
  destruct (_ || _); [intros [= <- _]; apply same_refl|]. intros E.
  eapply same_trans; [|unfold saveOperators in E; saves]. by split.
Qed.

Lemma AddPeer_same now wr p s s' r : AddPeer now wr p s = (s', r) -> same s s'.
Proof.
  unfold AddPeer. destruct p as [p|]; [|intros [= <- _]; apply same_refl].
  destruct (_ || _); [intros [= <- _]; apply same_refl|].
  destruct (negb _); [intros [= <- _]; apply same_refl|]. intros E.
  eapply same_trans; [|unfold savePeers in E; saves]. by split.
Qed.

Lemma Compare_same now wr o order p f s s' r : CompareWithPeer now wr o order p f s = (s', r) -> same s s'.
Proof.
  unfold CompareWithPeer. destruct (first_conflict _ _); intros [= <- _]; [apply recordFork_same|apply same_refl].
Qed.

Lemma recordAttestation_same now wf wr order p ss s : same s (recordAttestationLocked now wf wr order p ss s).1.
Proof.
  unfold recordAttestationLocked, saveAttestationsLocked.
  set (s1 := match _ !! SignedSeen.Origin ss with None => s | Some _ => _ end).
  assert (same s s1) as X.
  { unfold s1. destruct (_ !! _); [|apply same_refl]. destruct (findContradiction _ _); [apply recordFork_same|apply same_refl]. }
  apply (same_trans s s1); [exact X|].
  eapply same_trans; [|eapply save_same; [|apply surjective_pairing]; by intros d]. by split.
Qed.

Lemma gossipOne_same io peer op f s s' ev : gossipOne io peer op f s = (s', ev) -> same s s'.
Proof.
  unfold gossipOne. destruct (g_wr io) as [[[w1 w2] w3] w4].
  destruct f as [stmt|e]; [|intros [= <- _]; apply same_refl].
  destruct (SignedSeen.Verify stmt); [|intros [= <- _]; apply same_refl].
  destruct (negb _); [intros [= <- _]; apply same_refl|].
  destruct (negb _); [intros [= <- _]; apply same_refl|].
  set (s1 := (recordAttestationLocked _ _ _ _ _ _ s).1).
  assert (same s s1) as S1 by apply recordAttestation_same.
  destruct (CompareWithPeer _ _ _ _ _ _ s1) as [s2 [u|e]] eqn:EC; pose proof (Compare_same _ _ _ _ _ _ _ _ _ EC) as S2.
  - destruct (issueCrossAttestation _ _ _ _) as [att|]; intros [= <- _]; [|by eapply same_trans].
    eapply same_trans; [exact S1|]. eapply same_trans; [exact S2|].
    unfold recordCrossAttestationLocked, saveCrossAttsLocked.
    eapply same_trans; [|eapply save_same; [|apply surjective_pairing]; by intros d]. by split.
  - intros [= <- _]. by eapply same_trans.
Qed.

(** *** Start-up *)

Lemma bind_ok {S A D} (m : stm S A) (k : A -> stm S D) s s' b :
  st_bind m k s = (s', Ok b) -> exists s1 a, m s = (s1, Ok a) /\ k a s1 = (s', Ok b).
Proof. unfold st_bind. destruct (m s) as [s1 [a|e]]; [|done]. intros E. by exists s1, a. Qed.

Definition contents {A} `{Empty A} (f : file A) : A := match f with Contents a => a | _ => ∅ end.

Lemma load_same {A} (f : file A) k s s' r :
  (forall a, same s (k a)) -> load f k s = (s', r) -> same s s'.
Proof. intros K. unfold load. destruct f; intros [= <- _]; [apply same_refl|apply same_refl|apply K]. Qed.

Lemma quantum_same hyb gen w1 w2 s s' r : loadOrCreateQuantumKey hyb gen w1 w2 s = (s', r) -> same s s'.
Proof.
  unfold loadOrCreateQuantumKey. repeat case_match; intros [= <- _]; by split.
Qed.

Lemma key_loaded gen w1 w2 s s' :
  loadOrCreateKey gen w1 w2 s = (s', Ok tt) ->
  seen s' = seen s /\ seen_file (dir s') = seen_file (dir s) /\ key_file (dir s') = Contents (priv s') /\
  (forall k, key_file (dir s) = Contents k -> priv s' = k).
Proof.
  unfold loadOrCreateKey. destruct (key_file (dir s)) as [| |raw] eqn:E.
  - destruct gen as [p|e]; [|done]. destruct w1; [|done]. destruct w2; [|done]. by intros [= <-].
  - done.
  - destruct (negb _); [done|]. intros [= <-]. split_and!; [done|done|done|]. intros k [= ->]. done.
Qed.

Lemma newServer_loaded sid d hyb io s :
  newServer sid d hyb io = (s, Ok tt) ->
  seen s = contents (seen_file d) /\ seen_file (dir s) = seen_file d /\ key_file (dir s) = Contents (priv s) /\
  (forall k, key_file d = Contents k -> priv s = k).
Proof.
  unfold newServer. set (s0 := mk _ _ _ _ _ _ _ _ _ _ _). intros E.
  apply bind_ok in E as (s1 & [] & E1 & E). apply bind_ok in E as (s2 & [] & E2 & E).
  apply bind_ok in E as (s3 & [] & E3 & E). apply bind_ok in E as (s4 & [] & E4 & E).
  apply bind_ok in E as (s5 & [] & E5 & E). apply bind_ok in E as (s6 & [] & E6 & E).
  apply bind_ok in E as (s7 & [] & E7 & E). apply bind_ok in E as (s8 & [] & E8 & E9).
  apply key_loaded in E1 as (A1 & A2 & A3 & A4).
  assert (same s1 s3) as (B1 & B2 & B3 & B4).
  { eapply same_trans; [by eapply quantum_same|]. eapply load_same; [|exact E3]. by intros a. }
  assert (same s4 s) as (C1 & C2 & C3 & C4).
  { eapply same_trans; [eapply load_same; [|exact E5]; by intros a|].
    eapply same_trans; [eapply load_same; [|exact E6]; by intros a|].
    eapply same_trans; [eapply load_same; [|exact E7]; by intros a|].
    eapply same_trans; [eapply load_same; [|exact E8]; by intros a|].
    eapply load_same; [|exact E9]. by intros a. }
  assert (seen s4 = contents (seen_file d) /\ seen_file (dir s4) = seen_file d /\
    key_file (dir s4) = key_file (dir s3) /\ priv s4 = priv s3) as (D1 & D2 & D3 & D4).
  { unfold loadSeen, load in E4. rewrite B2, A2 in E4. change (seen_file (dir s0)) with (seen_file d) in E4.
    destruct (seen_file d) as [| |m] eqn:Ed; injection E4 as <-; try done; (split_and!; try done).
    - by rewrite B1, A1.
    - by rewrite B2, A2.
    - cbn. by rewrite B2, A2. }
  split_and!; [congruence|congruence| |].
  - rewrite C3, C4, D3, D4, B3, B4. exact A3.
  - intros k Hk. rewrite C4, D4, B4. by apply A4.
Qed.

(** *** Invariant *)

Abbreviation issue := (Checkpoint.t * WitnessSig.t)%type.

(** The disk never knows a root that memory does not, and every signature ever
    given out is on disk, by the key the server has. *)
Record inv (s : t) (issued : list issue) : Prop := {
  inv_disk : forall o n r, at2 (contents (seen_file (dir s))) o n = Some r -> at2 (seen s) o n = Some r;
  inv_issued : forall c w, (c, w) ∈ issued ->
    at2 (contents (seen_file (dir s))) (Checkpoint.Origin c) (Checkpoint.Size c) = Some (hex (Checkpoint.RootHash c)) /\
    ed_verify (pub s) (Checkpoint.CanonicalForWitness c) (WitnessSig.Signature w) = true;
  inv_key : key_file (dir s) = Contents (priv s);
}.

Lemma inv_same s s' issued : inv s issued -> same s s' -> inv s' issued.
Proof.
  intros [I1 I2 I3] (A1 & A2 & A3 & A4). split.
  - intros o n r. rewrite A1, A2. apply I1.
  - intros c w Hin. unfold pub. rewrite A2, A4. by apply I2.
  - by rewrite A3, A4.
Qed.

Context `{!CryptoLaws _}.

Lemma Cosign_inv now wf ws wc c chain group s issued s' r :
  inv s issued -> Cosign now wf ws wc c chain group s = (s', r) ->
  inv s' (match r with Ok w => issued ++ [(c, w)] | Err _ => issued end).
Proof.
  intros I. unfold Cosign. destruct (forks s !! _); [by intros [= <- <-]|].
  destruct (operators s !! _) as [op|]; [|by intros [= <- <-]].
  destruct (Checkpoint.Verify _ _ _ _); [|by intros [= <- <-]].
  set (o := Checkpoint.Origin c). set (n := Checkpoint.Size c). set (rh := hex (Checkpoint.RootHash c)).
  destruct (match at2 (seen s) o n with Some existing => _ | None => false end) eqn:EC.
  { intros [= <- <-]. eapply inv_same; [exact I|apply recordFork_same]. }
  assert (forall x, at2 (seen s) o n = Some x -> x = rh) as Hold.
  { intros x Hx. rewrite Hx in EC. apply negb_false_iff in EC. by apply bool_decide_eq_true in EC. }
  set (s1 := set_seen s _ _).
  assert (forall o' n' x, at2 (seen s) o' n' = Some x -> at2 (seen s1) o' n' = Some x) as Hmono.
  { intros o' n' x Hx. cbn. destruct (decide (o' = o /\ n' = n)) as [[-> ->]|Hne].
    - rewrite at2_put2_eq. by rewrite (Hold x Hx).
    - rewrite at2_put2_ne; [done|]. destruct (decide (o' = o)); [right|left]; [|done]. intros ->. by apply Hne. }
  destruct I as [I1 I2 I3].
  assert (inv s1 issued) as I1'.
  { split; [|exact I2|exact I3]. intros o' n' x Hx. by apply Hmono, I1. }
  unfold saveSeen at 1, save. destruct ws; [|by intros [= <- <-]].
  set (s2 := set_dir s1 _).
  assert (at2 (contents (seen_file (dir s2))) o n = Some rh) as Hnew by (cbn; apply at2_put2_eq).
  assert (inv s2 issued) as I2'.
  { split; [done| |exact I3]. intros c' w' Hin. destruct (I2 c' w' Hin) as [Hd Hv]. split; [|exact Hv].
    by apply Hmono, I1. }
  unfold saveCheckpoints at 1, save. destruct wc; [|by intros [= <- <-]].
  intros [= <- <-]. split; [apply I2'| |apply I2'].
  intros c' w' [Hin|Hin]%elem_of_app; [by apply I2'|].
  apply list_elem_of_singleton in Hin as [= -> ->]. split; [exact Hnew|]. cbn. apply ed_sign_verify.
Qed.

(** *** Reachable servers, with everything they ever signed *)
Inductive reach : t -> list issue -> Prop :=
| reach_start sid d hyb io s :
    seen_file d = Missing -> newServer sid d hyb io = (s, Ok tt) -> reach s []
| reach_cosign s issued now wf ws wc c chain group s' r :
    reach s issued -> Cosign now wf ws wc c chain group s = (s', r) ->
    reach s' (match r with Ok w => issued ++ [(c, w)] | Err _ => issued end)
| reach_operator s issued wr op s' r : reach s issued -> AddOperator wr op s = (s', r) -> reach s' issued
| reach_peer s issued now wr p s' r : reach s issued -> AddPeer now wr p s = (s', r) -> reach s' issued
| reach_clear s issued wr o : reach s issued -> reach (ClearFork wr o s) issued
| reach_gossip s issued io peer op f s' ev :
    reach s issued -> gossipOne io peer op f s = (s', ev) -> reach s' issued
| reach_restart s issued sid hyb io s' :
    reach s issued -> newServer sid (dir s) hyb io = (s', Ok tt) -> reach s' issued.

Lemma reach_inv s issued : reach s issued -> inv s issued.
Proof.
  induction 1 as [sid d hyb io s M E|s issued now wf ws wc c chain group s' r R I E|s issued wr op s' r R I E
    |s issued now wr p s' r R I E|s issued wr o R I|s issued io peer op f s' ev R I E|s issued sid hyb io s' R I E].
  - apply newServer_loaded in E as (E1 & E2 & E3 & _). split; [|by intros c w ?%elem_of_nil|exact E3].
    rewrite E1, E2. done.
  - by eapply Cosign_inv.
  - eapply inv_same; [exact I|by eapply AddOperator_same].
  - eapply inv_same; [exact I|by eapply AddPeer_same].
  - eapply inv_same; [exact I|apply ClearFork_same].
  - eapply inv_same; [exact I|by eapply gossipOne_same].
  - apply newServer_loaded in E as (E1 & E2 & E3 & E4). destruct I as [I1 I2 I3]. split.
    + rewrite E1, E2. done.
    + intros c w Hin. rewrite E2. unfold pub. rewrite (E4 _ I3). by apply I2.
    + exact E3.
Qed.

(** *** Conflicts *)

Lemma first_conflict_some mine order n :
  first_conflict mine order = Some n ->
  exists ours theirs, mine !! n = Some ours /\ (n, theirs) ∈ order /\ ours <> theirs.
Proof.
  induction order as [|[m r] order IH]; cbn [first_conflict]; [done|].
  destruct (mine !! m) as [x|] eqn:E.
  - case_bool_decide as D.
    + intros (a & b & ? & ? & ?)%IH. exists a, b. split_and!; [done|by right|done].
    + intros [= <-]. exists x, r. split_and!; [done|left|done].
  - intros (a & b & ? & ? & ?)%IH. exists a, b. split_and!; [done|by right|done].
Qed.

Lemma first_conflict_none mine order :
  first_conflict mine order = None ->
  forall n ours theirs, mine !! n = Some ours -> (n, theirs) ∈ order -> ours = theirs.
Proof.
  induction order as [|[m r] order IH]; cbn [first_conflict]; intros N n a b Ha Hb; [by apply elem_of_nil in Hb|].
  apply elem_of_cons in Hb as [[= -> ->]|Hb].
  - rewrite Ha in N. by case_bool_decide.
  - destruct (mine !! m); [case_bool_decide; [|done]|]; by eapply IH.
Qed.

(** Two views that disagree somewhere. *)
Definition disagree (mine theirs : gmap Z bytes) : Prop :=
  exists n a b, mine !! n = Some a /\ theirs !! n = Some b /\ a <> b.

Lemma first_conflict_iff mine theirs order :
  order ≡ₚ map_to_list theirs -> is_Some (first_conflict mine order) <-> disagree mine theirs.
Proof.
  intros P. split.
  - intros [n (a & b & Ha & Hb & D)%first_conflict_some]. exists n, a, b. split_and!; [done| |done].
    rewrite P in Hb. by apply elem_of_map_to_list in Hb.
  - intros (n & a & b & Ha & Hb & D). destruct (first_conflict mine order) as [m|] eqn:E; [done|].
    exfalso. apply D. eapply first_conflict_none; [exact E|exact Ha|].
    rewrite P. by apply elem_of_map_to_list.
Qed.

(** *** What a countersignature is worth *)

(** The keys this server publishes. *)
Definition trust_me (s : t) (wid : bytes) : option (bytes * bytes) :=
  if bool_decide (wid = id s) then Some (pub s, qPub s) else None.

Lemma countersign_counts now c s :
  Checkpoint.witness_counts (Checkpoint.CanonicalForWitness c) (trust_me s) (countersign now c s) = true.
Proof.
  apply Checkpoint.witness_counts_iff. exists (pub s), (qPub s). unfold trust_me, countersign.
  cbn [WitnessSig.WitnessID WitnessSig.PublicKey WitnessSig.Signature WitnessSig.QuantumPublicKey WitnessSig.QuantumSignature].
  rewrite bool_decide_eq_true_2 by done. split_and!; [done|apply ed_public_length|done|apply ed_sign_verify|].
  unfold qPub. destruct (qPriv s) as [q|]; [|done]. intros _.
  split_and!; [done| |apply d3_sign_verify]. intros E. pose proof (d3_sign_length q (Checkpoint.CanonicalForWitness c)) as L.
  by rewrite E in L.
Qed.

Definition signable (c : Checkpoint.t) (chain : option Chain.t) (group : option Group.t) (s : t) : Prop :=
  forks s !! Checkpoint.Origin c = None /\
  (exists op, operators s !! Checkpoint.Origin c = Some op /\
    Checkpoint.Verify c chain (WatchedOperator.RootPublicKey op) group = Ok tt) /\
  (forall r, at2 (seen s) (Checkpoint.Origin c) (Checkpoint.Size c) = Some r -> r = hex (Checkpoint.RootHash c)).

Lemma Cosign_ok now wf c chain group s :
  signable c chain group s ->
  exists s', Cosign now wf true true c chain group s = (s', Ok (countersign now c s)).
Proof.
  intros (F & (op & O & V) & N). unfold Cosign. rewrite F, O, V.
  destruct (at2 (seen s) _ _) as [x|] eqn:E.
  - rewrite bool_decide_eq_true_2 by (by apply N). cbn. by eexists.
  - cbn. by eexists.
Qed.

Lemma Cosign_refused now wf ws wc c chain group s s' w :
  Cosign now wf ws wc c chain group s = (s', Ok w) ->
  signable c chain group s /\ ws = true /\ wc = true /\ w = countersign now c s.
Proof.
  unfold Cosign, signable. destruct (forks s !! _); [done|].
  destruct (operators s !! _) as [op|]; [|done].
  destruct (Checkpoint.Verify _ _ _ _) as [[]|] eqn:V; [|done].
  destruct (at2 (seen s) _ _) as [x|] eqn:E.
  - case_bool_decide as D; cbn [negb]; [|done].
    unfold saveSeen at 1, save. destruct ws; [|done]. unfold saveCheckpoints at 1, save. destruct wc; [|done].
    intros [= _ <-]. split_and!; [done|by exists op| |done..]. intros r [= <-]. done.
  - unfold saveSeen at 1, save. destruct ws; [|done]. unfold saveCheckpoints at 1, save. destruct wc; [|done].
    intros [= _ <-]. split_and!; [done|by exists op|done..].
Qed.

Lemma recordFork_forks now wr o n a b p s :
  forks (recordForkLocked now wr o n a b p s) = <[o := ForkEvidence.mk o n now a b p]> (forks s).
Proof. unfold recordForkLocked, saveForks, save. by destruct wr. Qed.
End Server.
Arguments Missing {A}.
Arguments Corrupt {A}.
Arguments Contents {A} _.
End Server.

(** ** What the signed statements determine *)

Lemma by_size_perm m : by_size m ≡ₚ map_to_list m.
Proof. apply merge_sort_Permutation. Qed.

Lemma by_size_inj m1 m2 : by_size m1 = by_size m2 -> m1 = m2.
Proof. intros E. apply map_to_list_inj. by rewrite <- (by_size_perm m1), <- (by_size_perm m2), E. Qed.

Lemma size_lines_inj l1 l2 :
  Forall (fun x => one_line x.2) l1 -> Forall (fun x => one_line x.2) l2 ->
  size_lines l1 = size_lines l2 -> l1 = l2.
Proof.
  intros F1. revert l2. induction F1 as [|[n1 r1] l1 O1 F1 IH]; intros l2 F2 E.
  - destruct F2 as [|[n2 r2] l2 _ _]; [done|]. exfalso. unfold size_lines, size_line in E. cbn in E.
    destruct (fmt_d n2); discriminate E.
  - destruct F2 as [|[n2 r2] l2 O2 F2].
    { exfalso. unfold size_lines, size_line in E. cbn in E. destruct (fmt_d n1); discriminate E. }
    unfold size_lines, size_line in E. cbn [map concat fst snd] in E. rewrite <- !app_assoc in E.
    cbn [app] in E. apply sep_inj in E as [E1 E]; [|apply Checkpoint.colon_fmt|apply Checkpoint.colon_fmt].
    apply fmt_d_inj in E1 as ->. apply sep_inj in E as [-> E]; [|done|done].
    f_equal. by apply IH.
Qed.

(** Every root a server records is hex, so its lines stay lines. *)
Definition line_roots (m : gmap Z bytes) : Prop := map_Forall (fun _ r => one_line r) m.

Lemma line_roots_by_size m : line_roots m -> Forall (fun x => one_line x.2) (by_size m).
Proof.
  intros L. apply Forall_forall. intros [n r] Hin. rewrite by_size_perm in Hin.
  apply elem_of_map_to_list in Hin. by apply (L n r).
Qed.

Definition seen_fields (s : SignedSeen.t) :=
  (SignedSeen.WitnessID s, SignedSeen.Origin s, SignedSeen.IssuedAt s, SignedSeen.PublicKey s, SignedSeen.Seen s).

Definition seen_wf (s : SignedSeen.t) : Prop :=
  one_line (SignedSeen.WitnessID s) /\ one_line (SignedSeen.Origin s) /\ line_roots (SignedSeen.Seen s).

Lemma SignedSeen_fields s1 s2 :
  seen_wf s1 -> seen_wf s2 -> SignedSeen.Canonical s1 = SignedSeen.Canonical s2 -> seen_fields s1 = seen_fields s2.
Proof.
  intros (W1 & O1 & L1) (W2 & O2 & L2) E. unfold SignedSeen.Canonical in E.
  apply line_inj in E as [_ E]; [|by apply not_elem_of_nil..].
  apply line_inj in E as [E1 E]; [|done|done].
  apply line_inj in E as [E2 E]; [|done|done].
  apply line_inj in E as [E3%fmt_d_inj E]; auto with stele.
  apply line_inj in E as [E4%hex_inj E]; auto with stele.
  apply line_inj in E as [_ E]; auto with stele.
  apply size_lines_inj in E; [|by apply line_roots_by_size..].
  apply by_size_inj in E. unfold seen_fields. congruence.
Qed.

(** ** Properties *)

(** A witness never signs twice: over its whole life - any checkpoints in
    any order, forks flagged and cleared, gossip, failed writes, restarts - two
    countersignatures it gave out for the same log and size are for the same
    root, and both verify under the key it still has. *)
Theorem witness_no_double_cosign `{C : Crypto, !CryptoLaws C} s issued c1 w1 c2 w2 :
  Server.reach s issued -> (c1, w1) ∈ issued -> (c2, w2) ∈ issued ->
  Checkpoint.Origin c1 = Checkpoint.Origin c2 -> Checkpoint.Size c1 = Checkpoint.Size c2 ->
  Checkpoint.RootHash c1 = Checkpoint.RootHash c2 /\
  ed_verify (Server.pub s) (Checkpoint.CanonicalForWitness c1) (WitnessSig.Signature w1) = true /\
  ed_verify (Server.pub s) (Checkpoint.CanonicalForWitness c2) (WitnessSig.Signature w2) = true.
Proof.
  intros [_ I _]%Server.reach_inv H1 H2 Ho Hn.
  destruct (I c1 w1 H1) as [D1 V1], (I c2 w2 H2) as [D2 V2]. split_and!; [|done|done].
  rewrite Ho, Hn, D2 in D1. injection D1 as E. by apply hex_inj in E.
Qed.

(** [Cosign] signs exactly what it should: it returns a signature if and
    only if
    the origin is not flagged, the operator is watched and its signature
    verifies, no other root is on record at that size, and both files were
    written; and then it always does. *)
Theorem cosign_exact `{C : Crypto} now wf ws wc c chain group s :
  (exists s' w, Server.Cosign now wf ws wc c chain group s = (s', Ok w)) <->
  Server.signable c chain group s /\ ws = true /\ wc = true.
Proof.
  split.
  - intros (s' & w & E). by apply Server.Cosign_refused in E as (? & ? & ? & _).
  - intros (S & -> & ->). destruct (Server.Cosign_ok now wf c chain group s S) as [s' E]. eauto.
Qed.

(** A countersignature counts: whatever [Cosign] returns is accepted by
    [VerifyWitnessesHybrid]'s test under the witness's own published keys. *)
Theorem cosign_counts `{C : Crypto, !CryptoLaws C} now wf ws wc c chain group s s' w :
  Server.Cosign now wf ws wc c chain group s = (s', Ok w) ->
  Checkpoint.VerifyWitnessesHybrid (Checkpoint.add_witness c w) (Server.trust_me s) =
  Checkpoint.VerifyWitnessesHybrid c (Server.trust_me s) + 1.
Proof.
  intros (_ & _ & _ & ->)%Server.Cosign_refused.
  unfold Checkpoint.VerifyWitnessesHybrid.
  change (Checkpoint.CanonicalForWitness (Checkpoint.add_witness c _)) with (Checkpoint.CanonicalForWitness c).
  cbn [Checkpoint.Witnesses Checkpoint.add_witness]. rewrite !Checkpoint.count_witnesses_spec, filter_app.
  unfold len. rewrite length_app, filter_cons_True by apply Server.countersign_counts. simpl. lia.
Qed.

(** A fork is caught and remembered: an operator-signed checkpoint with
    another root at a recorded size is refused, both checkpoints are kept as
    evidence, and from then on nothing of that origin is signed - whatever
    happens in between, short of clearing the flag. *)
Theorem fork_refused `{C : Crypto} now wf ws wc c chain group s op r :
  Server.forks s !! Checkpoint.Origin c = None ->
  Server.operators s !! Checkpoint.Origin c = Some op ->
  Checkpoint.Verify c chain (WatchedOperator.RootPublicKey op) group = Ok tt ->
  Server.at2 (Server.seen s) (Checkpoint.Origin c) (Checkpoint.Size c) = Some r ->
  r <> hex (Checkpoint.RootHash c) ->
  exists s' e, Server.Cosign now wf ws wc c chain group s = (s', Err e) /\
    Server.forks s' !! Checkpoint.Origin c =
      Some (ForkEvidence.mk (Checkpoint.Origin c) (Checkpoint.Size c) now
              (Server.CheckpointAt s (Checkpoint.Origin c) (Checkpoint.Size c)) (Some c) []) /\
    (forall c' now' wf' ws' wc' chain' group', Checkpoint.Origin c' = Checkpoint.Origin c ->
      exists e', Server.Cosign now' wf' ws' wc' c' chain' group' s' = (s', Err e')).
Proof.
  intros F O V S N. unfold Server.Cosign at 1. rewrite F, O, V, S, bool_decide_eq_false_2 by done. cbn [negb].
  eexists _, _. split; [reflexivity|]. rewrite Server.recordFork_forks. split; [by rewrite lookup_insert_eq|].
  intros c' now' wf' ws' wc' chain' group' Ho. unfold Server.Cosign.
  rewrite Server.recordFork_forks, Ho, lookup_insert_eq. by eexists.
Qed.

(** Gossip finds every disagreement: whatever order the runtime walks the
    peer's map in, [CompareWithPeer] reports a fork exactly when the two views
    give different roots for a size both have, and then the origin is flagged
    with this peer's id. *)
Theorem gossip_compare_exact `{C : Crypto} now wr origin theirs order peer fetch s :
  order ≡ₚ map_to_list theirs ->
  match Server.CompareWithPeer now wr origin order peer fetch s with
  | (s', Err _) => Server.disagree (default ∅ (Server.seen s !! origin)) theirs /\
      exists ev, Server.forks s' !! origin = Some ev /\ ForkEvidence.TheirPeerID ev = Peer.ID peer
  | (s', Ok _) => ~ Server.disagree (default ∅ (Server.seen s !! origin)) theirs /\ s' = s
  end.
Proof.
  intros P. pose proof (Server.first_conflict_iff (default ∅ (Server.seen s !! origin)) theirs order P) as X.
  unfold Server.CompareWithPeer. destruct (Server.first_conflict _ order) as [n|].
  - split; [by apply X|]. rewrite Server.recordFork_forks. eexists. by rewrite lookup_insert_eq.
  - split; [|done]. intros D%X. by destruct D.
Qed.

(** Signed statements mean what they say: what [IssueSignedSeen] signs
    verifies, and two well-formed statements with the same signed bytes agree on
    witness, origin, time, key and every recorded root. *)
Theorem signed_seen_binds `{C : Crypto, !CryptoLaws C} now origin s s1 s2 :
  seen_wf s1 -> seen_wf s2 ->
  SignedSeen.Verify (Server.IssueSignedSeen now origin s) = Ok tt /\
  (SignedSeen.Canonical s1 = SignedSeen.Canonical s2 -> seen_fields s1 = seen_fields s2).
Proof.
  intros W1 W2. split; [|by apply SignedSeen_fields].
  unfold SignedSeen.Verify, Server.IssueSignedSeen.
  cbn [SignedSeen.PublicKey SignedSeen.Signature]. unfold Server.pub at 1. rewrite ed_public_length, ed_sign_length.
  cbn [Z.eqb PublicKeySize SignatureSize negb]. unfold Server.pub at 1.
  change (SignedSeen.Canonical (SignedSeen.mk ?a ?b ?c ?d ?e ?f ?g)) with (SignedSeen.Canonical (SignedSeen.mk a b c d e f [])).
  by rewrite ed_sign_verify.
Qed.

(** Cross-attestations are honest: one is issued only when the views share
    an agreed size, it verifies, and it confirms exactly roots that this witness
    recorded itself and the peer claimed. *)
Theorem cross_attestation_honest `{C : Crypto, !CryptoLaws C} now peer stmt s att :
  Server.issueCrossAttestation now peer stmt s = Some att ->
  CrossAttestation.Verify att = Ok tt /\ CrossAttestation.OverlappingSizes att <> ∅ /\
  (forall n r, CrossAttestation.OverlappingSizes att !! n = Some r <->
    Server.at2 (Server.seen s) (CrossAttestation.Origin att) n = Some r /\ SignedSeen.Seen stmt !! n = Some r).
Proof.
  unfold Server.issueCrossAttestation. case_bool_decide as E; [done|]. intros [= <-]. split_and!.
  - unfold CrossAttestation.Verify. cbn [CrossAttestation.AttesterKey CrossAttestation.Signature].
    unfold Server.pub at 1. rewrite ed_public_length, ed_sign_length. cbn [Z.eqb PublicKeySize SignatureSize negb].
    unfold Server.pub at 1.
    change (CrossAttestation.Canonical (CrossAttestation.mk ?a ?b ?c ?d ?e ?f ?g ?h ?i ?j)) with
      (CrossAttestation.Canonical (CrossAttestation.mk a b c d e f g h i [])).
    by rewrite ed_sign_verify.
  - exact E.
  - intros n r. cbn [CrossAttestation.OverlappingSizes CrossAttestation.Origin]. unfold Server.overlap, Server.at2.
    rewrite map_lookup_imap. destruct (SignedSeen.Seen stmt !! n) as [x|]; cbn [option_bind mbind].
    + destruct (Server.seen s !! SignedSeen.Origin stmt) as [m|]; cbn.
      * destruct (m !! n) as [y|]; [|naive_solver]. case_bool_decide; naive_solver.
      * rewrite lookup_empty. naive_solver.
    + naive_solver.
Qed.

(** ** A concrete server *)

Definition no_files : Server.files :=
  Server.mk_files Server.Missing Server.Missing Server.Missing Server.Missing Server.Missing Server.Missing
    Server.Missing Server.Missing Server.Missing.
Definition start_fine : Server.start_io :=
  Server.mk_start (Ok (sha256 (str "wk") ++ sha256 (str "wk"))) (Ok (str "wq")) (true, true) (true, true).
Definition op1 : WatchedOperator.t :=
  WatchedOperator.mk (str "log.example") (Signer.RootPublicKey (signer1 true)) [].
Definition chain1 : option Chain.t := Some (Signer.chain (signer1 true)).

Definition wserver0 : Server.t := (Server.NewHybridServer (str "w1") no_files start_fine).1.
Definition wserver1 : Server.t := (Server.AddOperator true (Some op1) wserver0).1.
Definition cosigned1 : Server.t * res WitnessSig.t := Server.Cosign 70 true true true cp1 chain1 None wserver1.
Definition wserver2 : Server.t := cosigned1.1.
Definition wsig1 : WitnessSig.t := Server.countersign 70 cp1 wserver1.

Lemma wserver1_reach : Server.reach wserver1 [].
Proof.
  eapply Server.reach_operator; [|unfold wserver1; apply surjective_pairing].
  destruct (run_ok (Server.NewHybridServer (str "w1") no_files start_fine)) as [[] E]; [vm_compute; reflexivity|].
  eapply Server.reach_start; [|exact E]. reflexivity.
Qed.

Lemma cosigned1_ok : Server.Cosign 70 true true true cp1 chain1 None wserver1 = (wserver2, Ok wsig1).
Proof.
  unfold wserver2. fold cosigned1. destruct (run_ok cosigned1) as [w E]; [vm_compute; reflexivity|]. rewrite E. cbn [fst].
  by apply Server.Cosign_refused in E as (_ & _ & _ & ->).
Qed.

Lemma wserver2_reach : Server.reach wserver2 [(cp1, wsig1)].
Proof.
  pose proof (Server.reach_cosign wserver1 [] 70 true true true cp1 chain1 None wserver2 (Ok wsig1)
    wserver1_reach cosigned1_ok) as X. exact X.
Qed.

Lemma witness_no_double_cosign_witness :
  Checkpoint.RootHash cp1 = Checkpoint.RootHash cp1 /\
  ed_verify (Server.pub wserver2) (Checkpoint.CanonicalForWitness cp1) (WitnessSig.Signature wsig1) = true /\
  ed_verify (Server.pub wserver2) (Checkpoint.CanonicalForWitness cp1) (WitnessSig.Signature wsig1) = true.
Proof.
  apply (witness_no_double_cosign wserver2 [(cp1, wsig1)] cp1 wsig1 cp1 wsig1 wserver2_reach);
    [left|left|reflexivity|reflexivity].
Defined.

Lemma cosign_counts_witness :
  Checkpoint.VerifyWitnessesHybrid (Checkpoint.add_witness cp1 wsig1) (Server.trust_me wserver1) = 1.
Proof.
  etrans; [exact (cosign_counts 70 true true true cp1 chain1 None wserver1 wserver2 wsig1 cosigned1_ok)|].
  vm_compute. reflexivity.
Defined.

(** The operator signs another root at the same size. *)
Definition cp_fork : Checkpoint.t :=
  match CheckpointSigner.Sign (CheckpointSigner.NewSigner (signer1 true)) 90 3 (sha256 (str "other root"))
          (sha256 (str "head")) None [] with
  | Ok c => c
  | Err _ => cp1
  end.

Lemma fork_refused_witness :
  exists s' e, Server.Cosign 95 true true true cp_fork chain1 None wserver2 = (s', Err e) /\
    Server.forks s' !! str "log.example" =
      Some (ForkEvidence.mk (str "log.example") 3 95 (Server.CheckpointAt wserver2 (str "log.example") 3)
              (Some cp_fork) []).
Proof.
  destruct (fork_refused 95 true true true cp_fork chain1 None wserver2 op1 (hex (Checkpoint.RootHash cp1)))
    as (s' & e & E & F & _);
    [vm_compute; reflexivity|vm_compute; reflexivity|vm_compute; reflexivity|vm_compute; reflexivity
    |vm_compute; discriminate|].
  exists s', e. split; [exact E|exact F].
Defined.

Definition peer2 : Peer.t := Peer.mk (str "w2") (str "https://w2") (ed_public (str "k2")) [] 1.
Definition their_seen : gmap Z bytes := {[ 3 := str "ff" ]}.

Lemma gossip_compare_exact_witness :
  exists s' e, Server.CompareWithPeer 99 true (str "log.example") [(3, str "ff")] peer2 None wserver2 = (s', Err e) /\
    Server.disagree (default ∅ (Server.seen wserver2 !! str "log.example")) their_seen.
Proof.
  pose proof (gossip_compare_exact 99 true (str "log.example") their_seen [(3, str "ff")] peer2 None wserver2) as X.
  destruct (Server.CompareWithPeer 99 true (str "log.example") [(3, str "ff")] peer2 None wserver2) as [s' [u|e]] eqn:E.
  - exfalso. apply (f_equal (fun x => is_ok x.2)) in E. vm_compute in E. discriminate E.
  - exists s', e. split; [reflexivity|]. apply X. unfold their_seen. by rewrite map_to_list_singleton.
Defined.

Definition signed1 : SignedSeen.t := Server.IssueSignedSeen 80 (str "log.example") wserver2.

Lemma signed1_wf : seen_wf signed1.
Proof.
  split; [vm_compute; set_solver|]. split; [vm_compute; set_solver|]. intros n r Hn.
  assert (signed1.(SignedSeen.Seen) = {[3 := hex (Checkpoint.RootHash cp1)]}) as E by (vm_compute; reflexivity).
  rewrite E in Hn. apply lookup_singleton_Some in Hn as [_ <-]. apply one_line_hex.
Qed.

Lemma signed_seen_binds_witness :
  SignedSeen.Verify signed1 = Ok tt /\ seen_fields signed1 = seen_fields signed1.
Proof.
  destruct (signed_seen_binds 80 (str "log.example") wserver2 signed1 signed1 signed1_wf signed1_wf) as [V B].
  split; [exact V|apply B; reflexivity].
Defined.

Lemma cross_attestation_honest_witness :
  exists att, Server.issueCrossAttestation 85 peer2 signed1 wserver2 = Some att /\
    CrossAttestation.Verify att = Ok tt.
Proof.
  destruct (Server.issueCrossAttestation 85 peer2 signed1 wserver2) as [att|] eqn:E.
  - exists att. split; [reflexivity|]. apply (cross_attestation_honest 85 peer2 signed1 wserver2 att E).
  - exfalso. apply (f_equal (fun o => match o with Some _ => true | None => false end)) in E.
    vm_compute in E. discriminate E.
Defined.

(** A peer's honest statement about another log. *)
Definition other_statement : SignedSeen.t :=
  let unsigned := SignedSeen.mk (str "w2") (ed_public (str "k2")) [] (str "other.example") their_seen 80 [] in
  SignedSeen.mk (str "w2") (ed_public (str "k2")) [] (str "other.example") their_seen 80
    (ed_sign (str "k2") (SignedSeen.Canonical unsigned)).

Definition gossip_fine : Server.gossip_io :=
  Server.mk_gio 99 [] [(3, str "ff")] (fun _ => Err ["not found"%string]) (true, true, true, true).

(** Gossip does not look at which log a statement is about: a peer's
    correctly signed statement on another origin, returned when this origin was
    asked for, is compared with this origin's roots and flags it as forked,
    after which the witness refuses every checkpoint of an operator that never
    forked. *)
Theorem gossip_cross_origin_flags :
  SignedSeen.Verify other_statement = Ok tt /\
  SignedSeen.Origin other_statement <> WatchedOperator.Origin op1 /\
  Server.forks wserver2 !! WatchedOperator.Origin op1 = None /\
  (exists ev, Server.forks (Server.gossipOne gossip_fine peer2 op1 (Ok other_statement) wserver2).1
     !! WatchedOperator.Origin op1 = Some ev) /\
  is_ok (Server.Cosign 100 true true true cp1 chain1 None
    (Server.gossipOne gossip_fine peer2 op1 (Ok other_statement) wserver2).1).2 = false.
Proof.
  split; [vm_compute; reflexivity|]. split; [vm_compute; discriminate|]. split; [vm_compute; reflexivity|].
  split; [eexists; vm_compute; reflexivity|vm_compute; reflexivity].
Qed.
