(* ===== verification/Tripwire.v ===== *)
(** * The tripwire (pkg/tripwire)

    Re-derives the Merkle root from the stored entries and compares it with the
    latest signed checkpoint.  The database is whatever an attacker with disk
    access left: nothing is assumed of its contents. *)

From S2P Require Import Prelude Crypto Attest Rfc6962 Merkle RefMerkle MerkleProps LogEntry Checkpoint Badger Storage.
From stdpp Require Import base numbers list gmap strings.
From Stdlib Require Import ZArith Lia.

#[local] Open Scope Z_scope.
#[local] Existing Instance rfc6962_hasher.

Module Tripwire.

Record Result := mk_result {
  At : Z;
  Size : Z;
  ExpectedRoot : bytes;
  DerivedRoot : bytes;
  Tamper : bool;
  FirstFailureIndex : Z;  (* -1 if no per-entry break *)
}.

Definition errStopIter : error := ["tripwire: stop iteration"%string].

Section Tripwire.
Context {B : Badger value} {CR : CompactRange} {C : Crypto}.

Abbreviation tree := (Tree.t (LSt := memLeafStore)).

(** What the iteration's closure captures. *)
Record scan := mk_scan { s_tree : tree; s_prev : option Entry.t; s_tamper : bool; s_first : Z }.

Definition visit_entry (size : Z) (st : scan) (e : Entry.t) : scan * res unit :=
  let broken := mk_scan (s_tree st) (s_prev st) true (Entry.Index e) in
  if size <=? Entry.Index e then (st, Err errStopIter)
  else match Entry.Verify e with
  | Err _ => (broken, Err errStopIter)
  | Ok _ =>
      match Entry.VerifyChain e (s_prev st) with
      | Err _ => (broken, Err errStopIter)
      | Ok _ =>
          match Tree.AppendLeafHash (s_tree st) (Entry.LeafHash e) with
          | None => (st, Err ["panic: merkle append"%string])
          | Some (tr, _) => (mk_scan tr (Some e) (s_tamper st) (s_first st), Ok tt)
          end
      end
  end.

(** [errors.Is(err, errStopIter)] *)
Definition stopped (r : res unit) : bool :=
  match r with Ok _ => true | Err e => bool_decide (e = errStopIter) end.

Definition Run (now : Z) (ctx : nat -> option error) (store : Store.t) (size : Z) (expectedRoot : bytes) :
  Result * res unit :=
  let mk_res := mk_result now size expectedRoot in
  if size =? 0 then
    let derived := EmptyRoot in
    (mk_res derived (negb (bytesEqual derived expectedRoot)) (-1), Ok tt)
  else
    let '(st, r) := Store.IterateEntries store ctx 0 (visit_entry size)
                      (mk_scan (Tree.NewTree (CR := CR)) None false (-1)) in
    if negb (stopped r) then (mk_res [] (s_tamper st) (s_first st), r)
    else if s_tamper st then (mk_res [] true (s_first st), Ok tt)
    else if negb (Tree.Size (s_tree st) =? size)
    then (mk_res [] false (s_first st), Err ["tripwire: iterated fewer entries than expected"%string])
    else match Tree.Root (s_tree st) with
    | None => (mk_res [] false (s_first st), Err ["panic: merkle root"%string])
    | Some derived => (mk_res derived (negb (bytesEqual derived expectedRoot)) (s_first st), Ok tt)
    end.

(** One scheduled pass, and what it reports: the [result] label of the metric,
    with the result [OnTamper] is called with. *)
Inductive report := ReportError | ReportSkipped | ReportTamper (r : Result) | ReportOk.

Definition runOnce (now : Z) (ctx : nat -> option error) (store : Store.t) (latest : res (option Checkpoint.t)) :
  report :=
  match latest with
  | Err _ => ReportError
  | Ok None => ReportSkipped
  | Ok (Some c) =>
      match Run now ctx store (Checkpoint.Size c) (Checkpoint.RootHash c) with
      | (_, Err _) => ReportError
      | (r, Ok _) => if Tamper r then ReportTamper r else ReportOk
      end
  end.

(** *** What one iteration finds *)

Inductive ending := AtEnd | PastSize | Broken (idx : Z) | Unreadable (e : error).

(** The reference reading of the same items: the entries accepted, and why the
    reading ended. *)
Fixpoint walk (size : Z) (prev : option Entry.t) (items : list (bytes * value)) : list Entry.t * ending :=
  match items with
  | [] => ([], AtEnd)
  | (_, v) :: items' =>
      match Unmarshal v with
      | Err e => ([], Unreadable e)
      | Ok e =>
          if size <=? Entry.Index e then ([], PastSize)
          else if is_ok (Entry.Verify e) && is_ok (Entry.VerifyChain e prev)
          then let '(es, x) := walk size (Some e) items' in (e :: es, x)
          else ([], Broken (Entry.Index e))
      end
  end.

Definition end_result (x : ending) : res unit :=
  match x with AtEnd => Ok tt | PastSize | Broken _ => Err errStopIter | Unreadable e => Err e end.

Lemma walk_chain size prev items es x :
  walk size prev items = (es, x) ->
  Entry.chain prev es /\ Forall (fun e => Entry.Index e < size) es /\
  exists its rest, items = its ++ rest /\ Forall2 (fun it e => Unmarshal it.2 = Ok e) its es.
Proof.
  revert prev es. induction items as [|[k v] items IH]; intros prev es W; cbn [walk] in W.
  - injection W as <- <-. split_and!; [done|done|]. by exists [], [].
  - destruct (Unmarshal v) as [e|] eqn:U; [|injection W as <- <-; split_and!; [done|done|by eexists [], _]].
    destruct (Z.leb_spec size (Entry.Index e)); [injection W as <- <-; split_and!; [done|done|by eexists [], _]|].
    destruct (Entry.Verify e) as [[]|] eqn:V; cbn [is_ok andb] in W;
      [|injection W as <- <-; split_and!; [done|done|by eexists [], _]].
    destruct (Entry.VerifyChain e prev) as [[]|] eqn:VC; cbn [is_ok] in W;
      [|injection W as <- <-; split_and!; [done|done|by eexists [], _]].
    destruct (walk size (Some e) items) as [es' x'] eqn:W'. injection W as <- <-.
    destruct (IH _ _ W') as (Ch & F & its & rest & -> & F2).
    split_and!; [done|by constructor|]. exists ((k, v) :: its), rest. split; [done|]. by constructor.
Qed.

Lemma walk_unreadable size prev items es e : walk size prev items = (es, Unreadable e) -> e <> errStopIter.
Proof.
  revert prev es. induction items as [|[k v] items IH]; intros prev es W; cbn [walk] in W; [done|].
  destruct (Unmarshal v) as [x|y] eqn:U.
  - destruct (size <=? Entry.Index x); [done|]. destruct (is_ok (Entry.Verify x) && _); [|done].
    destruct (walk size (Some x) items) as [es' x'] eqn:W'. injection W as <- ->. by eapply IH.
  - injection W as <- ->. unfold Unmarshal in U. destruct v; try (injection U as <-; done).
    destruct (_ || _); [by injection U as <-|done].
Qed.

Context `{CRL : !CompactRangeLaws CR}.

(** Appending to a tree with the default store never panics. *)
Lemma append_next tr l h :
  Tree.ok (LSt := memLeafStore) tr l -> len l + 1 < 2 ^ 63 ->
  exists tr', Tree.AppendLeafHash tr h = Some (tr', len l) /\ Tree.ok (LSt := memLeafStore) tr' (l ++ [h]).
Proof. intros O Bd. apply Tree.AppendLeafHash_ok; [done|done|]. apply mem_put_next, O. Qed.

Lemma visit_walk size items n tr prev l es x :
  Tree.ok (LSt := memLeafStore) tr l -> len l + len items < 2 ^ 63 ->
  walk size prev items = (es, x) ->
  exists tr', Tree.ok (LSt := memLeafStore) tr' (l ++ map Entry.LeafHash es) /\
    Store.visit (fun _ => None) n items (visit_entry size) (mk_scan tr prev false (-1)) =
      (mk_scan tr' (Entry.last_or prev es) (match x with Broken _ => true | _ => false end)
         (match x with Broken i => i | _ => -1 end), end_result x).
Proof.
  revert n tr prev l es. induction items as [|[k v] items IH]; intros n tr prev l es O Bd W; cbn [walk] in W.
  { injection W as <- <-. exists tr. by rewrite app_nil_r. }
  cbn [Store.visit]. destruct (Unmarshal v) as [e|]; [|injection W as <- <-; exists tr; by rewrite app_nil_r].
  unfold visit_entry at 1. destruct (size <=? Entry.Index e);
    [injection W as <- <-; exists tr; by rewrite app_nil_r|].
  destruct (Entry.Verify e) as [[]|]; cbn [is_ok andb] in W;
    [|injection W as <- <-; exists tr; by rewrite app_nil_r]. cbn [s_prev s_tree s_tamper s_first].
  destruct (Entry.VerifyChain e prev) as [[]|]; cbn [is_ok] in W;
    [|injection W as <- <-; exists tr; by rewrite app_nil_r].
  destruct (walk size (Some e) items) as [es' x'] eqn:W'. injection W as <- <-.
  unfold len in Bd. cbn [length] in Bd.
  destruct (append_next tr l (Entry.LeafHash e) O ltac:(unfold len; lia)) as (tr' & -> & O').
  destruct (IH (Datatypes.S n) tr' (Some e) (l ++ [Entry.LeafHash e]) es' O') as (tr2 & O2 & E2);
    [unfold len; rewrite length_app; simpl; lia|done|].
  exists tr2. rewrite <- app_assoc in O2. split; [exact O2|]. rewrite E2. by rewrite Entry.entry_last_or_cons.
Qed.

(** The entries the iterator finds. *)
Definition stored (store : Store.t) : list (bytes * value) :=
  while_prefix prefixEntry (db_scan (Store.db store) (entryKey 0)).

(** [Run] in terms of the reading. *)
Lemma Run_walk now store size root es x :
  size <> 0 -> len (stored store) < 2 ^ 63 -> walk size None (stored store) = (es, x) ->
  Run now (fun _ => None) store size root =
    let mk_res := mk_result now size root in
    match x with
    | Unreadable e => (mk_res [] false (-1), Err e)
    | Broken i => (mk_res [] true i, Ok tt)
    | AtEnd | PastSize =>
        if negb (len es =? size) then (mk_res [] false (-1), Err ["tripwire: iterated fewer entries than expected"%string])
        else (mk_res (MTH (map Entry.LeafHash es)) (negb (bytesEqual (MTH (map Entry.LeafHash es)) root)) (-1), Ok tt)
    end.
Proof.
  intros Hs Bd W. unfold Run. rewrite (proj2 (Z.eqb_neq _ _) Hs). unfold Store.IterateEntries. fold (stored store).
  destruct (visit_walk size (stored store) 0 Tree.NewTree None [] es x) as (tr & O & ->);
    [apply Tree.New_ok|unfold len in *; simpl; lia|done|].
  cbn [app] in O. cbn [s_tamper s_tree s_first].
  rewrite (Tree.ok_size _ _ O), (Tree.Root_ok _ _ O), len_map.
  destruct x; try done. cbn [end_result stopped].
  rewrite bool_decide_eq_false_2; [done|]. by eapply walk_unreadable.
Qed.

(** Reading an intact log. *)
Lemma walk_intact size es n prev :
  Forall Store.sealed es -> Entry.chain prev es ->
  (forall i e, es !! i = Some e -> Entry.Index e = Z.of_nat (n + i)) -> Z.of_nat n <= size ->
  walk size prev (Store.items_from n es) =
    (take (Z.to_nat size - n) es, if decide (Z.of_nat n + len es <= size) then AtEnd else PastSize).
Proof.
  revert n prev. induction es as [|e es IH]; intros n prev Fs Ch Hi Hn.
  { rewrite take_nil. cbn. rewrite decide_True; [done|]. unfold len. simpl. lia. }
  apply Forall_cons in Fs as [Se Fs]. destruct Ch as (V & VC & Ch). cbn [Store.items_from walk].
  rewrite Store.Unmarshal_sealed by done. rewrite (Hi 0%nat e eq_refl), Nat.add_0_r.
  destruct (Z.leb_spec size (Z.of_nat n)).
  - replace (Z.to_nat size - n)%nat with 0%nat by lia. cbn [take].
    rewrite decide_False; [done|]. unfold len. cbn [length]. lia.
  - rewrite V, VC. cbn [is_ok andb]. rewrite (IH (Datatypes.S n) (Some e) Fs Ch); [| |lia].
    + replace (Z.to_nat size - n)%nat with (Datatypes.S (Z.to_nat size - Datatypes.S n)) by lia. cbn [take].
      f_equal. unfold len. cbn [length]. by repeat case_decide; try lia.
    + intros i x Hx. rewrite (Hi (Datatypes.S i) x Hx). lia.
Qed.

Lemma items_from_length n es : length (Store.items_from n es) = length es.
Proof. revert n. induction es as [|e es IH]; intros n; [done|]. cbn. by rewrite IH. Qed.

Context {BL : BadgerLaws B}.

Lemma chain_positions es : Entry.chain None es -> len es < 2 ^ 63 ->
  forall i e, es !! i = Some e -> Entry.Index e = Z.of_nat i.
Proof.
  intros C0 Bd i e Hi. pose proof (lookup_lt_Some _ _ _ Hi) as L.
  rewrite <- (take_drop_middle es i e Hi), cons_middle, app_assoc in C0. apply Entry.entry_chain_app in C0 as [C0 _].
  rewrite (Entry.entry_chain_index _ _ C0); unfold len in *; rewrite length_take; lia.
Qed.

Lemma Run_intact now store es size root :
  Store.stores (view (Store.db store)) es -> Entry.chain None es -> 0 < size ->
  Run now (fun _ => None) store size root =
    if size <=? len es then
      let derived := MTH (map Entry.LeafHash (take (Z.to_nat size) es)) in
      (mk_result now size root derived (negb (bytesEqual derived root)) (-1), Ok tt)
    else (mk_result now size root [] false (-1), Err ["tripwire: iterated fewer entries than expected"%string]).
Proof.
  intros S Ch Hs. pose proof (Store.st_small _ _ S) as Bd.
  assert (stored store = Store.items_from 0 es) as St
    by (unfold stored; rewrite (Store.scan_entries store es 0 S) by (unfold len; lia); done).
  rewrite (Run_walk now store size root (take (Z.to_nat size) es)
    (if decide (0 + len es <= size) then AtEnd else PastSize)).
  - assert (len (take (Z.to_nat size) es) = Z.min size (len es)) as -> by (unfold len; rewrite length_take; lia).
    destruct (Z.leb_spec size (len es)).
    + rewrite (Z.min_l size) by lia. rewrite Z.eqb_refl. by case_decide.
    + rewrite Z.min_r, (proj2 (Z.eqb_neq _ _)) by lia. by case_decide.
  - lia.
  - rewrite St. unfold len. rewrite items_from_length. exact Bd.
  - rewrite St, (walk_intact size es 0 None (Store.st_sealed _ _ S) Ch); [by rewrite Nat.sub_0_r| |lia].
    by apply chain_positions.
Qed.
End Tripwire.
End Tripwire.

(** ** Properties *)

(** Entries of a chain carry envelopes that verify. *)
Lemma read_valid {C : Crypto} prev es es0 :
  Entry.chain prev es -> map Entry.content es = map Entry.content es0 ->
  Forall2 (fun e e1 => Entry.content e = Entry.content e1 /\
    exists env, Entry.Envelope e = Some env /\ Envelope.valid env) es es0.
Proof.
  revert prev es0. induction es as [|e es IH]; intros prev [|e1 es0] Ch E; try done.
  apply (inj2 cons) in E as [E1 E].
  destruct Ch as (V & _ & Ch). constructor; [|by eapply IH].
  split; [exact E1|]. by apply Entry.entry_Verify_iff in V as [V _].
Qed.

(** C10. The tripwire misses no change of what the hashes cover: for any database
    contents (decoded entries within Go's integer ranges, fields below 4 GiB),
    if a pass that is not cut off, over the size and root of a non-empty
    committed log, ends without an error and reports no tampering,
    then the stored entries it read agree with the committed ones, position by
    position, in every hashed field - index, time, predecessor, honeypot flag,
    and the envelope's producer, time, source, data, keys, type and evidence
    hash - unless a SHA-256 collision sits between named messages.  The fields
    outside the hash (signatures, evidence) are only checked: each envelope read
    still verifies, so its signatures are good for the committed content, and
    its evidence is missing or has the committed hash. *)
Theorem tripwire_detects {B : Badger value} {CR : CompactRange} `{!CompactRangeLaws CR} {C : Crypto}
    now (store : Store.t) es0 e0 r :
  Entry.chain None (es0 ++ [e0]) -> Forall Entry.wf (es0 ++ [e0]) -> len es0 < 2 ^ 63 ->
  len (Tripwire.stored store) < 2 ^ 63 ->
  (forall k v e, (k, v) ∈ Tripwire.stored store -> Unmarshal v = Ok e -> Entry.wf e) ->
  Tripwire.Run now (fun _ => None) store (len (es0 ++ [e0])) (MTH (map Entry.LeafHash (es0 ++ [e0]))) = (r, Ok tt) ->
  Tripwire.Tamper r = false ->
  exists es its rest,
    Tripwire.stored store = its ++ rest /\ Forall2 (fun it e => Unmarshal it.2 = Ok e) its es /\
    (Forall2 (fun e e1 => Entry.content e = Entry.content e1 /\
       exists env, Entry.Envelope e = Some env /\ Envelope.valid env) es (es0 ++ [e0]) \/
     Entry.chains_collide es (es0 ++ [e0]) \/
     sha_collides (tree_pairs (length es) (map Entry.LeafHash es))
       (tree_pairs (length es) (map Entry.LeafHash (es0 ++ [e0])))).
Proof.
  intros C0 W0 B0 Bd Wd R T. set (l0 := es0 ++ [e0]) in *.
  assert (len l0 = len es0 + 1) as L0 by (unfold l0, len; rewrite length_app; simpl; lia).
  destruct (Tripwire.walk (len l0) None (Tripwire.stored store)) as [es x] eqn:W.
  rewrite (Tripwire.Run_walk now store (len l0) _ es x) in R; [|unfold len in *; lia|done|done].
  destruct (Tripwire.walk_chain _ _ _ _ _ W) as (Ch & _ & its & rest & St & F2). exists es, its, rest.
  split; [done|]. split; [done|].
  assert (len es = len l0 /\ MTH (map Entry.LeafHash es) = MTH (map Entry.LeafHash l0)) as [Le Em].
  { destruct x; try (injection R as <-; done); try done;
      (destruct (Z.eqb_spec (len es) (len l0)); cbn [negb] in R; [|done]; injection R as <-;
       cbn in T; apply negb_false_iff, bytesEqual_spec in T; done). }
  assert (Forall Entry.wf es) as Wes.
  { apply Forall_forall. intros e (i & Hi)%list_elem_of_lookup.
    destruct (Forall2_lookup_r _ _ _ _ _ F2 Hi) as ([k v] & Hk & U). apply (Wd k v e); [|exact U].
    rewrite St. apply elem_of_app. left. by eapply list_elem_of_lookup_2. }
  assert (forall l, Entry.chain None l -> Forall sized (map Entry.LeafHash l)) as Sz.
  { intros l Cl. apply Forall_forall. intros h (e & -> & He)%list_elem_of_fmap. by eapply Entry.chain_leaf_sized. }
  unfold len in Le.
  destruct (MTH_inj (length es) (length es) (map Entry.LeafHash es) (map Entry.LeafHash l0)) as [E|X];
    [rewrite !length_map; lia|by rewrite length_map|by rewrite length_map|done| |].
  - destruct es as [|e es _] using rev_ind; [unfold len in L0; simpl in Le; lia|].
    assert (Entry.LeafHash e = Entry.LeafHash e0) as El.
    { unfold l0 in E. rewrite !map_app in E. by apply app_inj_2 in E as [_ [= ->]]. }
    destruct (Entry.entry_chain_binds es es0 e e0 Ch C0 Wes W0) as [X|X];
      [unfold len in *; rewrite length_app in *; simpl in *; lia..|by right|left; by eapply read_valid|by right; left].
  - right. right. apply collides_sha; [done| |by apply tree_pairs_sized, Sz].
    eapply Forall_impl; [by apply tree_pairs_sized, Sz|]. intros q [? ?]. by left.
Qed.

(** An entry as it is left when its evidence blob is deleted on disk. *)
Definition strip_evidence (e : Entry.t) : Entry.t :=
  Entry.mk (Entry.Index e) (Entry.TimeNanos e) (Entry.PrevHash e)
    ((fun env => Envelope.set_evidence env (Envelope.Type_ env) (Envelope.EvidenceHash env) []) <$> Entry.Envelope e)
    (Entry.Honeypot e) (Entry.EntryHash e) (Entry.LeafHash e).

Lemma strip_chain {C : Crypto} es prev : Entry.chain prev es ->
  Entry.chain (strip_evidence <$> prev) (map strip_evidence es).
Proof.
  revert prev. induction es as [|e es IH]; intros prev; [done|]. intros (V & VC & Ch). cbn [map Entry.chain].
  split_and!; [|by destruct prev|by apply (IH (Some e))].
  apply Entry.entry_Verify_iff in V as ((env & Ee & V) & H1 & H2). apply Entry.entry_Verify_iff.
  destruct e as [i tn ph en hp eh lh]. cbn in *. subst en. split; [|done].
  eexists. split; [done|]. destruct V as (? & ? & _ & ? & ?). split_and!; try done. by left.
Qed.

(** The tripwire raises no false alarm: on a store that holds a verified log,
    a pass against any checkpoint whose root is that of the first [size]
    entries reports everything in order. *)
Theorem tripwire_no_false_alarm {B : Badger value} {BL : BadgerLaws B} {CR : CompactRange} `{!CompactRangeLaws CR}
    {C : Crypto} now (store : Store.t) es c :
  Store.stores (view (Store.db store)) es -> Entry.chain None es -> 0 <= Checkpoint.Size c <= len es ->
  Checkpoint.RootHash c = MTH (map Entry.LeafHash (take (Z.to_nat (Checkpoint.Size c)) es)) ->
  Tripwire.runOnce now (fun _ => None) store (Ok (Some c)) = Tripwire.ReportOk.
Proof.
  intros S Ch Hs Hr. unfold Tripwire.runOnce. destruct (decide (Checkpoint.Size c = 0)) as [E|E].
  - rewrite Hr, E. unfold Tripwire.Run. cbn [Z.eqb]. cbn [Z.to_nat take map]. rewrite MTH_nil.
    cbn [Tripwire.Tamper]. by rewrite bytesEqual_refl.
  - rewrite (Tripwire.Run_intact now store es) by (done || lia).
    rewrite (proj2 (Z.leb_le _ _)) by lia. cbn [Tripwire.Tamper]. by rewrite Hr, bytesEqual_refl.
Qed.

(** Evidence can be removed unnoticed: with the evidence blob of every stored
    entry deleted, a pass against the checkpoint of the untouched log reports
    everything in order. *)
Theorem tripwire_misses_stripped_evidence {B : Badger value} {BL : BadgerLaws B} {CR : CompactRange}
    `{!CompactRangeLaws CR} {C : Crypto} now (store : Store.t) es c :
  Store.stores (view (Store.db store)) (map strip_evidence es) -> Entry.chain None es ->
  Checkpoint.Size c = len es -> Checkpoint.RootHash c = MTH (map Entry.LeafHash es) ->
  Tripwire.runOnce now (fun _ => None) store (Ok (Some c)) = Tripwire.ReportOk.
Proof.
  intros S Ch Hs Hr. apply (tripwire_no_false_alarm now store (map strip_evidence es) c S).
  - by apply (strip_chain _ None).
  - rewrite Hs, len_map. unfold len. lia.
  - rewrite Hr, Hs. unfold len. rewrite Nat2Z.id, <- (length_map strip_evidence es), firstn_all, map_map. done.
Qed.

(** Deleted entries do not trip the wire: when the store holds fewer entries
    than the checkpoint covers, the pass ends as an error; it is not reported as
    tampering and [OnTamper] is not called. *)
Theorem tripwire_deletion_not_tamper {B : Badger value} {BL : BadgerLaws B} {CR : CompactRange}
    `{!CompactRangeLaws CR} {C : Crypto} now (store : Store.t) es c :
  Store.stores (view (Store.db store)) es -> Entry.chain None es -> len es < Checkpoint.Size c ->
  Tripwire.runOnce now (fun _ => None) store (Ok (Some c)) = Tripwire.ReportError.
Proof.
  intros S Ch Hs. unfold Tripwire.runOnce. rewrite (Tripwire.Run_intact now store es) by (done || unfold len in *; lia).
  by rewrite (proj2 (Z.leb_gt _ _)) by lia.
Qed.

(** *** Witnesses *)

Definition store1 : Store.t := (Store.AppendEntry store0 entry0).1.

Lemma trip_store1_stores : Store.stores (view (Store.db store1)) [entry0].
Proof.
  destruct (Store.AppendEntry_healthy store0 [] entry0 store0_healthy store0_stores entry0_extends) as (s' & E & _).
  unfold store1. rewrite E.
  by destruct (Store.AppendEntry_cases store0 [] entry0 s' (Ok tt) store0_stores entry0_sealed)
    as [_ [(_ & _ & X & _)|[[x X] _]]].
Qed.

Lemma chain0 : Entry.chain None [entry0].
Proof. cbn [Entry.chain]. split_and!; [vm_compute; reflexivity|vm_compute; reflexivity|exact I]. Qed.

Lemma store1_stored : Tripwire.stored store1 = Store.items_from 0 [entry0].
Proof. unfold Tripwire.stored. by rewrite (Store.scan_entries store1 [entry0] 0 trip_store1_stores). Qed.

Definition ckpt_at (size : Z) (root : bytes) : Checkpoint.t := Checkpoint.mk (str "o") size root [] 0 0 [] None [] [] [] [] [].

Lemma tripwire_detects_witness :
  exists es its rest, Tripwire.stored store1 = its ++ rest /\ Forall2 (fun it e => Unmarshal it.2 = Ok e) its es /\
    (Forall2 (fun e e1 => Entry.content e = Entry.content e1 /\
       exists env, Entry.Envelope e = Some env /\ Envelope.valid env) es [entry0] \/ Entry.chains_collide es [entry0] \/
     sha_collides (tree_pairs (length es) (map Entry.LeafHash es)) (tree_pairs (length es) [Entry.LeafHash entry0])).
Proof.
  pose proof (Tripwire.Run_intact (CR := ref_range) 7 store1 [entry0] 1 (MTH [Entry.LeafHash entry0])
    trip_store1_stores chain0 eq_refl) as R. cbn [Z.leb len] in R.
  eapply (tripwire_detects (CR := ref_range) 7 store1 [] entry0 _ chain0).
  - constructor; [apply entry0_wf|constructor].
  - reflexivity.
  - by rewrite store1_stored.
  - intros k v e. rewrite store1_stored. intros Hk U. apply list_elem_of_singleton in Hk. injection Hk as _ ->.
    rewrite Store.Unmarshal_sealed in U by apply entry0_sealed. injection U as <-. apply entry0_wf.
  - exact R.
  - cbn [Tripwire.Tamper]. by rewrite bytesEqual_refl.
Defined.

Definition bare0 : Entry.t := strip_evidence entry0.

Lemma bare_stores : Store.stores (view (Store.db (Store.AppendEntry store0 bare0).1)) [bare0].
Proof.
  destruct (Store.AppendEntry_healthy store0 [] bare0 store0_healthy store0_stores entry0_extends) as (s' & E & _).
  rewrite E.
  by destruct (Store.AppendEntry_cases store0 [] bare0 s' (Ok tt) store0_stores entry0_sealed)
    as [_ [(_ & _ & X & _)|[[x X] _]]].
Qed.

Lemma tripwire_misses_stripped_evidence_witness :
  Tripwire.runOnce (CR := ref_range) 7 (fun _ => None) (Store.AppendEntry store0 bare0).1
    (Ok (Some (ckpt_at 1 (MTH [Entry.LeafHash entry0])))) = Tripwire.ReportOk.
Proof. apply (tripwire_misses_stripped_evidence 7 _ [entry0]); [apply bare_stores|apply chain0|done|reflexivity]. Defined.

Lemma tripwire_no_false_alarm_witness :
  Tripwire.runOnce (CR := ref_range) 7 (fun _ => None) store1 (Ok (Some (ckpt_at 1 (MTH [Entry.LeafHash entry0])))) =
  Tripwire.ReportOk.
Proof. apply (tripwire_no_false_alarm 7 store1 [entry0]); [apply trip_store1_stores|apply chain0|done|reflexivity]. Defined.

Lemma tripwire_deletion_not_tamper_witness :
  Tripwire.runOnce (CR := ref_range) 7 (fun _ => None) store1 (Ok (Some (ckpt_at 2 (str "root")))) =
  Tripwire.ReportError.
Proof. apply (tripwire_deletion_not_tamper 7 store1 [entry0]); [apply trip_store1_stores|apply chain0|done]. Defined.
