(* ===== verification/Verify.v ===== *)
(** * The client-side verifier (pkg/verify)

    What an auditor runs with the operator's genesis key and the artefacts it
    was handed: checkpoints with their witness quorum, inclusion of one entry,
    chains of entries, and the history of anchored checkpoints. *)

From S2P Require Import Prelude Crypto Attest Rfc6962 Merkle RefMerkle MerkleProps LogEntry Threshold Fwdsec Checkpoint.
From stdpp Require Import base numbers list gmap strings.
From Stdlib Require Import ZArith Lia.

#[local] Open Scope Z_scope.
#[local] Existing Instance rfc6962_hasher.

Module Verifier.
Section Verifier.
Context {C : Crypto} {PL : ProofLib}.

Record t := mk {
  Origin : bytes;
  RootPublicKey : bytes;
  Chain : option Chain.t;
  ThresholdGroup : option Group.t;
  MinWitnesses : Z;
  WitnessTrust : option (bytes -> option bytes);  (* nil function = None *)
}.

Definition Checkpoint (v : t) (c : Checkpoint.t) : res unit :=
  fail_if negb (bytesEqual (Checkpoint.Origin c) (Origin v)) with "checkpoint origin does not match expected" ;;
  let! _ := Checkpoint.Verify c (Chain v) (RootPublicKey v) (ThresholdGroup v) in
  if 0 <? MinWitnesses v then
    match WitnessTrust v with
    | None => Err ["checkpoint: MinWitnesses set but WitnessTrust is nil"%string]
    | Some trust =>
        fail_if Checkpoint.VerifyWitnesses c trust <? MinWitnesses v with "checkpoint: too few valid witness signatures" ;;
        Ok tt
    end
  else Ok tt.

(** The library's verifiers return an error or nil. *)
Definition nil_err (b : bool) : res unit := if b then Ok tt else Err ["proof verification failed"%string].

Definition Inclusion (entry : Entry.t) (treeSize : Z) (proof : list bytes) (root : bytes) : res unit :=
  let! _ := wrap_err "entry self-verify" (Entry.Verify entry) in
  fail_if treeSize <=? Entry.Index entry with "entry index not in tree" ;;
  nil_err (Tree.VerifyInclusion (Entry.Index entry) treeSize (Entry.LeafHash entry) proof root).

Definition Consistency (oldSize : Z) (oldRoot : bytes) (newSize : Z) (newRoot : bytes) (proof : list bytes) : res unit :=
  nil_err (Tree.VerifyConsistency oldSize newSize proof oldRoot newRoot).

(** The loop of [EntryChain]; a nil entry is a nil dereference. *)
Fixpoint chain_loop (prev : option Entry.t) (entries : list (option Entry.t)) : res unit :=
  match entries with
  | [] => Ok tt
  | None :: _ => Err ["panic: nil pointer dereference"%string]
  | Some e :: entries' =>
      let! _ := wrap_err "chain" (Entry.Verify e) in
      let! _ := wrap_err "chain" (Entry.VerifyChain e prev) in
      chain_loop (Some e) entries'
  end.

Definition EntryChain (entries : list (option Entry.t)) : res unit :=
  fail_if len entries =? 0 with "chain: empty entry list" ;;
  chain_loop None entries.

(** Of an [anchor.Record] the walk reads the checkpoint. *)
Fixpoint anchor_loop (v : t) (prev : option Checkpoint.t) (records : list (option Checkpoint.t))
    (proofs : list (list bytes)) : res unit :=
  match records, proofs with
  | [], _ => Ok tt
  | None :: _, _ => Err ["anchor chain: missing checkpoint"%string]
  | Some c :: records', proof :: proofs' =>
      let! _ := wrap_err "anchor chain" (Checkpoint v c) in
      let! _ := match prev with
        | None => Ok tt
        | Some p =>
            fail_if Checkpoint.Size c <? Checkpoint.Size p with "anchor chain: size < previous" ;;
            if Checkpoint.Size c =? Checkpoint.Size p then
              fail_if negb (bytesEqual (Checkpoint.RootHash c) (Checkpoint.RootHash p))
                with "anchor chain: same size but different root" ;;
              Ok tt
            else wrap_err "anchor chain"
              (Consistency (Checkpoint.Size p) (Checkpoint.RootHash p) (Checkpoint.Size c) (Checkpoint.RootHash c) proof)
        end in
      anchor_loop v (Some c) records' proofs'
  | Some _ :: _, [] => Err ["panic: index out of range"%string]
  end.

Definition AnchorChain (v : t) (records : list (option Checkpoint.t)) (consistencyProofs : list (list bytes)) : res unit :=
  fail_if len records =? 0 with "anchor chain: empty" ;;
  fail_if negb (len consistencyProofs =? len records) with "anchor chain: records and proofs differ in number" ;;
  anchor_loop v None records consistencyProofs.

(** *** What is accepted *)

Lemma chain_loop_iff prev entries :
  chain_loop prev entries = Ok tt <-> exists es, entries = Some <$> es /\ Entry.chain prev es.
Proof.
  split.
  - revert prev. induction entries as [|[e|] entries IH]; intros prev E; cbn [chain_loop] in E; [by exists []| |done].
    res_inv E. destruct a, a0. apply IH in E as (es & -> & Ch). exists (e :: es). split; [done|].
    apply wrap_err_ok in E0, E1. done.
  - intros (es & -> & Ch). revert prev Ch. induction es as [|e es IH]; intros prev; [done|].
    intros (V & VC & Ch). rewrite fmap_cons. cbn [chain_loop]. rewrite V, VC. by apply IH.
Qed.

Lemma nil_err_ok b : nil_err b = Ok tt <-> b = true.
Proof. by destruct b. Qed.

Lemma Inclusion_iff entry n proof root :
  Inclusion entry n proof root = Ok tt <->
  Entry.Verify entry = Ok tt /\ Entry.Index entry < n /\
  Tree.VerifyInclusion (Entry.Index entry) n (Entry.LeafHash entry) proof root = true.
Proof.
  unfold Inclusion. destruct (Entry.Verify entry) as [[]|]; cbn [wrap_err res_bind]; [|naive_solver].
  etrans; [eapply guard_iff; [apply Z.leb_gt|apply nil_err_ok]|]. naive_solver.
Qed.

(** One step of the anchor walk: the sizes grow and the roots are consistent. *)
Definition linked (p c : Checkpoint.t) (proof : list bytes) : Prop :=
  Checkpoint.Size p <= Checkpoint.Size c /\
  (Checkpoint.Size p = Checkpoint.Size c -> Checkpoint.RootHash p = Checkpoint.RootHash c) /\
  (Checkpoint.Size p < Checkpoint.Size c ->
   Tree.VerifyConsistency (Checkpoint.Size p) (Checkpoint.Size c) proof (Checkpoint.RootHash p) (Checkpoint.RootHash c) = true).

(** Every checkpoint verifies and every step is linked. *)
Fixpoint history (v : t) (prev : option Checkpoint.t) (cs : list Checkpoint.t) (proofs : list (list bytes)) : Prop :=
  match cs, proofs with
  | [], _ => True
  | c :: cs', proof :: proofs' =>
      Checkpoint v c = Ok tt /\ match prev with Some p => linked p c proof | None => True end /\
      history v (Some c) cs' proofs'
  | _, _ => False
  end.

Lemma linked_iff p c proof :
  (fail_if Checkpoint.Size c <? Checkpoint.Size p with "anchor chain: size < previous" ;;
   if Checkpoint.Size c =? Checkpoint.Size p then
     fail_if negb (bytesEqual (Checkpoint.RootHash c) (Checkpoint.RootHash p))
       with "anchor chain: same size but different root" ;;
     Ok tt
   else wrap_err "anchor chain"
     (Consistency (Checkpoint.Size p) (Checkpoint.RootHash p) (Checkpoint.Size c) (Checkpoint.RootHash c) proof))
  = Ok tt <-> linked p c proof.
Proof.
  unfold linked. destruct (Z.ltb_spec (Checkpoint.Size c) (Checkpoint.Size p)); [split; [done|lia]|].
  destruct (Z.eqb_spec (Checkpoint.Size c) (Checkpoint.Size p)) as [E|E].
  - destruct (bytesEqual (Checkpoint.RootHash c) (Checkpoint.RootHash p)) eqn:B; cbn [negb].
    + apply bytesEqual_spec in B. split; [|done]. intros _. split_and!; [lia|done|lia].
    + apply bytesEqual_false in B. split; [done|]. intros (_ & X & _). destruct B. by rewrite X.
  - rewrite wrap_err_ok. unfold Consistency. rewrite nil_err_ok. split; [|intros (_ & _ & X); apply X; lia].
    intros X. split_and!; [lia|lia|done].
Qed.

Lemma anchor_loop_iff v prev records proofs :
  anchor_loop v prev records proofs = Ok tt <-> exists cs, records = Some <$> cs /\ history v prev cs proofs.
Proof.
  split.
  - revert prev proofs. induction records as [|[c|] records IH]; intros prev proofs E; [by exists []| |done].
    destruct proofs as [|proof proofs]; [done|]. cbn [anchor_loop] in E.
    destruct (Checkpoint v c) as [[]|] eqn:V; cbn [wrap_err res_bind] in E; [|done].
    match type of E with (let! _ := ?m in _) = _ => destruct m as [[]|] eqn:L; cbn [res_bind] in E; [|done] end.
    apply IH in E as (cs & -> & Hy). exists (c :: cs). split; [done|]. cbn [history]. split_and!; [done| |done].
    destruct prev as [p|]; [|done]. by apply linked_iff.
  - intros (cs & -> & Hy). revert prev proofs Hy. induction cs as [|c cs IH]; intros prev proofs Hy; [done|].
    destruct proofs as [|proof proofs]; [done|]. destruct Hy as (V & L & Hy).
    rewrite fmap_cons. cbn [anchor_loop]. rewrite V. cbn [wrap_err res_bind].
    destruct prev as [p|]; [rewrite (proj2 (linked_iff p c proof) L)|]; by apply IH.
Qed.
End Verifier.
End Verifier.

(** ** Properties *)

(** Inclusion is trustworthy for the auditor: an entry that [Inclusion] accepts
    against the size and root of a verified log is, in everything its hashes
    cover, the entry at that index of the log, unless a SHA-256 collision sits
    between named messages. *)
Theorem verifier_inclusion_sound {C : Crypto} {PL : ProofLib} `{!ProofLibLaws PL} entry es proof :
  Entry.wf entry -> Entry.chain None es -> Forall Entry.wf es ->
  Verifier.Inclusion entry (len es) proof (MTH (map Entry.LeafHash es)) = Ok tt ->
  exists e, es !! Z.to_nat (Entry.Index entry) = Some e /\
    (Entry.content entry = Entry.content e \/ Entry.entry_collision entry e \/
     sha_collides (inclusion_pairs (length es) (Z.to_nat (Entry.Index entry)) (length es) (Entry.LeafHash entry) (rev proof))
       (tree_pairs (length es) (map Entry.LeafHash es))).
Proof.
  intros W Ch Wes (V & Hi & VI)%Verifier.Inclusion_iff. destruct (Entry.wf_index _ W) as [H0 _].
  assert (is_Some (es !! Z.to_nat (Entry.Index entry))) as [e He] by (apply lookup_lt_is_Some; unfold len in Hi; lia).
  exists e. split; [done|].
  assert (Forall sized (map Entry.LeafHash es)) as Sz.
  { apply Forall_forall. intros h (x & -> & Hx)%list_elem_of_fmap. by eapply Entry.chain_leaf_sized. }
  pose proof (proj1 (Entry.entry_Verify_iff _) V) as (_ & _ & EL).
  assert (sized (Entry.LeafHash entry)) as Se by (unfold sized, len; rewrite EL; cbn; by rewrite sha256_length).
  destruct (inclusion_sound (map Entry.LeafHash es) (Entry.Index entry) (Entry.LeafHash entry) proof H0 Sz Se)
    as [E|X]; [by rewrite len_map| |right; right; by rewrite length_map in X].
  rewrite list_lookup_fmap, He in E. injection E as E.
  assert (Entry.chain None (take (S (Z.to_nat (Entry.Index entry))) es)) as Ct
    by (rewrite <- (take_drop (S (Z.to_nat (Entry.Index entry))) es) in Ch; by apply Entry.entry_chain_app in Ch as [? _]).
  rewrite (take_S_r _ _ _ He) in Ct. apply Entry.entry_chain_snoc in Ct as (_ & Ve & _).
  apply Entry.entry_Verify_iff in Ve as (_ & _ & EL2).
  rewrite Forall_forall in Wes. destruct (Entry.hashes_bind entry e W) as [X|X]; [|right; congruence|by left|by right; left].
  apply Wes. by eapply list_elem_of_lookup_2.
Qed.

(** The checkpoint commits to the leaf hashes [l]. *)
Definition commits (c : Checkpoint.t) (l : list bytes) : Prop :=
  Checkpoint.Size c = len l /\ Checkpoint.RootHash c = MTH l /\ Forall sized l.

Lemma linked_prefix {C : Crypto} {PL : ProofLib} `{!ProofLibLaws PL} p c l1 l2 proof :
  commits p l1 -> commits c l2 -> Verifier.linked p c proof ->
  l1 `prefix_of` l2 \/ consistency_collides l1 l2 proof.
Proof.
  intros (S1 & R1 & F1) (S2 & R2 & F2) (Le & Eq & Lt). rewrite S1, S2, R1, R2 in *.
  destruct (decide (len l1 = len l2)) as [E|E].
  - destruct (MTH_eq_or_collides l1 l2) as [->|X]; [unfold len in E; lia|done|done|by apply Eq|by left|].
    right. right. right. by rewrite take_ge by (unfold len in E; lia).
  - destruct (consistency_sound l1 l2 proof F1 F2) as [X|X]; [apply Lt; lia| |by right].
    left. rewrite X. exists (drop (length l1) l2). symmetry. apply take_drop.
Qed.

Lemma history_prefix {C : Crypto} {PL : ProofLib} `{!ProofLibLaws PL} v prev cs proofs ls :
  Verifier.history v prev cs proofs -> Forall2 commits cs ls ->
  (forall i l1 l2, ls !! i = Some l1 -> ls !! S i = Some l2 -> l1 `prefix_of` l2) \/
  exists i l1 l2 proof, ls !! i = Some l1 /\ ls !! S i = Some l2 /\ proofs !! S i = Some proof /\
    consistency_collides l1 l2 proof.
Proof.
  intros Hy F2. revert prev proofs Hy. induction F2 as [|c l cs ls Hc F2 IH]; intros prev proofs Hy; [by left|].
  destruct proofs as [|proof proofs]; [done|]. destruct Hy as (_ & _ & Hy).
  destruct (IH _ _ Hy) as [P|(i & l1 & l2 & pr & X)]; [|right; by exists (S i), l1, l2, pr].
  destruct F2 as [|c' l' cs ls Hc' F2]; [left; by intros [|i] l1 l2|].
  destruct proofs as [|proof' proofs]; [done|]. destruct Hy as (_ & L & _).
  destruct (linked_prefix c c' l l' proof' Hc Hc' L) as [Pr|X]; [left|right].
  - intros [|i] l1 l2 H1 H2; [injection H1 as <-; injection H2 as <-; done|by apply (P i)].
  - exists 0%nat, l, l', proof'. done.
Qed.

(** Steps compose. *)
Lemma prefix_steps {A} (ls : list (list A)) :
  (forall i l1 l2, ls !! i = Some l1 -> ls !! S i = Some l2 -> l1 `prefix_of` l2) ->
  forall i j l1 l2, (i <= j)%nat -> ls !! i = Some l1 -> ls !! j = Some l2 -> l1 `prefix_of` l2.
Proof.
  intros P i j. induction j as [|j IH]; intros l1 l2 Hij H1 H2.
  - replace i with 0%nat in H1 by lia. by simplify_eq.
  - destruct (decide (i = S j)) as [->|]; [by simplify_eq|].
    destruct (lookup_lt_is_Some_2 ls j) as [l Hl]; [apply lookup_lt_Some in H2; lia|].
    trans l; [by apply IH; [lia|..]|by apply (P j)].
Qed.

(** An accepted anchor history is append-only: when [AnchorChain] accepts a
    sequence of anchored checkpoints whose roots commit to leaf lists, every
    earlier list is a prefix of every later one - no anchored entry was ever
    rewritten, dropped or reordered - or a SHA-256 collision sits at a named
    step. *)
Theorem anchor_chain_append_only {C : Crypto} {PL : ProofLib} `{!ProofLibLaws PL} v cs proofs ls :
  Verifier.AnchorChain v (Some <$> cs) proofs = Ok tt -> Forall2 commits cs ls ->
  (forall i j l1 l2, (i <= j)%nat -> ls !! i = Some l1 -> ls !! j = Some l2 -> l1 `prefix_of` l2) \/
  exists i l1 l2 proof, ls !! i = Some l1 /\ ls !! S i = Some l2 /\ proofs !! S i = Some proof /\
    consistency_collides l1 l2 proof.
Proof.
  intros A F2. unfold Verifier.AnchorChain in A. res_inv A.
  apply Verifier.anchor_loop_iff in A as (cs' & E' & Hy). apply (inj _) in E' as <-.
  destruct (history_prefix v None cs proofs ls Hy F2) as [P|X]; [left; by apply prefix_steps|by right].
Qed.

(** [EntryChain] accepts exactly the verified chains from the beginning of the
    log: every entry present, self-verifying, linked to its predecessor, and
    the first one at index 0 with the zero hash. *)
Theorem entry_chain_exact {C : Crypto} entries :
  Verifier.EntryChain entries = Ok tt <->
  entries <> [] /\ exists es, entries = Some <$> es /\ Entry.chain None es.
Proof.
  unfold Verifier.EntryChain. etrans; [apply guard_iff; [apply len_zero_eqb|apply Verifier.chain_loop_iff]|]. done.
Qed.

(** *** Witnesses *)

Lemma verifier_inclusion_sound_witness :
  exists e, [entry0] !! Z.to_nat (Entry.Index entry0) = Some e /\
    (Entry.content entry0 = Entry.content e \/ Entry.entry_collision entry0 e \/
     sha_collides (inclusion_pairs 1 (Z.to_nat (Entry.Index entry0)) 1 (Entry.LeafHash entry0) [])
       (tree_pairs 1 [Entry.LeafHash entry0])).
Proof.
  apply (verifier_inclusion_sound (PL := ref_proofs) entry0 [entry0] []);
    [apply entry0_wf| |constructor; [apply entry0_wf|constructor]|vm_compute; reflexivity].
  cbn [Entry.chain]. split_and!; [vm_compute; reflexivity|vm_compute; reflexivity|exact I].
Defined.

(** Checkpoints of a log of five leaves, at sizes three and five. *)
Definition anchored (n : nat) : Checkpoint.t :=
  match CheckpointSigner.Sign (CheckpointSigner.NewSigner (signer1 false)) 50 (Z.of_nat n) (MTH (take n leaves5)) [] None [] with
  | Ok c => c
  | Err _ => cp1
  end.
Definition auditor : Verifier.t :=
  Verifier.mk (Signer.origin (signer1 false)) (Signer.RootPublicKey (signer1 false)) (Some (Signer.chain (signer1 false)))
    None 0 None.

Lemma anchor_chain_append_only_witness :
  (forall i j l1 l2, (i <= j)%nat -> [take 3 leaves5; leaves5] !! i = Some l1 -> [take 3 leaves5; leaves5] !! j = Some l2 ->
    l1 `prefix_of` l2) \/
  exists i l1 l2 proof, [take 3 leaves5; leaves5] !! i = Some l1 /\ [take 3 leaves5; leaves5] !! S i = Some l2 /\
    [[]; proof35] !! S i = Some proof /\ consistency_collides l1 l2 proof.
Proof.
  apply (anchor_chain_append_only (PL := ref_proofs) auditor [anchored 3; anchored 5] [[]; proof35]).
  - vm_compute. reflexivity.
  - constructor; [|constructor; [|constructor]]; split_and!; try (vm_compute; reflexivity);
      [apply Forall_take|]; apply leaves5_sized.
Defined.
