(* ===== verification/Auditor.v ===== *)
(** * The auditor (pkg/audit, and the [audit] command of cmd/stele)

    One pass over an operator's read-only HTTP API, assembled into a report:
    trust anchor, rotation chain, latest checkpoint, size, and inclusion proofs
    of sampled entries.  The command walks every entry besides.  The operator
    is not trusted: what it answers is an arbitrary function of the URL, and
    what the JSON decoder makes of an answer is a parameter, too. *)

From S2P Require Import Prelude Crypto Attest Rfc6962 Merkle RefMerkle MerkleProps LogEntry Threshold Fwdsec Checkpoint Verify.
From stdpp Require Import base numbers list gmap strings.
From Stdlib Require Import ZArith Lia.

#[local] Open Scope Z_scope.
#[local] Existing Instance rfc6962_hasher.

(** ** HTTP *)

(** What became of a GET: no usable URL, no answer, or a status and a body. *)
Inductive http (body : Type) := BadURL (e : error) | NoAnswer (e : error) | Answer (status : Z) (b : body).
Arguments BadURL {_} _.
Arguments NoAnswer {_} _.
Arguments Answer {_} _ _.

(** encoding/json on the response types: what the decoder leaves in a target
    that held zero values, and the error it returned - it may be both. *)
Class Wire := {
  body : Type;
  decode_pubkey : body -> (bytes * bytes) * res unit;        (* origin, root_public_key *)
  decode_keychain : body -> option Chain.t * res unit;
  decode_group : body -> option Group.t * res unit;
  decode_checkpoint : body -> option Checkpoint.t * res unit;
  decode_size : body -> Z * res unit;
  decode_entry : body -> (bytes * bytes) * res unit;         (* leaf_hash, producer_id *)
  decode_full_entry : body -> option Entry.t * res unit;
  decode_entries : body -> list (option Entry.t) * res unit;
  decode_proof : body -> (Z * list bytes * bytes) * res unit;  (* tree_size, proof, root_hash *)
  decode_consistency : body -> (option bytes * bytes * list bytes) * res unit;  (* old_root, new_root, proof *)
}.

Section Http.
Context {W : Wire}.

Definition web : Type := bytes -> http body.

Definition httpGet {T} (zero : T) (decode : body -> T * res unit) (w : web) (url : bytes) : T * res unit :=
  match w url with
  | BadURL e => (zero, Err e)
  | NoAnswer e => (zero, Err e)
  | Answer status b =>
      if negb (Z.quot status 100 =? 2) then (zero, Err ["HTTP error status"%string])
      else decode b
  end.
End Http.

Module Audit.

(** Without [Timeout] and [HTTP], the settings of the client. *)
Record Config := mk_config {
  OperatorURL : bytes;
  RootPublicKey : option bytes;  (* nil = None *)
  TrustAnchorSource : bytes;
  Producers : list bytes;
  SampleN : Z;
}.

Inductive Status := StatusPass | StatusFail | StatusWarn.
#[export] Instance Status_eq_dec : EqDecision Status.
Proof. solve_decision. Defined.

Record TrustAnchorSummary := mk_anchor {
  Source : bytes;
  RootPublicKeyHex : bytes;
  RootKeyID : bytes;
  MatchedOnServer : bool;
  Notes : string;
}.

Record EpochSummary := mk_epoch {
  es_Epoch : Z;
  es_StartedAt : Z;
  es_KeyID : bytes;
  es_Hybrid : bool;
  es_Threshold : bool;
}.

Record ChainSummary := mk_chain {
  cs_Origin : bytes;
  cs_ActiveEpoch : Z;
  cs_Epochs : Z;
  cs_Verified : bool;
  cs_VerifyError : option error;
  cs_EpochSummary : list EpochSummary;
}.

(** [SignedAt] in nanoseconds, [None] the zero time; [ThresholdRequired] is
    never set. *)
Record CheckpointSummary := mk_ckpt {
  Size : Z;
  RootHashHex : bytes;
  SignedAt : option Z;
  Epoch : Z;
  Verified : bool;
  VerifyError : option error;
  BeaconBound : bool;
  BeaconSource : bytes;
  WitnessCount : Z;
  Witnesses : list (bytes * bytes);  (* id, key id *)
  ThresholdMode : bool;
  ThresholdActual : Z;
  HybridSigned : bool;
}.

Record InclusionSample := mk_sample {
  s_Index : Z;
  s_Verified : bool;
  s_Producer : bytes;
  s_Error : option error;
}.

(** [Anchors] is never set. *)
Record Report := mk_report {
  OperatorURL_ : bytes;
  Origin : bytes;
  Size_ : Z;
  AuditTime : Z;
  TrustAnchor : TrustAnchorSummary;
  Chain : ChainSummary;
  LatestCheckpoint : CheckpointSummary;
  Samples : list InclusionSample;
  Verdict : Status;
  Findings : list error;
}.

Definition no_anchor : TrustAnchorSummary := mk_anchor [] [] [] false "".
Definition no_chain (err : option error) : ChainSummary := mk_chain [] 0 0 false err [].
Definition no_ckpt (err : option error) : CheckpointSummary :=
  mk_ckpt 0 [] None 0 false err false [] 0 [] false 0 false.

Definition set_origin (r : Report) o : Report :=
  mk_report (OperatorURL_ r) o (Size_ r) (AuditTime r) (TrustAnchor r) (Chain r) (LatestCheckpoint r) (Samples r) (Verdict r) (Findings r).
Definition set_anchor (r : Report) a : Report :=
  mk_report (OperatorURL_ r) (Origin r) (Size_ r) (AuditTime r) a (Chain r) (LatestCheckpoint r) (Samples r) (Verdict r) (Findings r).
Definition set_chain (r : Report) c : Report :=
  mk_report (OperatorURL_ r) (Origin r) (Size_ r) (AuditTime r) (TrustAnchor r) c (LatestCheckpoint r) (Samples r) (Verdict r) (Findings r).
Definition set_ckpt (r : Report) c n : Report :=
  mk_report (OperatorURL_ r) (Origin r) n (AuditTime r) (TrustAnchor r) (Chain r) c (Samples r) (Verdict r) (Findings r).
Definition set_samples (r : Report) l : Report :=
  mk_report (OperatorURL_ r) (Origin r) (Size_ r) (AuditTime r) (TrustAnchor r) (Chain r) (LatestCheckpoint r) l (Verdict r) (Findings r).

(** [rep.Status = s; rep.Findings = append(rep.Findings, f)] *)
Definition note (r : Report) (s : Status) (f : error) : Report :=
  mk_report (OperatorURL_ r) (Origin r) (Size_ r) (AuditTime r) (TrustAnchor r) (Chain r) (LatestCheckpoint r) (Samples r) s (Findings r ++ [f]).

Definition pickStatus (current candidate : Status) : Status :=
  match current, candidate with
  | StatusFail, _ | _, StatusFail => StatusFail
  | StatusWarn, _ | _, StatusWarn => StatusWarn
  | _, _ => StatusPass
  end.
Definition failed (r : Report) (f : error) : Report := note r StatusFail f.
Definition warned (r : Report) (f : error) : Report := note r (pickStatus (Verdict r) StatusWarn) f.

(** [int(size)] on a 64-bit platform. *)
Definition int_of_u64 (z : Z) : Z := if z <? 2 ^ 63 then z else z - 2 ^ 64.

Definition checkTrustAnchor (cfg : Config) (serverRoot : bytes) : TrustAnchorSummary :=
  let out := mk_anchor (TrustAnchorSource cfg) (hex serverRoot) (KeyID serverRoot) in
  match RootPublicKey cfg with
  | None => out false "no pre-shared trust anchor supplied; server-reported root is unchecked"
  | Some root =>
      if bytesEqual root serverRoot then out true ""
      else out false "mismatch: operator-reported root does NOT match the trust anchor"
  end.

Section Audit.
Context {C : Crypto} {PL : ProofLib} {W : Wire}.

Definition epoch_summary (c : RotationCert.t) : EpochSummary :=
  mk_epoch (RotationCert.Epoch c) (RotationCert.StartedAt c) (KeyID (RotationCert.PublicKey c))
    (0 <? len (RotationCert.QuantumPublicKey c)) (0 <? len (RotationCert.MemberSigs c)).

Definition summarizeChain (chain : option Chain.t) (root : bytes) : ChainSummary :=
  match chain with
  | None => no_chain (Some ["chain not returned by server"%string])
  | Some c =>
      let out := mk_chain (Chain.Origin c) (Chain.ActiveEpoch c) (len (Chain.Certs c)) in
      match Chain.VerifyChain c root with
      | Err e => out false (Some e) []
      | Ok _ => out true None (map epoch_summary (Chain.Certs c))
      end
  end.

(** [Run] never passes a nil verifier. *)
Definition summarizeCheckpoint (c : Checkpoint.t) (v : Verifier.t) : CheckpointSummary :=
  let verified := Verifier.Checkpoint v c in
  mk_ckpt (Checkpoint.Size c) (hex (Checkpoint.RootHash c)) (Some (Checkpoint.TimeNanos c)) (Checkpoint.EpochIdx c)
    (is_ok verified) (match verified with Ok _ => None | Err e => Some e end)
    (match Checkpoint.Beacon c with Some _ => true | None => false end)
    (match Checkpoint.Beacon c with Some b => Beacon.Source b | None => [] end)
    (len (Checkpoint.Witnesses c))
    (map (fun w => (WitnessSig.WitnessID w, KeyID (WitnessSig.PublicKey w))) (Checkpoint.Witnesses c))
    (negb (bool_decide (Checkpoint.ThresholdGroupDigest c = [])))
    (if bool_decide (Checkpoint.ThresholdGroupDigest c = []) then 0 else len (Checkpoint.MemberSigs c))
    (0 <? len (Checkpoint.QuantumSignature c)).

(** *** Inclusion samples *)

Definition entry_url (cfg : Config) (i : Z) : bytes := OperatorURL cfg ++ str "/api/v0/entries/" ++ fmt_d i.
Definition proof_url (cfg : Config) (i size : Z) : bytes :=
  OperatorURL cfg ++ str "/api/v0/proof/inclusion?index=" ++ fmt_d i ++ str "&tree_size=" ++ fmt_d size.

(** One iteration of the loop. *)
Definition sample_one (w : web) (cfg : Config) (size : Z) (root : bytes) (i : Z) : InclusionSample :=
  match httpGet ([], []) decode_entry w (entry_url cfg i) with
  | (_, Err e) => mk_sample i false [] (Some ("fetch entry"%string :: e))
  | ((leafHash, producer), Ok _) =>
      match httpGet (0, [], []) decode_proof w (proof_url cfg i size) with
      | (_, Err e) => mk_sample i false producer (Some ("fetch proof"%string :: e))
      | ((_, proof, _), Ok _) =>
          match Verifier.nil_err (Tree.VerifyInclusion i size leafHash proof root) with
          | Err e => mk_sample i false producer (Some e)
          | Ok _ => mk_sample i true producer None
          end
      end
  end.

(** Each iteration appends one sample: [todo] is [n - len(out)]. *)
Fixpoint sample_loop (w : web) (cfg : Config) (size : Z) (root : bytes) (step : Z) (todo : nat) (i : Z)
    : list InclusionSample :=
  match todo with
  | O => []
  | S todo =>
      if i <? size then sample_one w cfg size root i :: sample_loop w cfg size root step todo (wrap64 (i + step))
      else []
  end.

Definition sample_count (cfg : Config) (size : Z) : Z :=
  if int_of_u64 size <? SampleN cfg then int_of_u64 size else SampleN cfg.

Definition sampleInclusion (w : web) (cfg : Config) (size : Z) (ckpt : Checkpoint.t) : res (list InclusionSample) :=
  let n := sample_count cfg size in
  fail_if n <? 0 with "panic: makeslice: cap out of range" ;;
  fail_if n =? 0 with "panic: integer divide by zero" ;;
  let step := size / n in
  let step := if step =? 0 then 1 else step in
  Ok (sample_loop w cfg size (Checkpoint.RootHash ckpt) step (Z.to_nat n) 0).

(** *** The pass *)

Definition url (cfg : Config) (path : string) : bytes := OperatorURL cfg ++ str path.

(** 2. Trust anchor. *)
Definition step_anchor (cfg : Config) (root : bytes) (rep : Report) : Report :=
  let rep := set_anchor rep (checkTrustAnchor cfg root) in
  let rep := if negb (MatchedOnServer (TrustAnchor rep)) && negb (bool_decide (TrustAnchorSource cfg = []))
             then failed rep ["trust anchor mismatch: server's claimed root does not match the caller-supplied root anchor"%string]
             else rep in
  if bool_decide (TrustAnchorSource cfg = [])
  then warned rep ["trust-anchor source unspecified"%string]
  else rep.

(** 3. Chain verification. *)
Definition step_chain (root : bytes) (fetched : option Chain.t * res unit) (rep : Report) : Report :=
  match fetched with
  | (_, Err e) => failed (set_chain rep (no_chain (Some e))) ("failed to fetch /keychain"%string :: e)
  | (chain, Ok _) =>
      let rep := set_chain rep (summarizeChain chain root) in
      if negb (cs_Verified (Chain rep))
      then failed rep ("chain verification failed"%string :: default [] (cs_VerifyError (Chain rep)))
      else rep
  end.

(** 4. Latest checkpoint. *)
Definition step_checkpoint (v : Verifier.t) (fetched : option Checkpoint.t * res unit) (rep : Report) : Report :=
  match fetched with
  | (_, Err e) => failed (set_ckpt rep (no_ckpt (Some e)) (Size_ rep)) ("failed to fetch /checkpoint"%string :: e)
  | (None, Ok _) => warned rep ["operator has no checkpoint yet"%string]
  | (Some c, Ok _) =>
      let rep := set_ckpt rep (summarizeCheckpoint c v) (Checkpoint.Size c) in
      if negb (Verified (LatestCheckpoint rep))
      then failed rep ("checkpoint signature verification failed"%string :: default [] (VerifyError (LatestCheckpoint rep)))
      else rep
  end.

(** 5. /size *)
Definition step_size (fetched : Z * res unit) (rep : Report) : Report :=
  match fetched with
  | (_, Err _) => rep
  | (size, Ok _) =>
      if (0 <? Size (LatestCheckpoint rep)) && (size <? Size (LatestCheckpoint rep))
      then failed rep ["size regression"%string]
      else rep
  end.

(** 6. Inclusion-proof sample. *)
Definition note_sample (rep : Report) (s : InclusionSample) : Report :=
  if negb (s_Verified s) then failed rep ("inclusion proof failed"%string :: default [] (s_Error s)) else rep.

Definition step_samples (w : web) (cfg : Config) (ckpt : option Checkpoint.t) (rep : Report) : res Report :=
  if (0 <? SampleN cfg) && (0 <? Size (LatestCheckpoint rep)) then
    match ckpt with
    | None => Err ["panic: nil pointer dereference"%string]
    | Some c =>
        let! samples := sampleInclusion w cfg (Size (LatestCheckpoint rep)) c in
        Ok (foldl note_sample (set_samples rep samples) samples)
    end
  else Ok rep.

Definition fetch_pubkey (w : web) (cfg : Config) := httpGet ([], []) decode_pubkey w (url cfg "/api/v0/pubkey").
Definition fetch_keychain (w : web) (cfg : Config) := httpGet None decode_keychain w (url cfg "/api/v0/keychain").
Definition fetch_checkpoint (w : web) (cfg : Config) := httpGet None decode_checkpoint w (url cfg "/api/v0/checkpoint").
Definition fetch_size (w : web) (cfg : Config) := httpGet 0 decode_size w (url cfg "/api/v0/size").

Definition Run (now : Z) (w : web) (cfg : Config) : res Report :=
  fail_if bool_decide (OperatorURL cfg = []) with "audit: OperatorURL required" ;;
  let rep := mk_report (OperatorURL cfg) [] 0 now no_anchor (no_chain None) (no_ckpt None) [] StatusPass [] in
  match fetch_pubkey w cfg with
  | (_, Err e) => Ok (failed rep ("failed to fetch /pubkey"%string :: e))
  | ((origin, root), Ok _) =>
      let rep := set_origin rep origin in
      let rep := step_anchor cfg root rep in
      let chain := fetch_keychain w cfg in
      let rep := step_chain root chain rep in
      let ckpt := fetch_checkpoint w cfg in
      let rep := step_checkpoint (Verifier.mk origin root chain.1 None 0 None) ckpt rep in
      let rep := step_size (fetch_size w cfg) rep in
      step_samples w cfg ckpt.1 rep
  end.

(** *** The verdict *)

(** A finding is on record exactly when the verdict is not PASS. *)
Definition coherent (r : Report) : Prop := Verdict r = StatusPass <-> Findings r = [].

Lemma note_coherent r s f : s <> StatusPass -> coherent (note r s f).
Proof. intros N. unfold coherent. cbn. split; [done|]. by intros [_ ?]%app_nil. Qed.
Lemma failed_coherent r f : coherent (failed r f).
Proof. by apply note_coherent. Qed.
Lemma warned_coherent r f : coherent (warned r f).
Proof. apply note_coherent. by destruct (Verdict r). Qed.
Lemma failed_found r f : Findings (failed r f) <> [].
Proof. by intros [_ ?]%app_nil. Qed.
Lemma warned_found r f : Findings (warned r f) <> [].
Proof. by intros [_ ?]%app_nil. Qed.
#[local] Hint Resolve failed_coherent warned_coherent : core.

Lemma step_anchor_coherent cfg root r : coherent r -> coherent (step_anchor cfg root r).
Proof. intros J. unfold step_anchor. case_bool_decide; [done|]. by destruct (_ && _). Qed.
Lemma step_chain_coherent root f r : coherent r -> coherent (step_chain root f r).
Proof. intros J. destruct f as [c [[]|]]; cbn; [|done]. by destruct (negb _). Qed.
Lemma step_checkpoint_coherent v f r : coherent r -> coherent (step_checkpoint v f r).
Proof. intros J. destruct f as [[c|] [[]|]]; cbn -[summarizeCheckpoint]; try done. by destruct (negb _). Qed.
Lemma step_size_coherent f r : coherent r -> coherent (step_size f r).
Proof. intros J. destruct f as [n [[]|]]; cbn; [|done]. by destruct (_ && _). Qed.
Lemma note_samples_coherent l r : coherent r -> coherent (foldl note_sample r l).
Proof. revert r. induction l as [|s l IH]; intros r J; [done|]. apply IH. unfold note_sample. by destruct (negb _). Qed.

Lemma step_samples_coherent w cfg c r r' : coherent r -> step_samples w cfg c r = Ok r' -> coherent r'.
Proof.
  intros J. unfold step_samples. destruct (_ && _); [|by intros [= <-]]. destruct c as [c|]; [|done].
  destruct (sampleInclusion _ _ _ _); cbn [res_bind]; [|done]. intros [= <-]. by apply note_samples_coherent.
Qed.

Lemma Run_coherent now w cfg rep : Run now w cfg = Ok rep -> coherent rep.
Proof.
  unfold Run. case_bool_decide; [done|]. destruct (fetch_pubkey w cfg) as [[o root] [[]|]]; [|by intros [= <-]].
  apply step_samples_coherent, step_size_coherent, step_checkpoint_coherent, step_chain_coherent, step_anchor_coherent.
  done.
Qed.

(** *** What a report without findings has checked *)

Lemma anchor_clean cfg root r :
  Findings (step_anchor cfg root r) = [] -> TrustAnchorSource cfg <> [] /\ RootPublicKey cfg = Some root.
Proof.
  unfold step_anchor. case_bool_decide as S; [by intros []%warned_found|]. cbn [negb]. rewrite andb_true_r.
  cbn [TrustAnchor set_anchor]. unfold checkTrustAnchor. destruct (RootPublicKey cfg) as [k|]; cbn [MatchedOnServer negb].
  - destruct (bytesEqual k root) eqn:E; cbn [MatchedOnServer negb]; [|by intros []%failed_found].
    apply bytesEqual_spec in E as ->. done.
  - by intros []%failed_found.
Qed.

Lemma chain_clean root f r :
  Findings (step_chain root f r) = [] ->
  Findings r = [] /\ exists c, f = (Some c, Ok tt) /\ Chain.VerifyChain c root = Ok tt.
Proof.
  destruct f as [[c|] [[]|]]; cbn; [|by intros []%failed_found..].
  destruct (Chain.VerifyChain c root) as [[]|] eqn:V; cbn; [|by intros []%failed_found]. naive_solver.
Qed.

Lemma checkpoint_clean v f r :
  Findings (step_checkpoint v f r) = [] ->
  Findings r = [] /\ exists c, f = (Some c, Ok tt) /\ Verifier.Checkpoint v c = Ok tt /\
    Size (LatestCheckpoint (step_checkpoint v f r)) = Checkpoint.Size c.
Proof.
  destruct f as [[c|] [[]|]]; cbn -[summarizeCheckpoint]; [|by intros []%failed_found|by intros []%warned_found|by intros []%failed_found].
  unfold summarizeCheckpoint. cbn [Verified]. destruct (Verifier.Checkpoint v c) as [[]|] eqn:V; cbn; [|by intros []%failed_found].
  naive_solver.
Qed.

Lemma size_clean f r :
  Findings (step_size f r) = [] -> Findings r = [] /\ LatestCheckpoint (step_size f r) = LatestCheckpoint r /\
    (f.2 = Ok tt -> 0 < Size (LatestCheckpoint r) -> Size (LatestCheckpoint r) <= f.1).
Proof.
  destruct f as [n [[]|]]; cbn; [|naive_solver]. destruct (_ && _) eqn:E; [by intros []%failed_found|].
  intros F. split_and!; [done|done|]. intros _ P. apply andb_false_iff in E as [E|E]; btauto_props; lia.
Qed.

Lemma samples_noted l : forall r, Findings (foldl note_sample r l) = [] -> Findings r = [] /\ Forall (fun s => s_Verified s = true) l.
Proof.
  induction l as [|s l IH]; intros r F; [done|]. apply IH in F as [F A]. unfold note_sample in F.
  destruct (s_Verified s) eqn:V; cbn [negb] in F; [by auto|by apply failed_found in F].
Qed.

Lemma samples_kept l : forall r, Samples (foldl note_sample r l) = Samples r.
Proof. induction l as [|s l IH]; intros r; [done|]. cbn. rewrite IH. unfold note_sample. by destruct (negb _). Qed.

Lemma samples_clean w cfg c r r' :
  step_samples w cfg (Some c) r = Ok r' -> Findings r' = [] ->
  Findings r = [] /\
  (0 < SampleN cfg -> 0 < Size (LatestCheckpoint r) ->
   sampleInclusion w cfg (Size (LatestCheckpoint r)) c = Ok (Samples r') /\ Forall (fun s => s_Verified s = true) (Samples r')).
Proof.
  unfold step_samples. destruct (_ && _) eqn:G.
  - destruct (sampleInclusion _ _ _ _) as [l|] eqn:S; cbn [res_bind]; [|done]. intros [= <-] F.
    apply samples_noted in F as [F A]. cbn in F. split; [done|]. intros _ _. by rewrite samples_kept.
  - intros [= <-] F. split; [done|]. intros P1 P2. apply Z.ltb_lt in P1, P2. by rewrite P1, P2 in G.
Qed.

(** *** The samples *)

(** The answers behind a verified sample. *)
Definition proven (w : web) (cfg : Config) (size : Z) (root : bytes) (i : Z) (leafHash : bytes) (proof : list bytes) : Prop :=
  (exists producer, httpGet ([], []) decode_entry w (entry_url cfg i) = ((leafHash, producer), Ok tt)) /\
  (exists n r, httpGet (0, [], []) decode_proof w (proof_url cfg i size) = ((n, proof, r), Ok tt)) /\
  Tree.VerifyInclusion i size leafHash proof root = true.

Lemma sample_one_verified w cfg size root i :
  s_Verified (sample_one w cfg size root i) = true <-> exists leafHash proof, proven w cfg size root i leafHash proof.
Proof.
  unfold sample_one, proven. split.
  - destruct (httpGet ([], []) _ _ _) as [[leaf producer] [[]|]]; [|done].
    destruct (httpGet (0, [], []) _ _ _) as [[[n proof] r] [[]|]]; [|done].
    destruct (Tree.VerifyInclusion i size leaf proof root) eqn:V; [|done]. intros _.
    exists leaf, proof. split_and!; [by exists producer|by exists n, r|done].
  - intros (leaf & proof & (pr & ->) & (n & r & ->) & ->). done.
Qed.

Lemma sample_one_index w cfg size root i : s_Index (sample_one w cfg size root i) = i.
Proof.
  unfold sample_one. destruct (httpGet ([], []) _ _ _) as [[] [|]]; [|done].
  destruct (httpGet (0, [], []) _ _ _) as [[[]] [|]]; [|done]. by destruct (Verifier.nil_err _).
Qed.

(** [n] indexes from [i] on, [step] apart. *)
Definition spaced (i step : Z) (n : nat) : list Z := map (fun k => i + Z.of_nat k * step) (seq 0 n).

Lemma spaced_S i step n : spaced i step (S n) = i :: spaced (i + step) step n.
Proof.
  unfold spaced. cbn [seq map]. f_equal; [lia|]. rewrite <- seq_shift, map_map. apply map_ext. intros k. lia.
Qed.

Lemma sample_loop_spaced w cfg size root step n : forall i,
  0 <= i -> 0 <= step -> size + step < 2 ^ 64 -> (n = 0%nat \/ i + (Z.of_nat n - 1) * step < size) ->
  sample_loop w cfg size root step n i = map (sample_one w cfg size root) (spaced i step n).
Proof.
  induction n as [|n IH]; intros i Hi Hs Hb Hn; [done|]. rewrite spaced_S. cbn [sample_loop map].
  destruct (Z.ltb_spec i size) as [L|L]; [|nia]. f_equal. unfold wrap64. rewrite Z.mod_small by lia.
  apply IH; [lia|lia|lia|]. destruct n; [by left|right; lia].
Qed.

(** What is sampled of a log of [size] entries. *)
Definition sample_plan (cfg : Config) (size : Z) : list Z :=
  let n := Z.min (SampleN cfg) size in spaced 0 (size / n) (Z.to_nat n).

Lemma sampleInclusion_plan w cfg size c :
  0 < SampleN cfg -> 0 < size < 2 ^ 63 ->
  sampleInclusion w cfg size c = Ok (map (sample_one w cfg size (Checkpoint.RootHash c)) (sample_plan cfg size)).
Proof.
  intros Hn Hs. unfold sampleInclusion, sample_count, int_of_u64, sample_plan.
  rewrite (proj2 (Z.ltb_lt size (2 ^ 63))) by lia.
  replace (if size <? SampleN cfg then size else SampleN cfg) with (Z.min (SampleN cfg) size)
    by (destruct (Z.ltb_spec size (SampleN cfg)); lia).
  set (n := Z.min (SampleN cfg) size). assert (1 <= n <= size) as Rn by lia.
  rewrite (proj2 (Z.ltb_ge n 0)), (proj2 (Z.eqb_neq n 0)) by lia.
  assert (1 <= size / n) as Hq by (apply Z.div_le_lower_bound; lia).
  assert (n * (size / n) <= size) as Hm by (apply Z.mul_div_le; lia).
  assert (size / n <= size) as Hd by (apply Z.div_le_upper_bound; nia).
  rewrite (proj2 (Z.eqb_neq (size / n) 0)) by lia. f_equal.
  apply sample_loop_spaced; [lia|lia|lia|]. right. rewrite Z2Nat.id by lia. nia.
Qed.

Lemma plan_length cfg size : 0 < SampleN cfg -> 0 < size -> len (sample_plan cfg size) = Z.min (SampleN cfg) size.
Proof. intros. unfold sample_plan, spaced, len. rewrite length_map, length_seq. lia. Qed.

Lemma plan_bounds cfg size i :
  0 < SampleN cfg -> 0 < size -> i ∈ sample_plan cfg size -> 0 <= i < size.
Proof.
  intros Hn Hs. unfold sample_plan, spaced. set (n := Z.min (SampleN cfg) size).
  intros (k & <- & [_ Hk]%in_seq)%list_elem_of_In%in_map_iff.
  assert (1 <= size / n) by (apply Z.div_le_lower_bound; lia).
  assert (n * (size / n) <= size) by (apply Z.mul_div_le; lia). nia.
Qed.

Lemma plan_NoDup cfg size : 0 < SampleN cfg -> 0 < size -> NoDup (sample_plan cfg size).
Proof.
  intros Hn Hs. unfold sample_plan, spaced. set (n := Z.min (SampleN cfg) size).
  assert (1 <= size / n) by (apply Z.div_le_lower_bound; lia).
  apply NoDup_fmap_2; [|apply NoDup_ListNoDup, seq_NoDup]. intros x y E. nia.
Qed.

(** A checkpoint size the [int] conversion turns negative. *)
Lemma sampleInclusion_huge w cfg size c :
  0 < SampleN cfg -> 2 ^ 63 <= size < 2 ^ 64 ->
  sampleInclusion w cfg size c = Err ["panic: makeslice: cap out of range"%string].
Proof.
  intros Hn Hs. unfold sampleInclusion, sample_count, int_of_u64.
  rewrite (proj2 (Z.ltb_ge size (2 ^ 63))), (proj2 (Z.ltb_lt (size - 2 ^ 64) (SampleN cfg))) by lia.
  by rewrite (proj2 (Z.ltb_lt (size - 2 ^ 64) 0)) by lia.
Qed.

(** *** When the pass is clean *)

(** What the auditor has in hand when nothing is found: the operator's answers,
    every one of them verified against the caller's trust anchor. *)
Record checks_out (w : web) (cfg : Config) (root : bytes) (chain : Chain.t) (c : Checkpoint.t) : Prop := {
  co_url : OperatorURL cfg <> [];
  co_source : TrustAnchorSource cfg <> [];
  co_root : RootPublicKey cfg = Some root;
  co_pubkey : fetch_pubkey w cfg = ((Checkpoint.Origin c, root), Ok tt);
  co_keychain : fetch_keychain w cfg = (Some chain, Ok tt);
  co_chain : Chain.VerifyChain chain root = Ok tt;
  co_checkpoint : fetch_checkpoint w cfg = (Some c, Ok tt);
  co_verify : Checkpoint.Verify c (Some chain) root None = Ok tt;
  co_size : forall n, fetch_size w cfg = (n, Ok tt) -> 0 < Checkpoint.Size c -> Checkpoint.Size c <= n;
  co_samples : 0 < SampleN cfg -> 0 < Checkpoint.Size c -> forall i, i ∈ sample_plan cfg (Checkpoint.Size c) ->
    exists leafHash proof, proven w cfg (Checkpoint.Size c) (Checkpoint.RootHash c) i leafHash proof;
}.

(** The sizes for which the conversions of [sampleInclusion] are exact. *)
Definition int_sized (w : web) (cfg : Config) : Prop :=
  forall c, fetch_checkpoint w cfg = (Some c, Ok tt) -> 0 <= Checkpoint.Size c < 2 ^ 63.

Lemma verifier_iff origin root chain c :
  Verifier.Checkpoint (Verifier.mk origin root (Some chain) None 0 None) c = Ok tt <->
  Checkpoint.Origin c = origin /\ Checkpoint.Verify c (Some chain) root None = Ok tt.
Proof.
  unfold Verifier.Checkpoint. cbn. destruct (bytesEqual _ _) eqn:E; cbn.
  - apply bytesEqual_spec in E. destruct (Checkpoint.Verify _ _ _ _) as [[]|]; naive_solver.
  - apply bytesEqual_false in E. naive_solver.
Qed.

Lemma samples_found w cfg o r r' : step_samples w cfg o r = Ok r' -> Findings r' = [] -> Findings r = [].
Proof.
  unfold step_samples. destruct (_ && _); [|by intros [= <-]]. destruct o as [c|]; [|done].
  destruct (sampleInclusion _ _ _ _); cbn [res_bind]; [|done]. by intros [= <-] [? _]%samples_noted.
Qed.

Lemma Run_clean now w cfg rep :
  int_sized w cfg -> Run now w cfg = Ok rep -> Findings rep = [] ->
  exists root chain c, checks_out w cfg root chain c /\
    (0 < SampleN cfg -> 0 < Checkpoint.Size c ->
     Samples rep = map (sample_one w cfg (Checkpoint.Size c) (Checkpoint.RootHash c)) (sample_plan cfg (Checkpoint.Size c))).
Proof.
  intros Sz. unfold Run. case_bool_decide as U; [done|].
  destruct (fetch_pubkey w cfg) as [[origin root] [[]|]] eqn:Fp; [|by intros [= <-] []%failed_found].
  intros E F. pose proof (samples_found _ _ _ _ _ E F) as F1. apply size_clean in F1 as (F2 & Ls & Hsz).
  apply checkpoint_clean in F2 as (F3 & c & Fc & V & Lc). rewrite Lc in Hsz.
  rewrite Fc in E. cbn [fst] in E. apply samples_clean in E as [_ Hs]; [|done]. rewrite <- Fc, Ls, Lc in Hs.
  apply chain_clean in F3 as (F4 & chain & Fk & Vc). rewrite Fk in V. cbn [fst] in V.
  apply verifier_iff in V as [<- V]. apply anchor_clean in F4 as [So Ro].
  exists root, chain, c. specialize (Sz c Fc).
  assert (0 < SampleN cfg -> 0 < Checkpoint.Size c -> Samples rep =
    map (sample_one w cfg (Checkpoint.Size c) (Checkpoint.RootHash c)) (sample_plan cfg (Checkpoint.Size c))) as Hp.
  { intros P1 P2. destruct (Hs P1 P2) as [X _]. rewrite sampleInclusion_plan in X by lia. congruence. }
  split; [|done]. constructor; try done.
  - intros n Fz P. rewrite Fz in Hsz. by apply Hsz.
  - intros P1 P2 i Hi. destruct (Hs P1 P2) as [_ A]. rewrite (Hp P1 P2), Forall_map, Forall_forall in A.
    by apply sample_one_verified, A.
Qed.

(** Only an impossible size keeps the report from being returned. *)
Lemma Run_reports now w cfg :
  OperatorURL cfg <> [] -> int_sized w cfg -> exists rep, Run now w cfg = Ok rep.
Proof.
  intros U Sz. unfold Run. rewrite bool_decide_eq_false_2 by done.
  destruct (fetch_pubkey w cfg) as [[origin root] [[]|]]; [|by eexists].
  unfold step_samples. destruct (_ && _) eqn:G; [|by eexists]. apply andb_true_iff in G as [P1%Z.ltb_lt P2%Z.ltb_lt].
  revert P2. set (r0 := step_chain _ _ _). assert (LatestCheckpoint r0 = no_ckpt None) as L0.
  { unfold r0, step_chain. destruct (fetch_keychain w cfg) as [? [[]|]]; unfold step_anchor;
      repeat (destruct (negb _) || destruct (_ && _) || destruct (bool_decide _)); done. }
  unfold step_checkpoint. destruct (fetch_checkpoint w cfg) as [[c|] [[]|]] eqn:Fc; unfold step_size;
    destruct (fetch_size w cfg) as [n [[]|]]; cbn [fst]; repeat (destruct (negb _) || destruct (_ && _));
    cbn -[sampleInclusion]; rewrite ?L0; cbn -[sampleInclusion]; intros P2; try lia;
    (rewrite sampleInclusion_plan; [by eexists|done|]; specialize (Sz c Fc); lia).
Qed.

Lemma anchor_passes cfg root r :
  TrustAnchorSource cfg <> [] -> RootPublicKey cfg = Some root -> Findings (step_anchor cfg root r) = Findings r.
Proof.
  intros S R. unfold step_anchor. rewrite bool_decide_eq_false_2 by done. cbn. unfold checkTrustAnchor.
  by rewrite R, bytesEqual_refl.
Qed.

Lemma samples_pass l : forall r, Forall (fun s => s_Verified s = true) l -> Findings (foldl note_sample r l) = Findings r.
Proof. induction l as [|s l IH]; intros r; [done|]. intros (V & A)%Forall_cons. cbn. rewrite IH by done. unfold note_sample. by rewrite V. Qed.

Lemma Run_passes now w cfg root chain c :
  int_sized w cfg -> checks_out w cfg root chain c -> exists rep, Run now w cfg = Ok rep /\ Findings rep = [].
Proof.
  intros Sz H. pose proof (Sz c (co_checkpoint _ _ _ _ _ H)) as Rc. unfold Run.
  rewrite bool_decide_eq_false_2 by apply H. rewrite (co_pubkey _ _ _ _ _ H), (co_keychain _ _ _ _ _ H), (co_checkpoint _ _ _ _ _ H).
  set (r0 := step_anchor _ _ _). assert (Findings r0 = []) as F0 by (unfold r0; by rewrite anchor_passes by apply H).
  cbn -[step_size step_samples summarizeCheckpoint].
  rewrite (co_chain _ _ _ _ _ H). cbn -[step_size step_samples summarizeCheckpoint].
  unfold summarizeCheckpoint. rewrite (proj2 (verifier_iff _ _ _ _)) by (split; [done|apply H]).
  cbn -[step_size step_samples]. set (r1 := set_ckpt _ _ _).
  assert (step_size (fetch_size w cfg) r1 = r1) as ->.
  { unfold step_size. destruct (fetch_size w cfg) as [n [[]|]] eqn:Fz; [|done]. unfold r1. cbn.
    destruct (_ && _) eqn:G; [|done]. btauto_props. pose proof (co_size _ _ _ _ _ H n Fz). lia. }
  unfold step_samples, r1. cbn -[sampleInclusion]. destruct (_ && _) eqn:G; [|by eexists].
  btauto_props. rewrite sampleInclusion_plan by lia. cbn [res_bind]. eexists. split; [done|].
  rewrite samples_pass; [done|]. apply Forall_map, Forall_forall. intros i Hi.
  apply sample_one_verified. by apply (co_samples _ _ _ _ _ H).
Qed.
End Audit.
End Audit.

(** ** Properties *)

(** A clean report means exactly this: the audit ends with PASS if and only
    if a trust anchor with a named source was supplied and is the operator's
    root, the rotation chain verifies from it, the latest checkpoint is signed
    under that chain for the origin reported, /size does not fall behind it,
    and every sampled inclusion proof verifies under the signed root. *)
Theorem audit_pass_exact {C : Crypto} {PL : ProofLib} {W : Wire} now w cfg :
  Audit.int_sized w cfg ->
  (exists rep, Audit.Run now w cfg = Ok rep /\ Audit.Verdict rep = Audit.StatusPass) <->
  (exists root chain c, Audit.checks_out w cfg root chain c).
Proof.
  intros Sz. split.
  - intros (rep & E & P). apply (Audit.Run_coherent _ _ _ _ E) in P.
    apply Audit.Run_clean in E as (root & chain & c & H & _); eauto.
  - intros (root & chain & c & H). apply (Audit.Run_passes now) in H as (rep & E & F); [|done].
    exists rep. split; [done|]. by apply (Audit.Run_coherent _ _ _ _ E).
Qed.

(** C18. PASS is evidence about the log: whatever leaves the signed root commits to
    (with a checkpoint of that size), each of the [min(SampleN, size)] distinct
    positions the report lists as verified holds the leaf hash the operator
    served there, or a SHA-256 collision is in hand. *)
Theorem audit_pass_sound {C : Crypto} {PL : ProofLib} {PLL : ProofLibLaws PL} {W : Wire} now w cfg rep :
  Audit.int_sized w cfg -> 0 < Audit.SampleN cfg ->
  Audit.Run now w cfg = Ok rep -> Audit.Verdict rep = Audit.StatusPass ->
  exists root chain c,
    Audit.RootPublicKey cfg = Some root /\ Chain.VerifyChain chain root = Ok tt /\
    Checkpoint.Verify c (Some chain) root None = Ok tt /\
    (0 < Checkpoint.Size c ->
     len (Audit.Samples rep) = Z.min (Audit.SampleN cfg) (Checkpoint.Size c) /\
     NoDup (Audit.s_Index <$> Audit.Samples rep) /\
     forall l, len l = Checkpoint.Size c -> Forall sized l -> MTH l = Checkpoint.RootHash c ->
     forall s, s ∈ Audit.Samples rep -> exists leafHash proof,
       Audit.proven w cfg (Checkpoint.Size c) (Checkpoint.RootHash c) (Audit.s_Index s) leafHash proof /\
       (sized leafHash ->
        l !! Z.to_nat (Audit.s_Index s) = Some leafHash \/
        sha_collides (inclusion_pairs (length l) (Z.to_nat (Audit.s_Index s)) (length l) leafHash (rev proof))
          (tree_pairs (length l) l))).
Proof.
  intros Sz Hn E P. apply (Audit.Run_coherent _ _ _ _ E) in P.
  apply Audit.Run_clean in E as (root & chain & c & H & Hs); [|done|done].
  exists root, chain, c. split_and!; [apply H..|]. intros Hc. rewrite (Hs Hn Hc).
  assert (Audit.s_Index <$> map (Audit.sample_one w cfg (Checkpoint.Size c) (Checkpoint.RootHash c))
    (Audit.sample_plan cfg (Checkpoint.Size c)) = Audit.sample_plan cfg (Checkpoint.Size c)) as Hi.
  { rewrite <- list_fmap_compose. etrans; [|apply list_fmap_id]. apply list_fmap_ext. intros k i _. cbn.
    apply Audit.sample_one_index. }
  rewrite len_map, Audit.plan_length, Hi by done. split_and!; [done|by apply Audit.plan_NoDup|].
  intros l Hl F R s (i & -> & Hin)%list_elem_of_fmap. rewrite Audit.sample_one_index.
  destruct (Audit.co_samples _ _ _ _ _ H Hn Hc i Hin) as (leaf & proof & Pr). exists leaf, proof. split; [done|].
  intros Hs'. destruct Pr as (_ & _ & V). rewrite <- Hl, <- R in V. apply inclusion_sound; [|done..].
  apply Audit.plan_bounds in Hin; [lia|done|done].
Qed.

(** The report is always delivered: with an operator URL, and a checkpoint
    size that fits an [int], every failure of the operator - unreachable
    endpoints, undecodable bodies, bad signatures - ends in a returned report,
    whose verdict is PASS exactly when it lists no finding. *)
Theorem audit_reports {C : Crypto} {PL : ProofLib} {W : Wire} now w cfg :
  Audit.OperatorURL cfg <> [] -> Audit.int_sized w cfg ->
  exists rep, Audit.Run now w cfg = Ok rep /\
    (Audit.Verdict rep = Audit.StatusPass <-> Audit.Findings rep = []).
Proof.
  intros U Sz. destruct (Audit.Run_reports now w cfg U Sz) as [rep E]. exists rep. split; [done|].
  by eapply Audit.Run_coherent.
Qed.

(** *** An operator to audit *)

Inductive demo_body :=
| BPub (origin root : bytes) | BChain (c : Chain.t) | BCkpt (c : Checkpoint.t) | BSize (n : Z)
| BEntry (leaf producer : bytes) | BProof (n : Z) (p : list bytes) (root : bytes).

#[local] Instance demo_wire : Wire := {|
  body := demo_body;
  decode_pubkey b := match b with BPub o r => ((o, r), Ok tt) | _ => (([], []), errorf "json") end;
  decode_keychain b := match b with BChain c => (Some c, Ok tt) | _ => (None, errorf "json") end;
  decode_group b := (None, errorf "json");
  decode_checkpoint b := match b with BCkpt c => (Some c, Ok tt) | _ => (None, errorf "json") end;
  decode_size b := match b with BSize n => (n, Ok tt) | _ => (0, errorf "json") end;
  decode_entry b := match b with BEntry l p => ((l, p), Ok tt) | _ => (([], []), errorf "json") end;
  decode_full_entry b := (None, errorf "json");
  decode_entries b := ([], errorf "json");
  decode_consistency b := ((None, [], []), errorf "json");
  decode_proof b := match b with BProof n p r => ((n, p, r), Ok tt) | _ => ((0, [], []), errorf "json") end;
|}.

Definition demo_config (n : Z) : Audit.Config :=
  Audit.mk_config (str "https://log") (Some (Signer.RootPublicKey (signer1 false))) (str "paper") [] n.

(** A log of five leaves with the given checkpoint, as a table of answers. *)
Definition demo_table (c : Checkpoint.t) (n : Z) : list (bytes * demo_body) :=
  let cfg := demo_config n in
  [ (Audit.url cfg "/api/v0/pubkey", BPub (Signer.origin (signer1 false)) (Signer.RootPublicKey (signer1 false)));
    (Audit.url cfg "/api/v0/keychain", BChain (Signer.chain (signer1 false)));
    (Audit.url cfg "/api/v0/checkpoint", BCkpt c);
    (Audit.url cfg "/api/v0/size", BSize 5) ] ++
  flat_map (fun k => [ (Audit.entry_url cfg (Z.of_nat k), BEntry (nth k leaves5 []) (str "p"));
                       (Audit.proof_url cfg (Z.of_nat k) 5, BProof 5 (PATH k leaves5) (MTH leaves5)) ]) (seq 0 5).

Fixpoint demo_find (u : bytes) (l : list (bytes * demo_body)) : http demo_body :=
  match l with
  | [] => NoAnswer ["connection refused"%string]
  | (k, b) :: l' => if bool_decide (k = u) then Answer 200 b else demo_find u l'
  end.
Definition demo_web (c : Checkpoint.t) (n : Z) : web := fun u => demo_find u (demo_table c n).

Abbreviation demo_run c n := (Audit.Run (PL := ref_proofs) 1000 (demo_web c n) (demo_config n)).
Definition verdict_of (r : res Audit.Report) : option Audit.Status :=
  match r with Ok rep => Some (Audit.Verdict rep) | Err _ => None end.

Lemma demo_int_sized n : Audit.int_sized (demo_web (anchored 5) n) (demo_config n).
Proof.
  intros c. assert (Audit.fetch_checkpoint (demo_web (anchored 5) n) (demo_config n) = (Some (anchored 5), Ok tt)) as ->
    by (vm_compute; reflexivity).
  intros [= <-]. replace (Checkpoint.Size (anchored 5)) with 5 by (vm_compute; reflexivity). lia.
Qed.

Lemma demo_pass : exists rep, demo_run (anchored 5) 2 = Ok rep /\ Audit.Verdict rep = Audit.StatusPass.
Proof.
  assert (verdict_of (demo_run (anchored 5) 2) = Some Audit.StatusPass) as V by (vm_compute; reflexivity).
  destruct (demo_run (anchored 5) 2) as [rep|]; [|discriminate V]. exists rep. split; [done|]. by injection V.
Qed.

Lemma audit_pass_exact_witness : exists root chain c,
  Audit.checks_out (PL := ref_proofs) (demo_web (anchored 5) 2) (demo_config 2) root chain c.
Proof.
  apply (proj1 (audit_pass_exact (PL := ref_proofs) 1000 (demo_web (anchored 5) 2) (demo_config 2) (demo_int_sized 2))).
  exact demo_pass.
Defined.

Lemma audit_pass_sound_witness : exists rep root chain c,
  Audit.RootPublicKey (demo_config 2) = Some root /\ Chain.VerifyChain chain root = Ok tt /\
  Checkpoint.Verify c (Some chain) root None = Ok tt /\
  (0 < Checkpoint.Size c -> len (Audit.Samples rep) = Z.min 2 (Checkpoint.Size c)).
Proof.
  destruct demo_pass as (rep & E & V).
  destruct (audit_pass_sound (PL := ref_proofs) 1000 (demo_web (anchored 5) 2) (demo_config 2) rep (demo_int_sized 2)
    ltac:(reflexivity) E V) as (root & chain & c & R & Vc & Vk & S).
  exists rep, root, chain, c. split_and!; [exact R|exact Vc|exact Vk|]. intros P. exact (proj1 (S P)).
Defined.

Lemma audit_reports_witness : exists rep, demo_run (anchored 5) 2 = Ok rep /\
  (Audit.Verdict rep = Audit.StatusPass <-> Audit.Findings rep = []).
Proof.
  apply (audit_reports (PL := ref_proofs) 1000 (demo_web (anchored 5) 2) (demo_config 2));
    [discriminate|exact (demo_int_sized 2)].
Defined.

(** *** Where the code departs from its comments *)

(** A checkpoint with a size of at least [2^63] - whoever signed it - makes the
    auditor panic instead of reporting. *)
Theorem audit_hostile_size_panics {C : Crypto} {PL : ProofLib} {W : Wire} now w cfg k c :
  Audit.OperatorURL cfg <> [] -> 0 < Audit.SampleN cfg ->
  Audit.fetch_pubkey w cfg = (k, Ok tt) -> Audit.fetch_checkpoint w cfg = (Some c, Ok tt) ->
  2 ^ 63 <= Checkpoint.Size c < 2 ^ 64 ->
  Audit.Run now w cfg = Err ["panic: makeslice: cap out of range"%string].
Proof.
  intros U Hn Fp Fc Sz. unfold Audit.Run. rewrite bool_decide_eq_false_2 by done. rewrite Fp, Fc. destruct k as [origin root].
  unfold Audit.step_samples. set (r := Audit.step_size _ _).
  assert (Audit.Size (Audit.LatestCheckpoint r) = Checkpoint.Size c) as ->.
  { unfold r, Audit.step_size, Audit.step_checkpoint. destruct (Audit.fetch_size w cfg) as [n [[]|]];
      repeat (destruct (negb _) || destruct (_ && _)); done. }
  rewrite (proj2 (Z.ltb_lt 0 (Audit.SampleN cfg))), (proj2 (Z.ltb_lt 0 (Checkpoint.Size c))) by lia.
  cbn [andb fst]. by rewrite Audit.sampleInclusion_huge.
Qed.

Lemma audit_hostile_size_panics_witness :
  Audit.Run (PL := ref_proofs) 1000
    (demo_web (Checkpoint.mk [] (2 ^ 63) [] [] 0 0 [] None [] [] [] [] []) 1) (demo_config 1)
  = Err ["panic: makeslice: cap out of range"%string].
Proof.
  eapply (audit_hostile_size_panics (PL := ref_proofs)); [discriminate|reflexivity|vm_compute; reflexivity|vm_compute; reflexivity|].
  simpl. lia.
Defined.

(** With [size < 2 * SampleN] the step is 1: the newest entries are not sampled. *)
Example sample_plan_prefix : Audit.sample_plan (demo_config 10) 19 = [0; 1; 2; 3; 4; 5; 6; 7; 8; 9].
Proof. reflexivity. Qed.
