(* ===== verification/Cli.v ===== *)
(** * The verifying commands of the client (cmd/stele/main.go)

    [verify-inclusion], [verify-consistency] and [audit]: the commands that
    check what the operator serves.  Flags are parsed by the flag package; the
    printed lines are not modelled. *)

From S2P Require Import Prelude Crypto GoText Attest Rfc6962 Merkle RefMerkle MerkleProps LogEntry Threshold Fwdsec Checkpoint Verify Auditor.
From stdpp Require Import base numbers list gmap strings.
From Stdlib Require Import ZArith Lia.

#[local] Open Scope Z_scope.
#[local] Existing Instance rfc6962_hasher.

Module Cli.
Section Cli.
Context {C : Crypto} {PL : ProofLib} {W : Wire}.

(** Here the decoders stand for [json.Unmarshal]. *)
Definition get {T} (zero : T) (decode : body -> T * res unit) (w : web) (server path : bytes) : res T :=
  match httpGet zero decode w (server ++ path) with (x, Ok _) => Ok x | (_, Err e) => Err e end.

Definition nil_panic {A} : res A := Err ["panic: nil pointer dereference"%string].

(** A threshold group that cannot be fetched, or is absent, is left out. *)
Definition threshold_group (w : web) (server : bytes) : res (option Group.t) :=
  match get None decode_group w server (str "/api/v0/threshold-group") with
  | Ok (Some g) =>
      let! _ := wrap_err "operator returned invalid threshold group" (Group.Validate (Some g)) in Ok (Some g)
  | _ => Ok None
  end.

Definition buildVerifier (w : web) (server : bytes) : res Verifier.t :=
  let! pk := get ([], []) decode_pubkey w server (str "/api/v0/pubkey") in
  let! kc := get None decode_keychain w server (str "/api/v0/keychain") in
  match kc with
  | None => nil_panic
  | Some chain =>
      let! _ := wrap_err "rotation chain from server is invalid" (Chain.VerifyChain chain pk.2) in
      let! g := threshold_group w server in
      Ok (Verifier.mk pk.1 pk.2 (Some chain) g 0 None)
  end.

(** GET /checkpoint and [verifier.Checkpoint]; [m1] and [m2]: what the command
    wraps their errors with. *)
Definition signed_checkpoint (w : web) (server : bytes) (v : Verifier.t) (m1 : error) (m2 : string) : res Checkpoint.t :=
  match get None decode_checkpoint w server (str "/api/v0/checkpoint") with
  | Err e => Err (m1 ++ e)
  | Ok None => nil_panic
  | Ok (Some c) => let! _ := wrap_err m2 (Verifier.Checkpoint v c) in Ok c
  end.

Definition inclusion_path (idx : Z) : bytes := str "/api/v0/proof/inclusion?index=" ++ fmt_d idx.
Definition entry_path (idx : Z) : bytes := str "/api/v0/entries/" ++ fmt_d idx.
Definition entries_path (from to : Z) : bytes := str "/api/v0/entries?from=" ++ fmt_d from ++ str "&to=" ++ fmt_d to.
Definition consistency_path (old new : Z) : bytes := str "/api/v0/proof/consistency?old=" ++ fmt_d old ++ str "&new=" ++ fmt_d new.

(** [args]: the positional arguments. *)
Definition cmdVerifyInclusion (w : web) (server : bytes) (args : list bytes) : res unit :=
  match args with
  | [arg] =>
      let! idx := ParseUint arg in
      let! v := buildVerifier w server in
      let! c := signed_checkpoint w server v [] "checkpoint signature" in
      let! prf := get (0, [], []) decode_proof w server (inclusion_path idx) in
      let '(treeSize, proof, root) := prf in
      let! e := get None decode_full_entry w server (entry_path idx) in
      match e with
      | None => nil_panic
      | Some entry =>
          let! _ := wrap_err "inclusion" (Verifier.Inclusion entry treeSize proof root) in
          fail_if negb (bytesEqual root (Checkpoint.RootHash c))
            with "proof root does not match checkpoint root (server inconsistency)" ;;
          Ok tt
      end
  | _ => Err ["verify-inclusion: requires <index>"%string]
  end.

Definition cmdVerifyConsistency (w : web) (server : bytes) (args : list bytes) : res unit :=
  match args with
  | [arg1; arg2] =>
      let! oldSize := ParseUint arg1 in
      let! newSize := ParseUint arg2 in
      let! v := buildVerifier w server in
      let! resp := get (None, [], []) decode_consistency w server (consistency_path oldSize newSize) in
      let '(oldRoot, newRoot, proof) := resp in
      match oldRoot with
      | None => Err ["server did not have a stored old root at that size; cannot verify"%string]
      | Some oldRoot => Verifier.Consistency oldSize oldRoot newSize newRoot proof
      end
  | _ => Err ["verify-consistency: requires <old-size> <new-size>"%string]
  end.

Definition chunk : Z := 256.

(** The loop that fetches the entries in chunks; [None] when [fuel] iterations
    were not enough. *)
Fixpoint fetch_entries (w : web) (server : bytes) (size : Z) (fuel : nat) (from : Z) (entries : list (option Entry.t))
    : option (res (list (option Entry.t))) :=
  if size <=? from then Some (Ok entries)
  else match fuel with
  | O => None
  | S fuel =>
      let to := wrap64 (from + chunk) in
      let to := if size <? to then size else to in
      match get [] decode_entries w server (entries_path from to) with
      | Err e => Some (Err ("get entries"%string :: e))
      | Ok r => fetch_entries w server size fuel (wrap64 (from + chunk)) (entries ++ r)
      end
  end.

Definition chunks (size : Z) : nat := Z.to_nat (size / chunk + 1).

(** Step 3: the hash chain, up to the signed head. *)
Definition check_chain (entries : list (option Entry.t)) (c : Checkpoint.t) : res unit :=
  if Checkpoint.Size c =? 0 then Ok tt
  else
    let! _ := wrap_err "hash chain INVALID" (Verifier.EntryChain entries) in
    match last entries with
    | Some (Some e) =>
        fail_if negb (bytesEqual (Entry.EntryHash e) (Checkpoint.HeadHash c))
          with "last entry hash does not match checkpoint head_hash" ;; Ok tt
    | _ => nil_panic
    end.

(** Step 4: the newest entry under the signed root. *)
Definition check_last (w : web) (server : bytes) (entries : list (option Entry.t)) (c : Checkpoint.t) : res unit :=
  if 0 <? Checkpoint.Size c then
    let! prf := get (0, [], []) decode_proof w server (inclusion_path (Checkpoint.Size c - 1)) in
    let '(treeSize, proof, root) := prf in
    match last entries with
    | Some (Some e) =>
        let! _ := wrap_err "inclusion proof INVALID" (Verifier.Inclusion e treeSize proof root) in
        fail_if negb (bytesEqual root (Checkpoint.RootHash c)) with "proof root mismatch with checkpoint root" ;; Ok tt
    | _ => nil_panic
    end
  else Ok tt.

(** [max_cap]: the largest capacity the runtime allocates for the entries.
    The report of step 6 is [Audit.Run]. *)
Definition cmdAudit (max_cap : Z) (w : web) (server : bytes) : option (res (Checkpoint.t * list (option Entry.t))) :=
  match (let! v := buildVerifier w server in
         let! c := signed_checkpoint w server v ["get checkpoint"%string] "checkpoint signature INVALID" in
         fail_if max_cap <? Checkpoint.Size c with "panic: makeslice: cap out of range" ;; Ok c) with
  | Err e => Some (Err e)
  | Ok c =>
      let size := Checkpoint.Size c in
      match fetch_entries w server size (chunks size) 0 [] with
      | None => None
      | Some fetched => Some (
          let! entries := fetched in
          fail_if negb (len entries =? size) with "got a different number of entries than the checkpoint covers" ;;
          let! _ := check_chain entries c in
          let! _ := check_last w server entries c in
          Ok (c, entries))
      end
  end.

(** *** The fetch loop *)

(** Below [2^64 - 256] the loop ends within its fuel. *)
Lemma fetch_entries_ends w server size fuel : forall from entries,
  size + chunk <= 2 ^ 64 -> 0 <= from -> size - from <= chunk * Z.of_nat fuel ->
  is_Some (fetch_entries w server size fuel from entries).
Proof.
  unfold chunk. induction fuel as [|fuel IH]; intros from entries Hs H0 Hf; cbn [fetch_entries];
    destruct (Z.leb_spec size from); [by eexists|lia|by eexists|].
  destruct (get _ _ _ _ _) as [r|e]; [|by eexists]. unfold chunk, wrap64. rewrite Z.mod_small by lia. apply IH; lia.
Qed.

Lemma chunks_enough size : size <= chunk * Z.of_nat (chunks size).
Proof. unfold chunks, chunk. destruct (Z.le_gt_cases 0 size); [|lia]. rewrite Z2Nat.id; zmod. Qed.

(** *** What the walk accepts *)

Lemma check_chain_ok entries c :
  0 < Checkpoint.Size c -> check_chain entries c = Ok tt ->
  exists es e, entries = Some <$> (es ++ [e]) /\ Entry.chain None (es ++ [e]) /\ Entry.EntryHash e = Checkpoint.HeadHash c.
Proof.
  intros P. unfold check_chain. rewrite (proj2 (Z.eqb_neq (Checkpoint.Size c) 0)) by lia. intros E. res_inv E.
  destruct a. apply wrap_err_ok in E0. unfold Verifier.EntryChain in E0. res_inv E0.
  apply Verifier.chain_loop_iff in E0 as (es & -> & Ch).
  destruct es as [|e es _] using rev_ind; [done|]. exists es, e. split_and!; [done|done|].
  rewrite fmap_app in E. cbn in E. rewrite last_snoc in E. destruct (bytesEqual _ _) eqn:B; [|done]. by apply bytesEqual_spec in B.
Qed.

Lemma check_last_ok w server es e c :
  0 < Checkpoint.Size c -> check_last w server (Some <$> (es ++ [e])) c = Ok tt ->
  exists treeSize proof, Verifier.Inclusion e treeSize proof (Checkpoint.RootHash c) = Ok tt.
Proof.
  intros P. unfold check_last. rewrite (proj2 (Z.ltb_lt 0 (Checkpoint.Size c))) by done. intros E. res_inv E.
  destruct a as [[n proof] root]. rewrite fmap_app in E. cbn in E. rewrite last_snoc in E.
  destruct (Verifier.Inclusion _ _ _ _) as [[]|] eqn:I; cbn in E; [|done].
  destruct (bytesEqual _ _) eqn:B; [|done]. apply bytesEqual_spec in B as ->. eauto.
Qed.

Lemma signed_checkpoint_ok w server v m1 m2 c : signed_checkpoint w server v m1 m2 = Ok c -> Verifier.Checkpoint v c = Ok tt.
Proof.
  unfold signed_checkpoint. destruct (get _ _ _ _ _) as [[c'|]|]; [|done..].
  intros E. res_inv E. destruct a. subst c'. by apply wrap_err_ok in E0.
Qed.

Lemma buildVerifier_ok w server v :
  buildVerifier w server = Ok v ->
  exists chain, Verifier.Chain v = Some chain /\ Chain.VerifyChain chain (Verifier.RootPublicKey v) = Ok tt.
Proof.
  unfold buildVerifier. destruct (get _ _ _ _ _) as [pk|]; cbn [res_bind]; [|done].
  destruct (get _ _ _ _ _) as [[chain|]|]; cbn [res_bind]; [|done..].
  destruct (Chain.VerifyChain chain pk.2) as [[]|] eqn:V; cbn [wrap_err res_bind]; [|done].
  destruct (threshold_group w server); cbn [res_bind]; [|done]. intros [= <-]. by exists chain.
Qed.
End Cli.
End Cli.

(** ** Properties *)

(** C21. The audit command ends, whatever the operator answers: the runtime refuses
    to allocate for more than [max_cap] entries, and for any [max_cap] up to
    [2^64 - 256] the fetch loop stops within its fuel. *)
Theorem audit_command_ends {C : Crypto} {PL : ProofLib} {W : Wire} max_cap w server :
  max_cap + Cli.chunk <= 2 ^ 64 -> is_Some (Cli.cmdAudit max_cap w server).
Proof.
  intros M. unfold Cli.cmdAudit. destruct (res_bind _ _) as [c|] eqn:E; [|by eexists].
  assert (Checkpoint.Size c <= max_cap) as L.
  { res_inv E. subst. by apply Z.ltb_ge. }
  destruct (Cli.fetch_entries_ends w server (Checkpoint.Size c) (Cli.chunks (Checkpoint.Size c)) 0 [])
    as [r ->]; [lia|lia| |by eexists]. rewrite Z.sub_0_r. apply Cli.chunks_enough.
Qed.

(** C20. The walk pins the whole log: when [stele audit] succeeds on a non-empty
    log, the entries it fetched are as many as the signed checkpoint says, chain
    from the genesis to the signed head hash, the newest is under the signed
    root, and any other verified chain with that head has the same content at
    every position - or two entries collide. *)
Theorem audit_command_sound {C : Crypto} {PL : ProofLib} {W : Wire} max_cap w server c entries :
  Cli.cmdAudit max_cap w server = Some (Ok (c, entries)) -> 0 < Checkpoint.Size c < 2 ^ 64 ->
  exists v es, Cli.buildVerifier w server = Ok v /\ Verifier.Checkpoint v c = Ok tt /\
    entries = Some <$> es /\ len es = Checkpoint.Size c /\ Entry.chain None es /\
    (exists e treeSize proof, last es = Some e /\ Verifier.Inclusion e treeSize proof (Checkpoint.RootHash c) = Ok tt) /\
    (forall es' e', Forall Entry.wf es -> Forall Entry.wf (es' ++ [e']) -> len es' < 2 ^ 64 ->
     Entry.chain None (es' ++ [e']) -> Entry.EntryHash e' = Checkpoint.HeadHash c ->
     map Entry.content es = map Entry.content (es' ++ [e']) \/ Entry.chains_collide es (es' ++ [e'])).
Proof.
  intros E P. unfold Cli.cmdAudit in E.
  destruct (Cli.buildVerifier w server) as [v|] eqn:V; cbn [res_bind] in E; [|done].
  destruct (Cli.signed_checkpoint w server v _ _) as [c'|] eqn:S; cbn [res_bind] in E; [|done].
  destruct (_ <? _); [done|]. destruct (Cli.fetch_entries _ _ _ _ _ _) as [[es0|]|]; cbn [res_bind] in E; [|done..].
  injection E as E. res_inv E. destruct a, a0. subst c' entries. rename E0 into E5, E1 into E6, E2 into E7.
  apply Cli.check_chain_ok in E6 as (es & e & -> & Ch & Hh); [|lia].
  apply Cli.check_last_ok in E7 as (n & proof & I); [|lia]. apply Cli.signed_checkpoint_ok in S.
  apply negb_false_iff, Z.eqb_eq in E5. unfold len in E5. rewrite length_fmap in E5. fold (len (es ++ [e])) in E5.
  exists v, (es ++ [e]). split_and!; try done.
  - exists e, n, proof. by rewrite last_snoc.
  - intros es' e' W1 W2 B Ch' Hh'. apply Entry.entry_chain_binds; try done; [|left; congruence].
    unfold len in *. rewrite length_app in E5. cbn in E5. lia.
Qed.

(** [verify-inclusion] vouches for the entry it was served: when it succeeds,
    the served entry - at the index written in it - is in every log the signed
    root commits to at the tree size of the proof, or a collision is in hand. *)
Theorem inclusion_command_sound {C : Crypto} {PL : ProofLib} `{!ProofLibLaws PL} {W : Wire} w server args :
  Cli.cmdVerifyInclusion w server args = Ok tt ->
  exists idx v c treeSize proof entry,
    args = [idx] /\ Cli.buildVerifier w server = Ok v /\ Verifier.Checkpoint v c = Ok tt /\
    forall es, Entry.wf entry -> Entry.chain None es -> Forall Entry.wf es ->
      len es = treeSize -> MTH (map Entry.LeafHash es) = Checkpoint.RootHash c ->
      exists e, es !! Z.to_nat (Entry.Index entry) = Some e /\
        (Entry.content entry = Entry.content e \/ Entry.entry_collision entry e \/
         sha_collides (inclusion_pairs (length es) (Z.to_nat (Entry.Index entry)) (length es) (Entry.LeafHash entry) (rev proof))
           (tree_pairs (length es) (map Entry.LeafHash es))).
Proof.
  unfold Cli.cmdVerifyInclusion. destruct args as [|arg [|]]; [done| |done].
  destruct (ParseUint arg) as [i|]; cbn [res_bind]; [|done].
  destruct (Cli.buildVerifier w server) as [v|] eqn:V; cbn [res_bind]; [|done].
  destruct (Cli.signed_checkpoint w server v _ _) as [c|] eqn:S; cbn [res_bind]; [|done].
  destruct (Cli.get _ _ _ _ _) as [[[n proof] root]|]; cbn [res_bind]; [|done].
  destruct (Cli.get _ _ _ _ _) as [[entry|]|]; cbn [res_bind]; [|done..].
  destruct (Verifier.Inclusion _ _ _ _) as [[]|] eqn:I; cbn [wrap_err res_bind]; [|done].
  destruct (bytesEqual _ _) eqn:B; [|done]. apply bytesEqual_spec in B as ->. intros _.
  exists arg, v, c, n, proof, entry. split_and!; [done|done|by eapply Cli.signed_checkpoint_ok|].
  intros es We Ch Wes Hl R. rewrite <- Hl, <- R in I. by apply verifier_inclusion_sound.
Qed.

(** *** Concrete operators *)

Inductive cli_body :=
| CPub (origin root : bytes) | CChain (c : Chain.t) | CCkpt (c : Checkpoint.t)
| CEntry (e : Entry.t) | CEntries (es : list Entry.t) | CProof (n : Z) (p : list bytes) (root : bytes)
| CConsistency (old new : bytes) (p : list bytes).

#[local] Instance cli_wire : Wire := {|
  body := cli_body;
  decode_pubkey b := match b with CPub o r => ((o, r), Ok tt) | _ => (([], []), errorf "json") end;
  decode_keychain b := match b with CChain c => (Some c, Ok tt) | _ => (None, errorf "json") end;
  decode_group b := (None, errorf "json");
  decode_checkpoint b := match b with CCkpt c => (Some c, Ok tt) | _ => (None, errorf "json") end;
  decode_size b := (0, errorf "json");
  decode_entry b := (([], []), errorf "json");
  decode_full_entry b := match b with CEntry e => (Some e, Ok tt) | _ => (None, errorf "json") end;
  decode_entries b := match b with CEntries es => (map Some es, Ok tt) | _ => ([], errorf "json") end;
  decode_proof b := match b with CProof n p r => ((n, p, r), Ok tt) | _ => ((0, [], []), errorf "json") end;
  decode_consistency b := match b with CConsistency o n p => ((Some o, n, p), Ok tt) | _ => ((None, [], []), errorf "json") end;
|}.

Fixpoint cli_find (u : bytes) (l : list (bytes * cli_body)) : http cli_body :=
  match l with
  | [] => NoAnswer ["connection refused"%string]
  | (k, b) :: l' => if bool_decide (k = u) then Answer 200 b else cli_find u l'
  end.

(** A log of two entries and its signed checkpoint. *)
Definition cli_leaves : list bytes := Eval vm_compute in map Entry.LeafHash [entry0; entry1].
Definition cli_checkpoint : Checkpoint.t := Eval vm_compute in
  match CheckpointSigner.Sign (CheckpointSigner.NewSigner (signer1 false)) 50 2 (MTH cli_leaves) (Entry.EntryHash entry1) None [] with
  | Ok c => c
  | Err _ => cp1
  end.
Definition cli_keys : list (bytes * cli_body) :=
  [ (str "/api/v0/pubkey", CPub (Signer.origin (signer1 false)) (Signer.RootPublicKey (signer1 false)));
    (str "/api/v0/keychain", CChain (Signer.chain (signer1 false))) ].
Definition cli_web (l : list (bytes * cli_body)) : web := fun u => cli_find u (cli_keys ++ l).

Definition cli_log : web := cli_web
  [ (str "/api/v0/checkpoint", CCkpt cli_checkpoint);
    (Cli.entries_path 0 2, CEntries [entry0; entry1]);
    (Cli.entry_path 1, CEntry entry1);
    (Cli.inclusion_path 1, CProof 2 (PATH 1 cli_leaves) (MTH cli_leaves)) ].

Lemma cli_audit_ok :
  Cli.cmdAudit (PL := ref_proofs) (2 ^ 45) cli_log [] = Some (Ok (cli_checkpoint, [Some entry0; Some entry1])).
Proof. vm_compute. reflexivity. Qed.

Lemma audit_command_ends_witness : is_Some (Cli.cmdAudit (PL := ref_proofs) (2 ^ 45) cli_log []).
Proof. apply (audit_command_ends (PL := ref_proofs) (2 ^ 45) cli_log []). unfold Cli.chunk. lia. Defined.

Lemma audit_command_sound_witness : exists v es,
  Cli.buildVerifier cli_log [] = Ok v /\ Verifier.Checkpoint v cli_checkpoint = Ok tt /\
  [Some entry0; Some entry1] = Some <$> es /\ len es = Checkpoint.Size cli_checkpoint.
Proof.
  destruct (audit_command_sound (PL := ref_proofs) (2 ^ 45) cli_log [] cli_checkpoint _ cli_audit_ok)
    as (v & es & V & Vc & E & L & _).
  - replace (Checkpoint.Size cli_checkpoint) with 2 by (vm_compute; reflexivity). lia.
  - exists v, es. split_and!; [exact V|exact Vc|exact E|exact L].
Defined.

Lemma inclusion_command_sound_witness : exists idx v c,
  [str "1"] = [idx] /\ Cli.buildVerifier cli_log [] = Ok v /\ Verifier.Checkpoint v c = Ok tt.
Proof.
  destruct (inclusion_command_sound (PL := ref_proofs) cli_log [] [str "1"]) as (idx & v & c & n & p & e & E & V & Vc & _).
  - vm_compute. reflexivity.
  - exists idx, v, c. split_and!; [exact E|exact V|exact Vc].
Defined.

(** *** Where a command says more than it checked *)

(** The index of the served entry is not compared with the one asked for: an
    operator that answers every request with entry 0 makes
    [verify-inclusion 7] print OK for a log of two entries. *)
Definition wrong_entry : web := cli_web
  [ (str "/api/v0/checkpoint", CCkpt cli_checkpoint);
    (Cli.entry_path 7, CEntry entry0);
    (Cli.inclusion_path 7, CProof 2 (PATH 0 cli_leaves) (MTH cli_leaves)) ].
Theorem inclusion_command_wrong_entry :
  Cli.cmdVerifyInclusion (PL := ref_proofs) wrong_entry [] [str "7"] = Ok tt /\ Checkpoint.Size cli_checkpoint = 2.
Proof. split; vm_compute; reflexivity. Qed.

(** [verify-consistency] compares no root with a signed one: an operator with
    no checkpoint at all, and roots of its own invention, gets an OK. *)
Definition invented_roots : web := cli_web
  [ (Cli.consistency_path 3 5, CConsistency (MTH (take 3 leaves5)) (MTH leaves5) proof35) ].
Theorem consistency_command_unsigned :
  Cli.cmdVerifyConsistency (PL := ref_proofs) invented_roots [] [str "3"; str "5"] = Ok tt /\
  is_ok (Cli.get None decode_checkpoint invented_roots [] (str "/api/v0/checkpoint")) = false.
Proof. split; vm_compute; reflexivity. Qed.

(** A log that grew after its last checkpoint: the proof at the current size
    has another root, so the audit of an honest operator fails. *)
Definition grown_log : web := cli_web
  [ (str "/api/v0/checkpoint", CCkpt cli_checkpoint);
    (Cli.entries_path 0 2, CEntries [entry0; entry1]);
    (Cli.inclusion_path 1, CProof 3 (PATH 1 (cli_leaves ++ [Entry.LeafHash entry0])) (MTH (cli_leaves ++ [Entry.LeafHash entry0]))) ].
Theorem audit_command_grown_log :
  Cli.cmdAudit (PL := ref_proofs) (2 ^ 45) grown_log [] = Some (Err ["proof root mismatch with checkpoint root"%string]).
Proof. vm_compute. reflexivity. Qed.
