(* ===== verification/AuditPdf.v ===== *)
(** * The audit report on paper (pkg/auditpdf, the last step of [stele audit])

    A document is the sequence of calls made on the PDF library: fonts,
    colours, cells.  What a reader sees is computed from it: every text with the
    font and the colour it is set in.  The library itself ([output]), which
    turns the calls into a file, is a parameter. *)

From stdpp Require Import base numbers list gmap strings.
From Stdlib Require Import ZArith Lia.
From S2P Require Import Prelude Utf8 GoText Calendar Codec Crypto Attest Rfc6962 Merkle RefMerkle MerkleProps LogEntry Threshold Fwdsec Checkpoint Verify Auditor Cli.

#[local] Open Scope Z_scope.

Module AuditPdf.
Import Audit.

(** ** Calls on the library *)

Record font := mk_font { family : string; style : string; size : Z }.
Record color := mk_color { red : Z; green : Z; blue : Z }.
#[export] Instance font_eq_dec : EqDecision font.
Proof. solve_decision. Defined.
#[export] Instance color_eq_dec : EqDecision color.
Proof. solve_decision. Defined.

(** Lengths in millimetres.  [Rule x1 x2 tenths] is [SetLineWidth] and [Line] at
    the current height; [AliasNbPages] is not a call on the pages. *)
Inductive op :=
| SetMargins (left top right : Z)
| SetAutoPageBreak (auto : bool) (margin : Z)
| AddPage
| SetFont (f : font)
| SetTextColor (c : color)
| SetDrawColor (c : color)
| Rule (x1 x2 tenths : Z)
| SetY (y : Z)
| Ln (h : Z)
| Cell (w h : Z) (txt : bytes) (border : string) (ln : Z) (align : string)
| MultiCell (w h : Z) (txt : bytes).

Definition helvetica (style : string) (size : Z) : op := SetFont (mk_font "Helvetica" style size).
Definition courier (size : Z) : op := SetFont (mk_font "Courier" "" size).
Definition black : color := mk_color 0 0 0.
Definition pass_green : color := mk_color 0 130 0.
Definition warn_amber : color := mk_color 200 130 0.
Definition fail_red : color := mk_color 180 0 0.

(** ** Helpers *)

Definition yesNo (b : bool) : bytes := if b then str "Yes" else str "No".
Definition nonEmpty (s fallback : bytes) : bytes := if bool_decide (s = []) then fallback else s.

(** One turn of the loop writes [width] bytes: [n] bounds the number of turns. *)
Fixpoint wrap_loop (n : nat) (s : bytes) (width : nat) : bytes :=
  match n with
  | O => s
  | S n => if bool_decide (width < length s)%nat then take width s ++ nl :: wrap_loop n (drop width s) width else s
  end.
Definition wrap (s : bytes) (width : nat) : bytes :=
  if bool_decide (length s <= width)%nat then s else wrap_loop (length s) s width.

Definition truncate (s : bytes) (max : nat) : bytes :=
  if bool_decide (length s <= max)%nat then s else take (max - 1) s ++ str "…".

Definition kv_row (width h : Z) (p : bytes * bytes) : list op :=
  [helvetica "B" 10; Cell width h (p.1 ++ str ":") "" 0 "L"; helvetica "" 10; MultiCell 0 h p.2].
Definition renderKV (kv : list (bytes * bytes)) : list op := flat_map (kv_row 60 5) kv.

Definition heading (title : string) : list op :=
  [Ln 6; helvetica "B" 13; Cell 0 7 (str title) "" 1 "L"; helvetica "" 10].
(** A row of a table: the widths and texts, and the border; the last cell ends
    the line. *)
Fixpoint table_row (border : string) (cells : list (Z * bytes)) : list op :=
  match cells with
  | [] => []
  | [(w, t)] => [Cell w 5 t border 1 "L"]
  | (w, t) :: cells => Cell w 5 t border 0 "L" :: table_row border cells
  end.

Definition entries (n : Z) : bytes := fmt_d n ++ str " entries".
Definition status_name (s : Status) : bytes :=
  match s with StatusPass => str "PASS" | StatusWarn => str "WARN" | StatusFail => str "FAIL" end.
Definition status_color (s : Status) : color :=
  match s with StatusPass => pass_green | StatusWarn => warn_amber | StatusFail => fail_red end.

Definition verdictNarrative (r : Report) : bytes :=
  match Verdict r with
  | StatusPass => str "All cryptographic checks succeeded. Every layer this audit examined (trust anchor, rotation chain, latest checkpoint, witness cosignatures, inclusion sample) is internally consistent and matches the operator's claims."
  | StatusWarn => str "Cryptographic checks pass, but at least one finding requires operator attention before this run is treated as compliance evidence. See " ++ quote :: str "Findings" ++ quote :: str " below."
  | StatusFail => str "One or more cryptographic checks FAILED. This log cannot be considered intact based on this run. See " ++ quote :: str "Findings" ++ quote :: str " for the specific defect."
  end.

(** ** Sections *)

Section Render.
(** The text of an error: a Go error is the string its messages make. *)
Context (error_text : error -> bytes).

Definition renderCover (r : Report) : list op :=
  [AddPage; helvetica "B" 22; Cell 0 12 (str "Stele Audit Report") "" 1 "L"; helvetica "" 12; Ln 2;
   SetTextColor (mk_color 80 80 80); Cell 0 6 (str "Provenance-anchored audit log") "" 1 "L"; SetTextColor black; Ln 8] ++
  flat_map (kv_row 50 6)
    [(str "Log origin", Origin r); (str "Operator URL", OperatorURL_ r); (str "Audit timestamp", Calendar.rfc3339 (AuditTime r));
     (str "Log size at audit", entries (Size_ r));
     (str "Trust anchor source", nonEmpty (Source (TrustAnchor r)) (str "(unspecified — NOT compliance-grade)"))].

Definition renderVerdict (r : Report) : list op :=
  [Ln 4; SetDrawColor (mk_color 220 220 220); Rule 20 190 3; Ln 4;
   helvetica "B" 14; Cell 0 8 (str "Verdict") "" 1 "L"; helvetica "B" 18; SetTextColor (status_color (Verdict r));
   Cell 0 12 (status_name (Verdict r)) "" 1 "L"; SetTextColor black; helvetica "" 10; Ln 2; MultiCell 0 5 (verdictNarrative r)].

Definition renderTrustAnchor (r : Report) : list op :=
  let a := TrustAnchor r in
  heading "1. Trust anchor" ++ [Ln 1] ++
  renderKV
    ([(str "Root public key ID", RootKeyID a); (str "Root public key (hex)", wrap (RootPublicKeyHex a) 70);
      (str "Source of trust anchor", nonEmpty (Source a) (str "(unverified)"));
      (str "Matches operator-reported root", yesNo (MatchedOnServer a))] ++
     (if bool_decide (Notes a = ""%string) then [] else [(str "Notes", str (Notes a))])).

Definition verification_error (e : option error) : list (bytes * bytes) :=
  match e with Some e => [(str "Verification error", error_text e)] | None => [] end.

Definition epoch_row (e : EpochSummary) : list op :=
  table_row "" [(20, fmt_d (es_Epoch e)); (35, es_KeyID e); (55, Calendar.rfc3339 (es_StartedAt e)); (25, yesNo (es_Hybrid e)); (25, yesNo (es_Threshold e))].

Definition renderChain (r : Report) : list op :=
  let c := Chain r in
  heading "2. Forward-secure rotation chain" ++ [Ln 1] ++
  renderKV
    ([(str "Origin", cs_Origin c); (str "Active epoch", fmt_d (cs_ActiveEpoch c)); (str "Total epochs in chain", fmt_d (cs_Epochs c));
      (str "Chain verifies against trust anchor", yesNo (cs_Verified c))] ++ verification_error (cs_VerifyError c)) ++
  (if bool_decide (cs_EpochSummary c = []) then [] else
     [Ln 2; helvetica "B" 10; Cell 0 6 (str "Per-epoch summary:") "" 1 "L"; courier 9] ++
     table_row "B" [(20, str "Epoch"); (35, str "Key ID"); (55, str "Started"); (25, str "Hybrid?"); (25, str "Threshold?")] ++
     flat_map epoch_row (cs_EpochSummary c)).

Definition renderCheckpoint (r : Report) : list op :=
  let c := LatestCheckpoint r in
  heading "3. Latest signed checkpoint" ++ [Ln 1] ++
  renderKV
    ([(str "Tree size", entries (Size c)); (str "Merkle root (hex)", wrap (RootHashHex c) 70);
      (str "Signed at", Calendar.format_time (SignedAt c)); (str "Signed by epoch", fmt_d (Epoch c));
      (str "Signature verifies", yesNo (Verified c)); (str "Hybrid PQ signed (Dilithium3)", yesNo (HybridSigned c));
      (str "Threshold-signed (t-of-N)", yesNo (ThresholdMode c)); (str "Witness cosignatures", fmt_d (WitnessCount c));
      (str "Beacon-bound (drand)", yesNo (BeaconBound c))] ++
     (if bool_decide (BeaconSource c = []) then [] else [(str "Beacon source", BeaconSource c)]) ++ verification_error (VerifyError c)) ++
  (if bool_decide (Witnesses c = []) then [] else
     [Ln 2; helvetica "B" 10; Cell 0 6 (str "Witness cosignatures:") "" 1 "L"; courier 9] ++
     table_row "B" [(80, str "Witness ID"); (40, str "Key ID")] ++
     flat_map (fun w => table_row "" [(80, w.1); (40, w.2)]) (Witnesses c)).

Definition sample_error (s : InclusionSample) : bytes := match s_Error s with Some e => error_text e | None => [] end.
Definition sample_row (s : InclusionSample) : list op :=
  [Cell 20 5 (fmt_d (s_Index s)) "" 0 "L"; Cell 50 5 (truncate (s_Producer s) 24) "" 0 "L";
   SetTextColor (if s_Verified s then pass_green else fail_red); Cell 25 5 (if s_Verified s then str "PASS" else str "FAIL") "" 0 "L";
   SetTextColor black; Cell 70 5 (truncate (sample_error s) 35) "" 1 "L"].
(** The loop, with its counters [pass] and [fail]. *)
Fixpoint sample_rows (l : list InclusionSample) (pass fail : Z) : list op * Z * Z :=
  match l with
  | [] => ([], pass, fail)
  | s :: l =>
      let '(rows, p, f) := if s_Verified s then sample_rows l (pass + 1) fail else sample_rows l pass (fail + 1) in
      (sample_row s ++ rows, p, f)
  end.

Definition renderSamples (r : Report) : list op :=
  heading "4. Inclusion-proof sample" ++
  [MultiCell 0 5 (str "Entries were sampled uniformly across the log and their Merkle inclusion proofs verified against the checkpoint's root.");
   Ln 1; courier 9] ++
  table_row "B" [(20, str "Index"); (50, str "Producer"); (25, str "Verified?"); (70, str "Error (if any)")] ++
  let '(rows, pass, fail) := sample_rows (Samples r) 0 0 in
  rows ++ [Ln 2; helvetica "I" 9;
           Cell 0 5 (str "  " ++ fmt_d pass ++ str " of " ++ fmt_d (pass + fail) ++ str " samples verified.") "" 1 "L"].

Definition finding_row (i : Z) (f : error) : list op :=
  [helvetica "B" 10; Cell 8 5 (fmt_d (i + 1) ++ str ".") "" 0 "L"; helvetica "" 10; MultiCell 0 5 (error_text f)].
Fixpoint finding_rows (i : Z) (l : list error) : list op :=
  match l with [] => [] | f :: l => finding_row i f ++ finding_rows (i + 1) l end.
Definition renderFindings (r : Report) : list op :=
  if bool_decide (Findings r = []) then [] else heading "Findings" ++ finding_rows 0 (Findings r).

(** The calls of [Render] in order, and those of the footer of a page. *)
Definition settings : list op := [SetMargins 20 18 20; SetAutoPageBreak true 25; helvetica "" 10].
Definition footer (r : Report) (page : Z) : list op :=
  [SetY (-15); helvetica "I" 8; SetTextColor (mk_color 120 120 120);
   Cell 0 10 (str "Stele audit — " ++ Calendar.rfc3339 (AuditTime r) ++ str " — page " ++ fmt_d page ++ str "/{nb}") "" 0 "C"; SetTextColor black].
Definition document (r : Report) : list op :=
  settings ++ renderCover r ++ renderVerdict r ++ renderTrustAnchor r ++ renderChain r ++ renderCheckpoint r ++
  (if bool_decide (Samples r = []) then [] else renderSamples r) ++ renderFindings r.

(** [output]: what [pdf.Output] makes of the calls and the footer. *)
Definition Render (output : list op -> (Z -> list op) -> res bytes) (r : Report) : res bytes :=
  wrap_err "auditpdf: render" (output (document r) (footer r)).
End Render.

(** ** What a reader sees *)

(** A text with its font and colour. *)
Record run := mk_run { r_text : bytes; r_font : font; r_color : color }.

(** The library keeps the font and the colour across calls and pages. *)
Definition state : Type := font * color.
Definition draw (st : state) (o : op) : state * list run :=
  match o with
  | SetFont f => ((f, st.2), [])
  | SetTextColor c => ((st.1, c), [])
  | Cell _ _ t _ _ _ | MultiCell _ _ t => (st, [mk_run t st.1 st.2])
  | _ => (st, [])
  end.
Fixpoint shown (st : state) (l : list op) : list run :=
  match l with [] => [] | o :: l => let '(st, rs) := draw st o in rs ++ shown st l end.
Definition after (st : state) (l : list op) : state := foldl (fun st o => (draw st o).1) st l.

Lemma shown_app st a b : shown st (a ++ b) = shown st a ++ shown (after st a) b.
Proof.
  revert st. induction a as [|o a IH]; intros st; [done|]. cbn [shown after foldl app]. destruct (draw st o) as [st' rs] eqn:E. cbn [fst].
  rewrite IH. by rewrite app_assoc.
Qed.
Lemma after_app st a b : after st (a ++ b) = after (after st a) b.
Proof. apply foldl_app. Qed.

(** The marks a reader looks for: the size of the verdict and the signal
    colours. *)
Definition signal (c : color) : bool := bool_decide (c = pass_green) || bool_decide (c = warn_amber) || bool_decide (c = fail_red).
Definition marked (r : run) : bool := (size (r_font r) =? 18) || signal (r_color r).
Definition marks (l : list run) : list run := filter (fun r => marked r = true) l.

(** Calls that set no mark. *)
Definition quiet (o : op) : bool :=
  match o with SetFont f => negb (size f =? 18) | SetTextColor c => negb (signal c) | _ => true end.
Definition unmarked (st : state) : bool := negb (size st.1 =? 18) && negb (signal st.2).

Lemma quiet_step st o : quiet o = true -> unmarked st = true -> unmarked (draw st o).1 = true /\ marks (draw st o).2 = [].
Proof.
  destruct st as [f c]. unfold unmarked. cbn [fst snd]. intros Q [U1 U2]%andb_prop.
  assert (forall t, marks [mk_run t f c] = []) as M.
  { intros t. unfold marks. rewrite filter_cons_False; [done|]. unfold marked. cbn [r_font r_color]. apply negb_true_iff in U1, U2. by rewrite U1, U2. }
  destruct o; cbn [draw quiet fst snd] in *; rewrite ?Q, ?U1, ?U2; auto.
Qed.
Lemma quiet_spec l : forallb quiet l = true -> forall st, unmarked st = true -> unmarked (after st l) = true /\ marks (shown st l) = [].
Proof.
  induction l as [|o l IH]; intros Q st U; [done|]. cbn [forallb] in Q. apply andb_prop in Q as [Qo Ql].
  destruct (quiet_step st o Qo U) as [U' M]. cbn [after foldl shown]. destruct (draw st o) as [st' rs]. cbn [fst snd] in *.
  destruct (IH Ql st' U') as [A B]. split; [done|]. unfold marks in *. by rewrite filter_app, M, B.
Qed.
Lemma marks_app st a b : marks (shown st (a ++ b)) = marks (shown st a) ++ marks (shown (after st a) b).
Proof. unfold marks. by rewrite shown_app, filter_app. Qed.
(** A quiet piece in front leaves the marks of the rest. *)
Lemma marks_quiet st a b : forallb quiet a = true -> unmarked st = true -> marks (shown st (a ++ b)) = marks (shown (after st a) b).
Proof. intros Q U. rewrite marks_app. by destruct (quiet_spec a Q st U) as [_ ->]. Qed.

Lemma quiet_flat_map {A} (f : A -> list op) l : (forall x, forallb quiet (f x) = true) -> forallb quiet (flat_map f l) = true.
Proof. intros F. induction l as [|x l IH]; [done|]. cbn [flat_map]. by rewrite forallb_app, F, IH. Qed.
Lemma quiet_kv kv : forallb quiet (renderKV kv) = true.
Proof. by apply quiet_flat_map. Qed.
Lemma quiet_table border cells : forallb quiet (table_row border cells) = true.
Proof. induction cells as [|[w t] cells IH]; [done|]. by destruct cells. Qed.

Section Reader.
Context (error_text : error -> bytes).

Lemma quiet_findings i l : forallb quiet (finding_rows error_text i l) = true.
Proof. revert i. induction l as [|f l IH]; intros i; [done|apply IH]. Qed.
Lemma quiet_sections r :
  forallb quiet (settings ++ renderCover r) = true /\ forallb quiet (renderTrustAnchor r) = true /\ forallb quiet (renderChain error_text r) = true /\
  forallb quiet (renderCheckpoint error_text r) = true /\ forallb quiet (renderFindings error_text r) = true.
Proof.
  split_and!; [done|..]; unfold renderTrustAnchor, renderChain, renderCheckpoint, renderFindings.
  - rewrite !forallb_app. by rewrite quiet_kv.
  - rewrite !forallb_app, quiet_kv. destruct (bool_decide _); [done|]. rewrite !forallb_app, quiet_table. by rewrite quiet_flat_map by (intros; apply quiet_table).
  - rewrite !forallb_app, quiet_kv. destruct (bool_decide _); [done|]. rewrite !forallb_app, quiet_table. by rewrite quiet_flat_map by (intros; apply quiet_table).
  - case_bool_decide; [done|]. rewrite forallb_app. by rewrite quiet_findings.
Qed.

(** The verdict and the samples are what is marked. *)
Definition verdict_run (r : Report) : run := mk_run (status_name (Verdict r)) (mk_font "Helvetica" "B" 18) (status_color (Verdict r)).
Definition sample_run (s : InclusionSample) : run :=
  mk_run (if s_Verified s then str "PASS" else str "FAIL") (mk_font "Courier" "" 9) (if s_Verified s then pass_green else fail_red).
Definition verified_count (l : list InclusionSample) : Z := len (filter (fun s => s_Verified s = true) l).

Lemma sample_rows_spec l : forall p f, sample_rows error_text l p f = (flat_map (sample_row error_text) l, p + verified_count l, f + (len l - verified_count l)).
Proof.
  unfold verified_count, len. induction l as [|s l IH]; intros p f; cbn [sample_rows flat_map]; [by rewrite !Z.add_0_r|].
  destruct (s_Verified s) eqn:V; rewrite IH.
  - rewrite filter_cons_True by done. cbn [length]. apply (f_equal2 pair); [apply (f_equal2 pair); [done|lia]|lia].
  - rewrite filter_cons_False by congruence. cbn [length]. apply (f_equal2 pair); [apply (f_equal2 pair); [done|lia]|lia].
Qed.

(** Between rows: [Courier] in a colour that is no signal. *)
Lemma sample_row_shown c s : signal c = false ->
  marks (shown (mk_font "Courier" "" 9, c) (sample_row error_text s)) = [sample_run s] /\
  after (mk_font "Courier" "" 9, c) (sample_row error_text s) = (mk_font "Courier" "" 9, black).
Proof.
  intros N. split; [|done]. unfold sample_run, marks, sample_row. cbn [shown draw app fst snd].
  rewrite !filter_cons_False by (unfold marked; cbn; by rewrite N). rewrite filter_cons_True by (unfold marked; cbn; by destruct (s_Verified s)).
  done.
Qed.
Lemma sample_rows_shown l : forall c, signal c = false ->
  marks (shown (mk_font "Courier" "" 9, c) (flat_map (sample_row error_text) l)) = map sample_run l /\
  unmarked (after (mk_font "Courier" "" 9, c) (flat_map (sample_row error_text) l)) = true.
Proof.
  induction l as [|s l IH]; intros c N; [split; [done|]; unfold unmarked; cbn; by rewrite N|].
  destruct (sample_row_shown c s N) as [S1 S2]. destruct (IH black eq_refl) as [IH1 IH2]. cbn [flat_map map].
  rewrite marks_app, after_app, S1, S2, IH1. done.
Qed.

Lemma samples_shown st r : unmarked st = true ->
  marks (shown st (renderSamples error_text r)) = map sample_run (Samples r) /\ unmarked (after st (renderSamples error_text r)) = true.
Proof.
  destruct st as [f c]. intros U. assert (signal c = false) as N by (unfold unmarked in U; apply andb_prop in U as [_ U]; by apply negb_true_iff).
  unfold renderSamples. rewrite sample_rows_spec. cbv iota beta.
  match goal with |- context [heading ?t ++ ?a ++ ?b ++ ?c] => set (pre := heading t ++ a ++ b); change (heading t ++ a ++ b ++ c) with (pre ++ c) end.
  match goal with |- context [_ ++ [Ln 2; ?x; ?y]] => set (post := [Ln 2; x; y]) end.
  assert (forallb quiet post = true) as Qp by done. destruct (sample_rows_shown (Samples r) c N) as [S1 S2].
  change (after (f, c) (pre ++ ?l)) with (after (mk_font "Courier" "" 9, c) l).
  rewrite (marks_quiet _ pre) by done. change (after (f, c) pre) with (mk_font "Courier" "" 9, c).
  rewrite marks_app, S1. destruct (quiet_spec post Qp _ S2) as [U' M]. rewrite M, app_nil_r. split; [done|].
  by rewrite after_app.
Qed.

(** The texts of the findings, numbered from [i]. *)
Fixpoint finding_texts (i : Z) (l : list error) : list bytes :=
  match l with [] => [] | f :: l => (fmt_d (i + 1) ++ str ".") :: error_text f :: finding_texts (i + 1) l end.
Lemma finding_rows_shown l : forall i st, map r_text (shown st (finding_rows error_text i l)) = finding_texts i l.
Proof. induction l as [|f l IH]; intros i st; [done|]. cbn. by rewrite IH. Qed.
Lemma findings_shown st r : map r_text (shown st (renderFindings error_text r)) =
  (if bool_decide (Findings r = []) then [] else str "Findings" :: finding_texts 0 (Findings r)).
Proof. unfold renderFindings. destruct (bool_decide _); [done|]. rewrite shown_app, map_app, finding_rows_shown. done. Qed.

(** The page tells the report.  In a document started in any plain font and
    colour, the text in the size of the verdict or in a signal colour is
    exactly the verdict, in its colour, and then, if there are samples, one
    PASS in green or FAIL in red per sample, in order; the line under the table
    counts them; and the texts end with the findings, all of them, numbered and
    in order. *)
Theorem document_tells_report st r : unmarked st = true ->
  marks (shown st (document error_text r)) = verdict_run r :: map sample_run (Samples r) /\
  (Samples r <> [] -> (str "  " ++ fmt_d (verified_count (Samples r)) ++ str " of " ++ fmt_d (len (Samples r)) ++ str " samples verified.")
     ∈ map r_text (shown st (document error_text r))) /\
  exists above, map r_text (shown st (document error_text r)) =
    above ++ (if bool_decide (Findings r = []) then [] else str "Findings" :: finding_texts 0 (Findings r)).
Proof.
  intros U. destruct (quiet_sections r) as (Q1 & Q2 & Q3 & Q4 & Q5). unfold document. rewrite (app_assoc settings).
  set (sec := if bool_decide (Samples r = []) then [] else renderSamples error_text r). split_and!.
  - rewrite marks_quiet by done. destruct (quiet_spec _ Q1 st U) as [U1 _]. set (st1 := after st _) in *. rewrite marks_app.
    assert (marks (shown st1 (renderVerdict r)) = [verdict_run r] /\ unmarked (after st1 (renderVerdict r)) = true) as [-> U2].
    { split; [|done]. clearbody st1. destruct st1 as [f c]. apply andb_prop in U1 as [_ U1]. apply negb_true_iff in U1. cbn [snd] in U1.
      unfold marks, renderVerdict. cbn [shown draw helvetica app fst snd]. rewrite filter_cons_False by (unfold marked; cbn; by rewrite U1).
      rewrite filter_cons_True by done. reflexivity. }
    cbn [app]. f_equal. rewrite marks_quiet by done. destruct (quiet_spec _ Q2 _ U2) as [U3 _].
    rewrite marks_quiet by done. destruct (quiet_spec _ Q3 _ U3) as [U4 _]. rewrite marks_quiet by done. destruct (quiet_spec _ Q4 _ U4) as [U5 _].
    assert (forall s, unmarked s = true -> marks (shown s sec) = map sample_run (Samples r) /\ unmarked (after s sec) = true) as S.
    { intros s Us. unfold sec. case_bool_decide as E; [by rewrite E|by apply samples_shown]. }
    destruct (S _ U5) as [S1 S2]. rewrite marks_app, S1. destruct (quiet_spec _ Q5 _ S2) as [_ ->]. apply app_nil_r.
  - intros N. unfold sec. rewrite bool_decide_eq_false_2 by done. unfold renderSamples. rewrite sample_rows_spec. cbv iota beta.
    rewrite !shown_app, !map_app. do 5 (apply elem_of_app; right). apply elem_of_app; left. do 4 (apply elem_of_app; right).
    rewrite !Z.add_0_l. replace (verified_count (Samples r) + (len (Samples r) - verified_count (Samples r))) with (len (Samples r)) by lia.
    cbn. left.
  - rewrite !app_assoc, shown_app, map_app, findings_shown. by eexists.
Qed.
End Reader.

(** ** Keys on paper *)

Lemma wrap_loop_kept n s width : is_graphic s -> filter (fun b => is_line_end b = false) (wrap_loop n s width) = s.
Proof.
  revert s. induction n as [|n IH]; intros s G; cbn [wrap_loop]; [by apply filter_graphic|].
  case_bool_decide; [|by apply filter_graphic]. rewrite filter_app, filter_cons_False by done.
  rewrite (filter_graphic (take width s)), IH by (by apply Forall_take || by apply Forall_drop). apply take_drop.
Qed.

Lemma wrap_loop_lines n s width : (0 < width)%nat -> is_graphic s -> (length s <= n)%nat ->
  Forall (fun l : bytes => (length l <= width)%nat) (Split nl (wrap_loop n s width)).
Proof.
  intros W. assert (forall t, is_graphic t -> nl ∉ t) as NL.
  { intros t G I. apply (proj1 (Forall_forall _ _) G) in I. done. }
  revert s. induction n as [|n IH]; intros s G L; cbn [wrap_loop].
  - rewrite Split_no by auto. constructor; [lia|done].
  - case_bool_decide as B; [|rewrite Split_no by auto; constructor; [lia|done]].
    rewrite Split_app by (by apply NL, Forall_take). constructor; [rewrite length_take; lia|].
    apply IH; [by apply Forall_drop|rewrite length_drop; lia].
Qed.

(** A key set as wrapped hexadecimal fits the page, and the lines joined decode
    to the key. *)
Theorem key_on_paper k :
  hex_decode (filter (fun b => is_line_end b = false) (wrap (hex k) 70)) = Ok k /\
  Forall (fun l : bytes => (length l <= 70)%nat) (Split nl (wrap (hex k) 70)).
Proof.
  pose proof (hex_graphic k) as G. unfold wrap. case_bool_decide as B; split.
  - rewrite filter_graphic by done. apply hex_decode_encode.
  - rewrite Split_no by (intros I; by apply (proj1 (Forall_forall _ _) G) in I). by constructor.
  - rewrite wrap_loop_kept by done. apply hex_decode_encode.
  - apply wrap_loop_lines; [lia|done|lia].
Qed.

(** Texts are cut between bytes: 24 bytes of a name may end inside a letter. *)
Example truncate_splits_letters :
  let name := str "ééééééééééééé" in valid_utf8 name = true /\ valid_utf8 (truncate name 24) = false.
Proof. vm_compute. done. Qed.

(** ** The last step of [stele audit] *)

Record audit_flags := mk_flags { server : bytes; pdfOut : bytes; jsonOut : bytes; sampleN : Z; rootB64 : bytes; rootSource : bytes }.

Definition report_config (f : audit_flags) : res Config :=
  if bool_decide (rootB64 f = []) then Ok (mk_config (server f) None (rootSource f) [] (sampleN f))
  else
    match base64_decode (TrimSpace (rootB64 f)) with
    | Ok pk =>
        fail_if negb (len pk =? PublicKeySize) with "audit: --root must be base64 of a 32-byte Ed25519 pubkey" ;;
        Ok (mk_config (server f) (Some pk) (nonEmpty (rootSource f) (str "supplied")) [] (sampleN f))
    | Err e => Err ("audit: --root must be base64 of a 32-byte Ed25519 pubkey"%string :: e)
    end.

Section Emit.
Context {C : Crypto} {PL : ProofLib} {W : Wire} (error_text : error -> bytes).
(** [json.MarshalIndent] of a report, and the PDF library. *)
Context (marshal : Report -> bytes) (output : list op -> (Z -> list op) -> res bytes).

(** The files written, in order, and the result.  [jw], [pw]: whether the two
    writes succeed. *)
Definition emit_report (now : Z) (w : web) (f : audit_flags) (jw pw : bool) : list (bytes * bytes) * res unit :=
  if bool_decide (pdfOut f = []) && bool_decide (jsonOut f = []) then ([], Ok tt)
  else
    match (let! cfg := report_config f in wrap_err "audit report" (Run now w cfg)) with
    | Err e => ([], Err e)
    | Ok report =>
        let json := if bool_decide (jsonOut f = []) then Ok [] else if jw then Ok [(jsonOut f, marshal report ++ [nl])] else errorf "write json" in
        match json with
        | Err e => ([], Err e)
        | Ok files =>
            if bool_decide (pdfOut f = []) then (files, Ok tt)
            else match wrap_err "render pdf" (Render error_text output report) with
                 | Err e => (files, Err e)
                 | Ok body => if pw then (files ++ [(pdfOut f, body)], Ok tt) else (files, errorf "write pdf")
                 end
        end
    end.

(** The whole command: the walk of steps 1 to 5, then the report. *)
Definition audit_command (max_cap now : Z) (w : web) (f : audit_flags) (jw pw : bool) : option (list (bytes * bytes) * res unit) :=
  match Cli.cmdAudit max_cap w (server f) with
  | None => None
  | Some (Err e) => Some ([], Err e)
  | Some (Ok _) => Some (emit_report now w f jw pw)
  end.

Lemma emit_wrote now w f jw pw files r : pdfOut f <> [] -> pdfOut f <> jsonOut f -> emit_report now w f jw pw = (files, r) ->
  forall body, (pdfOut f, body) ∈ files -> exists cfg rep,
    report_config f = Ok cfg /\ Run now w cfg = Ok rep /\ output (document error_text rep) (footer rep) = Ok body.
Proof.
  intros P NE E body I. unfold emit_report in E. rewrite (bool_decide_eq_false_2 (pdfOut f = [])) in E by done. cbn [andb] in E.
  destruct (report_config f) as [cfg|]; cbn [res_bind] in E; [|injection E as <- <-; by apply elem_of_nil in I].
  destruct (Run now w cfg) as [rep|] eqn:R; cbn [wrap_err] in E; [|injection E as <- <-; by apply elem_of_nil in I].
  exists cfg, rep. split_and!; [done..|].
  assert (forall l : list (bytes * bytes), l = [] \/ l = [(jsonOut f, marshal rep ++ [nl])] -> (pdfOut f, body) ∈ l -> False) as No.
  { intros l [->| ->] X; [by apply elem_of_nil in X|]. apply list_elem_of_singleton in X. injection X as X _. done. }
  destruct (if bool_decide (jsonOut f = []) then _ else _) as [l|] eqn:J; [|injection E as <- <-; by apply elem_of_nil in I].
  assert (l = [] \/ l = [(jsonOut f, marshal rep ++ [nl])]) as Hl.
  { destruct (bool_decide _); [injection J as <-; by left|]. destruct jw; [injection J as <-; by right|done]. }
  unfold Render in E. destruct (output (document error_text rep) (footer rep)) as [b|]; cbn [wrap_err] in E;
    [|injection E as <- <-; by destruct (No l Hl I)].
  destruct pw; [|injection E as <- <-; by destruct (No l Hl I)]. injection E as <- <-.
  apply elem_of_app in I as [I|I]; [by destruct (No l Hl I)|]. apply list_elem_of_singleton in I. by injection I as ->.
Qed.

(** C19. A PASS on paper is a PASS in fact.  Whatever the operator answers, if
    [stele audit --pdf] writes its file, then the file is a rendering of a
    report, the one text in the size of the verdict is one word, and that word
    is PASS, in green, exactly when every answer of the operator verifies from
    the root key given with --root: the root it reports, the rotation chain,
    the checkpoint, its size and the sampled inclusion proofs. *)
Theorem paper_pass_exact now w f jw pw files r body st :
  pdfOut f <> [] -> pdfOut f <> jsonOut f -> emit_report now w f jw pw = (files, r) -> (pdfOut f, body) ∈ files ->
  unmarked st = true -> (forall cfg, report_config f = Ok cfg -> int_sized w cfg) ->
  exists cfg doc foot word, report_config f = Ok cfg /\ output doc foot = Ok body /\
    filter (fun r => size (r_font r) = 18) (shown st doc) = [word] /\
    (r_text word = str "PASS" /\ r_color word = pass_green <-> exists root chain c, checks_out w cfg root chain c).
Proof.
  intros P NE E I U Sz. destruct (emit_wrote _ _ _ _ _ _ _ P NE E body I) as (cfg & rep & Cf & R & O).
  destruct (document_tells_report error_text st rep U) as [M _].
  exists cfg, (document error_text rep), (footer rep), (verdict_run rep). split_and!; [done..| |].
  - assert (forall l, filter (fun r => size (r_font r) = 18) l = filter (fun r => size (r_font r) = 18) (marks l)) as ->.
    { unfold marks. induction l as [|x l IH]; [done|]. destruct (decide (size (r_font x) = 18)) as [S|S].
      - rewrite (filter_cons_True (fun r => marked r = true)) by (unfold marked; by rewrite S). rewrite !filter_cons_True by done. by rewrite IH.
      - rewrite filter_cons_False by done. destruct (decide (marked x = true)).
        + rewrite (filter_cons_True (fun r => marked r = true)), filter_cons_False by done. done.
        + by rewrite (filter_cons_False (fun r => marked r = true)) by done. }
    rewrite M, filter_cons_True by done. f_equal.
    assert (forall l, filter (fun r => size (r_font r) = 18) (map sample_run l) = []) as ->; [|done].
    induction l as [|x l IH]; [done|]. cbn [map]. by rewrite filter_cons_False, IH.
  - transitivity (Verdict rep = StatusPass); [unfold verdict_run; cbn [r_text r_color]; destruct (Verdict rep); split; by try intros [X%str_inj _]|]. split.
    + intros V. apply (Run_coherent _ _ _ _ R) in V. apply Run_clean in R as (root & chain & c & H & _); eauto.
    + intros (root & chain & c & H). apply (Run_passes now) in H as (rep' & R' & F); [|by apply Sz].
      rewrite R in R'. injection R' as <-. by apply (Run_coherent _ _ _ _ R).
Qed.

(** Whatever the report says, it is written and the command succeeds. *)
Lemma report_written now w f cfg rep doc :
  pdfOut f <> [] -> jsonOut f = [] -> report_config f = Ok cfg -> Run now w cfg = Ok rep ->
  output (document error_text rep) (footer rep) = Ok doc -> emit_report now w f true true = ([(pdfOut f, doc)], Ok tt).
Proof.
  intros P J Cf R O. unfold emit_report. rewrite (bool_decide_eq_false_2 (pdfOut f = [])) by done. cbn [andb]. rewrite Cf. cbn [res_bind]. rewrite R.
  cbn [wrap_err]. rewrite (bool_decide_eq_true_2 (jsonOut f = [])) by done. unfold Render. by rewrite O.
Qed.

(** Nothing of a witness is checked: the verifier of the report asks for no
    witness, so the list a checkpoint carries does not matter for PASS,
    although the text under PASS says the witness cosignatures were examined. *)
Theorem witnesses_not_examined origin root chain c ws :
  Verifier.Checkpoint (Verifier.mk origin root (Some chain) None 0 None) 
    (Checkpoint.mk (Checkpoint.Origin c) (Checkpoint.Size c) (Checkpoint.RootHash c) (Checkpoint.HeadHash c) (Checkpoint.TimeNanos c) (Checkpoint.EpochIdx c)
       (Checkpoint.KeyID c) (Checkpoint.Beacon c) (Checkpoint.Signature c) (Checkpoint.QuantumSignature c) (Checkpoint.ThresholdGroupDigest c)
       (Checkpoint.MemberSigs c) ws) =
  Verifier.Checkpoint (Verifier.mk origin root (Some chain) None 0 None) c.
Proof. reflexivity. Qed.
End Emit.
End AuditPdf.

(** ** The log of the auditor, on paper *)

Definition paper_error (e : error) : bytes := str (String.concat ": " e).
(** A library that writes the texts, one per line. *)
Definition plain_text (ops : list AuditPdf.op) (_ : Z -> list AuditPdf.op) : res bytes :=
  Ok (Join [nl] (map AuditPdf.r_text (AuditPdf.shown (AuditPdf.mk_font "Helvetica" "" 12, AuditPdf.black) ops))).
Definition paper_flags (root : bytes) : AuditPdf.audit_flags :=
  AuditPdf.mk_flags (str "https://log") (str "audit.pdf") [] 2 (base64 root) (str "paper").
Definition paper_root : bytes := Signer.RootPublicKey (signer1 false).
Definition plain : AuditPdf.state := (AuditPdf.mk_font "Helvetica" "" 12, AuditPdf.black).

Lemma paper_config : AuditPdf.report_config (paper_flags paper_root) = Ok (demo_config 2).
Proof. vm_compute. reflexivity. Qed.

Lemma paper_pass_exact_witness : exists cfg doc word,
  filter (fun r => AuditPdf.size (AuditPdf.r_font r) = 18) (AuditPdf.shown plain doc) = [word] /\
  (AuditPdf.r_text word = str "PASS" /\ AuditPdf.r_color word = AuditPdf.pass_green <->
   exists root chain c, Audit.checks_out (PL := ref_proofs) (W := demo_wire) (demo_web (anchored 5) 2) cfg root chain c).
Proof.
  destruct demo_pass as (rep & R & _).
  pose proof (AuditPdf.report_written (PL := ref_proofs) (W := demo_wire) paper_error (fun _ => []) plain_text 1000 (demo_web (anchored 5) 2)
    (paper_flags paper_root) (demo_config 2) rep _ ltac:(discriminate) eq_refl paper_config R eq_refl) as E.
  destruct (AuditPdf.paper_pass_exact (PL := ref_proofs) (W := demo_wire) paper_error (fun _ => []) plain_text 1000 (demo_web (anchored 5) 2)
    (paper_flags paper_root) true true _ _ _ plain ltac:(discriminate) ltac:(discriminate) E ltac:(left)) as (cfg & doc & foot & word & _ & _ & F & I).
  - reflexivity.
  - intros cfg Cf. rewrite paper_config in Cf. injection Cf as <-. exact (demo_int_sized 2).
  - exists cfg, doc, word. split; [exact F|exact I].
Defined.

Definition mixed_report : Audit.Report :=
  Audit.mk_report (str "https://log") (str "o") 1 0 Audit.no_anchor (Audit.no_chain None) (Audit.no_ckpt None)
    [Audit.mk_sample 0 true (str "p") None; Audit.mk_sample 1 false (str "q") None] Audit.StatusFail [["size regression"%string]].
Lemma document_tells_report_witness :
  AuditPdf.marks (AuditPdf.shown plain (AuditPdf.document paper_error mixed_report))
  = [AuditPdf.mk_run (str "FAIL") (AuditPdf.mk_font "Helvetica" "B" 18) AuditPdf.fail_red;
     AuditPdf.mk_run (str "PASS") (AuditPdf.mk_font "Courier" "" 9) AuditPdf.pass_green;
     AuditPdf.mk_run (str "FAIL") (AuditPdf.mk_font "Courier" "" 9) AuditPdf.fail_red].
Proof. exact (proj1 (AuditPdf.document_tells_report paper_error plain mixed_report eq_refl)). Defined.

(** The exit of the command does not depend on the verdict: with an operator
    that answers nothing the report says FAIL, and the step succeeds. *)
Definition silence : web (W := demo_wire) := fun _ => NoAnswer ["connection refused"%string].
Example failed_report_succeeds : exists rep doc,
  Audit.Run (PL := ref_proofs) (W := demo_wire) 1000 silence (demo_config 2) = Ok rep /\ Audit.Verdict rep = Audit.StatusFail /\
  AuditPdf.emit_report (PL := ref_proofs) (W := demo_wire) paper_error (fun _ => []) plain_text 1000 silence (paper_flags paper_root) true true
  = ([(str "audit.pdf", doc)], Ok tt).
Proof.
  eexists _, _. split; [reflexivity|]. split; [reflexivity|].
  eapply (AuditPdf.report_written (PL := ref_proofs) (W := demo_wire)); [discriminate|reflexivity|apply paper_config|reflexivity|reflexivity].
Qed.
