(* ===== verification/Mirror.v ===== *)
(** * The mirror (pkg/mirror)

    A read-only replica: it pulls entries from the operator in chunks, verifies
    every one against the running chain and stores them.  The operator is not
    trusted: its answers are arbitrary. *)

From S2P Require Import Prelude Crypto Attest Rfc6962 LogEntry Badger Storage.
From stdpp Require Import base numbers list gmap strings.
From Stdlib Require Import ZArith Lia.

#[local] Open Scope Z_scope.

Module Mirror.
Section Mirror.
Context {B : Badger value} {C : Crypto}.

(** The options that matter for the state; [New] has filled in the default. *)
Record t := mk {
  ChunkSize : Z;
  store : Store.t;
  prev : option Entry.t;
  lastSize : Z;
  totalEntries : Z;
  lastSync : Z;
  syncErrors : Z;
}.

Definition New (upstream : bytes) (chunk : Z) (s : Store.t) : res t :=
  fail_if bool_decide (upstream = []) with "mirror: Upstream required" ;;
  let chunk := if chunk =? 0 then 256 else chunk in
  let! size := Store.Size s in
  if 0 <? size then
    let! p := wrap_err "mirror: read tail entry" (Store.GetEntry s (size - 1)) in
    Ok (mk chunk s (Some p) size size 0 0)
  else Ok (mk chunk s None size size 0 0).

(** A call returns, or dereferences a nil entry (an upstream may send null in
    its list of entries). *)
Inductive outcome := Returned (r : res unit) | Panicked.

Definition accepted (m : t) (s : Store.t) (e : Entry.t) : t :=
  mk (ChunkSize m) s (Some e) (wrap64 (lastSize m + 1)) (wrap64 (totalEntries m + 1)) (lastSync m) (syncErrors m).
Definition set_store (m : t) (s : Store.t) : t :=
  mk (ChunkSize m) s (prev m) (lastSize m) (totalEntries m) (lastSync m) (syncErrors m).
Definition set_lastSync (m : t) (now : Z) : t :=
  mk (ChunkSize m) (store m) (prev m) (lastSize m) (totalEntries m) now (syncErrors m).

Definition acceptEntry (m : t) (e : option Entry.t) : t * outcome :=
  match e with
  | None => (m, Panicked)
  | Some e =>
      match Entry.Verify e with
      | Err err => (m, Returned (Err err))
      | Ok _ =>
          match Entry.VerifyChain e (prev m) with
          | Err err => (m, Returned (Err err))
          | Ok _ =>
              match Store.AppendEntry (store m) e with
              | (s, Err err) => (set_store m s, Returned (Err err))
              | (s, Ok _) => (accepted m s e, Returned (Ok tt))
              end
          end
      end
  end.

(** The inner loop over one chunk. *)
Fixpoint accept_all (m : t) (es : list (option Entry.t)) : t * outcome :=
  match es with
  | [] => (m, Returned (Ok tt))
  | e :: es' =>
      match acceptEntry m e with
      | (m, Returned (Ok _)) => accept_all m es'
      | (m, Returned (Err err)) => (m, Returned (Err ("mirror: entry rejected"%string :: err)))
      | (m, Panicked) => (m, Panicked)
      end
  end.

(** The loop over the chunks, [fuel] of them; [None] when it has not ended by
    then.  [fetch k] answers the [k]-th request for entries. *)
Fixpoint sync_loop (fuel : nat) (k : nat) (fetch : nat -> Z -> Z -> res (list (option Entry.t)))
    (upstreamSize from : Z) (m : t) : option (t * outcome) :=
  if from <? upstreamSize then
    match fuel with
    | O => None
    | S fuel =>
        let to := wrap64 (from + ChunkSize m) in
        let to := if upstreamSize <? to then upstreamSize else to in
        match fetch k from to with
        | Err e => Some (m, Returned (Err e))
        | Ok entries =>
            match accept_all m entries with
            | (m, Returned (Ok _)) => sync_loop fuel (S k) fetch upstreamSize (wrap64 (from + ChunkSize m)) m
            | (m, o) => Some (m, o)
            end
        end
    end
  else Some (m, Returned (Ok tt)).

Definition syncOnce (fuel : nat) (now : Z) (size : res Z) (fetch : nat -> Z -> Z -> res (list (option Entry.t))) (m : t) :
  option (t * outcome) :=
  match size with
  | Err e => Some (m, Returned (Err e))
  | Ok upstreamSize =>
      let have := lastSize m in
      if upstreamSize <=? have then Some (set_lastSync m now, Returned (Ok tt))
      else match sync_loop fuel 0 fetch upstreamSize have m with
      | Some (m, Returned (Ok _)) => Some (set_lastSync m now, Returned (Ok tt))
      | r => r
      end
  end.

(** One turn of the polling loop: failures are counted. *)
Definition poll (fuel : nat) (now : Z) (size : res Z) (fetch : nat -> Z -> Z -> res (list (option Entry.t))) (m : t) :
  option (t * outcome) :=
  match syncOnce fuel now size fetch m with
  | Some (m, Returned (Err e)) =>
      Some (mk (ChunkSize m) (store m) (prev m) (lastSize m) (totalEntries m) (lastSync m) (wrap64 (syncErrors m + 1)),
            Returned (Err e))
  | r => r
  end.

Definition Size (m : t) : Z := lastSize m.
Definition GetEntry (m : t) (idx : Z) : res Entry.t := Store.GetEntry (store m) idx.

(** The loop of the mirror's [/entries] handler, [n] indices from [i] on. *)
Fixpoint serve_loop (m : t) (n : nat) (i : Z) : list Entry.t :=
  match n with
  | O => []
  | S n =>
      if i <? Size m then
        match GetEntry m i with
        | Err _ => []
        | Ok e => e :: serve_loop m n (i + 1)
        end
      else []
  end.

(** GET /api/v0/entries *)
Definition serve_entries (m : t) (from to : Z) : res (list Entry.t) :=
  fail_if (to <=? from) || (10000 <? to - from) with "invalid range" ;;
  Ok (serve_loop m (Z.to_nat (to - from)) from).

(** *** The invariant *)
Context {BL : BadgerLaws B}.

(** The mirror holds [es]: they are a verified chain, stored in full, and the
    counters and the tail are theirs. *)
Record ok (m : t) (es : list Entry.t) : Prop := {
  ok_store : Store.stores (view (Store.db (store m))) es;
  ok_chain : Entry.chain None es;
  ok_prev : prev m = last es;
  ok_size : lastSize m = len es;
  ok_readable : readable (Store.db (store m));
}.

Lemma verified_sealed e : Entry.Verify e = Ok tt -> Store.sealed e.
Proof.
  intros (_ & H1 & H2)%Entry.entry_Verify_iff. unfold Store.sealed. rewrite H1, H2. cbn.
  by rewrite !sha256_length.
Qed.

Lemma accept_ok m es e m' o :
  ok m es -> len es + 1 < 2 ^ 63 -> acceptEntry m e = (m', o) ->
  ChunkSize m' = ChunkSize m /\
  ((exists x, e = Some x /\ o = Returned (Ok tt) /\ ok m' (es ++ [x])) \/ o <> Returned (Ok tt) /\ ok m' es).
Proof.
  intros O Bd A. unfold acceptEntry in A. destruct e as [e|]; [|injection A as <- <-; split; [done|by right]].
  destruct (Entry.Verify e) as [[]|] eqn:V; [|injection A as <- <-; split; [done|by right]].
  destruct (Entry.VerifyChain e (prev m)) as [[]|] eqn:VC; [|injection A as <- <-; split; [done|by right]].
  destruct (Store.AppendEntry (store m) e) as [s r] eqn:AE.
  destruct (Store.AppendEntry_cases _ _ _ _ _ (ok_store _ _ O) (verified_sealed e V) Bd AE)
    as [[_ R] [(-> & _ & S & _)|[[x ->] Vw]]]; injection A as <- <-; (split; [done|]).
  - left. exists e. split_and!; [done|done|]. split; cbn.
    + done.
    + apply Entry.entry_chain_snoc. split_and!; [apply O|done|]. by rewrite <- (ok_prev _ _ O).
    + by rewrite last_snoc.
    + rewrite (ok_size _ _ O). unfold len, wrap64 in *. rewrite length_app, Z.mod_small; simpl; lia.
    + by apply R, O.
  - right. split; [done|]. destruct O. split; try done; cbn; [by rewrite Vw|by apply R].
Qed.

Lemma accept_all_ok m es l m' o :
  ok m es -> len es + len l < 2 ^ 63 -> accept_all m l = (m', o) ->
  ChunkSize m' = ChunkSize m /\
  exists es', ok m' (es ++ es') /\ len es' <= len l /\ (o = Returned (Ok tt) -> l = Some <$> es').
Proof.
  revert m es. induction l as [|e l IH]; intros m es O Bd A; cbn [accept_all] in A.
  - injection A as <- <-. split; [done|]. exists []. by rewrite app_nil_r.
  - unfold len in Bd. cbn [length] in Bd.
    destruct (acceptEntry m e) as [m1 o1] eqn:A1.
    destruct (accept_ok _ _ _ _ _ O ltac:(unfold len; lia) A1) as [C1 [(x & -> & -> & O1)|[N O1]]].
    + destruct (IH m1 (es ++ [x]) O1) as (C2 & es' & O2 & L & E);
        [unfold len; rewrite length_app; simpl; lia|done|]. split; [congruence|].
      exists (x :: es'). rewrite <- app_assoc in O2. split_and!; [done|unfold len in *; simpl; lia|].
      intros Ho. by rewrite (E Ho).
    + assert (ok m' es /\ o <> Returned (Ok tt) /\ ChunkSize m' = ChunkSize m) as (O2 & N2 & C2).
      { destruct o1 as [[[]|]|]; [done|..]; by injection A as <- <-. }
      split; [done|]. exists []. rewrite app_nil_r. split_and!; [done|unfold len; simpl; lia|done].
Qed.

Lemma sync_loop_ok fuel k fetch up from m es L m' o :
  ok m es -> 0 <= L -> (forall k f t l, fetch k f t = Ok l -> len l <= L) ->
  len es + Z.of_nat fuel * L < 2 ^ 63 -> sync_loop fuel k fetch up from m = Some (m', o) ->
  exists es', ok m' (es ++ es').
Proof.
  intros O HL HF. revert k from m es O. induction fuel as [|fuel IH]; intros k from m es O Bd S; cbn [sync_loop] in S.
  { destruct (from <? up); [done|]. injection S as <- <-. exists []. by rewrite app_nil_r. }
  destruct (from <? up); [|injection S as <- <-; exists []; by rewrite app_nil_r].
  destruct (fetch k from _) as [l|] eqn:F; [|injection S as <- <-; exists []; by rewrite app_nil_r].
  apply HF in F. destruct (accept_all m l) as [m1 o1] eqn:A.
  replace (Z.of_nat (Datatypes.S fuel) * L) with (L + Z.of_nat fuel * L) in Bd by lia.
  assert (0 <= Z.of_nat fuel * L) by (apply Z.mul_nonneg_nonneg; lia).
  destruct (accept_all_ok _ _ l _ _ O ltac:(lia) A) as (_ & es1 & O1 & L1 & _).
  destruct o1 as [[[]|]|]; [|injection S as <- <-; by exists es1..].
  destruct (IH (Datatypes.S k) _ m1 (es ++ es1) O1 ltac:(unfold len in *; rewrite length_app; lia) S) as (es2 & O2). exists (es1 ++ es2). by rewrite app_assoc.
Qed.

Lemma ok_stats m es m' :
  ok m es -> store m' = store m -> prev m' = prev m -> lastSize m' = lastSize m -> ok m' es.
Proof. intros [] E1 E2 E3. split; rewrite ?E1, ?E2, ?E3; done. Qed.

Lemma poll_ok fuel now size fetch m es L m' o :
  ok m es -> 0 <= L -> (forall k f t l, fetch k f t = Ok l -> len l <= L) ->
  len es + Z.of_nat fuel * L < 2 ^ 63 -> poll fuel now size fetch m = Some (m', o) ->
  exists es', ok m' (es ++ es').
Proof.
  intros O HL HF Bd P. unfold poll in P.
  assert (forall m1 o1, syncOnce fuel now size fetch m = Some (m1, o1) -> exists es', ok m1 (es ++ es')) as X.
  { intros m1 o1 S. unfold syncOnce in S.
    destruct size as [up|]; [|injection S as <- <-; exists []; by rewrite app_nil_r].
    destruct (up <=? lastSize m); [injection S as <- <-; exists []; rewrite app_nil_r; by eapply ok_stats|].
    destruct (sync_loop fuel 0 fetch up (lastSize m) m) as [[m2 o2]|] eqn:SL; [|done].
    destruct (sync_loop_ok _ _ _ _ _ _ _ _ _ _ O HL HF Bd SL) as (es' & O'). exists es'.
    destruct o2 as [[[]|]|]; injection S as <- <-; [by eapply ok_stats|done|done]. }
  destruct (syncOnce fuel now size fetch m) as [[m1 o1]|]; [|done].
  destruct (X m1 o1 eq_refl) as (es' & O'). exists es'.
  destruct o1 as [[[]|]|]; injection P as <- <-; [done|by eapply ok_stats|done].
Qed.

Lemma New_mirror_ok upstream chunk s es m :
  Store.stores (view (Store.db s)) es -> Entry.chain None es -> readable (Store.db s) ->
  New upstream chunk s = Ok m -> ok m es.
Proof.
  intros S Ch R N. unfold New in N. res_inv N. unfold Store.Size in E0.
  rewrite (Store.readSize_ok s es R S) in E0. injection E0 as <-.
  destruct (Z.ltb_spec 0 (len es)) as [L|L].
  - res_inv N. apply wrap_err_ok in E0. apply (Store.GetEntry_iff s es _ _ R S) in E0;
      [|pose proof (Store.st_small _ _ S); unfold is_u64, len in *; lia].
    subst m. split; cbn; try done. rewrite last_lookup.
    rewrite <- E0. f_equal. unfold len. lia.
  - injection N as <-. split; cbn; try done. destruct es; [done|]. unfold len in L. simpl in L. lia.
Qed.

(** *** An honest upstream *)

Lemma chain_extends es e :
  Entry.chain None (es ++ [e]) -> len es + 1 < 2 ^ 63 -> Store.extends es e.
Proof.
  intros Ch Bd. unfold Store.extends. pose proof (Entry.entry_chain_index _ _ Ch ltac:(lia)) as I.
  apply Entry.entry_chain_snoc in Ch as (_ & V & VC). apply Entry.VerifyChain_iff in VC as [P _].
  split_and!; [by apply verified_sealed|done| |done]. rewrite P. unfold Store.head_of. done.
Qed.

Lemma accept_next m es e :
  ok m es -> healthy (Store.db (store m)) -> Entry.chain None (es ++ [e]) -> len es + 1 < 2 ^ 63 ->
  exists m', acceptEntry m (Some e) = (m', Returned (Ok tt)) /\ ok m' (es ++ [e]) /\
    healthy (Store.db (store m')) /\ ChunkSize m' = ChunkSize m.
Proof.
  intros O Hh Ch Bd. pose proof (chain_extends _ _ Ch Bd) as Ex.
  destruct (Store.AppendEntry_healthy (store m) es e Hh (ok_store _ _ O) Ex) as (s & A & Hs).
  pose proof Ch as (_ & V & VC)%Entry.entry_chain_snoc.
  assert (acceptEntry m (Some e) = (accepted m s e, Returned (Ok tt))) as AE.
  { unfold acceptEntry. rewrite V, (ok_prev _ _ O), VC, A. done. }
  exists (accepted m s e). split_and!; [done| |done|done].
  by destruct (accept_ok _ _ _ _ _ O Bd AE) as [_ [(x & [= <-] & _ & O')|[N _]]].
Qed.

Lemma accept_all_honest m es xs :
  ok m es -> healthy (Store.db (store m)) -> Entry.chain None (es ++ xs) -> len (es ++ xs) < 2 ^ 63 ->
  exists m', accept_all m (Some <$> xs) = (m', Returned (Ok tt)) /\ ok m' (es ++ xs) /\
    healthy (Store.db (store m')) /\ ChunkSize m' = ChunkSize m.
Proof.
  revert m es. induction xs as [|x xs IH]; intros m es O Hh Ch Bd.
  - exists m. by rewrite app_nil_r.
  - rewrite cons_middle, app_assoc in Ch, Bd. pose proof Ch as [Ch1 _]%Entry.entry_chain_app.
    destruct (accept_next m es x O Hh Ch1) as (m1 & A1 & O1 & H1 & C1);
      [unfold len in *; rewrite !length_app in Bd; simpl in Bd; lia|].
    destruct (IH m1 (es ++ [x]) O1 H1 Ch Bd) as (m2 & A2 & O2 & H2 & C2).
    exists m2. rewrite fmap_cons. cbn [accept_all]. rewrite A1. split_and!; [done| |done|congruence].
    by rewrite cons_middle, app_assoc.
Qed.

(** The operator's [/entries] answers of an honest upstream to ranges of at
    most [c] entries. *)
Definition honest (c : Z) (es : list Entry.t) (fetch : nat -> Z -> Z -> res (list (option Entry.t))) : Prop :=
  forall k from to, 0 <= from < to -> to <= len es -> to - from <= c ->
    fetch k from to = Ok (Some <$> take (Z.to_nat (to - from)) (drop (Z.to_nat from) es)).

Lemma sync_loop_honest fuel k fetch m es n :
  honest (ChunkSize m) es fetch -> Entry.chain None es -> ok m (take n es) -> healthy (Store.db (store m)) ->
  0 < ChunkSize m -> len es + ChunkSize m < 2 ^ 63 ->
  len es <= Z.of_nat n + Z.of_nat fuel * ChunkSize m ->
  exists m', sync_loop fuel k fetch (len es) (Z.of_nat n) m = Some (m', Returned (Ok tt)) /\ ok m' es.
Proof.
  intros Hf Ch. revert k m n Hf. induction fuel as [|fuel IH]; intros k m n Hf O Hh HC Bd Fu; cbn [sync_loop].
  - destruct (Z.ltb_spec (Z.of_nat n) (len es)); [lia|]. exists m. split; [done|].
    by rewrite take_ge in O by (unfold len in *; lia).
  - destruct (Z.ltb_spec (Z.of_nat n) (len es)) as [L|L].
    2: { exists m. split; [done|]. by rewrite take_ge in O by (unfold len in *; lia). }
    assert (0 <= len es) by (unfold len; lia).
    assert (wrap64 (Z.of_nat n + ChunkSize m) = Z.of_nat n + ChunkSize m) as Wr
      by (unfold wrap64; apply Z.mod_small; lia).
    rewrite Wr. set (to := if len es <? Z.of_nat n + ChunkSize m then len es else Z.of_nat n + ChunkSize m).
    assert (Z.of_nat n < to <= len es /\ to <= Z.of_nat n + ChunkSize m /\
      (to = len es \/ to = Z.of_nat n + ChunkSize m)) as (T1 & T2 & T3)
      by (unfold to; destruct (Z.ltb_spec (len es) (Z.of_nat n + ChunkSize m)); lia).
    clearbody to. rewrite (Hf k (Z.of_nat n) to ltac:(lia) ltac:(lia) ltac:(lia)), Nat2Z.id.
    assert (take n es ++ take (Z.to_nat (to - Z.of_nat n)) (drop n es) = take (Z.to_nat to) es) as Ap
      by (rewrite take_take_drop; f_equal; lia).
    destruct (accept_all_honest m (take n es) (take (Z.to_nat (to - Z.of_nat n)) (drop n es)) O Hh)
      as (m1 & A1 & O1 & H1 & C1).
    { rewrite Ap. rewrite <- (take_drop (Z.to_nat to) es) in Ch. by apply Entry.entry_chain_app in Ch as [? _]. }
    { rewrite Ap. unfold len in *. rewrite length_take. lia. }
    rewrite A1, Ap in *. rewrite C1, Wr.
    destruct T3 as [->| ->].
    + destruct fuel; cbn [sync_loop]; (destruct (Z.ltb_spec (Z.of_nat n + ChunkSize m) (len es)); [lia|]);
        exists m1; (split; [done|]); rewrite take_ge in O1 by (unfold len; lia); done.
    + destruct (IH (S k) m1 (Z.to_nat (Z.of_nat n + ChunkSize m))) as (m' & E & O'); rewrite ?C1; try done; try lia.
      rewrite Z2Nat.id in E by lia. by exists m'.
Qed.
End Mirror.
End Mirror.

(** ** Properties *)

(** What a client of the mirror sees: a verified chain, by index. *)
Definition serves {B : Badger value} {C : Crypto} (m : Mirror.t) (es : list Entry.t) : Prop :=
  Entry.chain None es /\ Mirror.Size m = len es /\
  forall i e, is_u64 i -> Mirror.GetEntry m i = Ok e <-> es !! Z.to_nat i = Some e.

(** The life of a mirror: opened over an empty database, polling an upstream
    whose answers are arbitrary (of at most [L] entries each), restarted. *)
Inductive mirror_run {B : Badger value} {BL : BadgerLaws B} {C : Crypto} : Mirror.t -> Prop :=
| mirror_new upstream chunk s m :
    view (Store.db s) = ∅ -> readable (Store.db s) -> Mirror.New upstream chunk s = Ok m -> mirror_run m
| mirror_poll fuel now size fetch L m m' o :
    mirror_run m -> 0 <= L -> (forall k f t l, fetch k f t = Ok l -> len l <= L) ->
    Mirror.Size m + Z.of_nat fuel * L < 2 ^ 63 -> Mirror.poll fuel now size fetch m = Some (m', o) -> mirror_run m'
| mirror_restart upstream chunk m m' :
    mirror_run m -> Mirror.New upstream chunk (Mirror.store m) = Ok m' -> mirror_run m'.

Lemma mirror_run_ok {B : Badger value} {BL : BadgerLaws B} {C : Crypto} m :
  mirror_run m -> exists es, Mirror.ok m es.
Proof.
  induction 1 as [up ch s m V R N|fuel now size fetch L m m' o Rn [es O] HL HF Bd P|up ch m m' Rn [es O] N].
  - exists []. eapply Mirror.New_mirror_ok; [|done|done|done]. rewrite V. apply Store.empty_stores.
  - unfold Mirror.Size in Bd. rewrite (Mirror.ok_size _ _ O) in Bd.
    destruct (Mirror.poll_ok _ _ _ _ _ _ _ _ _ O HL HF Bd P) as (es' & O'). by exists (es ++ es').
  - exists es. by eapply Mirror.New_mirror_ok; [apply O|apply O|apply O|].
Qed.

Lemma ok_serves {B : Badger value} {BL : BadgerLaws B} {C : Crypto} m es : Mirror.ok m es -> serves m es.
Proof.
  intros O. split_and!; [apply O|apply O|]. intros i e Hi. apply Store.GetEntry_iff; [apply O|apply O|done].
Qed.

(** C24. A mirror never holds an unverified entry and never loses one: whatever its
    upstream answers and whatever its database does, the entries it serves are
    a verified hash chain from the start of the log, and every poll only adds
    to them. *)
Theorem mirror_append_only {B : Badger value} {BL : BadgerLaws B} {C : Crypto} m :
  mirror_run m ->
  exists es, serves m es /\
    forall fuel now size fetch L m' o,
      0 <= L -> (forall k f t l, fetch k f t = Ok l -> len l <= L) ->
      len es + Z.of_nat fuel * L < 2 ^ 63 -> Mirror.poll fuel now size fetch m = Some (m', o) ->
      exists es', serves m' (es ++ es').
Proof.
  intros [es O]%mirror_run_ok. exists es. split; [by apply ok_serves|].
  intros fuel now size fetch L m' o HL HF Bd P.
  destruct (Mirror.poll_ok _ _ _ _ _ _ _ _ _ O HL HF Bd P) as (es' & O'). exists es'. by apply ok_serves.
Qed.

(** An honest upstream is replicated in one poll: if it answers with its
    verified log and the mirror holds a prefix of it, then with
    [ceil(missing / ChunkSize)] requests the poll returns without an error and
    the mirror serves the whole log. *)
Theorem mirror_catches_up {B : Badger value} {BL : BadgerLaws B} {C : Crypto} m es n fuel now fetch :
  Mirror.ok m (take n es) -> healthy (Store.db (Mirror.store m)) -> (n <= length es)%nat ->
  Entry.chain None es -> Mirror.honest (Mirror.ChunkSize m) es fetch ->
  0 < Mirror.ChunkSize m -> len es + Mirror.ChunkSize m < 2 ^ 63 ->
  len es <= Z.of_nat n + Z.of_nat fuel * Mirror.ChunkSize m ->
  exists m', Mirror.poll fuel now (Ok (len es)) fetch m = Some (m', Mirror.Returned (Ok tt)) /\ serves m' es.
Proof.
  intros O Hh Hn Ch Hf HC Bd Fu. unfold Mirror.poll, Mirror.syncOnce.
  assert (Mirror.lastSize m = Z.of_nat n) as Ls
    by (rewrite (Mirror.ok_size _ _ O); unfold len; rewrite length_take; lia).
  rewrite Ls. destruct (Z.leb_spec (len es) (Z.of_nat n)) as [L|L].
  - exists (Mirror.set_lastSync m now). split; [done|]. apply ok_serves.
    rewrite take_ge in O by (unfold len in L; lia). by eapply Mirror.ok_stats.
  - destruct (Mirror.sync_loop_honest fuel 0 fetch m es n Hf Ch O Hh HC Bd Fu) as (m1 & -> & O1).
    exists (Mirror.set_lastSync m1 now). split; [done|]. apply ok_serves. by eapply Mirror.ok_stats.
Qed.

(** A hostile size never ends: with the default chunk size, an upstream that
    claims [2^64 - 1] entries and answers every request with an empty list
    keeps [syncOnce] in its loop for ever (the index wraps around), with the
    mirror's lock held. *)
Theorem mirror_hostile_size_diverges {B : Badger value} {C : Crypto} fuel k m from :
  Mirror.ChunkSize m = 256 -> is_u64 from -> from mod 256 <> 255 ->
  Mirror.sync_loop fuel k (fun _ _ _ => Ok []) (2 ^ 64 - 1) from m = None.
Proof.
  intros HC. revert k from. induction fuel as [|fuel IH]; intros k from Hf Hm; cbn [Mirror.sync_loop];
    (destruct (Z.ltb_spec from (2 ^ 64 - 1)) as [L|L]; [|unfold is_u64 in Hf; exfalso; zmod]); [done|].
  cbn [Mirror.accept_all]. rewrite HC. apply IH; [apply u64_of_i64_range|].
  unfold wrap64. zmod.
Qed.

(** A null entry crashes the mirror: [entries] is a list of pointers, and a
    null among them is dereferenced before anything is checked. *)
Theorem mirror_null_entry_panics {B : Badger value} {C : Crypto} fuel now size fetch m :
  Mirror.lastSize m < size -> (forall f t, fetch 0%nat f t = Ok [None]) ->
  Mirror.poll (S fuel) now (Ok size) fetch m = Some (m, Mirror.Panicked).
Proof.
  intros L F. unfold Mirror.poll, Mirror.syncOnce. rewrite (proj2 (Z.leb_gt _ _) L).
  cbn [Mirror.sync_loop]. by rewrite (proj2 (Z.ltb_lt _ _) L), F.
Qed.

(** *** Witnesses *)

Definition mirror0 : Mirror.t := Mirror.mk 256 store0 None 0 0 0 0.

Lemma mirror0_new : Mirror.New (str "https://log") 0 store0 = Ok mirror0.
Proof. reflexivity. Qed.
Lemma mirror0_run : mirror_run mirror0.
Proof. by apply (mirror_new (str "https://log") 0 store0). Qed.
Lemma mirror0_ok : Mirror.ok mirror0 (take 0 [entry0]).
Proof. by apply (Mirror.New_mirror_ok (str "https://log") 0 store0); [apply store0_stores|..]. Qed.

Definition demo_fetch (k : nat) (from to : Z) : res (list (option Entry.t)) :=
  Ok (Some <$> take (Z.to_nat (to - from)) (drop (Z.to_nat from) [entry0])).

Lemma mirror_entry0_chain : Entry.chain None [entry0].
Proof. cbn [Entry.chain]. split_and!; [vm_compute; reflexivity|vm_compute; reflexivity|exact I]. Qed.

Lemma mirror_catches_up_witness :
  exists m', Mirror.poll 1 9 (Ok 1) demo_fetch mirror0 = Some (m', Mirror.Returned (Ok tt)) /\ serves m' [entry0].
Proof.
  by apply (mirror_catches_up mirror0 [entry0] 0 1 9 demo_fetch);
    [apply mirror0_ok|apply store0_healthy|simpl; lia|apply mirror_entry0_chain|..].
Defined.

Lemma mirror_append_only_witness :
  exists es, serves mirror0 es /\
    forall fuel now size fetch L m' o,
      0 <= L -> (forall k f t l, fetch k f t = Ok l -> len l <= L) ->
      len es + Z.of_nat fuel * L < 2 ^ 63 -> Mirror.poll fuel now size fetch mirror0 = Some (m', o) ->
      exists es', serves m' (es ++ es').
Proof. exact (mirror_append_only mirror0 mirror0_run). Defined.

Lemma mirror_hostile_size_diverges_witness :
  Mirror.sync_loop 1000 0 (fun _ _ _ => Ok []) (2 ^ 64 - 1) 0 mirror0 = None.
Proof. apply (mirror_hostile_size_diverges 1000 0 mirror0 0); [reflexivity|done|discriminate]. Defined.

Lemma mirror_null_entry_panics_witness :
  Mirror.poll 1 9 (Ok 1) (fun _ _ _ => Ok [None]) mirror0 = Some (mirror0, Mirror.Panicked).
Proof. apply (mirror_null_entry_panics 0 9 1 (fun _ _ _ => Ok [None]) mirror0); [reflexivity|reflexivity]. Defined.
