(* ===== verification/Watcher.v ===== *)
(** * The watcher (pkg/watcher)

    A process outside the operator and the witnesses: it compares the operator's
    latest checkpoint with every witness's signed view at that size. *)

From S2P Require Import Prelude Crypto Checkpoint WitnessServer.
From stdpp Require Import base numbers list gmap strings sorting.
From Stdlib Require Import ZArith Lia.

#[local] Open Scope Z_scope.

Module Watcher.

Record SourceView := mk_view {
  Name : bytes;
  Reachable : bool;
  Size : Z;
  RootHex : bytes;
  ErrMessage : option error;  (* None is the empty message *)
}.

Record Divergence := mk_div { Source : bytes; DSize : Z; OperatorRoot : bytes; SourceRoot : bytes }.

Record Report := mk_report {
  Origin : bytes;
  At : Z;
  OperatorView : SourceView;
  WitnessViews : list SourceView;
  Divergences : list Divergence;
}.

Inductive Outcome := OutcomeConsistent | OutcomeDiverged | OutcomeErrored.

Record Config := mk_config { cOrigin : bytes; OperatorURL : bytes; WitnessURLs : list bytes }.

Definition source_le (x y : Divergence) : Prop := bytes_le (Source x) (Source y).
#[export] Instance source_le_dec : RelDecision source_le.
Proof. intros x y. unfold source_le. apply _. Defined.

Section Watcher.
Context `{Crypto}.

(** What a GET and the decoding of its JSON body gave: the fields of
    [CheckpointResponse] and [SignedSeenResponse], nil as [None]. *)
Record web := mk_web {
  get_checkpoint : bytes -> res (option Checkpoint.t);
  get_seen : bytes -> bytes -> res (option SignedSeen.t);
}.

Definition fetchOperatorCheckpoint (w : web) (url : bytes) : res (Z * bytes) :=
  let! out := get_checkpoint w url in
  match out with
  | None => Err ["operator returned no checkpoint"%string]
  | Some c => Ok (Checkpoint.Size c, Checkpoint.RootHash c)
  end.

Definition fetchSignedSeen (w : web) (url origin : bytes) : res SignedSeen.t :=
  let! out := get_seen w url origin in
  match out with
  | None => Err ["witness returned no signed seen statement"%string]
  | Some stmt =>
      let! _ := wrap_err "witness signed seen invalid" (SignedSeen.Verify stmt) in
      Ok stmt
  end.

(** One pass of the loop of [fetchWitnessSeenAtSize]. *)
Definition view_at (w : web) (origin : bytes) (size : Z) (u : bytes) : SourceView :=
  match fetchSignedSeen w u origin with
  | Err e => mk_view u false size [] (Some e)
  | Ok ss =>
      match SignedSeen.Seen ss !! size with
      | Some root => mk_view u true size root None
      | None => mk_view u true size [] (Some ["witness has no view at size"%string])
      end
  end.
Definition fetchWitnessSeenAtSize (w : web) (origin : bytes) (size : Z) (urls : list bytes) : list SourceView :=
  map (view_at w origin size) urls.

(** The largest recorded size; the loop ranges over the map. *)
Definition max_seen (m : gmap Z bytes) : Z * bytes :=
  foldl (fun acc x => if acc.1 <=? x.1 then x else acc) (0, []) (map_to_list m).
Definition view_any (w : web) (origin : bytes) (u : bytes) : SourceView :=
  match fetchSignedSeen w u origin with
  | Err e => mk_view u false 0 [] (Some e)
  | Ok ss => let '(sz, root) := max_seen (SignedSeen.Seen ss) in mk_view u true sz root None
  end.
Definition fetchWitnessSeen (w : web) (origin : bytes) (urls : list bytes) : list SourceView :=
  map (view_any w origin) urls.

(** The comparison loop. *)
Fixpoint compare_views (size : Z) (opRoot : bytes) (views : list SourceView) : list Divergence :=
  match views with
  | [] => []
  | wv :: views' =>
      let rest := compare_views size opRoot views' in
      if negb (Reachable wv) || bool_decide (RootHex wv = []) then rest
      else if negb (bytesEqual (RootHex wv) opRoot)
      then mk_div (Name wv) size opRoot (RootHex wv) :: rest
      else rest
  end.

Definition Run (now : Z) (w : web) (cfg : Config) : option Report * Outcome * res unit :=
  if bool_decide (cOrigin cfg = []) then (None, OutcomeErrored, Err ["watcher: Origin required"%string])
  else if bool_decide (OperatorURL cfg = []) then (None, OutcomeErrored, Err ["watcher: OperatorURL required"%string])
  else match fetchOperatorCheckpoint w (OperatorURL cfg) with
  | Err e =>
      (Some (mk_report (cOrigin cfg) now (mk_view (str "operator") false 0 [] (Some e))
         (fetchWitnessSeen w (cOrigin cfg) (WitnessURLs cfg)) []), OutcomeErrored, Ok tt)
  | Ok (size, root) =>
      let views := fetchWitnessSeenAtSize w (cOrigin cfg) size (WitnessURLs cfg) in
      let divs := merge_sort source_le (compare_views size (hex root) views) in
      let rep := mk_report (cOrigin cfg) now (mk_view (str "operator") true size (hex root) None) views divs in
      if 0 <? len divs then (Some rep, OutcomeDiverged, Ok tt)
      else
        let allErrored := forallb (fun wv => negb (Reachable wv)) views in
        if allErrored && (0 <? len views) then (Some rep, OutcomeErrored, Ok tt)
        else (Some rep, OutcomeConsistent, Ok tt)
  end.

(** *** What the outcomes mean *)

(** Witness [u] answered with a statement that verifies and records [r]. *)
Definition claims (w : web) (origin u : bytes) (size : Z) (r : bytes) : Prop :=
  exists ss, fetchSignedSeen w u origin = Ok ss /\ SignedSeen.Seen ss !! size = Some r /\ r <> [].

Lemma compare_iff w origin size root urls d :
  d ∈ compare_views size root (fetchWitnessSeenAtSize w origin size urls) <->
  exists u r, u ∈ urls /\ claims w origin u size r /\ r <> root /\ d = mk_div u size root r.
Proof.
  induction urls as [|u urls IH]; cbn [fetchWitnessSeenAtSize map compare_views].
  - split; [by intros ?%elem_of_nil|]. by intros (u & r & ?%elem_of_nil & _).
  - fold (fetchWitnessSeenAtSize w origin size urls).
    assert (forall P : Prop, (P <-> exists r, claims w origin u size r /\ r <> root /\ d = mk_div u size root r) ->
      (P \/ d ∈ compare_views size root (fetchWitnessSeenAtSize w origin size urls) <->
       exists u0 r, u0 ∈ u :: urls /\ claims w origin u0 size r /\ r <> root /\ d = mk_div u0 size root r)) as X.
    { intros P HP. rewrite IH, HP. setoid_rewrite elem_of_cons. naive_solver. }
    unfold view_at, claims in *. destruct (fetchSignedSeen w u origin) as [ss|]; cbn [Reachable negb orb].
    + destruct (SignedSeen.Seen ss !! size) as [r|] eqn:S; cbn [Reachable RootHex negb orb Name].
      * case_bool_decide as R0; [rewrite <- (X False); naive_solver|].
        destruct (bytesEqual r root) eqn:Be; cbn [negb].
        -- apply bytesEqual_spec in Be. rewrite <- (X False); naive_solver.
        -- apply bytesEqual_false in Be. rewrite elem_of_cons, X; [done|]. naive_solver.
      * rewrite bool_decide_eq_true_2 by done. rewrite <- (X False); naive_solver.
    + rewrite <- (X False); naive_solver.
Qed.

Lemma nonempty_elem {A} (l : list A) : (0 <? len l) = true <-> exists x, x ∈ l.
Proof.
  rewrite len_pos. destruct l as [|x l]; split; try done.
  - by intros [x ?%elem_of_nil].
  - intros _. exists x. left.
Qed.

Lemma all_errored_iff w origin size urls :
  forallb (fun wv => negb (Reachable wv)) (fetchWitnessSeenAtSize w origin size urls) = true <->
  forall u, u ∈ urls -> is_ok (fetchSignedSeen w u origin) = false.
Proof.
  induction urls as [|u urls IH]; cbn [fetchWitnessSeenAtSize map forallb].
  - split; [by intros _ u ?%elem_of_nil|done].
  - fold (fetchWitnessSeenAtSize w origin size urls). rewrite andb_true_iff, IH. setoid_rewrite elem_of_cons.
    assert (negb (Reachable (view_at w origin size u)) = true <-> is_ok (fetchSignedSeen w u origin) = false) as ->
      by (unfold view_at; destruct (fetchSignedSeen w u origin) as [ss|]; [|done]; by destruct (_ !! _)).
    naive_solver.
Qed.
End Watcher.
End Watcher.

(** ** Properties *)

(** The watcher's verdict is exact: with a reachable operator claiming root
    [root] at [size] it reports a divergence exactly when some witness's
    verified statement records another root there, an error exactly when there
    are witnesses and none of them answered, and otherwise consistency; every
    divergence is reported, sorted by source, with both roots. *)
Theorem watcher_verdict_exact `{Crypto} now w cfg size root :
  Watcher.cOrigin cfg <> [] -> Watcher.OperatorURL cfg <> [] ->
  Watcher.fetchOperatorCheckpoint w (Watcher.OperatorURL cfg) = Ok (size, root) ->
  exists rep out, Watcher.Run now w cfg = (Some rep, out, Ok tt) /\
    (out = Watcher.OutcomeDiverged <->
      exists u r, u ∈ Watcher.WitnessURLs cfg /\ Watcher.claims w (Watcher.cOrigin cfg) u size r /\ r <> hex root) /\
    (out = Watcher.OutcomeErrored <-> Watcher.WitnessURLs cfg <> [] /\
      forall u, u ∈ Watcher.WitnessURLs cfg -> is_ok (Watcher.fetchSignedSeen w u (Watcher.cOrigin cfg)) = false) /\
    (forall u r, u ∈ Watcher.WitnessURLs cfg -> Watcher.claims w (Watcher.cOrigin cfg) u size r -> r <> hex root ->
      Watcher.mk_div u size (hex root) r ∈ Watcher.Divergences rep).
Proof.
  intros Ho Hu F. unfold Watcher.Run. rewrite !bool_decide_eq_false_2 by done. rewrite F.
  set (views := Watcher.fetchWitnessSeenAtSize w (Watcher.cOrigin cfg) size (Watcher.WitnessURLs cfg)).
  set (divs := merge_sort Watcher.source_le (Watcher.compare_views size (hex root) views)).
  assert (forall d, d ∈ divs <-> d ∈ Watcher.compare_views size (hex root) views) as M
    by (intros d; unfold divs; by rewrite merge_sort_Permutation).
  assert ((0 <? len divs) = true <-> exists u r, u ∈ Watcher.WitnessURLs cfg /\
    Watcher.claims w (Watcher.cOrigin cfg) u size r /\ r <> hex root) as D.
  { rewrite Watcher.nonempty_elem. setoid_rewrite M. unfold views. setoid_rewrite Watcher.compare_iff. naive_solver. }
  assert (forall u r, u ∈ Watcher.WitnessURLs cfg -> Watcher.claims w (Watcher.cOrigin cfg) u size r -> r <> hex root ->
    Watcher.mk_div u size (hex root) r ∈ divs) as Dv.
  { intros u r U Cl N. apply M. unfold views. apply Watcher.compare_iff. by exists u, r. }
  pose proof (Watcher.all_errored_iff w (Watcher.cOrigin cfg) size (Watcher.WitnessURLs cfg)) as R. fold views in R.
  assert ((0 <? len views) = true <-> Watcher.WitnessURLs cfg <> []) as Nv.
  { rewrite len_pos. unfold views, Watcher.fetchWitnessSeenAtSize. by destruct (Watcher.WitnessURLs cfg). }
  destruct (0 <? len divs) eqn:L.
  { eexists _, _. split; [done|]. split_and!; [by split; [intros _; apply D|]| |done]. split; [done|]. intros [_ X].
    destruct (proj1 D eq_refl) as (u & r & U & (ss & Fs & _) & _). specialize (X u U). by rewrite Fs in X. }
  destruct (forallb _ views && (0 <? len views)) eqn:A; eexists _, _; (split; [done|]); split_and!; try done;
    try (split; [done|]; by intros X%D).
  - apply andb_true_iff in A as [A1 A2]. split; [|done]. intros _. split; [by apply Nv|by apply R].
  - split; [done|]. intros [X1 X2]. rewrite (proj2 Nv X1), (proj2 R X2) in A. done.
Qed.

(** The signature check does not bind a statement to its witness: whoever
    answers a witness's URL can sign any view with a key of its own and the
    watcher accepts it, so a man in the middle can raise a false alarm (or
    confirm a forged root) for any size and root. *)
Theorem watcher_accepts_any_key `{Crypto, !CryptoLaws _} key id origin seen now w u o :
  let unsigned := SignedSeen.mk id (ed_public key) [] origin seen now [] in
  let stmt := SignedSeen.mk id (ed_public key) [] origin seen now (ed_sign key (SignedSeen.Canonical unsigned)) in
  Watcher.get_seen w u o = Ok (Some stmt) ->
  Watcher.fetchSignedSeen w u o = Ok stmt.
Proof.
  intros unsigned stmt G. unfold Watcher.fetchSignedSeen. rewrite G. cbn [res_bind].
  unfold SignedSeen.Verify. cbn [stmt SignedSeen.PublicKey SignedSeen.Signature].
  rewrite ed_public_length, ed_sign_length, !Z.eqb_refl. cbn [negb].
  change (SignedSeen.Canonical stmt) with (SignedSeen.Canonical unsigned). by rewrite ed_sign_verify.
Qed.

(** *** Witnesses *)

Definition forged : SignedSeen.t :=
  let seen : gmap Z bytes := {[ 3 := str "ff" ]} in
  let unsigned := SignedSeen.mk (str "w1") (ed_public (str "mitm")) [] (str "other-log") seen 1 [] in
  SignedSeen.mk (str "w1") (ed_public (str "mitm")) [] (str "other-log") seen 1
    (ed_sign (str "mitm") (SignedSeen.Canonical unsigned)).
Definition demo_web : Watcher.web :=
  Watcher.mk_web (fun _ => Ok (Some (Checkpoint.mk (str "o") 3 (str "root") [] 0 0 [] None [] [] [] [] [])))
    (fun _ _ => Ok (Some forged)).
Definition demo_config : Watcher.Config := Watcher.mk_config (str "o") (str "https://log") [str "https://w1"].

Lemma watcher_accepts_any_key_witness :
  Watcher.fetchSignedSeen demo_web (str "https://w1") (str "o") = Ok forged.
Proof.
  apply (watcher_accepts_any_key (str "mitm") (str "w1") (str "other-log") {[ 3 := str "ff" ]} 1 demo_web
    (str "https://w1") (str "o")). reflexivity.
Defined.

Lemma watcher_verdict_exact_witness :
  exists rep out, Watcher.Run 9 demo_web demo_config = (Some rep, out, Ok tt) /\
    (out = Watcher.OutcomeDiverged <->
      exists u r, u ∈ [str "https://w1"] /\ Watcher.claims demo_web (str "o") u 3 r /\ r <> hex (str "root")).
Proof.
  destruct (watcher_verdict_exact 9 demo_web demo_config 3 (str "root")) as (rep & out & R & D & _);
    [discriminate|discriminate|reflexivity|]. exists rep, out. split; [exact R|exact D].
Defined.
