(* ===== verification/Ingest.v ===== *)
(** * The ingest gate (pkg/api/ingest.go)

    Admission control of the operator's HTTP API: a semaphore over concurrent
    appends, a token bucket per producer and one per admin actor, and the
    janitor that drops idle buckets.  The token bucket itself is
    golang.org/x/time/rate, a parameter. *)

From S2P Require Import Prelude.
From stdpp Require Import base numbers list gmap strings fin_maps.
From Stdlib Require Import ZArith Lia SpecFloat.

#[local] Open Scope Z_scope.

(** golang.org/x/time/rate: [Allow] at a time consumes a token if there is one. *)
Class Limiter := {
  limiter : Type;
  NewLimiter : spec_float -> Z -> limiter;
  Allow : Z -> limiter -> limiter * bool;
}.

Definition float0 : spec_float := S754_zero false.
(** The float64 of a positive integer. *)
Definition float_of (p : positive) : spec_float := SpecFloat.binary_normalize 53 1024 (Zpos p) 0 false.

Record IngestPolicy := mk_policy {
  MaxConcurrentAppends : Z;
  PerProducerRPS : spec_float;
  PerProducerBurst : Z;
  PerAdminRPS : spec_float;
  PerAdminBurst : Z;
  RetryAfter : Z;
}.

Definition defaultConcurrency (NumCPU : Z) : Z :=
  let n := NumCPU * 4 in
  let n := if n <? 16 then 16 else n in
  if 256 <? n then 256 else n.

Definition DefaultIngestPolicy (NumCPU : Z) : IngestPolicy :=
  mk_policy (defaultConcurrency NumCPU) (float_of 100) 200 (float_of 5) 10 1.

(** [pol == (IngestPolicy{})] *)
Definition is_zero_policy (p : IngestPolicy) : bool :=
  (MaxConcurrentAppends p =? 0) && SFeqb (PerProducerRPS p) float0 && (PerProducerBurst p =? 0) &&
  SFeqb (PerAdminRPS p) float0 && (PerAdminBurst p =? 0) && (RetryAfter p =? 0).

Module Gate.
Section Gate.
Context `{Limiter}.

Record bucketEntry := mk_bucket { lim : limiter; lastUsed : Z }.

(** A buffered channel of [cap] slots, [used] of them taken. *)
Record semaphore := mk_sem { cap : Z; used : Z }.

Record t := mk {
  policy : IngestPolicy;
  sem : option semaphore;  (* nil if MaxConcurrentAppends <= 0 *)
  producerLimits : gmap bytes bucketEntry;
  adminLimits : gmap bytes bucketEntry;
}.

Definition newIngestGate (p : IngestPolicy) : t :=
  mk p (if 0 <? MaxConcurrentAppends p then Some (mk_sem (MaxConcurrentAppends p) 0) else None) ∅ ∅.

Definition set_sem (g : t) (s : option semaphore) : t := mk (policy g) s (producerLimits g) (adminLimits g).

(** The [select] with a default: a free slot is taken, a full channel refused. *)
Definition acquire (g : t) : t * bool :=
  match sem g with
  | None => (g, true)
  | Some s => if used s <? cap s then (set_sem g (Some (mk_sem (cap s) (used s + 1))), true) else (g, false)
  end.

(** [<-g.sem]: [None] while the channel is empty, where the receive blocks. *)
Definition release (g : t) : option t :=
  match sem g with
  | None => Some g
  | Some s => if 0 <? used s then Some (set_sem g (Some (mk_sem (cap s) (used s - 1)))) else None
  end.

(** [allow] on one table; [now1] is the clock for [lastUsed], [now2] the one
    the limiter reads. *)
Definition allow (now1 now2 : Z) (rps : spec_float) (burst : Z) (table : gmap bytes bucketEntry) (key : bytes)
  : gmap bytes bucketEntry * bool :=
  if SFleb rps float0 then (table, true)
  else
    let l := match table !! key with
             | Some e => lim e
             | None => NewLimiter rps (if burst <=? 0 then 1 else burst)
             end in
    let '(l', ok) := Allow now2 l in
    (<[key := mk_bucket l' now1]> table, ok).

Definition allowProducer (now1 now2 : Z) (id : bytes) (g : t) : t * bool :=
  let '(tb, ok) := allow now1 now2 (PerProducerRPS (policy g)) (PerProducerBurst (policy g)) (producerLimits g) id in
  (mk (policy g) (sem g) tb (adminLimits g), ok).

Definition allowAdmin (now1 now2 : Z) (actor : bytes) (g : t) : t * bool :=
  let '(tb, ok) := allow now1 now2 (PerAdminRPS (policy g)) (PerAdminBurst (policy g)) (adminLimits g) actor in
  (mk (policy g) (sem g) (producerLimits g) tb, ok).

Definition retryAfterSeconds (g : t) : Z :=
  if RetryAfter (policy g) <=? 0 then 1 else RetryAfter (policy g).

(** One table's loop of [evictIdle]. *)
Definition evict_table (cutoff : Z) (tb : gmap bytes bucketEntry) : gmap bytes bucketEntry :=
  filter (fun x => ~ (lastUsed x.2 < cutoff)) tb.

(** The gate and the number of buckets dropped. *)
Definition evictIdle (now older : Z) (g : t) : t * Z :=
  let cutoff := now - older in
  let p := evict_table cutoff (producerLimits g) in
  let a := evict_table cutoff (adminLimits g) in
  (mk (policy g) (sem g) p a,
   Z.of_nat (size (producerLimits g)) - Z.of_nat (size p) + (Z.of_nat (size (adminLimits g)) - Z.of_nat (size a))).

(** [StartJanitor]: the interval and idle age it runs with, or that it does
    not run. *)
Definition StartJanitor (g : option t) (interval idleAfter : Z) : option (Z * Z) :=
  match g with
  | None => None
  | Some g =>
      if SFleb (PerProducerRPS (policy g)) float0 && SFleb (PerAdminRPS (policy g)) float0 then None
      else Some (if interval <=? 0 then 5 * 60 * 1000000000 else interval,
                 if idleAfter <=? 0 then 3600 * 1000000000 else idleAfter)
  end.

(** *** Lemmas *)

Lemma acquire_sem g g' b :
  acquire g = (g', b) ->
  match sem g with
  | None => g' = g /\ b = true
  | Some s => if b then used s < cap s /\ sem g' = Some (mk_sem (cap s) (used s + 1)) else cap s <= used s /\ g' = g
  end.
Proof.
  unfold acquire. destruct (sem g) as [s|]; [|by intros [= <- <-]].
  destruct (Z.ltb_spec (used s) (cap s)); intros [= <- <-]; by split.
Qed.

Lemma allowProducer_sem n1 n2 id g : sem (allowProducer n1 n2 id g).1 = sem g.
Proof. unfold allowProducer. by destruct (allow _ _ _ _ _ _). Qed.

Lemma allowAdmin_sem n1 n2 id g : sem (allowAdmin n1 n2 id g).1 = sem g.
Proof. unfold allowAdmin. by destruct (allow _ _ _ _ _ _). Qed.

Lemma retryAfterSeconds_pos g : 1 <= retryAfterSeconds g.
Proof. unfold retryAfterSeconds. destruct (Z.leb_spec (RetryAfter (policy g)) 0); lia. Qed.

Lemma defaultConcurrency_range n : 16 <= defaultConcurrency n <= 256.
Proof. unfold defaultConcurrency. destruct (Z.ltb_spec (n * 4) 16); case_match; try lia; apply Z.ltb_ge in H1; lia. Qed.

Lemma evict_lookup cutoff tb k e :
  evict_table cutoff tb !! k = Some e <-> tb !! k = Some e /\ cutoff <= lastUsed e.
Proof.
  unfold evict_table. rewrite map_lookup_filter_Some. cbn. split; intros [? ?]; split; try done; lia.
Qed.

(** One caller's requests leave every other caller's bucket alone. *)
Lemma allow_other n1 n2 rps burst tb k k' : k <> k' -> (allow n1 n2 rps burst tb k).1 !! k' = tb !! k'.
Proof.
  intros N. unfold allow. destruct (SFleb rps float0); [done|].
  destruct (Allow _ _). cbn. by rewrite lookup_insert_ne.
Qed.

(** *** Interleaved callers *)

Inductive op :=
| Produce (now1 now2 : Z) (id : bytes)
| Administer (now1 now2 : Z) (actor : bytes)
| Enter
| Evict (now older : Z).

(** The producers' answers along a sequence of operations. *)
Fixpoint answers (ops : list op) (g : t) : list (bytes * bool) :=
  match ops with
  | [] => []
  | Produce n1 n2 id :: ops' => let '(g', ok) := allowProducer n1 n2 id g in (id, ok) :: answers ops' g'
  | Administer n1 n2 a :: ops' => answers ops' (allowAdmin n1 n2 a g).1
  | Enter :: ops' => answers ops' (acquire g).1
  | Evict now older :: ops' => answers ops' (evictIdle now older g).1
  end.

(** What concerns one producer: its own requests and the janitor. *)
Definition concerns (id : bytes) (o : op) : Prop :=
  match o with Produce _ _ id' => id' = id | Evict _ _ => True | _ => False end.
#[global] Instance concerns_dec id o : Decision (concerns id o).
Proof. destruct o; unfold concerns; apply _. Defined.

Definition same_bucket (id : bytes) (g1 g2 : t) : Prop :=
  policy g1 = policy g2 /\ producerLimits g1 !! id = producerLimits g2 !! id.

Lemma same_bucket_allow id n1 n2 g1 g2 :
  same_bucket id g1 g2 ->
  same_bucket id (allowProducer n1 n2 id g1).1 (allowProducer n1 n2 id g2).1 /\
  (allowProducer n1 n2 id g1).2 = (allowProducer n1 n2 id g2).2.
Proof.
  intros [P L]. unfold allowProducer, allow, same_bucket. rewrite P, L.
  destruct (SFleb _ _); [done|]. destruct (Allow _ _) as [l ok]. cbn. by rewrite !lookup_insert_eq.
Qed.

Lemma other_allow id id' n1 n2 g : id' <> id -> same_bucket id (allowProducer n1 n2 id' g).1 g.
Proof.
  intros N. unfold same_bucket, allowProducer. pose proof (allow_other n1 n2 (PerProducerRPS (policy g))
    (PerProducerBurst (policy g)) (producerLimits g) id' id N). by destruct (allow _ _ _ _ _ _).
Qed.

Lemma same_bucket_admin id n1 n2 a g : same_bucket id (allowAdmin n1 n2 a g).1 g.
Proof. unfold same_bucket, allowAdmin. by destruct (allow _ _ _ _ _ _). Qed.

Lemma same_bucket_acquire id g : same_bucket id (acquire g).1 g.
Proof. unfold acquire. destruct (sem g) as [s|]; [|done]. by destruct (_ <? _). Qed.

Lemma same_bucket_evict id now older g1 g2 :
  same_bucket id g1 g2 -> same_bucket id (evictIdle now older g1).1 (evictIdle now older g2).1.
Proof.
  intros [P L]. split; [done|]. cbn. unfold evict_table. rewrite !map_lookup_filter. by rewrite L.
Qed.

#[global] Instance same_bucket_equiv id : Equivalence (same_bucket id).
Proof. unfold same_bucket. split; red; naive_solver congruence. Qed.

Lemma answers_own id ops : forall g1 g2, same_bucket id g1 g2 ->
  filter (fun x => x.1 = id) (answers ops g1) = answers (filter (concerns id) ops) g2.
Proof.
  induction ops as [|o ops IH]; intros g1 g2 S; [done|].
  destruct o as [n1 n2 id'|n1 n2 a| |now older]; cbn [answers].
  - destruct (allowProducer n1 n2 id' g1) as [g1' ok] eqn:E. destruct (decide (id' = id)) as [->|N].
    + destruct (same_bucket_allow id n1 n2 g1 g2 S) as [S' A]. rewrite E in S', A. cbn [fst snd] in S', A.
      rewrite !filter_cons_True by done. cbn [answers].
      destruct (allowProducer n1 n2 id g2) as [g2' ok2]. cbn [fst snd] in S', A. rewrite A. f_equal. by apply IH.
    + rewrite !filter_cons_False by done. apply IH. rewrite <- S.
      change g1' with (g1', ok).1. rewrite <- E. by apply other_allow.
  - rewrite filter_cons_False by tauto. apply IH. by rewrite same_bucket_admin.
  - rewrite filter_cons_False by tauto. apply IH. by rewrite same_bucket_acquire.
  - rewrite filter_cons_True by done. cbn [answers]. apply IH. by apply same_bucket_evict.
Qed.
End Gate.
Arguments t {_}.
End Gate.

(** ** Properties *)

(** Rate limits are per producer: whatever other producers, admin actors and
    appends do in between, the answers a producer gets are those it would get
    alone with the janitor. *)
Theorem rate_limit_isolated `{Limiter} id ops g :
  filter (fun x => x.1 = id) (Gate.answers ops g) = Gate.answers (filter (Gate.concerns id) ops) g.
Proof. by apply Gate.answers_own. Qed.
