(* ===== verification/Api.v ===== *)
(** * The operator's HTTP API (pkg/api)

    Every handler of server.go as a program over the shared server state: a
    sequence of atomic calls on the log, the two journals and the ingest gate,
    between which other requests run.  The wire types are those of types.go. *)

From S2P Require Import Prelude Crypto GoText Journal ReadLog AdminLog Attest Rfc6962 Merkle.
From S2P Require Import LogEntry Threshold Fwdsec Checkpoint Anchor Badger Storage Core Ingest.
From stdpp Require Import base numbers list gmap strings.
From Stdlib Require Import ZArith Lia.

#[local] Open Scope Z_scope.

(** ** Requests *)

(** What [json.NewDecoder(r.Body).Decode] gives on the capped body: the value,
    [http.MaxBytesError], or any other error. *)
Inductive decoded (T : Type) := Decoded (v : T) | TooLarge | Malformed (e : error).
Arguments Decoded {T} _. Arguments TooLarge {T}. Arguments Malformed {T} _.

Inductive method := GET | POST | PUT | DELETE | PATCH | OtherMethod.
#[export] Instance method_eq_dec : EqDecision method.
Proof. solve_decision. Defined.

Record Request (T : Type) := mk_request {
  Method : method;
  TLS : option (list bytes);  (* the Common Names of the peer certificates *)
  AdminHeader : bytes;        (* X-Stele-Admin *)
  RemoteAddr : bytes;
  UserAgent : bytes;
  Path : bytes;
  Query : list (bytes * bytes);
  Body : decoded T;
}.
Arguments mk_request {T}. Arguments Method {T}. Arguments TLS {T}. Arguments AdminHeader {T}. Arguments RemoteAddr {T}.
Arguments UserAgent {T}. Arguments Path {T}. Arguments Query {T}. Arguments Body {T}.

(** [url.Values.Get]: the first value, or the empty string. *)
Fixpoint query_get (q : list (bytes * bytes)) (k : bytes) : bytes :=
  match q with
  | [] => []
  | (k', v) :: q' => if bool_decide (k' = k) then v else query_get q' k
  end.

Record AppendRequest := mk_append { ar_Envelope : option Envelope.t; ar_Honeypot : bool }.
Record RegisterWitnessRequest := mk_rwit { rw_Witness : option Witness.t }.
(** [rp_quantum]: whether the producer's quantum key is not nil. *)
Record RegisterProducerRequest := mk_rprod { rp_Producer : option Producer.t; rp_quantum : bool }.
Record EnrollmentRequest := mk_enr {
  er_ID : bytes; er_PublicKey : bytes; er_QuantumPublicKey : bytes; er_AttestationType : bytes;
  er_Description : bytes; er_Scope : bytes; er_ValiditySeconds : Z }.
Record ConfirmEnrollmentRequest := mk_conf { cr_ChallengeID : bytes; cr_Signature : bytes; cr_QuantumSignature : bytes }.
Record RevokeProducerRequest := mk_rev { rr_ID : bytes; rr_Reason : bytes }.

(** ** Identity of the caller *)

Definition callerIdentity {T} (r : Request T) : bytes :=
  let cn := match TLS r with Some (cn :: _) => TrimSpace cn | _ => [] end in
  if bool_decide (cn = []) then TrimSpace (AdminHeader r) else cn.

Definition callerIdentityOrIP {T} (r : Request T) : bytes :=
  let id := callerIdentity r in
  if bool_decide (id = []) then
    match before_last Byte.x3a (RemoteAddr r) with
    | Some (b :: ip) => b :: ip
    | _ => RemoteAddr r
    end
  else id.

(** ** Responses *)

Inductive reply :=
| ErrorResponse (e : error)
| AppendResponse (e : Entry.t)
| EntryResponse (e : Entry.t)
| EntriesResponse (es : list Entry.t) (from to : Z)
| SizeResponse (size : Z) (root head : bytes)
| CheckpointResponse (c : Checkpoint.t)
| AnchorResponse (recs : gmap bytes Record_.t)
| InclusionProofResponse (index treeSize : Z) (leaf : bytes) (proof : list bytes) (root : bytes)
| ConsistencyProofResponse (oldSize newSize : Z) (oldRoot newRoot : bytes) (proof : list bytes)
| PubKeyResponse (origin root : bytes) (epoch : Z) (keyID : bytes)
| KeyChainResponse (c : Chain.t)
| ThresholdGroupResponse (g : option Group.t)
| ReadLogSize (size : Z) (pub : bytes)
| ReadLogEvents (evs : list ReadEvent.t)
| AdminLogSize (size : Z) (pub qpub : bytes)
| AdminLogEvents (evs : list AdminEvent.t)
| ListWitnessesResponse (ws : list Witness.t)
| WitnessBody (w : Witness.t)
| ListProducersResponse (ps : list Producer.t)
| ProducerBody (p : Producer.t)
| EnrollmentResponse (p : Producer.t)
| BeginEnrollmentResponse (id challenge : bytes) (expires : Z)
| RevokedBody (id : bytes).

(** A response that was written, with its Retry-After header; or the connection
    closed by net/http after a panic. *)
Inductive response := Reply (status : Z) (retry : option Z) (body : reply) | Aborted.

Definition writeJSON (status : Z) (b : reply) : response := Reply status None b.
Definition writeErr (status : Z) (e : error) : response := writeJSON status (ErrorResponse e).
Definition writeRetryAfter (status retry : Z) (msg : string) : response := Reply status (Some retry) (ErrorResponse [msg]).
Definition writeBodyErr (too_large : bool) (e : error) : response :=
  if too_large then writeErr 413 ["request body exceeds size limit"%string] else writeErr 400 e.

(** [err.Error()]: the messages of the chain (without their formatted
    arguments, as everywhere in this model). *)
Fixpoint error_text (e : error) : bytes :=
  match e with [] => [] | [m] => str m | m :: e' => str m ++ str ": " ++ error_text e' end.

Definition method_not_allowed (msg : string) : response := writeErr 405 [msg].

Record Alert := mk_alert {
  al_Origin : bytes; al_EntryIdx : Z; al_LeafHash : bytes; al_CallerIP : bytes; al_UserAgent : bytes;
  al_Path : bytes; al_Time : Z; al_Note : bytes }.

Module Api.
Section Api.
Context {B : Badger value} {CR : CompactRange} {PL : ProofLib} {C : Crypto} {L : Limiter}.

(** ** The server *)

Record t := mk {
  Log : Log.t;
  HoneySink : option (list Alert);  (* nil, or the alerts handed to it *)
  AppendObserver : option Z;        (* nil, or the number of calls *)
  RequireClientCertCN : bool;
  ReadLog : option (Journal.t ReadEvent.t);
  AdminLog : option (Journal.t AdminEvent.t);
  gate : Gate.t;
}.

Definition set_log (s : t) l : t :=
  mk l (HoneySink s) (AppendObserver s) (RequireClientCertCN s) (ReadLog s) (AdminLog s) (gate s).
Definition set_honey (s : t) h : t :=
  mk (Log s) h (AppendObserver s) (RequireClientCertCN s) (ReadLog s) (AdminLog s) (gate s).
Definition set_observer (s : t) o : t :=
  mk (Log s) (HoneySink s) o (RequireClientCertCN s) (ReadLog s) (AdminLog s) (gate s).
Definition set_readlog (s : t) j : t :=
  mk (Log s) (HoneySink s) (AppendObserver s) (RequireClientCertCN s) j (AdminLog s) (gate s).
Definition set_adminlog (s : t) j : t :=
  mk (Log s) (HoneySink s) (AppendObserver s) (RequireClientCertCN s) (ReadLog s) j (gate s).
Definition set_gate (s : t) g : t :=
  mk (Log s) (HoneySink s) (AppendObserver s) (RequireClientCertCN s) (ReadLog s) (AdminLog s) g.

(** What the outside world contributes to one atomic action: clocks, the
    outcome of a journal write, random draws, the peers of a checkpoint, the
    sinks, the key store of a rotation. *)
Record input := mk_input {
  now : Z;
  now2 : Z;
  jio : Journal.append_io;
  readable : bool;
  idRaw : res bytes;
  nonce : res bytes;
  cio : Log.checkpoint_io;
  published : list (bytes * res Record_.t);
  gen : res KeyStore.fresh;
  wr : bool;
  io_new : KeyStore.destroy_io;
  io_prev : KeyStore.destroy_io;
}.

(** ** Handler programs *)

(** An action on the server, the two operations of the semaphore, or the end. *)
Inductive prog (A : Type) :=
| Ret (a : A)
| Act {X : Type} (f : input -> t -> t * X) (k : X -> prog A)
| Acquire (k : bool -> prog A)
| Release (k : prog A).
Arguments Ret {A} _. Arguments Act {A X} _ _. Arguments Acquire {A} _. Arguments Release {A} _.

Abbreviation handler := (prog response).

(** Sequencing. *)
Fixpoint bind {A D} (p : prog A) (k : A -> prog D) : prog D :=
  match p with
  | Ret a => k a
  | Act f k' => Act f (fun x => bind (k' x) k)
  | Acquire k' => Acquire (fun b => bind (k' b) k)
  | Release p' => Release (bind p' k)
  end.

(** Reading a part of the state, and calling the log. *)
Definition read {A X} (f : t -> X) (k : X -> prog A) : prog A := Act (fun _ s => (s, f s)) k.
Definition call {A X} (f : input -> Log.t -> Log.t * X) (k : X -> prog A) : prog A :=
  Act (fun i s => let '(l, x) := f i (Log s) in (set_log s l, x)) k.

(** ** Helpers of the handlers *)

Definition recordRead {T A} (r : Request T) (entryIdx : Z) (leafHash op : bytes) (k : prog A) : prog A :=
  Act (fun i s =>
    match ReadLog s with
    | None => (s, tt)
    | Some j =>
        let '(j', _) := ReadLog.Append (now i) (jio i) entryIdx leafHash op (RemoteAddr r) (UserAgent r) j in
        (set_readlog s (Some j'), tt)
    end) (fun _ => k).

(** [err = None]: the action succeeded. *)
Definition note_admin {T} (r : Request T) (action subject : bytes) (details : list (bytes * scalar)) (err : option error)
    (i : input) (s : t) : t * unit :=
  match AdminLog s with
  | None => (s, tt)
  | Some j =>
      let outcome := match err with None => str "ok" | Some _ => str "error" end in
      let errMsg := match err with None => [] | Some e => error_text e end in
      let a := AdminLog.mk_action action subject outcome errMsg (callerIdentity r) (RemoteAddr r) (UserAgent r) in
      let '(j', _) := AdminLog.Action (now i) (jio i) a (Some (Ok (json_object details))) j in
      (set_adminlog s (Some j'), tt)
  end.
Definition recordAdmin {T A} (r : Request T) (action subject : bytes) (details : list (bytes * scalar))
    (err : option error) (k : prog A) : prog A :=
  Act (note_admin r action subject details err) (fun _ => k).

Definition fireHoney {T A} (r : Request T) (idx : Z) (leafHash note : bytes) (k : prog A) : prog A :=
  Act (fun i s =>
    match HoneySink s with
    | None => (s, tt)
    | Some alerts =>
        let a := mk_alert (Log.Origin (Log s)) idx leafHash (RemoteAddr r) (UserAgent r) (Path r) (now i) note in
        (set_honey s (Some (alerts ++ [a])), tt)
    end) (fun _ => k).

Definition mutating (m : method) : bool :=
  match m with POST | PUT | DELETE | PATCH => true | _ => false end.

Definition rateLimitAdmin {T} (next : Request T -> handler) (r : Request T) : handler :=
  if negb (mutating (Method r)) then next r
  else
    Act (fun i s => let '(g, ok) := Gate.allowAdmin (now i) (now2 i) (callerIdentityOrIP r) (gate s) in (set_gate s g, ok))
      (fun ok =>
        if negb ok then read (fun s => Gate.retryAfterSeconds (gate s)) (fun ra =>
          Ret (writeRetryAfter 429 ra "admin actor rate-limited; retry after"))
        else next r).

(** The guard every single-method handler starts with. *)
Definition only {T} (m : method) (r : Request T) (msg : string) (k : handler) : handler :=
  if negb (bool_decide (Method r = m)) then Ret (method_not_allowed msg) else k.

(** A parsed query or path number, or the 400 response. *)
Definition parse (s : bytes) (msg : string) (k : Z -> handler) : handler :=
  match ParseUint s with
  | Err e => Ret (writeErr 400 (msg :: e))
  | Ok n => k n
  end.

Definition body {T} (r : Request T) (wrapped : error -> error) (k : T -> handler) : handler :=
  match Body r with
  | Decoded v => k v
  | TooLarge => Ret (writeBodyErr true [])
  | Malformed e => Ret (writeBodyErr false (wrapped e))
  end.

Definition err_of {A} (r : res A) : option error := match r with Ok _ => None | Err e => Some e end.

(** ** The append path *)

(** The part of [handleAppend] that holds a slot: [AppendCtx] with its checks
    before the lock, and the observer; the deferred release comes last. *)
Definition append_slot (env : Envelope.t) (honeypot : bool) : handler :=
  Act (fun i s => (s, Log.authorise (Log s) (now i) (Some env))) (fun ra =>
  match ra with
  | Err e => Release (Ret (writeErr 400 e))
  | Ok env =>
      call (fun i l => Log.append_locked l (now i) env honeypot) (fun re =>
      match re with
      | Err e => Release (Ret (writeErr 400 e))
      | Ok entry =>
          Act (fun _ s => (set_observer s (match AppendObserver s with Some n => Some (n + 1) | None => None end), tt))
            (fun _ => Release (Ret (writeJSON 200 (AppendResponse entry))))
      end)
  end).

Definition admission (env : Envelope.t) (honeypot : bool) : handler :=
  Act (fun i s => let '(g, ok) := Gate.allowProducer (now i) (now2 i) (Envelope.ProducerID env) (gate s) in
                  (set_gate s g, ok)) (fun ok =>
  if negb ok then read (fun s => Gate.retryAfterSeconds (gate s)) (fun ra =>
    Ret (writeRetryAfter 429 ra "producer rate-limited; retry after"))
  else Acquire (fun got =>
    if negb got then read (fun s => Gate.retryAfterSeconds (gate s)) (fun ra =>
      Ret (writeRetryAfter 503 ra "server at concurrent-append capacity; retry after"))
    else append_slot env honeypot)).

Definition handleAppend (r : Request AppendRequest) : handler :=
  only POST r "POST required" (body r (fun e => "invalid JSON"%string :: e) (fun req =>
  match ar_Envelope req with
  | None => Ret (writeErr 400 ["envelope is required"%string])
  | Some env =>
      read RequireClientCertCN (fun required =>
      if required then
        match TLS r with
        | None | Some [] => Ret (writeErr 401 ["client certificate required"%string])
        | Some (cn :: _) =>
            if negb (bool_decide (TrimSpace cn = Envelope.ProducerID env))
            then Ret (writeErr 403 ["client cert CN does not match envelope ProducerID"%string])
            else admission env (ar_Honeypot req)
        end
      else admission env (ar_Honeypot req))
  end)).

(** ** The journals *)

Definition handleReadLogSize (r : Request unit) : handler :=
  only GET r "GET required" (read ReadLog (fun j =>
  match j with
  | None => Ret (writeErr 404 ["read log not enabled"%string])
  | Some _ => read (fun s => default 0 (ReadLog.Size <$> ReadLog s)) (fun size =>
              read (fun s => default [] (Journal.pub <$> ReadLog s)) (fun pub =>
              Ret (writeJSON 200 (ReadLogSize size pub))))
  end)).

Definition handleReadLogRange (r : Request unit) : handler :=
  only GET r "GET required" (read ReadLog (fun j =>
  match j with
  | None => Ret (writeErr 404 ["read log not enabled"%string])
  | Some _ =>
      parse (query_get (Query r) (str "from")) "invalid from" (fun from =>
      parse (query_get (Query r) (str "to")) "invalid to" (fun to =>
      Act (fun i s => (s, match ReadLog s with Some j => ReadLog.Range (readable i) from to j | None => Ok [] end))
      (fun evs => match evs with
                  | Err e => Ret (writeErr 400 e)
                  | Ok evs => Ret (writeJSON 200 (ReadLogEvents evs))
                  end)))
  end)).

Definition handleAdminLogSize (r : Request unit) : handler :=
  only GET r "GET required" (read AdminLog (fun j =>
  match j with
  | None => Ret (writeErr 404 ["admin log not enabled"%string])
  | Some _ => read (fun s => default 0 (AdminLog.Size <$> AdminLog s)) (fun size =>
              read (fun s => default [] (Journal.pub <$> AdminLog s)) (fun pub =>
              read (fun s => default [] (Journal.qPub <$> AdminLog s)) (fun qpub =>
              Ret (writeJSON 200 (AdminLogSize size pub qpub)))))
  end)).

Definition handleAdminLogRange (r : Request unit) : handler :=
  only GET r "GET required" (read AdminLog (fun j =>
  match j with
  | None => Ret (writeErr 404 ["admin log not enabled"%string])
  | Some _ =>
      parse (query_get (Query r) (str "from")) "invalid from" (fun from =>
      parse (query_get (Query r) (str "to")) "invalid to" (fun to =>
      Act (fun i s => (s, match AdminLog s with Some j => AdminLog.Range (readable i) from to j | None => Ok [] end))
      (fun evs => match evs with
                  | Err e => Ret (writeErr 400 e)
                  | Ok evs => Ret (writeJSON 200 (AdminLogEvents evs))
                  end)))
  end)).

(** ** Entries and proofs *)

Definition entry_prefix : bytes := str "/api/v0/entries/".

(** The two steps every served entry goes through. *)
Definition disclose {T A} (r : Request T) (e : Entry.t) (note op : bytes) (k : prog A) : prog A :=
  let recorded := recordRead r (Entry.Index e) (Entry.LeafHash e) op k in
  if Entry.Honeypot e then fireHoney r (Entry.Index e) (Entry.LeafHash e) note recorded else recorded.

Definition handleGetEntry (r : Request unit) : handler :=
  only GET r "GET required" (
  let idxStr := TrimPrefix (Path r) entry_prefix in
  if bool_decide (idxStr = []) || bool_decide (Byte.x2f ∈ idxStr)
  then Ret (writeErr 400 ["path must be /entries/<index>"%string])
  else parse idxStr "invalid index" (fun idx =>
    read (fun s => Log.Get (Log s) idx) (fun re =>
    match re with
    | Err e => Ret (writeErr 404 e)
    | Ok entry =>
        disclose r entry (str "GET /entries/{idx}") (str "get_entry") (Ret (writeJSON 200 (EntryResponse entry)))
    end))).

(** The loop of [handleEntriesRange] over [i], [n] indexes left; the guard on
    the range makes [n] at most 10000. *)
Fixpoint range_entries {T} (r : Request T) (n : nat) (i : Z) (acc : list Entry.t) : prog (list Entry.t) :=
  match n with
  | O => Ret acc
  | S n =>
      read (fun s => Log.Get (Log s) i) (fun re =>
      match re with
      | Err _ => Ret acc
      | Ok e => disclose r e (str "GET /entries?from=..&to=..") (str "range_entry")
                  (range_entries r n (i + 1) (acc ++ [e]))
      end)
  end.

Definition handleEntriesRange (r : Request unit) : handler :=
  only GET r "GET required" (
  parse (query_get (Query r) (str "from")) "invalid 'from'" (fun from =>
  parse (query_get (Query r) (str "to")) "invalid 'to'" (fun to =>
  if to <=? from then Ret (writeErr 400 ["'to' must be > 'from'"%string])
  else if 10000 <? to - from then Ret (writeErr 400 ["range too large (max 10000)"%string])
  else bind (range_entries r (Z.to_nat (to - from)) from []) (fun es =>
       Ret (writeJSON 200 (EntriesResponse es from to)))))).

Definition handleSize (r : Request unit) : handler :=
  only GET r "GET required" (
  read (fun s => Log.Size (Log s)) (fun size =>
  read (fun s => Log.Root (Log s)) (fun root =>
  match root with
  | None => Ret Aborted
  | Some root =>
      read (fun s => Log.LatestCheckpoint (Log s)) (fun cp =>
      let head := match cp with Ok (Some c) => Checkpoint.HeadHash c | _ => [] end in
      Ret (writeJSON 200 (SizeResponse size root head)))
  end))).

(** An optional size parameter: absent or empty, the log's size stands. *)
Definition size_param (s : bytes) (dflt : Z) (msg : string) (k : Z -> handler) : handler :=
  if bool_decide (s = []) then k dflt else parse s msg k.

Definition not_current : response := writeErr 501 ["MVP only serves proofs at current tree size"%string].

(** From the lookup of the entry on, for the tree size in question. *)
Definition inclusion_at (idx treeSize : Z) : handler :=
  read (fun s => Log.Get (Log s) idx) (fun re =>
  match re with
  | Err e => Ret (writeErr 404 e)
  | Ok entry =>
      call (fun _ l => Log.InclusionProof l idx treeSize) (fun rp =>
      match rp with
      | Err e => Ret (writeErr 400 e)
      | Ok proof =>
          read (fun s => Log.Root (Log s)) (fun root =>
          match root with
          | None => Ret Aborted
          | Some root =>
              read (fun s => Log.Size (Log s)) (fun size =>
              if negb (treeSize =? size) then Ret not_current
              else Ret (writeJSON 200 (InclusionProofResponse idx treeSize (Entry.LeafHash entry) proof root)))
          end)
      end)
  end).

Definition handleInclusionProof (r : Request unit) : handler :=
  only GET r "GET required" (
  parse (query_get (Query r) (str "index")) "invalid index" (fun idx =>
  read (fun s => Log.Size (Log s)) (fun size =>
  size_param (query_get (Query r) (str "tree_size")) size "invalid tree_size" (inclusion_at idx)))).

(** From the comparison with the current size on. *)
Definition consistency_at (oldSize newSize : Z) : handler :=
  read (fun s => Log.Size (Log s)) (fun size =>
  if negb (newSize =? size) then Ret not_current
  else call (fun _ l => Log.ConsistencyProof l oldSize newSize) (fun rp =>
    match rp with
    | Err e => Ret (writeErr 400 e)
    | Ok proof =>
        read (fun s => Log.Root (Log s)) (fun newRoot =>
        match newRoot with
        | None => Ret Aborted
        | Some newRoot =>
            read (fun s => Log.LatestCheckpoint (Log s)) (fun cp =>
            let oldRoot := match cp with
                           | Ok (Some c) => if Checkpoint.Size c =? oldSize then Checkpoint.RootHash c else []
                           | _ => [] end in
            Ret (writeJSON 200 (ConsistencyProofResponse oldSize newSize oldRoot newRoot proof)))
        end)
    end)).

Definition handleConsistencyProof (r : Request unit) : handler :=
  only GET r "GET required" (
  parse (query_get (Query r) (str "old")) "invalid old" (fun oldSize =>
  read (fun s => Log.Size (Log s)) (fun size =>
  size_param (query_get (Query r) (str "new")) size "invalid new" (consistency_at oldSize)))).

(** ** Keys *)

Definition signer_chain (s : t) : Chain.t := Signer.chain (CheckpointSigner.fws (Log.signer (Log s))).

Definition handlePubKey (r : Request unit) : handler :=
  only GET r "GET required" (
  read signer_chain (fun chain =>
  read (fun s => Log.Origin (Log s)) (fun origin =>
  Ret (writeJSON 200 (PubKeyResponse origin (Chain.RootPublicKey chain) (Chain.ActiveEpoch chain)
                        (hex (take 8 (sha256 (Chain.ActivePublicKey chain))))))))).

Definition handleKeyChain (r : Request unit) : handler :=
  only GET r "GET required" (read signer_chain (fun chain => Ret (writeJSON 200 (KeyChainResponse chain)))).

Definition handleThresholdGroup (r : Request unit) : handler :=
  only GET r "GET required" (
  read (fun s => CheckpointSigner.threshGroup (Log.signer (Log s))) (fun g =>
  Ret (writeJSON 200 (ThresholdGroupResponse g)))).

(** ** Checkpoints and anchors *)

Definition handleCheckpoint (r : Request unit) : handler :=
  match Method r with
  | GET =>
      read (fun s => Log.LatestCheckpoint (Log s)) (fun rc =>
      match rc with
      | Err e => Ret (writeErr 500 e)
      | Ok None => Ret (writeErr 404 ["no checkpoint yet"%string])
      | Ok (Some c) => Ret (writeJSON 200 (CheckpointResponse c))
      end)
  | POST =>
      call (fun i l => Log.MakeCheckpoint l (cio i)) (fun rc =>
      match rc with
      | Err e => Ret (writeErr 500 e)
      | Ok c => Ret (writeJSON 200 (CheckpointResponse c))
      end)
  | _ => Ret (method_not_allowed "GET or POST")
  end.

(** A joined error is reported only when no sink produced a record. *)
Definition handleAnchor (r : Request unit) : handler :=
  only POST r "POST required" (
  call (fun i l => Log.Anchor l (published i)) (fun ra =>
  match ra with
  | Err e => Ret (writeErr 500 e)
  | Ok (recs, errs) =>
      match errs with
      | [] => Ret (writeJSON 200 (AnchorResponse recs))
      | _ => if bool_decide (recs = ∅) then Ret (writeErr 500 (concat errs)) else Ret (writeJSON 200 (AnchorResponse recs))
      end
  end)).

(** ** Administration *)

Definition handleRotate (r : Request unit) : handler :=
  only POST r "POST required" (
  read (fun s => Chain.ActiveEpoch (signer_chain s)) (fun preEpoch =>
  call (fun i l => Log.Rotate l (now i) (gen i) (wr i) (io_new i) (io_prev i)) (fun rr =>
  read (fun s => Chain.ActiveEpoch (signer_chain s)) (fun postEpoch =>
  recordAdmin r (str "rotate") [] [(str "from_epoch", JNum preEpoch); (str "to_epoch", JNum postEpoch)] (err_of rr) (
  match rr with
  | Err e => Ret (writeErr 500 e)
  | Ok _ => read signer_chain (fun chain => Ret (writeJSON 200 (KeyChainResponse chain)))
  end))))).

(** [req.Witness.AddedAt = time.Now().UnixNano()] *)
Definition stamped (w : Witness.t) (now : Z) : Witness.t :=
  Witness.mk (Witness.ID w) (Witness.URL w) (Witness.PublicKey w) (Witness.QuantumPublicKey w) (Witness.Description w) now.

Definition handleWitnesses (r : Request RegisterWitnessRequest) : handler :=
  match Method r with
  | GET =>
      read (fun s => Log.ListWitnesses (Log s)) (fun rw =>
      match rw with
      | Err e => Ret (writeErr 500 e)
      | Ok ws => Ret (writeJSON 200 (ListWitnessesResponse ws))
      end)
  | POST =>
      body r (fun e => e) (fun req =>
      match rw_Witness req with
      | None => Ret (writeErr 400 ["witness.id is required"%string])
      | Some w =>
          if bool_decide (Witness.ID w = []) then Ret (writeErr 400 ["witness.id is required"%string])
          else
            call (fun i l => let w := stamped w (now i) in
                             let '(l, r) := Log.RegisterWitness l (Some w) in (l, (w, r))) (fun '(w, rr) =>
            recordAdmin r (str "witness_add") (Witness.ID w)
              [(str "public_key", JBytes (Witness.PublicKey w)); (str "url", JStr (Witness.URL w))] (err_of rr) (
            match rr with
            | Err e => Ret (writeErr 400 e)
            | Ok _ => Ret (writeJSON 200 (WitnessBody w))
            end))
      end)
  | _ => Ret (method_not_allowed "GET or POST")
  end.

(** The record as [RegisterProducer] leaves it in the caller's hands. *)
Definition registered (p : Producer.t) (now : Z) : Producer.t :=
  if Producer.RegisteredAt p =? 0 then Producer.set_registered p now else p.

Definition handleProducers (r : Request RegisterProducerRequest) : handler :=
  match Method r with
  | GET =>
      read (fun s => Log.ListProducers (Log s)) (fun rp =>
      match rp with
      | Err e => Ret (writeErr 500 e)
      | Ok ps => Ret (writeJSON 200 (ListProducersResponse ps))
      end)
  | POST =>
      body r (fun e => e) (fun req =>
      match rp_Producer req with
      | None => Ret (writeErr 400 ["producer.id is required"%string])
      | Some p =>
          if bool_decide (Producer.ID p = []) then Ret (writeErr 400 ["producer.id is required"%string])
          else
            call (fun i l => let '(l, r) := Log.RegisterProducer l (now i) (Some p) in (l, (registered p (now i), r)))
              (fun '(p, rr) =>
            recordAdmin r (str "producer_register") (Producer.ID p)
              [(str "attestation_type", JStr (Producer.AttestationType p)); (str "public_key", JBytes (Producer.PublicKey p));
               (str "quantum_public_key", JBool (rp_quantum req))] (err_of rr) (
            match rr with
            | Err e => Ret (writeErr 400 e)
            | Ok _ => Ret (writeJSON 200 (ProducerBody p))
            end))
      end)
  | _ => Ret (method_not_allowed "GET or POST")
  end.

(** [time.Duration(req.ValiditySeconds) * time.Second], in [int64]. *)
Definition core_request (req : EnrollmentRequest) : Log.EnrollmentRequest :=
  Log.mk_req (er_ID req) (er_PublicKey req) (er_QuantumPublicKey req) (er_AttestationType req) (er_Description req)
    (er_Scope req) (i64 (er_ValiditySeconds req * 1000000000)).

Definition incomplete (req : EnrollmentRequest) : bool :=
  bool_decide (er_ID req = []) || (len (er_PublicKey req) =? 0).

Definition handleEnrollments (r : Request EnrollmentRequest) : handler :=
  match Method r with
  | GET =>
      read (fun s => Log.ListProducers (Log s)) (fun rp =>
      match rp with
      | Err e => Ret (writeErr 500 e)
      | Ok ps => Ret (writeJSON 200 (ListProducersResponse (filter (fun p => Producer.HasEnrollment p = true) ps)))
      end)
  | POST =>
      body r (fun e => e) (fun req =>
      if incomplete req then Ret (writeErr 400 ["id and public_key are required"%string])
      else
        call (fun i l => Log.IssueEnrollment l (now i) (core_request req)) (fun rp =>
        recordAdmin r (str "enrollment_issue") (er_ID req)
          [(str "attestation_type", JStr (er_AttestationType req)); (str "hybrid", JBool (0 <? len (er_QuantumPublicKey req)));
           (str "scope", JStr (er_Scope req)); (str "validity_seconds", JNum (er_ValiditySeconds req))] (err_of rp) (
        match rp with
        | Err e => Ret (writeErr 400 e)
        | Ok p => Ret (writeJSON 200 (EnrollmentResponse p))
        end)))
  | _ => Ret (method_not_allowed "GET or POST")
  end.

Definition handleEnrollmentsBegin (r : Request EnrollmentRequest) : handler :=
  only POST r "POST required" (body r (fun e => e) (fun req =>
  if incomplete req then Ret (writeErr 400 ["id and public_key are required"%string])
  else
    call (fun i l => Log.BeginEnrollment l (now i) (now2 i) (idRaw i) (nonce i) (core_request req)) (fun rb =>
    match rb with
    | Err e => Ret (writeErr 400 e)
    | Ok b => Ret (writeJSON 200 (BeginEnrollmentResponse (Log.ChallengeID b) (Log.ChallengeBytes b) (Log.ExpiresAt b)))
    end))).

Definition handleEnrollmentsConfirm (r : Request ConfirmEnrollmentRequest) : handler :=
  only POST r "POST required" (body r (fun e => e) (fun req =>
  if bool_decide (cr_ChallengeID req = []) || (len (cr_Signature req) =? 0)
  then Ret (writeErr 400 ["challenge_id and signature are required"%string])
  else
    call (fun i l => Log.ConfirmEnrollment l (now i) (now2 i) (cr_ChallengeID req) (cr_Signature req) (cr_QuantumSignature req))
      (fun rp =>
    let subject := match rp with Ok p => Producer.ID p | Err _ => [] end in
    let hybrid := match rp with Ok p => 0 <? len (Producer.QuantumPublicKey p) | Err _ => false end in
    recordAdmin r (str "enrollment_confirm") subject
      [(str "challenge_id", JStr (cr_ChallengeID req)); (str "hybrid", JBool hybrid)] (err_of rp) (
    match rp with
    | Err e => Ret (writeErr 400 e)
    | Ok p => Ret (writeJSON 200 (EnrollmentResponse p))
    end)))).

Definition handleRevokeProducer (r : Request RevokeProducerRequest) : handler :=
  only POST r "POST required" (body r (fun e => e) (fun req =>
  if bool_decide (rr_ID req = []) then Ret (writeErr 400 ["id is required"%string])
  else
    call (fun i l => Log.RevokeProducer l (now i) (rr_ID req) (rr_Reason req)) (fun rr =>
    recordAdmin r (str "producer_revoke") (rr_ID req) [(str "reason", JStr (rr_Reason req))] (err_of rr) (
    match rr with
    | Err e => Ret (writeErr 400 e)
    | Ok _ => Ret (writeJSON 200 (RevokedBody (rr_ID req)))
    end)))).

(** ** The mux *)

(** A request that reached one of the routes of [NewMux]. *)
Inductive call_to :=
| ToAppend (r : Request AppendRequest)
| ToGetEntry (r : Request unit) | ToEntries (r : Request unit) | ToSize (r : Request unit)
| ToInclusion (r : Request unit) | ToConsistency (r : Request unit)
| ToPubKey (r : Request unit) | ToKeyChain (r : Request unit) | ToThresholdGroup (r : Request unit)
| ToReadLogSize (r : Request unit) | ToReadLogRange (r : Request unit)
| ToAdminLogSize (r : Request unit) | ToAdminLogRange (r : Request unit)
| ToCheckpoint (r : Request unit) | ToAnchor (r : Request unit) | ToRotate (r : Request unit)
| ToProducers (r : Request RegisterProducerRequest) | ToWitnesses (r : Request RegisterWitnessRequest)
| ToEnrollments (r : Request EnrollmentRequest) | ToEnrollmentsBegin (r : Request EnrollmentRequest)
| ToEnrollmentsConfirm (r : Request ConfirmEnrollmentRequest) | ToRevoke (r : Request RevokeProducerRequest).

Definition serve (c : call_to) : handler :=
  match c with
  | ToAppend r => handleAppend r
  | ToGetEntry r => handleGetEntry r
  | ToEntries r => handleEntriesRange r
  | ToSize r => handleSize r
  | ToInclusion r => handleInclusionProof r
  | ToConsistency r => handleConsistencyProof r
  | ToPubKey r => handlePubKey r
  | ToKeyChain r => handleKeyChain r
  | ToThresholdGroup r => handleThresholdGroup r
  | ToReadLogSize r => handleReadLogSize r
  | ToReadLogRange r => handleReadLogRange r
  | ToAdminLogSize r => handleAdminLogSize r
  | ToAdminLogRange r => handleAdminLogRange r
  | ToCheckpoint r => rateLimitAdmin handleCheckpoint r
  | ToAnchor r => rateLimitAdmin handleAnchor r
  | ToRotate r => rateLimitAdmin handleRotate r
  | ToProducers r => rateLimitAdmin handleProducers r
  | ToWitnesses r => rateLimitAdmin handleWitnesses r
  | ToEnrollments r => rateLimitAdmin handleEnrollments r
  | ToEnrollmentsBegin r => rateLimitAdmin handleEnrollmentsBegin r
  | ToEnrollmentsConfirm r => rateLimitAdmin handleEnrollmentsConfirm r
  | ToRevoke r => rateLimitAdmin handleRevokeProducer r
  end.

(** The state [NewMux] starts serving from. *)
Definition NewMux (numCPU : Z) (pol : IngestPolicy) (s : t) : t :=
  set_gate s (Gate.newIngestGate (if is_zero_policy pol then DefaultIngestPolicy numCPU else pol)).

(** ** Execution *)

(** One atomic step of a handler; [None] when it is finished or blocked. *)
Definition advance {A} (i : input) (p : prog A) (s : t) : option (prog A * t) :=
  match p with
  | Ret _ => None
  | Act f k => Some (k (f i s).2, (f i s).1)
  | Acquire k => Some (k (Gate.acquire (gate s)).2, set_gate s (Gate.acquire (gate s)).1)
  | Release k => match Gate.release (gate s) with Some g => Some (k, set_gate s g) | None => None end
  end.

(** A handler running alone, the [n]-th step with the [n]-th input. *)
Fixpoint run {A} (ins : nat -> input) (p : prog A) (s : t) : t * option A :=
  match p with
  | Ret a => (s, Some a)
  | Act f k => run (fun n => ins (S n)) (k (f (ins 0%nat) s).2) (f (ins 0%nat) s).1
  | Acquire k => run (fun n => ins (S n)) (k (Gate.acquire (gate s)).2) (set_gate s (Gate.acquire (gate s)).1)
  | Release k =>
      match Gate.release (gate s) with Some g => run (fun n => ins (S n)) k (set_gate s g) | None => (s, None) end
  end.
End Api.
Arguments Ret {_ _ _ A} _.
Arguments Act {_ _ _ A X} _ _.
Arguments Acquire {_ _ _ A} _.
Arguments Release {_ _ _ A} _.
End Api.
