(* ===== verification/ApiExec.v ===== *)
(** * Concurrent requests

    The server as a pool of concurrent requests, each a handler program of
    [Api], with the log's own timers in the background; rely/guarantee
    reasoning about one request among the others. *)

From S2P Require Import Prelude Utf8 Crypto GoText Journal ReadLog AdminLog Attest Rfc6962 Merkle RefMerkle MerkleProps.
From S2P Require Import LogEntry Threshold Fwdsec Checkpoint Badger Storage Core CoreProps Ingest Api.
From stdpp Require Import base numbers list gmap strings relations.
From Stdlib Require Import ZArith Lia.
Import Api(prog, Ret, Act, Acquire, Release).

#[local] Open Scope Z_scope.

Section Props.
Context {B : Badger value} {CR : CompactRange} {PL : ProofLib} {C : Crypto} {L : Limiter}.
Context {BL : BadgerLaws B} {CRL : CompactRangeLaws CR} {PLL : ProofLibLaws PL} {CL : CryptoLaws C}.

(** ** Interference *)

(** A journal only grows. *)
Definition grows {E} (j j' : option (Journal.t E)) : Prop :=
  match j, j' with
  | None, None => True
  | Some j, Some j' => Journal.items (Journal.dir j) `prefix_of` Journal.items (Journal.dir j')
  | _, _ => False
  end.

Definition alerted (h h' : option (list Alert)) : Prop :=
  match h, h' with
  | None, None => True
  | Some l, Some l' => l `prefix_of` l'
  | _, _ => False
  end.

(** What requests and timers may do to the state a request runs in. *)
Record interferes (s s' : Api.t) : Prop := {
  i_log : rtc Log.step (Api.Log s) (Api.Log s');
  i_cn : Api.RequireClientCertCN s' = Api.RequireClientCertCN s;
  i_read : grows (Api.ReadLog s) (Api.ReadLog s');
  i_admin : grows (Api.AdminLog s) (Api.AdminLog s');
  i_honey : alerted (Api.HoneySink s) (Api.HoneySink s');
}.

#[export] Instance grows_preorder E : PreOrder (@grows E).
Proof.
  split.
  - intros [j|]; [by exists []; rewrite app_nil_r|done].
  - intros [j1|] [j2|] [j3|]; cbn; try done. intros P Q. by etrans.
Qed.

#[export] Instance alerted_preorder : PreOrder alerted.
Proof.
  split.
  - intros [j|]; [by exists []; rewrite app_nil_r|done].
  - intros [j1|] [j2|] [j3|]; cbn; try done. intros P Q. by etrans.
Qed.

#[export] Instance interferes_preorder : PreOrder interferes.
Proof.
  split.
  - intros s. split; reflexivity.
  - intros s1 s2 s3 [] []. split; etrans; eassumption.
Qed.

(** The log stays below the range of its index type. *)
Definition small (s : Api.t) : Prop := Log.Size (Api.Log s) + 1 < 2 ^ 63.

(** ** What a handler may see and do *)

Section Exec.
Variable may : Api.input -> Prop.

(** [exec p s a s']: run from [s] among other requests, with inputs in [may],
    the handler can return [a] in state [s']. *)
Fixpoint exec {A} (p : prog A) (s : Api.t) (a : A) (s' : Api.t) : Prop :=
  match p with
  | Ret b => a = b /\ interferes s s'
  | Act f k => exists i s1, may i /\ small s1 /\ interferes s s1 /\ exec (k (f i s1).2) (f i s1).1 a s'
  | Acquire k => exists s1, interferes s s1 /\
      exec (k (Gate.acquire (Api.gate s1)).2) (Api.set_gate s1 (Gate.acquire (Api.gate s1)).1) a s'
  | Release k => exists s1 g, interferes s s1 /\ Gate.release (Api.gate s1) = Some g /\ exec k (Api.set_gate s1 g) a s'
  end.

(** The same, in an execution in which an action of the handler's own changed
    the log. *)
Fixpoint exec_changing {A} (p : prog A) (s : Api.t) (a : A) (s' : Api.t) : Prop :=
  match p with
  | Ret _ => False
  | Act f k => exists i s1, may i /\ small s1 /\ interferes s s1 /\
      ((Api.Log (f i s1).1 <> Api.Log s1 /\ exec (k (f i s1).2) (f i s1).1 a s') \/
       exec_changing (k (f i s1).2) (f i s1).1 a s')
  | Acquire k => exists s1, interferes s s1 /\
      exec_changing (k (Gate.acquire (Api.gate s1)).2) (Api.set_gate s1 (Gate.acquire (Api.gate s1)).1) a s'
  | Release k => exists s1 g, interferes s s1 /\ Gate.release (Api.gate s1) = Some g /\ exec_changing k (Api.set_gate s1 g) a s'
  end.

Lemma changing_exec {A} (p : prog A) s a s' : exec_changing p s a s' -> exec p s a s'.
Proof.
  revert s. induction p as [b|X f k IH|k IH|k IH]; intros s; cbn [exec_changing exec]; [done|..].
  - intros (i & s1 & M & Sm & I & [[_ E]|E]); exists i, s1; (split_and!; [done..|]); [done|by apply IH].
  - intros (s1 & I & E). exists s1. split; [done|by apply IH].
  - intros (s1 & g & I & R & E). exists s1, g. split_and!; [done|done|by apply IH].
Qed.

Lemma exec_before {A} (p : prog A) s0 s a s' : interferes s0 s -> exec p s a s' -> exec p s0 a s'.
Proof.
  intros I. destruct p as [b|X f k|k|k]; cbn [exec].
  - intros [-> J]. split; [done|by etrans].
  - intros (i & s1 & M & Sm & J & E). exists i, s1. split; [done|]. split; [done|]. split; [by etrans|done].
  - intros (s1 & J & E). exists s1. split; [by etrans|done].
  - intros (s1 & g & J & R & E). exists s1, g. split; [by etrans|done].
Qed.

Lemma exec_advance {A} i (p p' : prog A) s s1 a s' :
  may i -> small s -> Api.advance i p s = Some (p', s1) -> exec p' s1 a s' -> exec p s a s'.
Proof.
  intros M Sm Ad E. destruct p as [b|X f k|k|k]; cbn [Api.advance exec] in *.
  - done.
  - injection Ad as <- <-. by exists i, s.
  - injection Ad as <- <-. by exists s.
  - destruct (Gate.release (Api.gate s)) as [g|] eqn:R; [|done]. injection Ad as <- <-. by exists s, g.
Qed.

Lemma exec_bind {A D} (p : prog A) (k : A -> prog D) s d s' :
  exec (Api.bind p k) s d s' -> exists a s1, exec p s a s1 /\ exec (k a) s1 d s'.
Proof.
  revert s. induction p as [b|X f k' IH|k' IH|p' IH]; intros s; cbn [Api.bind exec].
  - intros E. exists b, s. split; [done|done].
  - intros (i & s1 & M & Sm & I & E). apply IH in E as (a & s2 & E1 & E2). exists a, s2. split; [|done]. by exists i, s1.
  - intros (s1 & I & E). apply IH in E as (a & s2 & E1 & E2). exists a, s2. split; [|done]. by exists s1.
  - intros (s1 & g & I & R & E). apply IH in E as (a & s2 & E1 & E2). exists a, s2. split; [|done]. by exists s1, g.
Qed.
End Exec.

(** The guarantee: every atomic action is interference of the allowed kind. *)
Fixpoint guar {A} (p : prog A) : Prop :=
  match p with
  | Ret _ => True
  | Act f k => forall i s, small s -> interferes s (f i s).1 /\ guar (k (f i s).2)
  | Acquire k => forall b, guar (k b)
  | Release k => guar k
  end.

Lemma gate_interferes s g : interferes s (Api.set_gate s g).
Proof. split; reflexivity. Qed.

Lemma observer_interferes s o : interferes s (Api.set_observer s o).
Proof. split; reflexivity. Qed.

Lemma guar_advance {A} i (p p' : prog A) s s' :
  small s -> guar p -> Api.advance i p s = Some (p', s') -> interferes s s' /\ guar p'.
Proof.
  intros Sm G Ad. destruct p as [b|X f k|k|k]; cbn [Api.advance guar] in *.
  - done.
  - injection Ad as <- <-. by apply G.
  - injection Ad as <- <-. split; [apply gate_interferes|apply G].
  - destruct (Gate.release (Api.gate s)) as [g|]; [|done]. injection Ad as <- <-. split; [apply gate_interferes|done].
Qed.

Lemma guar_bind {A D} (p : prog A) (k : A -> prog D) : guar p -> (forall a, guar (k a)) -> guar (Api.bind p k).
Proof.
  intros G K. induction p as [b|X f k' IH|k' IH|p' IH]; cbn [Api.bind guar] in *; [done| |auto..].
  intros i s Sm. destruct (G i s Sm). auto.
Qed.

Lemma guar_read {A X} (f : Api.t -> X) (k : X -> prog A) : (forall s, guar (k (f s))) -> guar (Api.read f k).
Proof. intros G i s _. split; [reflexivity|apply G]. Qed.

Lemma guar_gate {A X} (f : Api.input -> Api.t -> Gate.t * X) (k : X -> prog A) :
  (forall x, guar (k x)) -> guar (Act (fun i s => let '(g, ok) := f i s in (Api.set_gate s g, ok)) k).
Proof. intros G i s _. destruct (f i s) as [g x]. split; [apply gate_interferes|apply G]. Qed.

Lemma set_log_interferes s l : rtc Log.step (Api.Log s) l -> interferes s (Api.set_log s l).
Proof. intros R. split; [exact R|reflexivity..]. Qed.

Lemma guar_call {A X} (f : Api.input -> Log.t -> Log.t * X) (k : X -> prog A) :
  (forall i l, Log.Size l + 1 < 2 ^ 63 -> rtc Log.step l (f i l).1 /\ guar (k (f i l).2)) -> guar (Api.call f k).
Proof.
  intros G i s Sm. destruct (f i (Api.Log s)) as [l x] eqn:E. specialize (G i (Api.Log s) Sm). rewrite E in G.
  destruct G as [R G]. split; [by apply set_log_interferes|done].
Qed.

Lemma persist_grows {E} `{!SealedEvent E} cc io (ev : E) (j : Journal.t E) :
  Journal.items (Journal.dir j) `prefix_of` Journal.items (Journal.dir (Journal.persist cc io ev j).1).
Proof.
  unfold Journal.persist. destruct (Journal.opened io); [|done].
  destruct (Journal.wrote io); [by apply prefix_app_r|].
  destruct (Journal.synced io); cbn [negb]; [|by apply prefix_app_r].
  destruct (_ && _); by apply prefix_app_r.
Qed.

Lemma read_append_grows now io i lh op ip ua j :
  Journal.items (Journal.dir j) `prefix_of` Journal.items (Journal.dir (ReadLog.Append now io i lh op ip ua j).1).
Proof.
  unfold ReadLog.Append. destruct (Journal.persist _ _ _ _) as [j' r] eqn:E.
  cbn. change j' with (j', r).1. rewrite <- E. apply persist_grows.
Qed.

Lemma admin_action_grows now io a d j :
  Journal.items (Journal.dir j) `prefix_of` Journal.items (Journal.dir (AdminLog.Action now io a d j).1).
Proof.
  unfold AdminLog.Action. destruct d as [[raw|e]|]; [|done|];
    (destruct (Journal.persist _ _ _ _) as [j' r] eqn:E; cbn; change j' with (j', r).1; rewrite <- E; apply persist_grows).
Qed.

Lemma guar_recordRead {T A} (r : Request T) i lh op (k : prog A) : guar k -> guar (Api.recordRead r i lh op k).
Proof.
  intros G n s _. destruct (Api.ReadLog s) as [j|] eqn:E; cbn; [|by split; [reflexivity|]].
  pose proof (read_append_grows (Api.now n) (Api.jio n) i lh op (RemoteAddr r) (UserAgent r) j) as P.
  destruct (ReadLog.Append _ _ _ _ _ _ _ _) as [j' r']. split; [|done]. split; cbn; try reflexivity. by rewrite E.
Qed.

Lemma guar_recordAdmin {T A} (r : Request T) a sub d e (k : prog A) : guar k -> guar (Api.recordAdmin r a sub d e k).
Proof.
  intros G. unfold Api.recordAdmin. cbn [guar]. intros n s _. unfold Api.note_admin.
  destruct (Api.AdminLog s) as [j|] eqn:E; [|by split; [reflexivity|]]. cbv zeta.
  match goal with |- context [AdminLog.Action ?x1 ?x2 ?x3 ?x4 j] => pose proof (admin_action_grows x1 x2 x3 x4 j) as P;
    destruct (AdminLog.Action x1 x2 x3 x4 j) as [j' r'] end.
  split; [|done]. split; cbn [fst Api.set_adminlog Api.Log Api.RequireClientCertCN Api.ReadLog Api.AdminLog Api.HoneySink];
    try reflexivity. by rewrite E.
Qed.

Lemma guar_fireHoney {T A} (r : Request T) i lh note (k : prog A) : guar k -> guar (Api.fireHoney r i lh note k).
Proof.
  intros G n s _. destruct (Api.HoneySink s) as [l|] eqn:E; cbn; (split; [|done]); [|reflexivity].
  split; cbn; try reflexivity. rewrite E. by apply prefix_app_r.
Qed.

Lemma guar_only {T} m (r : Request T) msg k : guar k -> guar (Api.only m r msg k).
Proof. intros G. unfold Api.only. by destruct (negb _). Qed.

Lemma guar_parse s msg k : (forall n, is_u64 n -> guar (k n)) -> guar (Api.parse s msg k).
Proof. intros G. unfold Api.parse. destruct (ParseUint s) eqn:E; [|done]. apply G. by eapply ParseUint_u64. Qed.

Lemma guar_body {T} (r : Request T) w k : (forall v, guar (k v)) -> guar (Api.body r w k).
Proof. intros G. unfold Api.body. by destruct (Body r). Qed.

(** A call on the log that is one step of it. *)
Lemma guar_step {A X} (f : Api.input -> Log.t -> Log.t * X) (k : X -> prog A) :
  (forall i l, Log.step l (f i l).1) -> (forall x, guar (k x)) -> guar (Api.call f k).
Proof. intros S G. apply guar_call. intros i l _. split; [by apply rtc_once|apply G]. Qed.

Ltac guards :=
  repeat first
    [ apply guar_only | apply guar_parse; intros | apply guar_body; intros | apply guar_read; intros
    | apply guar_recordAdmin | apply guar_recordRead | apply guar_fireHoney | apply guar_gate; intros
    | exact I | case_match ].

Lemma guar_append_slot env hp : guar (Api.append_slot env hp).
Proof.
  unfold Api.append_slot. intros i s _. cbn [fst snd]. split; [reflexivity|].
  destruct (Log.authorise _ _ _) as [env'|] eqn:Au; [|exact I].
  apply authorise_verified in Au as V.
  apply guar_call. intros j l Sm. split.
  - apply rtc_once. eapply Log.step_append; [exact V|exact Sm|apply surjective_pairing].
  - case_match; [|exact I]. intros i' s' _. split; [|exact I]. split; cbn; reflexivity.
Qed.

Lemma guar_admit env hp : guar (Api.admission env hp).
Proof.
  unfold Api.admission. apply guar_gate. intros [|]; cbn [negb]; [|guards].
  intros [|]; cbn [negb]; [apply guar_append_slot|guards].
Qed.

Lemma guar_append r : guar (Api.handleAppend r).
Proof.
  unfold Api.handleAppend. apply guar_only, guar_body. intros req. destruct (ar_Envelope req) as [env|]; [|exact I].
  apply guar_read. intros s. destruct (Api.RequireClientCertCN s); [|apply guar_admit].
  destruct (TLS r) as [[|cn cns]|]; [exact I| |exact I]. case_match; [exact I|apply guar_admit].
Qed.

Lemma guar_disclose {T A} (r : Request T) e note op (k : prog A) : guar k -> guar (Api.disclose r e note op k).
Proof. intros G. unfold Api.disclose. cbv zeta. case_match; [apply guar_fireHoney|]; by apply guar_recordRead. Qed.

Lemma guar_range {T} (r : Request T) n : forall i acc, guar (Api.range_entries r n i acc).
Proof.
  induction n as [|n IH]; intros i acc; cbn [Api.range_entries]; [exact I|].
  apply guar_read. intros s. case_match; [apply guar_disclose, IH|exact I].
Qed.

Lemma guar_entries r : guar (Api.handleEntriesRange r).
Proof.
  unfold Api.handleEntriesRange. guards. apply guar_bind; [apply guar_range|done].
Qed.

Lemma guar_getEntry r : guar (Api.handleGetEntry r).
Proof.
  unfold Api.handleGetEntry. apply guar_only. cbv zeta. case_match; [exact I|]. apply guar_parse. intros n _.
  apply guar_read. intros s. case_match; [|exact I]. by apply guar_disclose.
Qed.

Lemma guar_size_param s d msg k : (forall n, guar (k n)) -> guar (Api.size_param s d msg k).
Proof. intros G. unfold Api.size_param. case_match; [apply G|]. apply guar_parse. intros; apply G. Qed.

Lemma guar_inclusion r : guar (Api.handleInclusionProof r).
Proof.
  unfold Api.handleInclusionProof. apply guar_only, guar_parse. intros idx _. apply guar_read. intros s0.
  apply guar_size_param. intros n. unfold Api.inclusion_at. apply guar_read. intros s.
  case_match; [|exact I]. apply guar_step; [|intros; guards].
  intros i l. eapply Log.step_inclusion, surjective_pairing.
Qed.

Lemma guar_consistency r : guar (Api.handleConsistencyProof r).
Proof.
  unfold Api.handleConsistencyProof. apply guar_only, guar_parse. intros old Ho. apply guar_read. intros s0.
  apply guar_size_param. intros n. unfold Api.consistency_at. apply guar_read. intros s.
  case_match; [exact I|]. apply guar_step; [|intros; guards].
  intros i l. eapply Log.step_consistency, surjective_pairing. apply Ho.
Qed.

Lemma guar_checkpoint r : guar (Api.handleCheckpoint r).
Proof.
  unfold Api.handleCheckpoint. destruct (Method r); guards. apply guar_step; [|intros; guards].
  intros i l. eapply Log.step_checkpoint, surjective_pairing.
Qed.

Lemma guar_anchor r : guar (Api.handleAnchor r).
Proof.
  unfold Api.handleAnchor. apply guar_only, guar_step; [|intros; guards].
  intros i l. eapply Log.step_anchor, surjective_pairing.
Qed.

Lemma guar_rotate r : guar (Api.handleRotate r).
Proof.
  unfold Api.handleRotate. apply guar_only, guar_read. intros s. apply guar_step; [|intros; guards].
  intros i l. eapply Log.step_rotate, surjective_pairing.
Qed.

Lemma guar_witnesses r : guar (Api.handleWitnesses r).
Proof.
  unfold Api.handleWitnesses. destruct (Method r); guards. apply guar_step; [|intros []; guards].
  intros i l. destruct (Log.RegisterWitness l _) as [l' x] eqn:E. by eapply Log.step_witness.
Qed.

Lemma guar_producers r : guar (Api.handleProducers r).
Proof.
  unfold Api.handleProducers. destruct (Method r); guards. apply guar_step; [|intros []; guards].
  intros i l. destruct (Log.RegisterProducer l _ _) as [l' x] eqn:E. by eapply Log.step_register.
Qed.

Lemma guar_enrollments r : guar (Api.handleEnrollments r).
Proof.
  unfold Api.handleEnrollments. destruct (Method r); guards. apply guar_step; [|intros; guards].
  intros i l. eapply Log.step_issue, surjective_pairing.
Qed.

Lemma guar_begin r : guar (Api.handleEnrollmentsBegin r).
Proof.
  unfold Api.handleEnrollmentsBegin. guards. apply guar_step; [|intros; guards].
  intros i l. eapply Log.step_begin, surjective_pairing.
Qed.

Lemma guar_confirm r : guar (Api.handleEnrollmentsConfirm r).
Proof.
  unfold Api.handleEnrollmentsConfirm. guards. apply guar_step; [|intros; guards].
  intros i l. eapply Log.step_confirm, surjective_pairing.
Qed.

Lemma guar_revoke r : guar (Api.handleRevokeProducer r).
Proof.
  unfold Api.handleRevokeProducer. guards. apply guar_step; [|intros; guards].
  intros i l. eapply Log.step_revoke, surjective_pairing.
Qed.

Lemma guar_limited {T} (next : Request T -> prog response) r : guar (next r) -> guar (Api.rateLimitAdmin next r).
Proof.
  intros G. unfold Api.rateLimitAdmin. case_match; [done|]. apply guar_gate. intros [|]; cbn [negb]; [done|guards].
Qed.

(** Every atomic action of every endpoint is interference of the allowed kind. *)
Lemma serve_guar c : guar (Api.serve c).
Proof.
  destruct c; cbn [Api.serve]; try apply guar_limited;
    auto using guar_append, guar_entries, guar_getEntry, guar_inclusion, guar_consistency, guar_checkpoint, guar_anchor,
      guar_rotate, guar_witnesses, guar_producers, guar_enrollments, guar_begin, guar_confirm, guar_revoke.
  all: unfold Api.handleSize, Api.handlePubKey, Api.handleKeyChain, Api.handleThresholdGroup, Api.handleReadLogSize,
    Api.handleAdminLogSize; guards.
  all: unfold Api.handleReadLogRange, Api.handleAdminLogRange; guards.
  all: intros i s' _; split; [reflexivity|]; guards.
Qed.

(** ** The pool of requests *)

(** A request in progress; [slot]: whether it has a slot of the semaphore. *)
Record thread := mk_thread { to : Api.call_to; rest : prog response; slot : bool }.

Definition slot_after (p : prog response) (s : Api.t) (h : bool) : bool :=
  match p with
  | Acquire _ => (Gate.acquire (Api.gate s)).2
  | Release _ => false
  | _ => h
  end.

Section Pool.
Variable may : Api.input -> Prop.

(** Requests arrive and advance in any order; the timers' calls on the log and
    the limiter's janitor run in between. *)
Inductive pool_step : list thread * Api.t -> list thread * Api.t -> Prop :=
| arrives ts s c : pool_step (ts, s) (ts ++ [mk_thread c (Api.serve c) false], s)
| advances ts1 th ts2 s i p s' :
    may i -> small s -> Api.advance i (rest th) s = Some (p, s') ->
    pool_step (ts1 ++ th :: ts2, s) (ts1 ++ mk_thread (to th) p (slot_after (rest th) s (slot th)) :: ts2, s')
| ticks ts s l : Log.step (Api.Log s) l -> pool_step (ts, s) (ts, Api.set_log s l)
| evicts ts s now older :
    pool_step (ts, s) (ts, Api.set_gate s (Gate.evictIdle now older (Api.gate s)).1).

(** The invariant behind the refinement: a request in progress can only end as
    the whole handler, started in [s0], can. *)
Definition tracks (s0 s : Api.t) (th : thread) : Prop :=
  guar (rest th) /\ forall a s', exec may (rest th) s a s' -> exec may (Api.serve (to th)) s0 a s'.

Lemma tracks_later s0 s s1 th : interferes s s1 -> tracks s0 s th -> tracks s0 s1 th.
Proof. intros I [G X]. split; [done|]. intros a s' E. apply X. by eapply exec_before. Qed.

Lemma pool_tracks s0 ts s :
  rtc pool_step ([], s0) (ts, s) -> interferes s0 s /\ Forall (tracks s0 s) ts.
Proof.
  intros R. change (interferes s0 (ts, s).2 /\ Forall (tracks s0 (ts, s).2) (ts, s).1). revert R.
  apply (rtc_ind_r (fun c => interferes s0 c.2 /\ Forall (tracks s0 c.2) c.1) ([], s0)); [split; [reflexivity|constructor]|].
  intros [ts2 s2] c3 _ St [I F]. cbn [fst snd] in I, F. inversion St; subst; cbn [fst snd].
  - split; [done|]. apply Forall_app. split; [done|]. constructor; [|constructor].
    split; [apply serve_guar|]. intros a s' X. by eapply exec_before.
  - apply Forall_app in F as [F1 F]. apply Forall_cons in F as [[G X] F2].
    destruct (guar_advance i (rest th) p s2 s') as [J G']; [done..|]. split; [by etrans|].
    apply Forall_app. split; [|constructor].
    + eapply Forall_impl; [exact F1|]. intros ? ?. by eapply tracks_later.
    + split; [done|]. intros a s'' E. apply X. by eapply exec_advance.
    + eapply Forall_impl; [exact F2|]. intros ? ?. by eapply tracks_later.
  - assert (interferes s2 (Api.set_log s2 l)) as J by by apply set_log_interferes, rtc_once.
    split; [by etrans|]. eapply Forall_impl; [exact F|]. intros ? ?. by eapply tracks_later.
  - pose proof (gate_interferes s2 (Gate.evictIdle now older (Api.gate s2)).1) as J.
    split; [by etrans|]. eapply Forall_impl; [exact F|]. intros ? ?. by eapply tracks_later.
Qed.
End Pool.

(** *** The semaphore *)

(** From a point where it has ([h]) or has not a slot, the handler takes a slot
    only without one, gives one back only with one, and ends without one. *)
Fixpoint balanced {A} (p : prog A) (h : bool) : Prop :=
  match p with
  | Ret _ => h = false
  | Act f k => forall i s, Gate.sem (Api.gate (f i s).1) = Gate.sem (Api.gate s) /\ balanced (k (f i s).2) h
  | Acquire k => h = false /\ balanced (k true) true /\ balanced (k false) false
  | Release k => h = true /\ balanced k false
  end.

Lemma bal_read {A X} (f : Api.t -> X) (k : X -> prog A) h : (forall s, balanced (k (f s)) h) -> balanced (Api.read f k) h.
Proof. intros G i s. split; [reflexivity|apply G]. Qed.

Lemma bal_call {A X} (f : Api.input -> Log.t -> Log.t * X) (k : X -> prog A) h :
  (forall x, balanced (k x) h) -> balanced (Api.call f k) h.
Proof. intros G i s. destruct (f i (Api.Log s)) as [l x] eqn:E. split; [reflexivity|apply G]. Qed.

Lemma bal_bind {A D} (p : prog A) (k : A -> prog D) h :
  balanced p h -> (forall a, balanced (k a) false) -> balanced (Api.bind p k) h.
Proof.
  revert h. induction p as [b|X f k' IH|k' IH|p' IH]; intros h; cbn [Api.bind balanced].
  - intros -> K. apply K.
  - intros G K i s. destruct (G i s). auto.
  - intros (-> & ? & ?) K. auto.
  - intros [-> ?] K. auto.
Qed.

Lemma bal_recordRead {T A} (r : Request T) i lh op (k : prog A) h :
  balanced k h -> balanced (Api.recordRead r i lh op k) h.
Proof.
  intros G n s. split; [|done]. destruct (Api.ReadLog s); [|done]. by destruct (ReadLog.Append _ _ _ _ _ _ _ _).
Qed.

Lemma bal_recordAdmin {T A} (r : Request T) a sub d e (k : prog A) h :
  balanced k h -> balanced (Api.recordAdmin r a sub d e k) h.
Proof.
  intros G n s. split; [|done]. unfold Api.note_admin. destruct (Api.AdminLog s); [|done]. cbv zeta. by destruct (AdminLog.Action _ _ _ _ _).
Qed.

Lemma bal_fireHoney {T A} (r : Request T) i lh note (k : prog A) h :
  balanced k h -> balanced (Api.fireHoney r i lh note k) h.
Proof. intros G n s. split; [|done]. by destruct (Api.HoneySink s). Qed.

Lemma bal_only {T} m (r : Request T) msg k : balanced k false -> balanced (Api.only m r msg k) false.
Proof. intros G. unfold Api.only. by destruct (negb _). Qed.

Lemma bal_parse s msg k : (forall n, balanced (k n) false) -> balanced (Api.parse s msg k) false.
Proof. intros G. unfold Api.parse. destruct (ParseUint s); [apply G|done]. Qed.

Lemma bal_body {T} (r : Request T) w k : (forall v, balanced (k v) false) -> balanced (Api.body r w k) false.
Proof. intros G. unfold Api.body. destruct (Body r); [apply G|done..]. Qed.

Lemma bal_admin_gate {A} actor (k : bool -> prog A) h :
  (forall ok, balanced (k ok) h) ->
  balanced (Act (fun i s => let '(g, ok) := Gate.allowAdmin (Api.now i) (Api.now2 i) actor (Api.gate s) in
                            (Api.set_gate s g, ok)) k) h.
Proof.
  intros G i s. pose proof (Gate.allowAdmin_sem (Api.now i) (Api.now2 i) actor (Api.gate s)) as E.
  destruct (Gate.allowAdmin _ _ _ _) as [g ok]. split; [exact E|apply G].
Qed.

Lemma bal_producer_gate {A} id (k : bool -> prog A) h :
  (forall ok, balanced (k ok) h) ->
  balanced (Act (fun i s => let '(g, ok) := Gate.allowProducer (Api.now i) (Api.now2 i) id (Api.gate s) in
                            (Api.set_gate s g, ok)) k) h.
Proof.
  intros G i s. pose proof (Gate.allowProducer_sem (Api.now i) (Api.now2 i) id (Api.gate s)) as E.
  destruct (Gate.allowProducer _ _ _ _) as [g ok]. split; [exact E|apply G].
Qed.

Ltac balances :=
  repeat first
    [ apply bal_only | apply bal_parse; intros | apply bal_body; intros | apply bal_read; intros
    | apply bal_call; intros | apply bal_recordAdmin | apply bal_recordRead | apply bal_fireHoney
    | apply bal_admin_gate; intros | apply bal_producer_gate; intros | exact eq_refl | case_match ].

Lemma bal_admit env hp : balanced (Api.admission env hp) false.
Proof.
  unfold Api.admission. apply bal_producer_gate. intros [|]; cbn [negb]; [|balances].
  split; [done|]. cbn [negb]. split; [|balances]. unfold Api.append_slot.
  intros i s. split; [done|]. case_match; [|by split]. apply bal_call. intros [e|e]; [|by split].
  intros i' s'. split; [done|]. by split.
Qed.

Lemma bal_range {T} (r : Request T) n : forall i acc, balanced (Api.range_entries r n i acc) false.
Proof.
  induction n as [|n IH]; intros i acc; cbn [Api.range_entries]; [done|].
  apply bal_read. intros s. case_match; [|done]. unfold Api.disclose. cbv zeta. balances; apply IH.
Qed.

Lemma bal_append r : balanced (Api.handleAppend r) false.
Proof.
  unfold Api.handleAppend. apply bal_only, bal_body. intros req. destruct (ar_Envelope req) as [env|]; [|done].
  apply bal_read. intros s. destruct (Api.RequireClientCertCN s); [|apply bal_admit].
  destruct (TLS r) as [[|cn cns]|]; [done| |done]. case_match; [done|apply bal_admit].
Qed.

Lemma serve_balanced c : balanced (Api.serve c) false.
Proof.
  destruct c; cbn [Api.serve]; [apply bal_append|..]; unfold Api.rateLimitAdmin; balances;
    unfold Api.handleGetEntry, Api.handleEntriesRange, Api.handleSize, Api.handleInclusionProof,
      Api.handleConsistencyProof, Api.handlePubKey, Api.handleKeyChain, Api.handleThresholdGroup, Api.handleReadLogSize,
      Api.handleReadLogRange, Api.handleAdminLogSize, Api.handleAdminLogRange, Api.handleCheckpoint, Api.handleAnchor,
      Api.handleRotate, Api.handleProducers, Api.handleWitnesses, Api.handleEnrollments, Api.handleEnrollmentsBegin,
      Api.handleEnrollmentsConfirm, Api.handleRevokeProducer, Api.size_param, Api.disclose; cbv zeta; balances;
    try (apply bal_bind; [apply bal_range|done]).
  all: unfold Api.inclusion_at, Api.consistency_at; balances.
  all: intros i s'; split; [reflexivity|]; balances.
Qed.

(** Every request holds a slot exactly where its handler says so, and the
    channel counts them. *)
Definition holders (ts : list thread) : Z := len (filter (fun th => slot th = true) ts).

Definition counted (cap : Z) (ts : list thread) (s : Api.t) : Prop :=
  Forall (fun th => balanced (rest th) (slot th)) ts /\
  Gate.sem (Api.gate s) = Some (Gate.mk_sem cap (holders ts)) /\ holders ts <= cap.

Lemma holders_app ts1 ts2 : holders (ts1 ++ ts2) = holders ts1 + holders ts2.
Proof. unfold holders. rewrite filter_app. unfold len. rewrite length_app. lia. Qed.

Lemma holders_cons th ts : holders (th :: ts) = (if slot th then 1 else 0) + holders ts.
Proof.
  unfold holders. destruct (slot th) eqn:E.
  - rewrite filter_cons_True by done. unfold len. simpl. lia.
  - by rewrite filter_cons_False by congruence.
Qed.

Lemma holders_nonneg ts : 0 <= holders ts.
Proof. unfold holders, len. lia. Qed.

(** One request advances among the others. *)
Lemma counted_advance cap ts1 th ts2 s i p s' :
  counted cap (ts1 ++ th :: ts2) s -> Api.advance i (rest th) s = Some (p, s') ->
  counted cap (ts1 ++ mk_thread (to th) p (slot_after (rest th) s (slot th)) :: ts2) s'.
Proof.
  intros (F & S & Le) Ad. apply Forall_app in F as [F1 F]. apply Forall_cons in F as [Hb F2].
  pose proof (holders_nonneg ts1). pose proof (holders_nonneg ts2).
  unfold counted. rewrite holders_app, holders_cons in *. cbn [slot rest].
  rewrite Forall_app, Forall_cons. cbn [slot rest].
  destruct (rest th) as [b|X f k|k|k]; cbn [Api.advance slot_after balanced] in *.
  - done.
  - injection Ad as <- <-. destruct (Hb i s) as [E Hb']. split_and!; [done|done|done|by rewrite E|done].
  - destruct Hb as (Hs & Ht & Hf). rewrite Hs in *. injection Ad as <- <-.
    pose proof (Gate.acquire_sem (Api.gate s) _ _ (surjective_pairing _)) as A. rewrite S in A.
    destruct (Gate.acquire (Api.gate s)) as [g [|]]; cbn [fst snd] in *; cbn in A |- *.
    + destruct A as [A ->]. split_and!; [done|done|done|f_equal; f_equal; lia|lia].
    + destruct A as [_ ->]. split_and!; done.
  - destruct Hb as [Hs Hb]. rewrite Hs in *. unfold Gate.release in Ad. rewrite S in Ad. cbn [Gate.used Gate.cap] in Ad.
    destruct (_ <? _); [|done]. injection Ad as <- <-. split_and!; [done|done|done|cbn; f_equal; f_equal; lia|lia].
Qed.

Lemma pool_counted may cap s0 ts s :
  0 <= cap -> Gate.sem (Api.gate s0) = Some (Gate.mk_sem cap 0) -> rtc (pool_step may) ([], s0) (ts, s) -> counted cap ts s.
Proof.
  intros Hc S0 R. change (counted cap (ts, s).1 (ts, s).2). revert R.
  apply (rtc_ind_r (fun c => counted cap c.1 c.2) ([], s0)); [done|].
  intros [ts2 s2] c3 _ St I. cbn [fst snd] in I. inversion St; subst; cbn [fst snd].
  - destruct I as (F & S & Le). unfold counted. rewrite holders_app, holders_cons, Forall_app. cbn [slot].
    rewrite Z.add_0_r. split_and!; [done| |done|done]. constructor; [apply serve_balanced|constructor].
  - by eapply counted_advance.
  - exact I.
  - exact I.
Qed.

(** ** Reading executions *)

Section Inversions.
Variable may : Api.input -> Prop.

Lemma exec_only {T} m (r : Request T) msg k s a s' :
  exec may (Api.only m r msg k) s a s' -> a = method_not_allowed msg \/ (Method r = m /\ exec may k s a s').
Proof. unfold Api.only. case_bool_decide; cbn [negb]; [by right|intros [-> _]; by left]. Qed.

Lemma exec_parse t msg k s a s' :
  exec may (Api.parse t msg k) s a s' ->
  (exists e, a = writeErr 400 e) \/ exists n, ParseUint t = Ok n /\ exec may (k n) s a s'.
Proof. unfold Api.parse. destruct (ParseUint t); [by right; eauto|intros [-> _]; by left; eauto]. Qed.

Lemma exec_size_param t d msg k s a s' :
  exec may (Api.size_param t d msg k) s a s' ->
  (exists e, a = writeErr 400 e) \/ exists n, (is_u64 d -> is_u64 n) /\ exec may (k n) s a s'.
Proof.
  unfold Api.size_param. case_bool_decide; [by right; eauto|].
  intros [?|(n & P & ?)]%exec_parse; [by left|right; exists n]. split; [intros _; by eapply ParseUint_u64|done].
Qed.

Lemma exec_body {T} (r : Request T) w k s a s' :
  exec may (Api.body r w k) s a s' ->
  (exists st e, st <> 200 /\ a = writeErr st e) \/ exists v, Body r = Decoded v /\ exec may (k v) s a s'.
Proof.
  unfold Api.body. destruct (Body r); [by right; eauto|intros [-> _]; left..].
  - by exists 413, ["request body exceeds size limit"%string].
  - by exists 400, (w e).
Qed.

Lemma exec_read {X} (f : Api.t -> X) k s (a : response) s' :
  exec may (Api.read f k) s a s' -> exists s1, interferes s s1 /\ exec may (k (f s1)) s1 a s'.
Proof. intros (i & s1 & _ & _ & I & E). by exists s1. Qed.

Lemma exec_call {X} (f : Api.input -> Log.t -> Log.t * X) k s (a : response) s' :
  exec may (Api.call f k) s a s' ->
  exists i s1 l x, may i /\ small s1 /\ interferes s s1 /\ f i (Api.Log s1) = (l, x) /\
    exec may (k x) (Api.set_log s1 l) a s'.
Proof.
  intros (i & s1 & M & Sm & I & E). exists i, s1. destruct (f i (Api.Log s1)) as [l x]. eauto 8.
Qed.

(** What a handler leaves behind is itself interference. *)
Lemma exec_later {A} (p : prog A) s a s' : guar p -> exec may p s a s' -> interferes s s'.
Proof.
  revert s. induction p as [b|X f k IH|k IH|k IH]; intros s G; cbn [exec guar] in *.
  - by intros [_ ?].
  - intros (i & s1 & _ & Sm & I & E). destruct (G i s1 Sm) as [J G']. etrans; [exact I|]. etrans; [exact J|].
    by eapply IH.
  - intros (s1 & I & E). etrans; [exact I|]. etrans; [apply gate_interferes|]. by eapply IH.
  - intros (s1 & g & I & _ & E). etrans; [exact I|]. etrans; [apply gate_interferes|]. by eapply IH.
Qed.

(** Every reply of a handler has property [P]. *)
Fixpoint replies {A} (P : A -> Prop) (p : prog A) : Prop :=
  match p with
  | Ret a => P a
  | Act f k => forall i s, replies P (k (f i s).2)
  | Acquire k => forall b, replies P (k b)
  | Release k => replies P k
  end.

Lemma exec_replies {A} (P : A -> Prop) (p : prog A) s a s' : replies P p -> exec may p s a s' -> P a.
Proof.
  revert s. induction p as [b|X f k IH|k IH|k IH]; intros s R; cbn [exec replies] in *.
  - by intros [-> _].
  - intros (i & s1 & _ & _ & _ & E). by eapply IH.
  - intros (s1 & _ & E). by eapply IH.
  - intros (s1 & g & _ & _ & E). by eapply IH.
Qed.
End Inversions.

(** The log along an execution only grows. *)
Lemma ok_later s s1 es : interferes s s1 -> Log.ok (Api.Log s) es ->
  exists es1, Log.ok (Api.Log s1) es1 /\ es `prefix_of` es1.
Proof. intros I O. eapply Log.steps_ok; [exact O|apply I]. Qed.

Lemma ok_root l es root : Log.ok l es -> Log.Root l = Some root -> root = MTH (map Entry.LeafHash es).
Proof. intros O R. destruct (Log.ok_observes l es O) as (_ & R' & _). congruence. Qed.

(** A proof is only made of a size the log has reached. *)
Lemma inclusion_made l es idx n l' p :
  Log.ok l es -> 0 <= idx -> Log.InclusionProof l idx n = (l', Ok p) ->
  idx < n <= len es /\ p = PATH (Z.to_nat idx) (take (Z.to_nat n) (map Entry.LeafHash es)) /\ Log.ok l' es.
Proof.
  intros O Hi E. assert (Log.ok l' es) as O' by by eapply Log.ok_inclusion.
  unfold Log.InclusionProof in E. destruct (Tree.InclusionProof idx n (Log.tree l)) as [tr r] eqn:T.
  injection E as <- ->. pose proof (Log.ok_tree _ _ O) as Ot.
  assert (idx < n <= len es) as Hn.
  { unfold Tree.InclusionProof in T. rewrite (Tree.ok_size _ _ Ot), len_map in T.
    destruct (Z.ltb_spec (len es) n); [done|]. destruct (Inclusion idx n) as [nd|] eqn:En; [|done].
    apply inclusion_range in En. lia. }
  split_and!; [lia|lia| |done].
  destruct (Tree.InclusionProof_ok (Log.tree l) (map Entry.LeafHash es) idx n Ot) as (tr' & T' & _);
    [lia|rewrite len_map; lia|]. congruence.
Qed.

Lemma consistency_made l es m n l' p :
  Log.ok l es -> 0 < m -> Log.ConsistencyProof l m n = (l', Ok p) ->
  m <= n <= len es /\ p = PROOF (Z.to_nat m) (take (Z.to_nat n) (map Entry.LeafHash es)) /\ Log.ok l' es.
Proof.
  intros O Hm E. assert (Log.ok l' es) as O' by (eapply Log.ok_consistency; [|exact O|exact E]; lia).
  unfold Log.ConsistencyProof in E. destruct (Tree.ConsistencyProof m n (Log.tree l)) as [tr r] eqn:T.
  injection E as <- ->. pose proof (Log.ok_tree _ _ O) as Ot.
  assert (m <= n <= len es) as Hn.
  { unfold Tree.ConsistencyProof in T. rewrite (Tree.ok_size _ _ Ot), len_map in T.
    destruct (Z.ltb_spec n m); [done|]. destruct (Z.ltb_spec (len es) n); [done|lia]. }
  split_and!; [lia|lia| |done].
  destruct (Tree.ConsistencyProof_ok (Log.tree l) (map Entry.LeafHash es) m n Ot) as (tr' & T' & _);
    [lia|rewrite len_map; lia|]. congruence.
Qed.

(** ** A request running alone is one of its executions *)

Fixpoint run_small {A} (ins : nat -> Api.input) (p : prog A) (s : Api.t) : bool :=
  (Log.Size (Api.Log s) + 1 <? 2 ^ 63) &&
  match p with
  | Ret _ => true
  | Act f k => run_small (fun n => ins (S n)) (k (f (ins 0%nat) s).2) (f (ins 0%nat) s).1
  | Acquire k =>
      run_small (fun n => ins (S n)) (k (Gate.acquire (Api.gate s)).2) (Api.set_gate s (Gate.acquire (Api.gate s)).1)
  | Release k =>
      match Gate.release (Api.gate s) with Some g => run_small (fun n => ins (S n)) k (Api.set_gate s g) | None => true end
  end.

Lemma run_exec (may : Api.input -> Prop) {A} (p : prog A) : forall ins s s' a,
  (forall n, may (ins n)) -> run_small ins p s = true -> Api.run ins p s = (s', Some a) -> exec may p s a s'.
Proof.
  induction p as [b|X f k IH|k IH|k IH]; intros ins s s' a M Sm R; cbn [run_small Api.run exec] in *;
    apply andb_true_iff in Sm as [Sm1 Sm]; apply Z.ltb_lt in Sm1.
  - injection R as <- <-. split; [done|reflexivity].
  - exists (ins 0%nat), s. split; [done|]. split; [done|]. split; [reflexivity|].
    eapply IH; [|exact Sm|exact R]. intros; apply M.
  - exists s. split; [reflexivity|]. eapply IH; [|exact Sm|exact R]. intros; apply M.
  - destruct (Gate.release (Api.gate s)) as [g|] eqn:Re; [|done]. exists s, g. split; [reflexivity|]. split; [done|].
    eapply IH; [|exact Sm|exact R]. intros; apply M.
Qed.

(** A request served alone that leaves another log behind. *)
Lemma run_changing (may : Api.input -> Prop) {A} (p : prog A) : forall ins s s' a,
  (forall n, may (ins n)) -> run_small ins p s = true -> Api.run ins p s = (s', Some a) ->
  forall T (q : Log.t -> T) `{!EqDecision T}, q (Api.Log s') <> q (Api.Log s) -> exec_changing may p s a s'.
Proof.
  induction p as [b|X f k IH|k IH|k IH]; intros ins s s' a M Sm R T q D N; cbn [run_small Api.run exec_changing] in *;
    apply andb_true_iff in Sm as [Sm1 Sm]; apply Z.ltb_lt in Sm1.
  - injection R as <- <-. done.
  - exists (ins 0%nat), s. split_and!; [done|done|reflexivity|].
    destruct (decide (q (Api.Log (f (ins 0%nat) s).1) = q (Api.Log s))) as [E|E].
    + right. apply (IH _ (fun n => ins (S n)) _ s' a (fun n => M (S n)) Sm R T q D). by rewrite E.
    + left. split; [congruence|]. eapply (run_exec may _ (fun n => ins (S n))); [intros; apply M|exact Sm|exact R].
  - exists s. split; [reflexivity|]. exact (IH _ (fun n => ins (S n)) _ s' a (fun n => M (S n)) Sm R T q D N).
  - destruct (Gate.release (Api.gate s)) as [g|] eqn:Re; [|done]. exists s, g. split_and!; [reflexivity|done|].
    exact (IH (fun n => ins (S n)) _ s' a (fun n => M (S n)) Sm R T q D N).
Qed.

Lemma pool_one (may : Api.input -> Prop) c (p p' : prog response) h i s s' :
  may i -> small s -> Api.advance i p s = Some (p', s') ->
  pool_step may ([mk_thread c p h], s) ([mk_thread c p' (slot_after p s h)], s').
Proof. intros M Sm Ad. by apply (advances may [] (mk_thread c p h) [] s i). Qed.

Lemma run_pool (may : Api.input -> Prop) c (p : prog response) : forall ins h s s' a,
  (forall n, may (ins n)) -> run_small ins p s = true -> Api.run ins p s = (s', Some a) ->
  exists h', rtc (pool_step may) ([mk_thread c p h], s) ([mk_thread c (Ret a) h'], s').
Proof.
  induction p as [b|X f k IH|k IH|k IH]; intros ins h s s' a M Sm R; cbn [run_small Api.run] in *;
    apply andb_true_iff in Sm as [Sm1 Sm]; apply Z.ltb_lt in Sm1.
  - injection R as <- <-. exists h. reflexivity.
  - edestruct (IH (f (ins 0%nat) s).2) as [h' Rt]; [|exact Sm|exact R|]; [intros; apply M|].
    exists h'. eapply rtc_l; [|exact Rt]. by apply (pool_one may c _ _ h (ins 0%nat)).
  - edestruct (IH (Gate.acquire (Api.gate s)).2) as [h' Rt]; [|exact Sm|exact R|]; [intros; apply M|].
    exists h'. eapply rtc_l; [|exact Rt]. by apply (pool_one may c _ _ h (ins 0%nat)).
  - destruct (Gate.release (Api.gate s)) as [g|] eqn:Re; [|done].
    edestruct IH as [h' Rt]; [|exact Sm|exact R|]; [intros; apply M|].
    exists h'. eapply rtc_l; [|exact Rt]. apply (pool_one may c (Release k) k h (ins 0%nat)); [done|done|].
    cbn [Api.advance]. by rewrite Re.
Qed.
End Props.
