(* ===== verification/ApiProps.v ===== *)
(** * Properties of the operator's API *)

From S2P Require Import Prelude Utf8 Crypto GoText Journal ReadLog AdminLog Attest Rfc6962 Merkle RefMerkle MerkleProps.
From S2P Require Import LogEntry Threshold Fwdsec Checkpoint Badger Storage Core CoreProps Ingest Api ApiExec.
From stdpp Require Import base numbers list gmap strings relations.
From Stdlib Require Import ZArith Lia.
Import Api(prog, Ret, Act, Acquire, Release).

#[local] Open Scope Z_scope.

Section Props.
Context {B : Badger value} {CR : CompactRange} {PL : ProofLib} {C : Crypto} {L : Limiter}.
Context {BL : BadgerLaws B} {CRL : CompactRangeLaws CR} {PLL : ProofLibLaws PL} {CL : CryptoLaws C}.
Variable may : Api.input -> Prop.

Lemma take_all_len {A} (l : list A) n : n = len l -> take (Z.to_nat n) l = l.
Proof. intros ->. unfold len. rewrite Nat2Z.id. by apply take_ge. Qed.

Lemma inclusion_at_sound idx n s es ra i n' leaf proof root s' :
  0 <= idx -> is_u64 idx -> Log.ok (Api.Log s) es ->
  exec may (Api.inclusion_at idx n) s (Reply 200 ra (InclusionProofResponse i n' leaf proof root)) s' ->
  exists es' e, es `prefix_of` es' /\ (exists es'', Log.ok (Api.Log s') es'' /\ es' `prefix_of` es'') /\
    i = idx /\ n' = len es' /\ es' !! Z.to_nat i = Some e /\ leaf = Entry.LeafHash e /\
    root = MTH (map Entry.LeafHash es') /\ Tree.VerifyInclusion i n' leaf proof root = true.
Proof.
  intros Hi Hu O (s1 & I1 & E)%exec_read. destruct (ok_later s s1 es I1 O) as (es1 & O1 & P1).
  destruct (Log.Get (Api.Log s1) idx) as [entry|] eqn:G; [|by destruct E].
  apply exec_call in E as (inp & s2 & l & x & _ & _ & I2 & Ei & E).
  destruct (ok_later s1 s2 es1 I2 O1) as (es2 & O2 & P2).
  destruct x as [pf|]; [|by destruct E].
  apply (inclusion_made _ es2) in Ei as (Hn & -> & O2'); [|done|done].
  apply exec_read in E as (s3 & I3 & E).
  destruct (ok_later (Api.set_log s2 l) s3 es2 I3 O2') as (es3 & O3 & P3).
  destruct (Log.Root (Api.Log s3)) as [rt|] eqn:R; [|by destruct E].
  apply (ok_root _ _ _ O3) in R as ->.
  apply exec_read in E as (s4 & I4 & E). destruct (ok_later s3 s4 es3 I4 O3) as (es4 & O4 & P4).
  pose proof (Log.log_size _ _ O4) as Sz. change (Log.Size (Api.Log s4) = len es4) in Sz. rewrite Sz in E.
  destruct (Z.eqb_spec n (len es4)) as [->|]; cbn [negb] in E; [|by destruct E].
  destruct E as [[= -> -> -> -> ->] I5]. destruct (ok_later s4 s' es4 I5 O4) as (es5 & O5 & P5).
  assert (es2 = es3) as <-.
  { apply prefix_length_eq; [done|]. pose proof (prefix_length _ _ P4). unfold len in Hn. lia. }
  assert (es2 = es4) as <-.
  { apply prefix_length_eq; [done|]. unfold len in Hn. lia. }
  assert (es2 !! Z.to_nat idx = Some entry) as He.
  { eapply prefix_lookup_Some; [|exact P2]. destruct (Log.ok_observes _ _ O1) as (_ & _ & Hg & _). by apply Hg. }
  exists es2, entry. split; [by etrans|]. split; [by exists es5|]. split_and!; try done.
  assert (len (Entry.LeafHash entry) = HashSize) as Hl.
  { eapply Entry.chain_leaf_sized; [by eapply list_elem_of_lookup_2|apply O2]. }
  pose proof (Tree.PATH_verifies (map Entry.LeafHash es2) idx (len es2) (Entry.LeafHash entry)) as V.
  rewrite (take_all_len (map Entry.LeafHash es2)) in V |- * by by rewrite len_map.
  rewrite H0. apply V; [lia|by rewrite len_map| |done]. by rewrite list_lookup_fmap, He.
Qed.

(** C9. Inclusion proofs under concurrent appends: whatever other requests do
    while it is served, an inclusion proof the API answers with status 200 is
    coherent - tree size, leaf, proof and root all belong to one moment of the
    log, between the request's start and its end, and the proof verifies. *)
Theorem inclusion_endpoint_sound r s ra i n leaf proof root s' es :
  reachable (Api.Log s) -> Log.observes (Api.Log s) es ->
  exec may (Api.handleInclusionProof r) s (Reply 200 ra (InclusionProofResponse i n leaf proof root)) s' ->
  exists es' e es'', es `prefix_of` es' /\ es' `prefix_of` es'' /\ Log.observes (Api.Log s') es'' /\
    n = len es' /\ es' !! Z.to_nat i = Some e /\ leaf = Entry.LeafHash e /\
    root = MTH (map Entry.LeafHash es') /\ Tree.VerifyInclusion i n leaf proof root = true.
Proof.
  intros [es0 O]%reachable_ok Ob E. assert (es0 = es) as -> by by eapply Log.observes_unique.
  apply exec_only in E as [?|[_ E]]; [done|]. apply exec_parse in E as [[??]|(idx & P & E)]; [done|].
  apply ParseUint_u64 in P. apply exec_read in E as (s1 & I1 & E). destruct (ok_later s s1 es I1 O) as (es1 & O1 & P1).
  apply exec_size_param in E as [[??]|(m & _ & E)]; [done|].
  destruct (inclusion_at_sound idx m s1 es1 _ _ _ _ _ _ _ (proj1 P) P O1 E)
    as (es' & e & P2 & (es'' & O'' & P3) & -> & ? & ? & ? & ? & ?).
  exists es', e, es''. split; [by etrans|]. split; [done|]. split; [by apply Log.ok_observes|]. by split_and!.
Qed.

(** What [append_locked] puts in the log is the envelope it was given. *)
Lemma append_locked_envelope l es now env hp l' e :
  Log.ok l es -> Envelope.Verify env = Ok tt -> Log.Size l + 1 < 2 ^ 63 -> Log.append_locked l now env hp = (l', Ok e) ->
  Entry.Envelope e = Some env /\ Entry.Honeypot e = hp /\ Entry.Index e = len es /\ Log.ok l' (es ++ [e]).
Proof.
  intros O V Sm A. pose proof (Log.log_size l es O) as Sz.
  destruct (Log.append_locked_cases l es now env hp l' _ O (proj1 (Envelope.Verify_valid env) V) ltac:(rewrite <- Sz; exact Sm) A)
    as [[[= ->] O']|[[x ?] _]]; [|done].
  by split_and!.
Qed.

(** Between [l0] and [l'] the envelope passed the checks in some state of the log,
    and after that the very call that made the entry ran. *)
Definition authorised_append (l0 : Log.t) (env : Envelope.t) (hp : bool) (e : Entry.t) (l' : Log.t) : Prop :=
  exists l now1 l1 now2 l2, rtc Log.step l0 l /\ Log.permitted l now1 env /\ rtc Log.step l l1 /\
    Log.append_locked l1 now2 env hp = (l2, Ok e) /\ rtc Log.step l2 l'.

Lemma authorised_append_wider l0 l0' env hp e l l' :
  rtc Log.step l0 l0' -> authorised_append l0' env hp e l -> rtc Log.step l l' -> authorised_append l0 env hp e l'.
Proof.
  intros S0 (a & n1 & b & n2 & c & S1 & Pm & S2 & A & S3) S4. exists a, n1, b, n2, c.
  split_and!; [by etrans|done|done|done|by etrans].
Qed.

(** An envelope that got past the gates is appended after it was authorised. *)
Lemma admit_accepted env hp s ra e s' es :
  Log.ok (Api.Log s) es -> exec may (Api.admission env hp) s (Reply 200 ra (AppendResponse e)) s' ->
  Entry.Envelope e = Some env /\ Entry.Honeypot e = hp /\ authorised_append (Api.Log s) env hp e (Api.Log s') /\
  exists es', Log.observes (Api.Log s') es' /\ es' !! Z.to_nat (Entry.Index e) = Some e.
Proof.
  intros O (i1 & s1 & _ & _ & I1 & E). destruct (Gate.allowProducer _ _ _ _) as [g ok]. cbn [fst snd] in E.
  destruct ok; cbn [negb] in E; [|apply exec_read in E as (? & _ & [? _]); done].
  destruct E as (s2 & I2 & E). destruct (Gate.acquire (Api.gate s2)) as [g2 [|]]; cbn [fst snd negb] in E;
    [|apply exec_read in E as (? & _ & [? _]); done].
  destruct E as (i3 & s3 & _ & _ & I3 & E). cbn [fst snd] in E.
  assert (interferes s s3) as J1.
  { etrans; [exact I1|]. etrans; [apply gate_interferes|]. etrans; [exact I2|]. etrans; [apply gate_interferes|exact I3]. }
  destruct (ok_later s s3 es J1 O) as (es3 & O3 & _).
  destruct (Log.authorise _ _ _) as [v|] eqn:Au; [|by destruct E as (? & ? & ? & ? & ? & _)].
  pose proof Au as Au'. apply authorise_verified in Au. apply Log.authorise_iff in Au' as [-> Pm]; [|apply O3].
  apply exec_call in E as (i4 & s4 & l & x & _ & Sm4 & I4 & A & E). destruct (ok_later s3 s4 es3 I4 O3) as (es4 & O4 & _).
  destruct x as [e'|]; [|by destruct E as (? & ? & ? & ? & ? & _)].
  destruct (append_locked_envelope _ es4 _ _ _ _ _ O4 Au Sm4 A) as (A1 & A2 & A3 & O5).
  destruct E as (i5 & s5 & _ & _ & I5 & s6 & g6 & I6 & _ & [= _ ->] & I7). cbn [fst] in I6.
  assert (interferes (Api.set_log s4 l) s') as J2.
  { etrans; [exact I5|]. etrans; [|etrans; [exact I6|etrans; [apply gate_interferes|exact I7]]]. apply observer_interferes. }
  split; [done|]. split; [done|]. split.
  { exists (Api.Log s3), (Api.now i3), (Api.Log s4), (Api.now i4), l.
    split_and!; [apply J1|done|apply I4|exact A|apply (i_log _ _ J2)]. }
  destruct (ok_later (Api.set_log s4 l) s' (es4 ++ [e']) J2 O5) as (es' & O' & P').
  exists es'. split; [by apply Log.ok_observes|]. eapply prefix_lookup_Some; [|exact P'].
  rewrite A3. unfold len. rewrite Nat2Z.id. by apply list_lookup_middle.
Qed.

Lemma append_served r s ra e s' :
  reachable (Api.Log s) -> exec may (Api.handleAppend r) s (Reply 200 ra (AppendResponse e)) s' ->
  exists req env, Body r = Decoded req /\ ar_Envelope req = Some env /\ Entry.Envelope e = Some env /\
    Entry.Honeypot e = ar_Honeypot req /\
    (Api.RequireClientCertCN s = true -> exists cn cns, TLS r = Some (cn :: cns) /\ TrimSpace cn = Envelope.ProducerID env) /\
    authorised_append (Api.Log s) env (ar_Honeypot req) e (Api.Log s') /\
    exists es', Log.observes (Api.Log s') es' /\ es' !! Z.to_nat (Entry.Index e) = Some e.
Proof.
  intros [es O]%reachable_ok E. apply exec_only in E as [?|[_ E]]; [done|].
  apply exec_body in E as [(? & ? & _ & ?)|(req & Bd & E)]; [done|].
  destruct (ar_Envelope req) as [env|] eqn:Ev; [|by destruct E]. apply exec_read in E as (s1 & I1 & E).
  destruct (ok_later s s1 es I1 O) as (es1 & O1 & _). exists req, env. pose proof (i_cn _ _ I1) as Hcn.
  assert (exec may (Api.admission env (ar_Honeypot req)) s1 (Reply 200 ra (AppendResponse e)) s' /\
    (Api.RequireClientCertCN s1 = true -> exists cn cns, TLS r = Some (cn :: cns) /\ TrimSpace cn = Envelope.ProducerID env))
    as [E' Cn].
  { destruct (Api.RequireClientCertCN s1); [|done]. destruct (TLS r) as [[|cn cns]|]; [by destruct E| |by destruct E].
    destruct (decide (TrimSpace cn = Envelope.ProducerID env)) as [Eq|N].
    - rewrite bool_decide_true in E by done. split; [exact E|]. by exists cn, cns.
    - rewrite bool_decide_false in E by done. by destruct E. }
  destruct (admit_accepted _ _ _ _ _ _ es1 O1 E') as (A1 & A2 & A3 & A4).
  split_and!; [done|done|done|done|by rewrite <- Hcn| |done].
  by eapply authorised_append_wider; [apply I1|exact A3|].
Qed.

(** C11. What a 200 on /append means, whatever other requests do meanwhile: the
    entry carries exactly the request's envelope and honeypot mark, and it was
    made by this request's locked append, run after the envelope had passed the
    authorisation checks in a state of the log between the request's start and
    that append; the entry is in the log at its index when the reply is sent,
    and with mutual TLS the client certificate names the producer. *)
Theorem append_endpoint_sound r s ra e s' :
  reachable (Api.Log s) -> exec may (Api.handleAppend r) s (Reply 200 ra (AppendResponse e)) s' ->
  exists req env, Body r = Decoded req /\ ar_Envelope req = Some env /\ Entry.Envelope e = Some env /\
    Entry.Honeypot e = ar_Honeypot req /\
    (Api.RequireClientCertCN s = true -> exists cn cns, TLS r = Some (cn :: cns) /\ TrimSpace cn = Envelope.ProducerID env) /\
    authorised_append (Api.Log s) env (ar_Honeypot req) e (Api.Log s') /\
    exists es', Log.observes (Api.Log s') es' /\ es' !! Z.to_nat (Entry.Index e) = Some e.
Proof. apply append_served. Qed.

(** *** The journals *)

(** The journal files take their writes. *)
Definition writes_through (i : Api.input) : Prop :=
  Journal.opened (Api.jio i) = true /\ Journal.wrote (Api.jio i) = None /\
  Journal.synced (Api.jio i) = true /\ Journal.closed (Api.jio i) = true.

(** The read log holds an event for the entry, naming the caller. *)
Definition read_noted (s : Api.t) (addr agent : bytes) (e : Entry.t) : Prop :=
  exists j ev, Api.ReadLog s = Some j /\ Journal.Line ev ∈ Journal.items (Journal.dir j) /\
    ReadEvent.EntryIdx ev = Entry.Index e /\ ReadEvent.LeafHash ev = Entry.LeafHash e /\
    ReadEvent.CallerIP ev = json_string addr /\ ReadEvent.UserAgent ev = json_string agent.

Lemma read_noted_later s s' addr agent e : interferes s s' -> read_noted s addr agent e -> read_noted s' addr agent e.
Proof.
  intros I (j & ev & R & In & F). pose proof (i_read _ _ I) as G. rewrite R in G. unfold grows in G.
  destruct (Api.ReadLog s') as [j'|] eqn:R'; [|done]. exists j', ev. split; [done|]. split; [|done].
  destruct G as [k ->]. apply elem_of_app. by left.
Qed.

Lemma readlog_kept s s' : interferes s s' -> is_Some (Api.ReadLog s) -> is_Some (Api.ReadLog s').
Proof. intros I [j J]. pose proof (i_read _ _ I) as G. rewrite J in G. by destruct (Api.ReadLog s'). Qed.

(** The alerts hold one for the entry. *)
Definition alert_fired (s : Api.t) (addr agent : bytes) (e : Entry.t) : Prop :=
  exists l a, Api.HoneySink s = Some l /\ a ∈ l /\ al_EntryIdx a = Entry.Index e /\
    al_LeafHash a = Entry.LeafHash e /\ al_CallerIP a = addr /\ al_UserAgent a = agent.

Lemma alert_fired_later s s' addr agent e : interferes s s' -> alert_fired s addr agent e -> alert_fired s' addr agent e.
Proof.
  intros I (l & a & R & In & F). pose proof (i_honey _ _ I) as G. rewrite R in G. unfold alerted in G.
  destruct (Api.HoneySink s') as [l'|] eqn:R'; [|done]. exists l', a. split; [done|]. split; [|done].
  destruct G as [k ->]. apply elem_of_app. by left.
Qed.

Lemma honey_kept s s' : interferes s s' -> is_Some (Api.HoneySink s) -> is_Some (Api.HoneySink s').
Proof. intros I [j J]. pose proof (i_honey _ _ I) as G. rewrite J in G. by destruct (Api.HoneySink s'). Qed.

(** What is on record about a served entry. *)
Definition on_record (s : Api.t) (addr agent : bytes) (e : Entry.t) : Prop :=
  (is_Some (Api.ReadLog s) -> read_noted s addr agent e) /\
  (is_Some (Api.HoneySink s) -> Entry.Honeypot e = true -> alert_fired s addr agent e).

Lemma on_record_later s s' addr agent e : interferes s s' -> on_record s addr agent e -> on_record s' addr agent e.
Proof.
  intros I [R H]. split.
  - intros [j J]. eapply read_noted_later; [exact I|]. apply R. pose proof (i_read _ _ I) as G. rewrite J in G.
    by destruct (Api.ReadLog s).
  - intros [j J] Hp. eapply alert_fired_later; [exact I|]. apply H; [|done]. pose proof (i_honey _ _ I) as G. rewrite J in G.
    by destruct (Api.HoneySink s).
Qed.

Section Recorded.
Hypothesis may_write : forall i, may i -> writes_through i.

(** After [recordRead] the event is in the journal's file. *)
Lemma recordRead_notes {T A} (r : Request T) e op (k : prog A) s a s' :
  exec may (Api.recordRead r (Entry.Index e) (Entry.LeafHash e) op k) s a s' ->
  exists s1, interferes s s1 /\ (is_Some (Api.ReadLog s1) -> read_noted s1 (RemoteAddr r) (UserAgent r) e) /\ exec may k s1 a s'.
Proof.
  intros (i & s1 & M & _ & I & E). destruct (may_write i M) as (W1 & W2 & W3 & _).
  destruct (Api.ReadLog s1) as [j|] eqn:J; cbn [fst snd] in E; cycle 1.
  { exists s1. split; [done|]. split; [|exact E]. rewrite J. by intros [??]. }
  unfold ReadLog.Append, Journal.persist, Journal.landed in E. rewrite W1, W2, W3 in E. cbn [negb andb] in E.
  eexists. split; [|split; [|exact E]].
  - etrans; [exact I|]. cbn [fst]. split; cbn; try reflexivity. rewrite J. by apply prefix_app_r.
  - intros _. cbn [fst]. eexists _, _. split; [reflexivity|]. cbn.
    split; [apply elem_of_app; right; apply list_elem_of_singleton; reflexivity|]. done.
Qed.

Lemma fireHoney_fires {T A} (r : Request T) e note (k : prog A) s a s' :
  exec may (Api.fireHoney r (Entry.Index e) (Entry.LeafHash e) note k) s a s' ->
  exists s1, interferes s s1 /\ (is_Some (Api.HoneySink s1) -> alert_fired s1 (RemoteAddr r) (UserAgent r) e) /\ exec may k s1 a s'.
Proof.
  intros (i & s1 & M & _ & I & E).
  destruct (Api.HoneySink s1) as [l|] eqn:J; cbn [fst snd] in E; cycle 1.
  { exists s1. split; [done|]. split; [|exact E]. rewrite J. by intros [??]. }
  eexists. split; [|split; [|exact E]].
  - etrans; [exact I|]. split; cbn; try reflexivity. rewrite J. by apply prefix_app_r.
  - intros _. eexists _, _. split; [reflexivity|]. cbn.
    split; [apply elem_of_app; right; apply list_elem_of_singleton; reflexivity|]. done.
Qed.

Lemma disclose_records {T A} (r : Request T) e note op (k : prog A) s a s' :
  exec may (Api.disclose r e note op k) s a s' ->
  exists s1, interferes s s1 /\ on_record s1 (RemoteAddr r) (UserAgent r) e /\ exec may k s1 a s'.
Proof.
  unfold Api.disclose. cbv zeta. destruct (Entry.Honeypot e) eqn:Hp.
  - intros (s1 & I1 & F & E)%fireHoney_fires. apply recordRead_notes in E as (s2 & I2 & N & E).
    exists s2. split; [by etrans|]. split; [|done]. split; [done|]. intros S _.
    eapply alert_fired_later; [exact I2|]. apply F. destruct S as [l S]. pose proof (i_honey _ _ I2) as G.
    rewrite S in G. by destruct (Api.HoneySink s1).
  - intros (s2 & I2 & N & E)%recordRead_notes. exists s2. split; [done|]. split; [|done]. split; [done|congruence].
Qed.

Lemma range_records {T} (r : Request T) n : forall i acc s es s',
  Forall (on_record s (RemoteAddr r) (UserAgent r)) acc -> exec may (Api.range_entries r n i acc) s es s' ->
  Forall (on_record s' (RemoteAddr r) (UserAgent r)) es.
Proof.
  assert (forall acc s s', interferes s s' -> Forall (on_record s (RemoteAddr r) (UserAgent r)) acc ->
    Forall (on_record s' (RemoteAddr r) (UserAgent r)) acc) as Later.
  { intros acc s s' I F. eapply Forall_impl; [exact F|]. intros ? ?. by eapply on_record_later. }
  induction n as [|n IH]; intros i acc s es s' F E; cbn [Api.range_entries] in E.
  - destruct E as [-> I]. by eapply Later.
  - destruct E as (inp & s1 & _ & _ & I1 & E). cbn [fst snd] in E. apply (Later _ _ _ I1) in F.
    destruct (Log.Get _ _) as [e|]; [|destruct E as [-> I]; by eapply Later].
    apply disclose_records in E as (s2 & I2 & R & E). apply (Later _ _ _ I2) in F.
    eapply IH; [|exact E]. apply Forall_app. split; [done|]. by constructor.
Qed.
End Recorded.

(** The entries a reply discloses (the reply to an append returns the caller's
    own entry). *)
Definition disclosed (a : response) : list Entry.t :=
  match a with Reply _ _ (EntryResponse e) => [e] | Reply _ _ (EntriesResponse es _ _) => es | _ => [] end.

Definition caller (c : Api.call_to) : bytes * bytes :=
  match c with
  | Api.ToAppend r => (RemoteAddr r, UserAgent r)
  | Api.ToGetEntry r | Api.ToEntries r | Api.ToSize r | Api.ToInclusion r | Api.ToConsistency r | Api.ToPubKey r
  | Api.ToKeyChain r | Api.ToThresholdGroup r | Api.ToReadLogSize r | Api.ToReadLogRange r | Api.ToAdminLogSize r
  | Api.ToAdminLogRange r | Api.ToCheckpoint r | Api.ToAnchor r | Api.ToRotate r => (RemoteAddr r, UserAgent r)
  | Api.ToProducers r => (RemoteAddr r, UserAgent r)
  | Api.ToWitnesses r => (RemoteAddr r, UserAgent r)
  | Api.ToEnrollments r | Api.ToEnrollmentsBegin r => (RemoteAddr r, UserAgent r)
  | Api.ToEnrollmentsConfirm r => (RemoteAddr r, UserAgent r)
  | Api.ToRevoke r => (RemoteAddr r, UserAgent r)
  end.

(** Endpoints other than the two entry endpoints disclose no entry. *)
Ltac quiet :=
  repeat first
    [ exact eq_refl
    | progress cbn [replies Api.read Api.call Api.recordAdmin fst snd negb]
    | progress intros
    | case_match ].

Lemma serve_quiet c :
  match c with Api.ToGetEntry _ | Api.ToEntries _ => True | _ => replies (fun a => disclosed a = []) (Api.serve c) end.
Proof.
  destruct c; cbn [Api.serve]; try exact I;
    unfold Api.rateLimitAdmin, Api.handleAppend, Api.handleSize, Api.handleInclusionProof,
      Api.handleConsistencyProof, Api.handlePubKey, Api.handleKeyChain, Api.handleThresholdGroup, Api.handleReadLogSize,
      Api.handleReadLogRange, Api.handleAdminLogSize, Api.handleAdminLogRange, Api.handleCheckpoint, Api.handleAnchor,
      Api.handleRotate, Api.handleProducers, Api.handleWitnesses, Api.handleEnrollments, Api.handleEnrollmentsBegin,
      Api.handleEnrollmentsConfirm, Api.handleRevokeProducer, Api.size_param, Api.only, Api.parse, Api.body, Api.admission,
      Api.append_slot, Api.inclusion_at, Api.consistency_at; quiet.
Qed.

(** C12. Every read of an entry is on record: whichever endpoint it came from and
    whatever else the server was doing, each entry in a reply has an event in
    the read log that names the caller, and an alert if it is a honeypot -
    provided the read log is enabled and takes its writes (respectively a sink
    is configured). *)
Theorem reads_are_recorded c s a s' :
  (forall i, may i -> writes_through i) -> exec may (Api.serve c) s a s' ->
  Forall (fun e =>
    (is_Some (Api.ReadLog s) -> read_noted s' (caller c).1 (caller c).2 e) /\
    (is_Some (Api.HoneySink s) -> Entry.Honeypot e = true -> alert_fired s' (caller c).1 (caller c).2 e)) (disclosed a).
Proof.
  intros W E. pose proof (exec_later may _ _ _ _ (serve_guar c) E) as J.
  assert (Forall (on_record s' (caller c).1 (caller c).2) (disclosed a)) as F.
  { pose proof (serve_quiet c) as Q.
    destruct c; try (rewrite (exec_replies may _ _ _ _ _ Q E); exact (List.Forall_nil _)); clear Q; cbn [Api.serve caller fst snd] in *.
    - apply exec_only in E as [->|[_ E]]; [exact (List.Forall_nil _)|]. cbv zeta in E. destruct (_ || _); [destruct E as [-> _]; exact (List.Forall_nil _)|].
      apply exec_parse in E as [[? ->]|(n & _ & E)]; [exact (List.Forall_nil _)|]. apply exec_read in E as (s1 & I1 & E).
      destruct (Log.Get _ _) as [e|]; [|destruct E as [-> _]; exact (List.Forall_nil _)].
      apply (disclose_records W) in E as (s2 & I2 & R & -> & I3). cbn [disclosed writeJSON]. constructor; [|constructor].
      eapply on_record_later; [exact I3|exact R].
    - apply exec_only in E as [->|[_ E]]; [exact (List.Forall_nil _)|].
      apply exec_parse in E as [[? ->]|(n & _ & E)]; [exact (List.Forall_nil _)|].
      apply exec_parse in E as [[? ->]|(m & _ & E)]; [exact (List.Forall_nil _)|].
      destruct (_ <=? _); [destruct E as [-> _]; exact (List.Forall_nil _)|]. destruct (_ <? _); [destruct E as [-> _]; exact (List.Forall_nil _)|].
      apply exec_bind in E as (es & s1 & E & -> & I1). apply (range_records W) in E; [|constructor]. cbn [disclosed].
      eapply Forall_impl; [exact E|]. intros e R. eapply on_record_later; [exact I1|exact R]. }
  eapply Forall_impl; [exact F|]. intros e [R H]. split.
  - intros S. apply R. by eapply readlog_kept.
  - intros S. apply H. by eapply honey_kept.
Qed.

(** *** Administration *)

(** The admin log holds an event for the action, with its outcome and actor. *)
Definition admin_noted (s : Api.t) {T} (r : Request T) (action outcome : bytes) : Prop :=
  exists j ev, Api.AdminLog s = Some j /\ Journal.Line ev ∈ Journal.items (Journal.dir j) /\
    AdminEvent.Action ev = json_string action /\ AdminEvent.Outcome ev = json_string outcome /\
    AdminEvent.Actor ev = json_string (callerIdentity r) /\ AdminEvent.CallerIP ev = json_string (RemoteAddr r).

Lemma admin_noted_later s s' {T} (r : Request T) act out : interferes s s' -> admin_noted s r act out -> admin_noted s' r act out.
Proof.
  intros I (j & ev & R & In & F). pose proof (i_admin _ _ I) as G. rewrite R in G. unfold grows in G.
  destruct (Api.AdminLog s') as [j'|] eqn:R'; [|done]. exists j', ev. split; [done|]. split; [|done].
  destruct G as [k ->]. apply elem_of_app. by left.
Qed.

Lemma adminlog_kept s s' : interferes s s' -> is_Some (Api.AdminLog s) -> is_Some (Api.AdminLog s').
Proof. intros I [j J]. pose proof (i_admin _ _ I) as G. rewrite J in G. by destruct (Api.AdminLog s'). Qed.

Definition outcome (err : option error) : bytes := match err with None => str "ok" | Some _ => str "error" end.

(** The action of [recordAdmin] on a journal that takes its writes. *)
Lemma recordAdmin_effect {T} (r : Request T) act sub d err i s :
  writes_through i -> is_Some (Api.AdminLog s) ->
  exists j, Api.note_admin r act sub d err i s = (Api.set_adminlog s (Some j), tt) /\
    interferes s (Api.set_adminlog s (Some j)) /\ admin_noted (Api.set_adminlog s (Some j)) r act (outcome err).
Proof.
  intros (W1 & W2 & W3 & W4) [j J]. unfold Api.note_admin. rewrite J. cbv zeta.
  unfold AdminLog.Action, Journal.persist, Journal.landed. rewrite W1, W2, W3, W4. cbn [negb andb fst].
  eexists. split; [reflexivity|]. split.
  - split; cbn; try reflexivity. rewrite J. by apply prefix_app_r.
  - eexists _, _. split; [reflexivity|]. cbn.
    split; [apply elem_of_app; right; apply list_elem_of_singleton; reflexivity|]. done.
Qed.

Section AdminRecorded.
Hypothesis may_write : forall i, may i -> writes_through i.

Lemma recordAdmin_notes {T} (r : Request T) act sub d err (k : prog response) s a s' :
  is_Some (Api.AdminLog s) -> guar k -> exec may (Api.recordAdmin r act sub d err k) s a s' ->
  admin_noted s' r act (outcome err) /\ exists s1, exec may k s1 a s'.
Proof.
  intros S G (i & s1 & M & _ & I & E).
  destruct (recordAdmin_effect r act sub d err i s1 (may_write i M)) as (j & Ej & _ & N); [by eapply adminlog_kept|].
  rewrite Ej in E. cbn [fst snd] in E. split.
  - eapply admin_noted_later; [|exact N]. by eapply exec_later.
  - by eexists.
Qed.
End AdminRecorded.

(** The endpoints whose changes are journaled, and under which name. *)
Definition audited (c : Api.call_to) : option bytes :=
  match c with
  | Api.ToRotate _ => Some (str "rotate")
  | Api.ToProducers r => if bool_decide (Method r = POST) then Some (str "producer_register") else None
  | Api.ToWitnesses r => if bool_decide (Method r = POST) then Some (str "witness_add") else None
  | Api.ToEnrollments r => if bool_decide (Method r = POST) then Some (str "enrollment_issue") else None
  | Api.ToEnrollmentsConfirm _ => Some (str "enrollment_confirm")
  | Api.ToRevoke _ => Some (str "producer_revoke")
  | _ => None
  end.

Definition noted (s : Api.t) (c : Api.call_to) (action outcome : bytes) : Prop :=
  match c with
  | Api.ToRotate r => admin_noted s r action outcome
  | Api.ToProducers r => admin_noted s r action outcome
  | Api.ToWitnesses r => admin_noted s r action outcome
  | Api.ToEnrollments r => admin_noted s r action outcome
  | Api.ToEnrollmentsConfirm r => admin_noted s r action outcome
  | Api.ToRevoke r => admin_noted s r action outcome
  | _ => False
  end.

Lemma exec_limited {T} (next : Request T -> prog response) r s a s' :
  exec may (Api.rateLimitAdmin next r) s a s' ->
  (exists ra msg, a = writeRetryAfter 429 ra msg) \/ exists s1, interferes s s1 /\ exec may (next r) s1 a s'.
Proof.
  unfold Api.rateLimitAdmin. destruct (negb (Api.mutating _)).
  { intros E. right. exists s. split; [reflexivity|done]. }
  intros (i & s1 & _ & _ & I & E). destruct (Gate.allowAdmin _ _ _ _) as [g [|]]; cbn [fst snd negb] in E.
  - right. eexists. split; [|exact E]. etrans; [exact I|apply gate_interferes].
  - apply exec_read in E as (? & _ & -> & _). left. by eauto.
Qed.

(** The common end of the admin handlers: the log's result goes to the journal,
    and only a success is answered with 200. *)
Lemma journaled {T A} (r : Request T) act sub d (rr : res A) (k : prog response) s ra b s' :
  (forall i, may i -> writes_through i) -> is_Some (Api.AdminLog s) -> guar k ->
  (forall e, rr = Err e -> exists st, st <> 200 /\ k = Ret (writeErr st e)) ->
  exec may (Api.recordAdmin r act sub d (Api.err_of rr) k) s (Reply 200 ra b) s' -> admin_noted s' r act (str "ok").
Proof.
  intros W S G Bad E. apply (recordAdmin_notes W) in E as [N [s2 E]]; [|done|done].
  destruct rr as [y|e]; [exact N|]. destruct (Bad e eq_refl) as (st & Ne & ->). by destruct E as [[= <-] _].
Qed.

Ltac journal_it W S1 E :=
  eapply journaled; [exact W| | | |exact E];
  [exact S1 | case_match; exact I | intros e ->; eexists; (split; [|reflexivity]); done].

(** Successes are journaled: a successful rotation, registration,
    witness addition, enrollment (issued or confirmed) or revocation is in the
    admin log with outcome ok and the actor's identity when the reply is sent,
    whatever other requests ran meanwhile - provided the admin log is enabled
    and takes its writes. *)
Theorem admin_success_journaled c act s ra b s' :
  (forall i, may i -> writes_through i) -> is_Some (Api.AdminLog s) -> audited c = Some act ->
  exec may (Api.serve c) s (Reply 200 ra b) s' -> noted s' c act (str "ok").
Proof.
  intros W S Au E. destruct c; cbn [audited Api.serve noted] in *; try done.
  all: apply exec_limited in E as [(? & ? & ?)|(s1 & I1 & E)]; [done|].
  all: pose proof (adminlog_kept _ _ I1 S) as S1; clear I1 S.
  all: try (case_bool_decide as Hm; [|done]); injection Au as <-.
  1: apply exec_only in E as [?|[_ E]]; [done|]; apply exec_read in E as (s2 & I2 & E);
     apply (adminlog_kept _ _ I2) in S1.
  2: unfold Api.handleProducers in E; rewrite Hm in E.
  3: unfold Api.handleWitnesses in E; rewrite Hm in E.
  4: unfold Api.handleEnrollments in E; rewrite Hm in E.
  5, 6: apply exec_only in E as [?|[_ E]]; [done|].
  2-6: apply exec_body in E as [(? & ? & Ne & [= <- _ _])|(req & _ & E)]; [done|].
  2: destruct (rp_Producer req) as [p|]; [|by destruct E].
  3: destruct (rw_Witness req) as [w|]; [|by destruct E].
  2-6: match type of E with context [if ?c then _ else _] => destruct c; [by destruct E|] end.
  all: apply exec_call in E as (i & s3 & l & x & M & Sm & I3 & Ef & E); apply (adminlog_kept _ _ I3) in S1.
  2, 3: destruct x as [y rr].
  2-6: journal_it W S1 E.
  apply exec_read in E as (s4 & I4 & E). apply (adminlog_kept (Api.set_log s3 l) _ I4) in S1.
  eapply journaled; [exact W|exact S1| | |exact E].
  - case_match; [|exact I]. by apply guar_read.
  - intros e ->. eexists. split; [|reflexivity]. done.
Qed.

(** Checks that come before a change are no change. *)
Lemma changing_limited {T} (next : Request T -> prog response) r s a s' :
  exec_changing may (Api.rateLimitAdmin next r) s a s' -> exists s1, interferes s s1 /\ exec_changing may (next r) s1 a s'.
Proof.
  unfold Api.rateLimitAdmin. destruct (negb (Api.mutating _)).
  { intros E. exists s. split; [reflexivity|done]. }
  intros (i & s1 & _ & _ & I & E). destruct (Gate.allowAdmin _ _ _ _) as [g [|]]; cbn [fst snd negb] in E.
  - destruct E as [[N _]|E]; [done|]. eexists. split; [|exact E]. etrans; [exact I|apply gate_interferes].
  - destruct E as [[N _]|(? & ? & _ & _ & _ & [[N _]|[]])]; done.
Qed.

Lemma changing_read {X} (f : Api.t -> X) k s (a : response) s' :
  exec_changing may (Api.read f k) s a s' -> exists s1, interferes s s1 /\ exec_changing may (k (f s1)) s1 a s'.
Proof. intros (i & s1 & _ & _ & I & [[N _]|E]); [done|]. by exists s1. Qed.

Lemma changing_call {X} (f : Api.input -> Log.t -> Log.t * X) k s (a : response) s' :
  exec_changing may (Api.call f k) s a s' ->
  exists s1 l x, interferes s s1 /\ exec may (k x) (Api.set_log s1 l) a s'.
Proof.
  intros (i & s1 & M & Sm & I & E). exists s1. destruct (f i (Api.Log s1)) as [l x]. cbn [fst snd] in E. exists l, x. split; [done|].
  destruct E as [[_ E]|E]; [done|]. by apply changing_exec.
Qed.

Definition status (a : response) : Z := match a with Reply st _ _ => st | Aborted => 0 end.

(** The common end of the admin handlers: the log's result goes to the journal,
    and decides the status. *)
Lemma outcome_journaled {T A} (r : Request T) act sub d (rr : res A) st (k : A -> prog response) s a s' :
  (forall i, may i -> writes_through i) -> is_Some (Api.AdminLog s) -> st <> 200 ->
  (forall y, guar (k y) /\ replies (fun a => status a = 200) (k y)) ->
  exec may (Api.recordAdmin r act sub d (Api.err_of rr) match rr with Err e => Ret (writeErr st e) | Ok y => k y end) s a s' ->
  admin_noted s' r act (if status a =? 200 then str "ok" else str "error").
Proof.
  intros W S Ne K E. apply (recordAdmin_notes W) in E as [N [s2 E]]; [|done|destruct rr; [apply K|exact I]].
  destruct rr as [y|e]; cbn [Api.err_of outcome] in N.
  - by rewrite (exec_replies may _ _ _ _ _ (proj2 (K y)) E).
  - destruct E as [-> _]. change (status (writeErr st e)) with st. by rewrite (proj2 (Z.eqb_neq st 200)).
Qed.

(** The checks before the log is called change nothing. *)
Ltac skip_checks E :=
  unfold Api.only, Api.body in E;
  repeat match type of E with
  | exec_changing _ (if ?c then Ret _ else _) _ _ _ => destruct c; [by destruct E|]
  | exec_changing _ (match Body ?r with _ => _ end) _ _ _ => destruct (Body r); [|by destruct E..]
  | exec_changing _ (match ?x with Some _ => _ | None => Ret _ end) _ _ _ => destruct x; [|by destruct E]
  end.

Ltac journal_outcome W S E :=
  eapply outcome_journaled in E; [exact E|exact W|exact S|done|]; intros y; split; [|cbn; done].

(** C13. Administration leaves a trace: when a key rotation, a producer
    registration, a witness addition, an enrollment (issued or confirmed) or a
    revocation itself changed the log's state in any way - also when it then
    failed, as a rotation can after a partial write or a confirmation that
    spends its challenge - the admin log holds an event for that action with
    the caller's identity when the reply is sent, with outcome ok exactly if
    the reply is 200; whatever other requests run meanwhile, provided the admin
    log is enabled and takes its writes.  (Beginning an enrollment, making a
    checkpoint and anchoring are not journaled.) *)
Theorem admin_change_journaled c act s a s' :
  (forall i, may i -> writes_through i) -> is_Some (Api.AdminLog s) -> audited c = Some act ->
  exec_changing may (Api.serve c) s a s' ->
  noted s' c act (if status a =? 200 then str "ok" else str "error").
Proof.
  intros W S Au E. destruct c; cbn [audited Api.serve noted] in *; try done.
  all: apply changing_limited in E as (s1 & I1 & E); apply (adminlog_kept _ _ I1) in S; clear I1.
  all: try (case_bool_decide as Hm; [|done]); injection Au as <-.
  - unfold Api.handleRotate in E. skip_checks E. apply changing_read in E as (s2 & I2 & E). apply (adminlog_kept _ _ I2) in S.
    apply changing_call in E as (s3 & l & x & I3 & E). apply (adminlog_kept _ _ I3) in S.
    apply exec_read in E as (s4 & I4 & E). apply (adminlog_kept (Api.set_log s3 l) _ I4) in S.
    journal_outcome W S E. by apply guar_read.
  - unfold Api.handleProducers in E. rewrite Hm in E. skip_checks E. apply changing_call in E as (s3 & l & [y0 rr] & I3 & E).
    apply (adminlog_kept _ _ I3) in S. journal_outcome W S E. exact I.
  - unfold Api.handleWitnesses in E. rewrite Hm in E. skip_checks E. apply changing_call in E as (s3 & l & [y0 rr] & I3 & E).
    apply (adminlog_kept _ _ I3) in S. journal_outcome W S E. exact I.
  - unfold Api.handleEnrollments in E. rewrite Hm in E. skip_checks E. apply changing_call in E as (s3 & l & rr & I3 & E).
    apply (adminlog_kept _ _ I3) in S. journal_outcome W S E. exact I.
  - unfold Api.handleEnrollmentsConfirm in E. skip_checks E. apply changing_call in E as (s3 & l & rr & I3 & E).
    apply (adminlog_kept _ _ I3) in S. journal_outcome W S E. exact I.
  - unfold Api.handleRevokeProducer in E. skip_checks E. apply changing_call in E as (s3 & l & rr & I3 & E).
    apply (adminlog_kept _ _ I3) in S. journal_outcome W S E. exact I.
Qed.

Lemma prefix_take_map {A D} (f : A -> D) (l1 l2 : list A) n :
  l1 `prefix_of` l2 -> 0 <= n <= len l1 -> take (Z.to_nat n) (map f l1) = take (Z.to_nat n) (map f l2).
Proof.
  intros [k ->] Hn. rewrite map_app, take_app_le; [done|]. rewrite length_map. unfold len in Hn. lia.
Qed.

(** Consistency proofs under concurrent appends: the proof the API answers
    with verifies between the roots of the two sizes it names; the root it
    sends along is that of the log at a later moment, so it is the root of
    [new_size] exactly when nothing was appended in between. *)
Theorem consistency_endpoint_sound r s ra m n oldRoot newRoot proof s' :
  reachable (Api.Log s) -> 0 < m ->
  exec may (Api.handleConsistencyProof r) s (Reply 200 ra (ConsistencyProofResponse m n oldRoot newRoot proof)) s' ->
  exists es es', es `prefix_of` es' /\ Log.observes (Api.Log s') es' /\ m <= n <= len es /\
    newRoot = MTH (map Entry.LeafHash es) /\
    Tree.VerifyConsistency m n proof (MTH (take (Z.to_nat m) (map Entry.LeafHash es)))
      (MTH (take (Z.to_nat n) (map Entry.LeafHash es))) = true.
Proof.
  intros [es0 O]%reachable_ok Hm E.
  apply exec_only in E as [?|[_ E]]; [done|]. apply exec_parse in E as [[??]|(old & P & E)]; [done|].
  apply exec_read in E as (s1 & I1 & E). apply exec_size_param in E as [[??]|(new & _ & E)]; [done|].
  apply exec_read in E as (s2 & I2 & E). destruct (negb _); [by destruct E|].
  apply exec_call in E as (i & s3 & l & x & _ & _ & I3 & Ec & E). destruct x as [pf|]; [|by destruct E].
  destruct (ok_later s s3 es0) as (es3 & O3 & _); [by etrans; [|etrans]|done|].
  apply exec_read in E as (s4 & I4 & E).
  destruct (Log.Root (Api.Log s4)) as [rt|] eqn:R; [|by destruct E].
  apply exec_read in E as (s5 & I5 & E). destruct E as [[= -> -> -> -> -> ->] I6].
  destruct (consistency_made _ es3 _ _ _ _ O3 Hm Ec) as (Hn & -> & O3').
  destruct (ok_later (Api.set_log s3 l) s4 es3 I4 O3') as (es4 & O4 & P4).
  destruct (ok_later s4 s' es4) as (es' & O' & P'); [by etrans|done|]. apply (ok_root _ _ _ O4) in R as ->.
  pose proof (prefix_length _ _ P4) as Le. exists es4, es'. unfold len in *. split_and!; [done|by apply Log.ok_observes|lia|lia|done|].
  rewrite (prefix_take_map _ es3 es4) by (done || unfold len; lia).
  apply Tree.PROOF_verifies; [lia|rewrite len_map; unfold len; lia].
Qed.

(** One way the endpoint can run: the proof in one state, the root in a later. *)
Lemma consistency_answers i r m n s l pf s1 root :
  may i -> small s -> small s1 -> Method r = GET -> ParseUint (query_get (Query r) (str "old")) = Ok m ->
  query_get (Query r) (str "new") = [] -> Log.Size (Api.Log s) = n ->
  Log.ConsistencyProof (Api.Log s) m n = (l, Ok pf) -> interferes (Api.set_log s l) s1 ->
  Log.Root (Api.Log s1) = Some root -> Log.LatestCheckpoint (Api.Log s1) = Ok None ->
  exec may (Api.handleConsistencyProof r) s (Reply 200 None (ConsistencyProofResponse m n [] root pf)) s1.
Proof.
  intros M S S1 G Po Pn Sz Cp I Rt Lc. unfold Api.handleConsistencyProof, Api.only, Api.parse, Api.size_param.
  rewrite G, bool_decide_true, Po, Pn by done. cbn [negb].
  exists i, s. split; [done|]. split; [done|]. split; [reflexivity|]. cbn [fst snd]. rewrite bool_decide_true, Sz by done.
  exists i, s. split; [done|]. split; [done|]. split; [reflexivity|]. cbn [fst snd]. rewrite Sz, Z.eqb_refl. cbn [negb].
  exists i, s. split; [done|]. split; [done|]. split; [reflexivity|]. cbv beta. rewrite Cp. cbn [fst snd].
  exists i, s1. split; [done|]. split; [done|]. split; [done|]. cbn [fst snd]. rewrite Rt.
  exists i, s1. split; [done|]. split; [done|]. split; [reflexivity|]. cbn [fst snd]. rewrite Lc.
  split; [done|reflexivity].
Qed.

(** The server refines rely/guarantee: in any run of the server - requests
    arriving and interleaving at any point, timers in between - a finished
    request has answered as its handler alone can, with the other requests
    reduced to steps of the log and growth of the journals and alerts. *)
Theorem pool_refines_handlers s0 ts s th a :
  rtc (pool_step may) ([], s0) (ts, s) -> th ∈ ts -> rest th = Ret a -> exec may (Api.serve (to th)) s0 a s.
Proof.
  intros R In E. apply pool_tracks in R as [_ F]. rewrite Forall_forall in F. destruct (F th In) as [_ X].
  apply X. rewrite E. split; [done|reflexivity].
Qed.

(** C14. The append semaphore: at any point of any run, the slots taken are those
    of the requests between [acquire] and [release], never more than the cap;
    no request ever blocks on giving its slot back, and a finished one has
    none.  Without a configured policy the cap is between 16 and 256. *)
Theorem append_capacity numCPU pol s0 ts s cap :
  rtc (pool_step may) ([], Api.NewMux numCPU pol s0) (ts, s) ->
  cap = MaxConcurrentAppends (if is_zero_policy pol then DefaultIngestPolicy numCPU else pol) -> 0 < cap ->
  Gate.sem (Api.gate s) = Some (Gate.mk_sem cap (holders ts)) /\ holders ts <= cap /\
  (is_zero_policy pol = true -> 16 <= cap <= 256) /\
  Forall (fun th => match rest th with
                    | Ret _ => slot th = false
                    | Release _ => is_Some (Gate.release (Api.gate s))
                    | _ => True end) ts.
Proof.
  intros R Hc Pos. destruct (pool_counted may cap (Api.NewMux numCPU pol s0) ts s) as (F & S & Le); [lia| |done|].
  { unfold Api.NewMux, Gate.newIngestGate. cbn [Api.gate Api.set_gate Gate.sem]. rewrite <- Hc.
    by rewrite (proj2 (Z.ltb_lt 0 cap)). }
  split_and!; [done|done|..].
  - intros Z. rewrite Z in Hc. cbn in Hc. rewrite Hc. apply Gate.defaultConcurrency_range.
  - rewrite Forall_forall in F |- *. intros th In. specialize (F th In). destruct (rest th) as [b| | |k]; [exact F|done|done|].
    destruct F as [Hs _]. unfold Gate.release. rewrite S. cbn [Gate.used Gate.cap].
    destruct (Z.ltb_spec 0 (holders ts)) as [|Hz]; [done|]. exfalso. unfold holders in Hz.
    assert (th ∈ filter (fun th => slot th = true) ts) as Hin by by apply list_elem_of_filter.
    unfold len in Hz. destruct (filter _ ts); [by apply elem_of_nil in Hin|]. simpl in Hz. lia.
Qed.

(** Enrollment validity: a request for [v] seconds that ends before the end
    of the [int64] range of nanoseconds gives a record that expires exactly
    then, and zero or a negative number one that never does. *)
Theorem enrollment_validity_exact req now epoch nonce :
  let v := er_ValiditySeconds req in
  is_i64 now -> is_i64 v ->
  (v <= 0 -> - 2 ^ 63 <= v * 1000000000 -> Producer.ExpiresAt (Log.requested (Api.core_request req) now epoch nonce) = 0) /\
  (0 < v -> v * 1000000000 < 2 ^ 63 -> now + v * 1000000000 < 2 ^ 63 ->
   Producer.ExpiresAt (Log.requested (Api.core_request req) now epoch nonce) = now + v * 1000000000).
Proof.
  intros v [N1 N2] _. unfold Log.requested, Api.core_request. cbn [Producer.ExpiresAt Log.r_Validity]. fold v.
  split; intros.
  - replace (i64 (v * 1000000000)) with (v * 1000000000) by (unfold i64; rewrite Z.mod_small; lia).
    by rewrite (proj2 (Z.ltb_ge 0 (v * 1000000000))) by lia.
  - replace (i64 (v * 1000000000)) with (v * 1000000000) by (unfold i64; rewrite Z.mod_small; lia).
    rewrite (proj2 (Z.ltb_lt 0 (v * 1000000000))) by lia. unfold i64. rewrite Z.mod_small; lia.
Qed.
End Props.

(** ** A concrete server *)

(** A bucket that is never refilled. *)
#[export] Instance demo_limiter : Limiter := {|
  limiter := Z;
  NewLimiter _ burst := burst;
  Allow _ n := if 0 <? n then (n - 1, true) else (n, false);
|}.

Definition zero_policy : IngestPolicy := mk_policy 0 float0 0 float0 0 0.

Definition in0 : Api.input :=
  Api.mk_input 5 6 (Journal.mk_aio true None true true) true (Ok (str "id")) (Ok (str "nonce")) demo_io []
    (Ok (demo_fresh "k9")) true KeyStore.io_fine KeyStore.io_fine.
Definition ins0 (n : nat) : Api.input := in0.

Lemma ins0_write n : writes_through (ins0 n).
Proof. by split_and!. Qed.

Definition server (l : Log.t) : Api.t :=
  Api.NewMux 4 zero_policy (Api.mk l (Some []) (Some 0) true (Some read0) (Some (admin0 Byte.x01)) (Gate.newIngestGate zero_policy)).

Definition request {T} (m : method) (cns : list bytes) (path : bytes) (q : list (bytes * bytes)) (b : T) : Request T :=
  mk_request m (Some cns) [] (str "10.0.0.7:4711") (str "curl") path q (Decoded b).

Definition append_req : Request AppendRequest :=
  request POST [str " " ++ Envelope.ProducerID plain_env] [] [] (mk_append (Some plain_env) true).
Definition entry_req : Request unit := request GET [] (str "/api/v0/entries/0") [] tt.
Definition inclusion_req : Request unit := request GET [] [] [(str "index", str "0")] tt.
Definition consistency_req : Request unit := request GET [] [] [(str "old", str "1")] tt.
Definition revoke_req : Request RevokeProducerRequest :=
  request POST [str "root"] [] [] (mk_rev (Producer.ID producer_terms) (str "compromised")).

(** What a request gets, and whether it is as expected. *)
Definition answer (c : Api.call_to) (l : Log.t) : Api.t * option response := Api.run ins0 (Api.serve c) (server l).
Definition answered (c : Api.call_to) (l : Log.t) (good : response -> bool) : bool :=
  match (answer c l).2 with Some a => good a | None => false end && run_small ins0 (Api.serve c) (server l).

Lemma answered_exec c l good :
  answered c l good = true ->
  exists a, good a = true /\ (answer c l).2 = Some a /\ exec writes_through (Api.serve c) (server l) a (answer c l).1.
Proof.
  unfold answered, answer. destruct (Api.run _ _ _) as [s' [a|]] eqn:R; [|done]. cbn [fst snd].
  intros [E Sm]%andb_true_iff. exists a. split; [done|]. split; [done|].
  eapply run_exec; [apply ins0_write|exact Sm|exact R].
Qed.

Definition is_append (a : response) : bool := match a with Reply 200 _ (AppendResponse _) => true | _ => false end.
Definition is_entry (a : response) : bool := match a with Reply 200 _ (EntryResponse _) => true | _ => false end.
Definition is_inclusion (a : response) : bool :=
  match a with Reply 200 _ (InclusionProofResponse _ _ _ _ _) => true | _ => false end.
Definition is_consistency (a : response) : bool :=
  match a with Reply 200 _ (ConsistencyProofResponse 1 1 _ _ _) => true | _ => false end.
Definition is_revoked (a : response) : bool := match a with Reply 200 _ (RevokedBody _) => true | _ => false end.

(** The shape of a reply whose test succeeded. *)
Ltac shape T :=
  match type of T with ?f ?a = true => unfold f in T; destruct a as [st ra bd|]; [|discriminate T] end;
  repeat match type of T with
  | match ?x with _ => _ end = true => destruct x; try discriminate T
  end.

Lemma append_endpoint_sound_witness :
  exists ra e, (answer (Api.ToAppend append_req) log1).2 = Some (Reply 200 ra (AppendResponse e)) /\
    Entry.Envelope e = Some plain_env /\
    exists es', Log.observes (Api.Log (answer (Api.ToAppend append_req) log1).1) es' /\
      es' !! Z.to_nat (Entry.Index e) = Some e.
Proof.
  destruct (answered_exec (Api.ToAppend append_req) log1 is_append) as (a & T & R & E); [vm_compute; reflexivity|].
  shape T.
  destruct (append_endpoint_sound writes_through append_req (server log1) ra e _ log1_reachable E)
    as (req & env & Bd & Ev & En & _ & _ & _ & O).
  injection Bd as <-. injection Ev as <-. exists ra, e. split; [exact R|]. split; [exact En|exact O].
Defined.

Lemma inclusion_endpoint_sound_witness :
  exists ra i n leaf proof root,
    (answer (Api.ToInclusion inclusion_req) log2).2 = Some (Reply 200 ra (InclusionProofResponse i n leaf proof root)) /\
    Tree.VerifyInclusion i n leaf proof root = true.
Proof.
  destruct (answered_exec (Api.ToInclusion inclusion_req) log2 is_inclusion) as (a & T & R & E); [vm_compute; reflexivity|].
  shape T. destruct (reachable_ok log2 log2_reachable) as [es O].
  destruct (inclusion_endpoint_sound writes_through inclusion_req (server log2) ra _ _ _ _ _ _ es log2_reachable
    (Log.ok_observes _ _ O) E) as (es' & e & es'' & _ & _ & _ & _ & _ & _ & _ & V).
  exists ra, index, treeSize, leaf, proof, root. split; [exact R|exact V].
Defined.

Lemma consistency_endpoint_sound_witness :
  exists ra oldRoot newRoot proof es,
    (answer (Api.ToConsistency consistency_req) log2).2 = Some (Reply 200 ra (ConsistencyProofResponse 1 1 oldRoot newRoot proof)) /\
    newRoot = MTH (map Entry.LeafHash es).
Proof.
  destruct (answered_exec (Api.ToConsistency consistency_req) log2 is_consistency) as (a & T & R & E); [vm_compute; reflexivity|].
  shape T.
  destruct (consistency_endpoint_sound writes_through consistency_req (server log2) ra 1 1 _ _ _ _ log2_reachable
    ltac:(lia) E) as (es & es' & _ & _ & _ & H & _).
  exists ra, oldRoot, newRoot, proof, es. split; [exact R|exact H].
Defined.

Lemma reads_are_recorded_witness :
  exists ra e, (answer (Api.ToGetEntry entry_req) log2).2 = Some (Reply 200 ra (EntryResponse e)) /\
    read_noted (answer (Api.ToGetEntry entry_req) log2).1 (str "10.0.0.7:4711") (str "curl") e.
Proof.
  destruct (answered_exec (Api.ToGetEntry entry_req) log2 is_entry) as (a & T & R & E); [vm_compute; reflexivity|].
  shape T.
  pose proof (reads_are_recorded writes_through (Api.ToGetEntry entry_req) (server log2) _ _ (fun _ H => H) E) as F.
  apply Forall_inv in F as [F _]. exists ra, e. split; [exact R|]. apply F. eexists. reflexivity.
Defined.

Lemma admin_success_journaled_witness :
  admin_noted (answer (Api.ToRevoke revoke_req) log1).1 revoke_req (str "producer_revoke") (str "ok").
Proof.
  destruct (answered_exec (Api.ToRevoke revoke_req) log1 is_revoked) as (a & T & R & E); [vm_compute; reflexivity|].
  shape T.
  exact (admin_success_journaled writes_through (Api.ToRevoke revoke_req) (str "producer_revoke") (server log1) _ _ _
    (fun _ H => H) (mk_is_Some _ _ eq_refl) eq_refl E).
Defined.

(** Whether the demonstration producer is revoked. *)
Definition revoked_in (l : Log.t) : bool :=
  match Store.GetProducer (Log.store l) (Producer.ID producer_terms) with Ok p => Producer.Revoked p | Err _ => false end.

Lemma admin_change_journaled_witness :
  revoked_in (Api.Log (answer (Api.ToRevoke revoke_req) log1).1) = true /\
  admin_noted (answer (Api.ToRevoke revoke_req) log1).1 revoke_req (str "producer_revoke") (str "ok").
Proof.
  assert (revoked_in (Api.Log (answer (Api.ToRevoke revoke_req) log1).1) = true) as Rv by (vm_compute; reflexivity).
  split; [exact Rv|].
  destruct (answered_exec (Api.ToRevoke revoke_req) log1 is_revoked) as (a & T & R & _); [vm_compute; reflexivity|].
  shape T.
  assert (run_small ins0 (Api.serve (Api.ToRevoke revoke_req)) (server log1) = true) as Sm by (vm_compute; reflexivity).
  refine (admin_change_journaled writes_through (Api.ToRevoke revoke_req) (str "producer_revoke") (server log1)
    (Reply 200 ra (RevokedBody id)) (answer (Api.ToRevoke revoke_req) log1).1 (fun _ w => w) (mk_is_Some _ _ eq_refl) eq_refl _).
  refine (run_changing writes_through (Api.serve (Api.ToRevoke revoke_req)) ins0 (server log1) _ _ ins0_write Sm _ bool revoked_in _).
  - rewrite <- R. apply surjective_pairing.
  - rewrite Rv. vm_compute. discriminate.
Defined.

(** The server after one append request. *)
Lemma one_append : exists ra e h,
  rtc (pool_step writes_through) ([], server log1)
    ([mk_thread (Api.ToAppend append_req) (Ret (Reply 200 ra (AppendResponse e))) h], (answer (Api.ToAppend append_req) log1).1).
Proof.
  assert (answered (Api.ToAppend append_req) log1 is_append = true) as An by (vm_compute; reflexivity).
  destruct (answered_exec _ _ _ An) as (a & T & R & _). shape T.
  apply andb_true_iff in An as [_ Sm].
  destruct (run_pool writes_through (Api.ToAppend append_req) (Api.serve (Api.ToAppend append_req)) ins0 false (server log1)
    (answer (Api.ToAppend append_req) log1).1 (Reply 200 ra (AppendResponse e)) ins0_write Sm) as [h Rt]; [rewrite <- R; apply surjective_pairing|].
  exists ra, e, h. eapply rtc_l; [apply (arrives writes_through [])|exact Rt].
Qed.

Lemma pool_refines_handlers_witness : exists ra e,
  exec writes_through (Api.serve (Api.ToAppend append_req)) (server log1) (Reply 200 ra (AppendResponse e))
    (answer (Api.ToAppend append_req) log1).1.
Proof.
  destruct one_append as (ra & e & h & R). exists ra, e.
  exact (pool_refines_handlers writes_through (server log1) _ _ _ _ R (list_elem_of_here _ _) eq_refl).
Defined.

Lemma append_capacity_witness :
  exists ts s, rtc (pool_step writes_through) ([], server log1) (ts, s) /\
    Gate.sem (Api.gate s) = Some (Gate.mk_sem 16 (holders ts)) /\ holders ts <= 16.
Proof.
  destruct one_append as (ra & e & h & R). eexists _, _. split; [exact R|].
  destruct (append_capacity writes_through 4 zero_policy _ _ _ 16 R eq_refl ltac:(lia)) as (S & Le & _).
  split; [exact S|exact Le].
Defined.

Definition validity (v : Z) : EnrollmentRequest := mk_enr (str "p") (str "k") [] [] [] [] v.

Lemma enrollment_validity_exact_witness :
  Producer.ExpiresAt (Log.requested (Api.core_request (validity 86400)) 1700000000000000000 0 []) = 1700086400000000000.
Proof.
  apply (enrollment_validity_exact (validity 86400) 1700000000000000000 0 []); cbn; unfold is_i64; lia.
Defined.

(** A validity of 10^10 seconds (about 317 years) overflows the duration and
    is turned into an enrollment that never expires; 2^64 nanoseconds' worth of
    seconds more than a day's turns into a fraction of a second. *)
Theorem enrollment_validity_wraps :
  Producer.ExpiresAt (Log.requested (Api.core_request (validity 10000000000)) 1700000000000000000 0 []) = 0 /\
  Producer.ExpiresAt (Log.requested (Api.core_request (validity 18446744074)) 1700000000000000000 0 []) = 1700000000290448384.
Proof. split; reflexivity. Qed.

(** *** The consistency endpoint's race *)

Definition env2 : Envelope.t :=
  match SoftwareAttestor.Sign classical_producer 1700000000000000001 (str "db") (str "row2") with
  | Ok e => e
  | Err _ => plain_env
  end.

(** The log after the proof was made, and after another request's append. *)
Definition log2_proved : Log.t := (Log.ConsistencyProof log2 1 1).1.
Definition log4 : Log.t := (Log.AppendCtx log2_proved 7 8 (Some env2) false).1.
Definition proved : Api.t := Api.set_log (server log2) log2_proved.
Definition raced : Api.t := Api.set_log proved log4.
Definition root_of (l : Log.t) : bytes := default [] (Log.Root l).

Lemma log4_interferes : interferes proved raced.
Proof.
  apply (set_log_interferes proved log4). change (rtc Log.step log2_proved log4).
  eapply append_steps; [|unfold log4; apply surjective_pairing]. vm_compute. reflexivity.
Qed.

(** The consistency endpoint can answer with the wrong root: if an append
    lands between the proof and the reading of the root, the reply names
    [new_size] 1 but carries the root of size 2, and verifying it fails. *)
Theorem consistency_root_race :
  exec writes_through (Api.serve (Api.ToConsistency consistency_req)) (server log2)
    (Reply 200 None (ConsistencyProofResponse 1 1 [] (root_of log4) [])) raced /\
  Log.Size log2 = 1 /\ root_of log4 <> root_of log2 /\
  Tree.VerifyConsistency 1 1 [] (root_of log2) (root_of log4) = false.
Proof.
  split; [|vm_compute; split; [reflexivity|split; [discriminate|reflexivity]]].
  refine (consistency_answers writes_through in0 consistency_req 1 1 (server log2) log2_proved [] raced (root_of log4)
    (ins0_write 0) _ _ _ _ _ _ _ log4_interferes _ _).
  1-6: vm_compute; reflexivity.
  - transitivity (log2_proved, (Log.ConsistencyProof log2 1 1).2); [apply surjective_pairing|].
    apply f_equal. vm_compute. reflexivity.
  - vm_compute. reflexivity.
  - vm_compute. reflexivity.
Qed.
