(* ===== verification/Ca.v ===== *)
(** * The certificate authority (pkg/tlsutil) and its commands

    The operator's own CA: a self-signed root, certificates for the daemon and
    for producers, their files, and the three commands of stele that call them.
    Certificates are values; their encoding, PEM and PKCS#8 are the class
    [X509], with that they decode to what was encoded. *)

From stdpp Require Import base numbers list gmap strings.
From Stdlib Require Import ZArith Lia.
From S2P Require Import Prelude GoText Codec Crypto Attest Rfc6962 Merkle RefMerkle MerkleProps LogEntry Threshold Fwdsec KeyFiles.
From S2P Require Import Checkpoint Badger Storage Core CoreProps Journal Ingest Api ApiExec ApiProps.

#[local] Open Scope Z_scope.
#[local] Existing Instance rfc6962_hasher.

(** ** Certificates *)

Inductive key_usage := KeyUsageDigitalSignature | KeyUsageCertSign | KeyUsageCRLSign.
Inductive ext_key_usage := ExtKeyUsageServerAuth | ExtKeyUsageClientAuth.
#[export] Instance ext_key_usage_dec : EqDecision ext_key_usage.
Proof. solve_decision. Defined.

(** [pkix.Name], the fields that are set. *)
Record Name := mk_name { CommonName : bytes; Organization : list bytes }.
#[export] Instance name_dec : EqDecision Name.
Proof. solve_decision. Defined.

(** The template of a certificate; times in nanoseconds. *)
Record template := mk_template {
  SerialNumber : Z; Subject : Name; NotBefore : Z; NotAfter : Z;
  KeyUsage : list key_usage; ExtKeyUsage : list ext_key_usage;
  BasicConstraintsValid : bool; IsCA : bool; MaxPathLenZero : bool;
  IPAddresses : list bytes; DNSNames : list bytes }.

Record Certificate := mk_certificate { tbs : template; Issuer : Name; PubKey : bytes; Signature : bytes }.

Definition second : Z := 1000000000.
Definition minute : Z := 60 * second.
Definition day : Z := 24 * 60 * minute.
Definition to_second (t : Z) : Z := t / second * second.

(** A certificate states its times in seconds. *)
Definition in_seconds (t : template) : template :=
  mk_template (SerialNumber t) (Subject t) (to_second (NotBefore t)) (to_second (NotAfter t)) (KeyUsage t) (ExtKeyUsage t)
    (BasicConstraintsValid t) (IsCA t) (MaxPathLenZero t) (IPAddresses t) (DNSNames t).

(** [to_be_signed] the bytes a certificate's signature is over, [encodable] that
    the names and serial have an encoding, [parse_ip] [net.ParseIP]. *)
Class X509 := {
  to_be_signed : template -> Name -> bytes -> bytes;
  encodable : template -> bool;
  der : Certificate -> bytes;
  ParseCertificate : bytes -> option Certificate;
  pem_encode : bytes -> bytes -> bytes;
  pem_decode : bytes -> option (bytes * bytes * bytes);
  pkcs8 : bytes -> bytes;
  parse_pkcs8 : bytes -> res (option bytes);     (* [None]: a key that is not Ed25519 *)
  parse_ip : bytes -> option bytes;
}.

Class X509Laws `{!X509} : Prop := {
  parse_der : forall c, ParseCertificate (der c) = Some c;
  pem_decoded : forall ty b, pem_decode (pem_encode ty b) = Some (ty, b, []);
  pem_shrinks : forall b ty x rest, pem_decode b = Some (ty, x, rest) -> (length rest < length b)%nat;
  pkcs8_parsed : forall k, len k = PrivateKeySize -> parse_pkcs8 (pkcs8 k) = Ok (Some k);
}.

Module Ca.
Section Ca.
Context `{Crypto} `{!X509}.

Definition DefaultCALifetime : Z := 10 * 365 * day.
Definition DefaultLeafLifetime : Z := 90 * day.

(** [x509.CreateCertificate]: [parent_key] is the parent's public key when it
    has one, which the signing key must then match. *)
Definition CreateCertificate (tmpl : template) (parent : Name) (parent_key : option bytes) (pub priv : bytes) : res Certificate :=
  fail_if negb (encodable tmpl) with "x509: cannot encode" ;;
  fail_if match parent_key with Some k => negb (bytesEqual k (ed_public priv)) | None => false end
    with "x509: provided PrivateKey doesn't match parent's PublicKey" ;;
  let t := in_seconds tmpl in
  Ok (mk_certificate t parent pub (ed_sign priv (to_be_signed t parent pub))).

Record CA := mk_ca { Cert : Certificate; Priv : bytes; CertPEM : bytes }.

Definition CERTIFICATE : bytes := str "CERTIFICATE".
Definition PRIVATE_KEY : bytes := str "PRIVATE KEY".

(** [key] and [serial]: what the random source gave. *)
Definition GenerateCA (org : bytes) (key : res bytes) (serial : res Z) (now : Z) : res CA :=
  fail_if bool_decide (org = []) with "tlsutil: CA org required" ;;
  let! priv := key in
  let! serial := serial in
  let name := mk_name (str "stele " ++ org ++ str " root CA") [org] in
  let tmpl := mk_template serial name (now - minute) (now + DefaultCALifetime) [KeyUsageCertSign; KeyUsageCRLSign]
    [ExtKeyUsageServerAuth; ExtKeyUsageClientAuth] true true true [] [] in
  let! c := CreateCertificate tmpl name None (ed_public priv) priv in
  match ParseCertificate (der c) with
  | None => errorf "x509: malformed certificate"
  | Some cert => Ok (mk_ca cert priv (pem_encode CERTIFICATE (der c)))
  end.

(** Outcomes of the two directories and the two files. *)
Record pair_io := mk_pair { mk_cert_dir : bool; wr_cert : written; mk_key_dir : bool; wr_key : written }.

Definition WriteCertAndKey (io : pair_io) (certPath certPEM keyPath keyPEM : bytes) (fs : Files) : Files * res unit :=
  if negb (mk_cert_dir io) then (fs, errorf "mkdir")
  else match WriteFile (wr_cert io) certPath certPEM fs with
  | (fs, Err e) => (fs, Err e)
  | (fs, Ok _) => if negb (mk_key_dir io) then (fs, errorf "mkdir") else WriteFile (wr_key io) keyPath keyPEM fs
  end.

(** [MarshalPKCS8PrivateKey] does not fail on an Ed25519 key. *)
Definition WriteCA (c : CA) (io : pair_io) (certPath keyPath : bytes) (fs : Files) : Files * res unit :=
  WriteCertAndKey io certPath (CertPEM c) keyPath (pem_encode PRIVATE_KEY (pkcs8 (Priv c))) fs.

(** The first CERTIFICATE block; [n] bounds the blocks. *)
Fixpoint find_certificate (n : nat) (b : bytes) : res Certificate :=
  match pem_decode b with
  | None => errorf "no PEM certificate found"
  | Some (ty, x, rest) =>
      if bool_decide (ty = CERTIFICATE)
      then match ParseCertificate x with Some c => Ok c | None => errorf "x509: malformed certificate" end
      else match n with O => errorf "no PEM certificate found" | S n => find_certificate n rest end
  end.
Definition parseCertPEM (b : bytes) : res Certificate := find_certificate (length b) b.

Definition parsePrivateKeyPEM (b : bytes) : res bytes :=
  match pem_decode b with
  | None => errorf "no PEM block"
  | Some (_, x, _) =>
      let! k := parse_pkcs8 x in
      match k with Some k => Ok k | None => errorf "key is not Ed25519" end
  end.

Definition LoadCA (certPath keyPath : bytes) (fs : Files) : res CA :=
  match fs !! certPath with
  | None => errorf "read CA cert"
  | Some certPEM =>
      let! cert := wrap_err "parse CA cert" (parseCertPEM certPEM) in
      match fs !! keyPath with
      | None => errorf "read CA key"
      | Some keyPEM =>
          let! priv := wrap_err "parse CA key" (parsePrivateKeyPEM keyPEM) in
          Ok (mk_ca cert priv certPEM)
      end
  end.

(** The loop over the hosts. *)
Definition add_host (x : list bytes * list bytes) (h : bytes) : list bytes * list bytes :=
  match parse_ip h with Some ip => (x.1 ++ [ip], x.2) | None => (x.1, x.2 ++ [h]) end.

Definition issueLeaf (c : CA) (commonName : bytes) (hosts : list bytes) (lifetime : Z) (eku : ext_key_usage)
    (key : res bytes) (serial : res Z) (now : Z) : res (bytes * bytes) :=
  let! leafPriv := key in
  let! serial := serial in
  let '(ips, dns) := foldl add_host ([], []) hosts in
  let tmpl := mk_template serial (mk_name commonName (Organization (Subject (tbs (Cert c))))) (now - minute) (now + lifetime)
    [KeyUsageDigitalSignature] [eku] false false false ips dns in
  let! leaf := CreateCertificate tmpl (Subject (tbs (Cert c))) (Some (PubKey (Cert c))) (ed_public leafPriv) (Priv c) in
  Ok (pem_encode CERTIFICATE (der leaf), pem_encode PRIVATE_KEY (pkcs8 leafPriv)).

Definition IssueServerCert (c : CA) (commonName : bytes) (hosts : list bytes) (lifetime : Z) (key : res bytes) (serial : res Z) (now : Z) :=
  let lifetime := if lifetime =? 0 then DefaultLeafLifetime else lifetime in
  issueLeaf c commonName hosts lifetime ExtKeyUsageServerAuth key serial now.

Definition IssueClientCert (c : CA) (producerID : bytes) (lifetime : Z) (key : res bytes) (serial : res Z) (now : Z) : res (bytes * bytes) :=
  fail_if bool_decide (producerID = []) with "tlsutil: producer ID required" ;;
  let lifetime := if lifetime =? 0 then DefaultLeafLifetime else lifetime in
  issueLeaf c producerID [] lifetime ExtKeyUsageClientAuth key serial now.

Definition CNFromCert (c : Certificate) : bytes := TrimSpace (CommonName (Subject (tbs c))).

(** ** The commands *)

Definition cmdCAInit (outCert outKey org : bytes) (key : res bytes) (serial : res Z) (now : Z) (io : pair_io) (fs : Files) : Files * res unit :=
  if bool_decide (outCert = []) || bool_decide (outKey = []) || bool_decide (org = [])
  then (fs, errorf "ca-init: --out-cert, --out-key, --org are required")
  else match GenerateCA org key serial now with
  | Err e => (fs, Err e)
  | Ok ca => WriteCA ca io outCert outKey fs
  end.

Record issue_flags := mk_issue { caCert : bytes; caKey : bytes; outCert : bytes; outKey : bytes; lifetime : Z }.

Definition cmdCAIssueServer (f : issue_flags) (cn host : bytes) (key : res bytes) (serial : res Z) (now : Z) (io : pair_io) (fs : Files) : Files * res unit :=
  if bool_decide (caCert f = []) || bool_decide (caKey f = []) || bool_decide (outCert f = []) || bool_decide (outKey f = []) || bool_decide (host = [])
  then (fs, errorf "ca-issue-server: --ca-cert, --ca-key, --host, --out-cert, --out-key are required")
  else match (let! ca := LoadCA (caCert f) (caKey f) fs in
              IssueServerCert ca cn (map TrimSpace (Split Byte.x2c host)) (lifetime f) key serial now) with
  | Err e => (fs, Err e)
  | Ok (certPEM, keyPEM) => WriteCertAndKey io (outCert f) certPEM (outKey f) keyPEM fs
  end.

Definition cmdCAIssueProducer (f : issue_flags) (id : bytes) (key : res bytes) (serial : res Z) (now : Z) (io : pair_io) (fs : Files) : Files * res unit :=
  if bool_decide (caCert f = []) || bool_decide (caKey f = []) || bool_decide (id = []) || bool_decide (outCert f = []) || bool_decide (outKey f = [])
  then (fs, errorf "ca-issue-producer: --ca-cert, --ca-key, --id, --out-cert, --out-key are required")
  else match (let! ca := LoadCA (caCert f) (caKey f) fs in IssueClientCert ca id (lifetime f) key serial now) with
  | Err e => (fs, Err e)
  | Ok (certPEM, keyPEM) => WriteCertAndKey io (outCert f) certPEM (outKey f) keyPEM fs
  end.

(** ** What a peer checks *)

(** A leaf under a root, as [Certificate.Verify] checks it for a use at a
    time. *)
Definition valid_at (c : Certificate) (t : Z) : Prop := NotBefore (tbs c) <= t <= NotAfter (tbs c).
Definition signed_by (root c : Certificate) : Prop :=
  Issuer c = Subject (tbs root) /\ ed_verify (PubKey root) (to_be_signed (tbs c) (Issuer c) (PubKey c)) (Signature c) = true.
Definition accepted_for (root c : Certificate) (u : ext_key_usage) (t : Z) : Prop :=
  signed_by root c /\ valid_at c t /\ valid_at root t /\ IsCA (tbs root) = true /\ BasicConstraintsValid (tbs root) = true /\
  u ∈ ExtKeyUsage (tbs c) /\ u ∈ ExtKeyUsage (tbs root).

Context `{!CryptoLaws _} `{!X509Laws}.

(** The bound on the blocks is never met: a block is shorter than what it was
    found in. *)
Lemma find_certificate_bound n m b : (length b <= n)%nat -> (length b <= m)%nat -> find_certificate n b = find_certificate m b.
Proof.
  revert m b. induction n as [|n IH]; intros m b Ln Lm; destruct m as [|m]; cbn [find_certificate]; try done;
    destruct (pem_decode b) as [[[ty x] rest]|] eqn:D; try done; apply pem_shrinks in D; try lia.
  case_bool_decide; [done|]. apply IH; lia.
Qed.

Lemma parseCertPEM_encode c : parseCertPEM (pem_encode CERTIFICATE (der c)) = Ok c.
Proof.
  unfold parseCertPEM. destruct (length (pem_encode CERTIFICATE (der c))); cbn [find_certificate]; rewrite pem_decoded, bool_decide_eq_true_2, parse_der by done; done.
Qed.

Lemma parsePrivateKeyPEM_encode k : len k = PrivateKeySize -> parsePrivateKeyPEM (pem_encode PRIVATE_KEY (pkcs8 k)) = Ok k.
Proof. intros L. unfold parsePrivateKeyPEM. by rewrite pem_decoded, pkcs8_parsed. Qed.

Lemma write_pair io cp c kp k fs fs' : WriteCertAndKey io cp c kp k fs = (fs', Ok tt) -> fs' = <[kp := k]> (<[cp := c]> fs).
Proof. unfold WriteCertAndKey, WriteFile. destruct io as [[] [] [] []]; cbn; intros E; try done; by injection E. Qed.

Definition root_name (org : bytes) : Name := mk_name (str "stele " ++ org ++ str " root CA") [org].

(** The authority [ca-init] leaves on disk. *)
Lemma ca_init_load outCert outKey org key serial now io fs fs' :
  (forall k, key = Ok k -> len k = PrivateKeySize) -> outCert <> outKey ->
  cmdCAInit outCert outKey org key serial now io fs = (fs', Ok tt) ->
  exists ca k, key = Ok k /\ LoadCA outCert outKey fs' = Ok ca /\ Priv ca = k /\ PubKey (Cert ca) = ed_public k /\
    signed_by (Cert ca) (Cert ca) /\ Subject (tbs (Cert ca)) = root_name org /\
    IsCA (tbs (Cert ca)) = true /\ BasicConstraintsValid (tbs (Cert ca)) = true /\
    ExtKeyUsage (tbs (Cert ca)) = [ExtKeyUsageServerAuth; ExtKeyUsageClientAuth] /\
    NotBefore (tbs (Cert ca)) = to_second (now - minute) /\ NotAfter (tbs (Cert ca)) = to_second (now + DefaultCALifetime).
Proof.
  intros Lk Ne E. unfold cmdCAInit in E. destruct (_ || _); [done|]. unfold GenerateCA, CreateCertificate in E.
  destruct (bool_decide (org = [])); [done|]. destruct key as [k|]; [|done]. destruct serial as [sn|]; [|done]. cbn [res_bind] in E.
  destruct (negb (encodable _)); [done|]. cbn [res_bind] in E. rewrite parse_der in E. apply write_pair in E. subst fs'.
  eexists _, k. split; [done|]. unfold LoadCA. rewrite lookup_insert_ne, lookup_insert_eq by done. cbn [CertPEM Priv].
  rewrite parseCertPEM_encode. cbn [wrap_err res_bind]. rewrite lookup_insert_eq, parsePrivateKeyPEM_encode by (by apply Lk).
  split; [done|]. cbn. split_and!; try done. split; [done|]. cbn. apply ed_sign_verify.
Qed.

(** What a certificate issued under a loaded authority says. *)
Lemma issueLeaf_spec ca cn hosts life eku key serial now certPEM keyPEM :
  (forall k, key = Ok k -> len k = PrivateKeySize) -> issueLeaf ca cn hosts life eku key serial now = Ok (certPEM, keyPEM) ->
  exists c k, parseCertPEM certPEM = Ok c /\ parsePrivateKeyPEM keyPEM = Ok k /\ PubKey c = ed_public k /\ signed_by (Cert ca) c /\
    CommonName (Subject (tbs c)) = cn /\ ExtKeyUsage (tbs c) = [eku] /\ IsCA (tbs c) = false /\
    NotBefore (tbs c) = to_second (now - minute) /\ NotAfter (tbs c) = to_second (now + life).
Proof.
  intros Lk E. unfold issueLeaf, CreateCertificate in E. destruct key as [k|]; [|done]. destruct serial as [sn|]; [|done]. cbn [res_bind] in E.
  destruct (foldl add_host ([], []) hosts) as [ips dns]. destruct (negb (encodable _)); [done|].
  destruct (bytesEqual (PubKey (Cert ca)) (ed_public (Priv ca))) eqn:Bk; [|done]. apply bytesEqual_spec in Bk. cbn [negb res_bind] in E.
  injection E as <- <-. rewrite parseCertPEM_encode, parsePrivateKeyPEM_encode by (by apply Lk). eexists _, k.
  do 2 (split; [done|]). cbn. split_and!; try done. split; [done|]. cbn. rewrite Bk. apply ed_sign_verify.
Qed.

Definition leaf_lifetime (d : Z) : Z := if d =? 0 then DefaultLeafLifetime else d.

(** The producer certificate that the two commands leave on disk. *)
Lemma producer_certificate org k1 sn1 now1 io1 fs fs1 f id k2 sn2 now2 io2 fs2 :
  (forall k, k1 = Ok k -> len k = PrivateKeySize) -> (forall k, k2 = Ok k -> len k = PrivateKeySize) ->
  caCert f <> caKey f -> outCert f <> outKey f ->
  cmdCAInit (caCert f) (caKey f) org k1 sn1 now1 io1 fs = (fs1, Ok tt) -> cmdCAIssueProducer f id k2 sn2 now2 io2 fs1 = (fs2, Ok tt) ->
  exists root certPEM keyPEM c k, parseCertPEM <$> fs1 !! caCert f = Some (Ok root) /\
    fs2 !! outCert f = Some certPEM /\ fs2 !! outKey f = Some keyPEM /\
    parseCertPEM certPEM = Ok c /\ parsePrivateKeyPEM keyPEM = Ok k /\ PubKey c = ed_public k /\ CommonName (Subject (tbs c)) = id /\
    (forall t, to_second (now2 - minute) <= t <= to_second (now2 + leaf_lifetime (lifetime f)) -> valid_at root t ->
      accepted_for root c ExtKeyUsageClientAuth t) /\
    (forall t, ~ accepted_for root c ExtKeyUsageServerAuth t).
Proof.
  intros L1 L2 N1 N2 I P. destruct (ca_init_load _ _ _ _ _ _ _ _ _ L1 N1 I) as (ca & k & _ & Ld & _ & _ & _ & _ & Ica & Bc & Ex & _).
  unfold cmdCAIssueProducer in P. destruct (_ || _); [done|]. rewrite Ld in P. cbn [res_bind] in P. unfold IssueClientCert in P.
  destruct (bool_decide (id = [])); [done|]. fold (leaf_lifetime (lifetime f)) in P.
  destruct (issueLeaf ca id [] (leaf_lifetime (lifetime f)) ExtKeyUsageClientAuth k2 sn2 now2) as [[certPEM keyPEM]|] eqn:E; [|done].
  apply write_pair in P. subst fs2. destruct (issueLeaf_spec _ _ _ _ _ _ _ _ _ _ L2 E) as (c & k' & Pc & Pk & Pub & Sg & Cn & Eku & _ & Nb & Na).
  exists (Cert ca), certPEM, keyPEM, c, k'. rewrite lookup_insert_ne, !lookup_insert_eq by done.
  split; [|do 6 (split; [done|])].
  - unfold LoadCA in Ld. destruct (fs1 !! caCert f) as [b|]; [|done]. cbn. destruct (parseCertPEM b) as [root|]; [|done]. cbn [wrap_err res_bind] in Ld.
    destruct (fs1 !! caKey f) as [kb|]; [|done]. destruct (parsePrivateKeyPEM kb); [|done]. by injection Ld as <-.
  - split.
    + intros t V Vr. unfold accepted_for, valid_at. rewrite Nb, Na, Eku, Ex. do 5 (split; [done|]). split; [left|right; left].
    + intros t (_ & _ & _ & _ & _ & X & _). rewrite Eku in X. by apply list_elem_of_singleton in X.
Qed.
End Ca.

Section Admission.
Context {B : Badger value} {CR : CompactRange} {PL : ProofLib} {C : Crypto} {LM : Limiter}.
Context {BL : BadgerLaws B} {CRL : CompactRangeLaws CR} {PLL : ProofLibLaws PL} {CL : CryptoLaws C}.
Context {X : X509} {XL : X509Laws}.
Variable may : Api.input -> Prop.

(** C30. From the authority to the log.  After ca-init and ca-issue-producer
    for an id, run with certificate and key paths that differ, the files hold a
    certificate and the private key of the public key it carries, and every peer
    with the root accepts the certificate as a client, never as a server, from a
    minute before it was issued until its lifetime is over - as long as the root
    itself is valid; and at a daemon that requires client
    certificates, an append over a connection with that certificate that is
    answered with 200 put an envelope of the producer of that id, white space
    around it trimmed, and of no other into the log. *)
Theorem producer_certificate_binds org k1 sn1 now1 io1 fs fs1 f id k2 sn2 now2 io2 fs2 :
  (forall k, k1 = Ok k -> len k = PrivateKeySize) -> (forall k, k2 = Ok k -> len k = PrivateKeySize) ->
  caCert f <> caKey f -> outCert f <> outKey f ->
  cmdCAInit (caCert f) (caKey f) org k1 sn1 now1 io1 fs = (fs1, Ok tt) -> cmdCAIssueProducer f id k2 sn2 now2 io2 fs1 = (fs2, Ok tt) ->
  exists root c k, parseCertPEM <$> fs1 !! caCert f = Some (Ok root) /\ parseCertPEM <$> fs2 !! outCert f = Some (Ok c) /\
    parsePrivateKeyPEM <$> fs2 !! outKey f = Some (Ok k) /\ PubKey c = ed_public k /\
    (forall t, to_second (now2 - minute) <= t <= to_second (now2 + leaf_lifetime (lifetime f)) -> valid_at root t ->
      accepted_for root c ExtKeyUsageClientAuth t) /\
    (forall t, ~ accepted_for root c ExtKeyUsageServerAuth t) /\
    forall r s ra e s' cns, reachable (Api.Log s) -> Api.RequireClientCertCN s = true -> TLS r = Some (CommonName (Subject (tbs c)) :: cns) ->
      exec may (Api.handleAppend r) s (Reply 200 ra (AppendResponse e)) s' ->
      exists env es, Entry.Envelope e = Some env /\ Envelope.ProducerID env = CNFromCert c /\ CNFromCert c = TrimSpace id /\
        Log.observes (Api.Log s') es /\ es !! Z.to_nat (Entry.Index e) = Some e.
Proof.
  intros L1 L2 N1 N2 I P. destruct (producer_certificate _ _ _ _ _ _ _ _ _ _ _ _ _ _ L1 L2 N1 N2 I P)
    as (root & cp & kp & c & k & Pr & Fc & Fk & Pc & Pk & Pub & Cn & Acc & Nacc).
  exists root, c, k. rewrite Fc, Fk. cbn. rewrite Pc, Pk. split_and!; try done.
  intros r s ra e s' cns R Rq T E. destruct (append_served may r s ra e s' R E) as (req & env & _ & _ & Ev & _ & Hcn & _ & es & O & Lk).
  destruct (Hcn Rq) as (cn & cns' & T' & Ti). rewrite T in T'. injection T' as <- <-. exists env, es. unfold CNFromCert. rewrite Ti, <- Cn. by rewrite Ti.
Qed.
End Admission.
End Ca.

(** ** Producers whose ids differ by white space

    The certificate issued to the one names the other. *)
Example spaced_id_names_other : forall t i p s, Ca.CNFromCert (mk_certificate (mk_template 1 (mk_name (str " alice") []) t t [] [ExtKeyUsageClientAuth] false false false [] []) i p s) = str "alice".
Proof. reflexivity. Qed.

(** ** A concrete encoding

    Any countable type is bytes: the bits of its code, and a last one. *)
Fixpoint bits (p : positive) : bytes :=
  match p with xH => [Byte.x02] | xO p => Byte.x00 :: bits p | xI p => Byte.x01 :: bits p end.
Fixpoint of_bits (b : bytes) : option positive :=
  match b with
  | [Byte.x02] => Some xH
  | Byte.x00 :: b => xO <$> of_bits b
  | Byte.x01 :: b => xI <$> of_bits b
  | _ => None
  end.
Definition toy_enc {A} `{Countable A} (a : A) : bytes := bits (encode a).
Definition toy_dec {A} `{Countable A} (b : bytes) : option A := p ← of_bits b; decode p.

Lemma of_bits_bits p : of_bits (bits p) = Some p.
Proof. induction p as [p IH|p IH|]; cbn; [by rewrite IH..|done]. Qed.
Lemma toy_dec_enc {A} `{Countable A} (a : A) : toy_dec (toy_enc a) = Some a.
Proof. unfold toy_dec, toy_enc. rewrite of_bits_bits. cbn. apply decode_encode. Qed.

#[export] Instance key_usage_dec : EqDecision key_usage.
Proof. solve_decision. Defined.
#[export] Program Instance key_usage_countable : Countable key_usage := inj_countable'
  (fun u => match u with KeyUsageDigitalSignature => 0 | KeyUsageCertSign => 1 | KeyUsageCRLSign => 2 end)
  (fun z => if z =? 0 then KeyUsageDigitalSignature else if z =? 1 then KeyUsageCertSign else KeyUsageCRLSign) _.
Next Obligation. by intros []. Qed.
#[export] Program Instance ext_key_usage_countable : Countable ext_key_usage := inj_countable'
  (fun u => match u with ExtKeyUsageServerAuth => true | ExtKeyUsageClientAuth => false end)
  (fun b : bool => if b then ExtKeyUsageServerAuth else ExtKeyUsageClientAuth) _.
Next Obligation. by intros []. Qed.
#[export] Program Instance name_countable : Countable Name := inj_countable'
  (fun n => (CommonName n, Organization n)) (fun x => mk_name x.1 x.2) _.
Next Obligation. by intros []. Qed.
#[export] Instance template_dec : EqDecision template.
Proof. solve_decision. Defined.
#[export] Program Instance template_countable : Countable template := inj_countable'
  (fun t => ((SerialNumber t, Subject t, NotBefore t, NotAfter t), (KeyUsage t, ExtKeyUsage t),
             (BasicConstraintsValid t, IsCA t, MaxPathLenZero t), (IPAddresses t, DNSNames t)))
  (fun x => let '((a, b, c, d), (e, f), (g, h, i), (j, k)) := x in mk_template a b c d e f g h i j k) _.
Next Obligation. by intros []. Qed.
#[export] Instance certificate_dec : EqDecision Certificate.
Proof. solve_decision. Defined.
#[export] Program Instance certificate_countable : Countable Certificate := inj_countable'
  (fun c => (tbs c, Issuer c, PubKey c, Signature c)) (fun x => let '(a, b, c, d) := x in mk_certificate a b c d) _.
Next Obligation. by intros []. Qed.

#[export] Instance toy_x509 : X509 := {|
  to_be_signed t n p := toy_enc (t, n, p);
  encodable _ := true;
  der := toy_enc;
  ParseCertificate := toy_dec;
  pem_encode ty b := toy_enc (ty, b);
  pem_decode b := match (toy_dec b : option (bytes * bytes)) with Some (ty, x) => Some (ty, x, []) | None => None end;
  pkcs8 := toy_enc;
  parse_pkcs8 b := Ok (toy_dec b);
  parse_ip _ := None;
|}.

#[export] Instance toy_x509_laws : X509Laws.
Proof.
  split; cbn -[toy_dec toy_enc].
  - intros c. apply toy_dec_enc.
  - intros ty b. by rewrite toy_dec_enc.
  - intros b ty x rest. destruct b as [|c b]; [done|]. destruct (toy_dec (c :: b)) as [[ty' x']|]; [|done]. intros [= _ _ <-]. simpl. lia.
  - intros k _. by rewrite toy_dec_enc.
Qed.

(** ** The witness: an authority, and a certificate for [svc-1] *)

Definition ca_fine : Ca.pair_io := Ca.mk_pair true Wrote true Wrote.
Definition ca_files : Ca.issue_flags := Ca.mk_issue (str "ca.pem") (str "ca.key") (str "svc.pem") (str "svc.key") 0.
Definition ca_key1 : bytes := replicate 64 Byte.x01.
Definition ca_key2 : bytes := replicate 64 Byte.x02.
Definition ca_disk1 : Files := (Ca.cmdCAInit (str "ca.pem") (str "ca.key") (str "example.com") (Ok ca_key1) (Ok 7) (10 ^ 18) ca_fine ∅).1.
Definition ca_disk2 : Files := (Ca.cmdCAIssueProducer ca_files (str "svc-1") (Ok ca_key2) (Ok 8) (10 ^ 18) ca_fine ca_disk1).1.

Lemma ca_init_ok : Ca.cmdCAInit (str "ca.pem") (str "ca.key") (str "example.com") (Ok ca_key1) (Ok 7) (10 ^ 18) ca_fine ∅ = (ca_disk1, Ok tt).
Proof. unfold ca_disk1, Ca.cmdCAInit, Ca.GenerateCA, Ca.CreateCertificate. cbn [res_bind negb encodable toy_x509 bool_decide orb]. by rewrite parse_der. Qed.

Lemma ca_key_sized (b : Byte.byte) (k : bytes) : Ok (replicate 64 b) = Ok k -> len k = PrivateKeySize.
Proof. by intros [= <-]. Qed.

(** A certificate is issued to every non-empty id, when the files take their
    writes. *)
Lemma issue_succeeds f id ca k sn now fs : Ca.LoadCA (Ca.caCert f) (Ca.caKey f) fs = Ok ca -> PubKey (Ca.Cert ca) = ed_public (Ca.Priv ca) ->
  Ca.caCert f <> [] -> Ca.caKey f <> [] -> Ca.outCert f <> [] -> Ca.outKey f <> [] -> id <> [] ->
  (Ca.cmdCAIssueProducer f id (Ok k) (Ok sn) now ca_fine fs).2 = Ok tt.
Proof.
  intros Ld Pb N1 N2 N3 N4 N5. unfold Ca.cmdCAIssueProducer. rewrite !bool_decide_eq_false_2, Ld by done. cbn [orb res_bind].
  unfold Ca.IssueClientCert, Ca.issueLeaf, Ca.CreateCertificate. rewrite bool_decide_eq_false_2, Pb, (proj2 (bytesEqual_spec _ _) eq_refl) by done. reflexivity.
Qed.

Lemma ca_issue_ok : Ca.cmdCAIssueProducer ca_files (str "svc-1") (Ok ca_key2) (Ok 8) (10 ^ 18) ca_fine ca_disk1 = (ca_disk2, Ok tt).
Proof.
  destruct (Ca.ca_init_load (str "ca.pem") (str "ca.key") _ _ _ _ _ _ _ (ca_key_sized Byte.x01) ltac:(done) ca_init_ok)
    as (ca & k & [= <-] & Ld & Pk & Pb & _).
  unfold ca_disk2. rewrite (surjective_pairing (Ca.cmdCAIssueProducer _ _ _ _ _ _ _)) at 1. apply (f_equal (pair _)).
  apply (issue_succeeds ca_files _ ca); [exact Ld|rewrite Pk; exact Pb|discriminate..].
Qed.

Lemma producer_certificate_binds_witness :
  exists root c k, Ca.parseCertPEM <$> ca_disk1 !! str "ca.pem" = Some (Ok root) /\ Ca.parseCertPEM <$> ca_disk2 !! str "svc.pem" = Some (Ok c) /\
    Ca.parsePrivateKeyPEM <$> ca_disk2 !! str "svc.key" = Some (Ok k) /\ PubKey c = ed_public k /\ (forall t, ~ Ca.accepted_for root c ExtKeyUsageServerAuth t).
Proof.
  destruct (Ca.producer_certificate_binds writes_through (str "example.com") (Ok ca_key1) (Ok 7) (10 ^ 18) ca_fine ∅ ca_disk1 ca_files (str "svc-1")
    (Ok ca_key2) (Ok 8) (10 ^ 18) ca_fine ca_disk2) as (root & c & k & R & Cc & Kk & Pk & _ & N & _);
    [apply (ca_key_sized Byte.x01)|apply (ca_key_sized Byte.x02)|discriminate|discriminate|apply ca_init_ok|apply ca_issue_ok|].
  exists root, c, k. split; [exact R|]. split; [exact Cc|]. split; [exact Kk|]. split; [exact Pk|exact N].
Defined.
