(* ===== verification/Honeylog.v ===== *)
(** * Honeypot alert sinks (pkg/honeylog)

    Where an alert of the API goes: a webhook, standard error, or several
    sinks, which may be fan-outs themselves. *)

From S2P Require Import Prelude Auditor Api.
From stdpp Require Import base numbers list gmap strings.
From Stdlib Require Import ZArith Lia.

#[local] Open Scope Z_scope.

Module Honeylog.

#[warnings="-register-all"]
Inductive Sink :=
| WebhookSink (URL : bytes)
| MultiSink (Sinks : list Sink)
| StderrSink.

(** What a delivery did: a POST to a URL, or a line on standard error. *)
Inductive effect := Posted (url : bytes) (a : Alert) | Printed (a : Alert).

(** [web]: what becomes of a POST to a URL. *)
Definition webhook (web : bytes -> http unit) (url : bytes) (a : Alert) : list effect * res unit :=
  if bool_decide (url = []) then ([], Err ["honeylog: empty webhook URL"%string])
  else match web url with
  | BadURL e => ([], Err e)
  | NoAnswer e => ([Posted url a], Err e)
  | Answer st _ =>
      ([Posted url a], if negb (Z.quot st 100 =? 2) then Err ["honeylog webhook: HTTP error status"%string] else Ok tt)
  end.

(** [if err != nil && firstErr == nil { firstErr = err }] *)
Definition keep_first (firstErr r : res unit) : res unit :=
  match firstErr, r with Ok _, Err e => Err e | _, _ => firstErr end.

Fixpoint Fire (web : bytes -> http unit) (s : Sink) (a : Alert) : list effect * res unit :=
  match s with
  | WebhookSink url => webhook web url a
  | StderrSink => ([Printed a], Ok tt)
  | MultiSink l =>
      (fix fan (l : list Sink) (acc : list effect * res unit) :=
         match l with
         | [] => acc
         | s :: l' => let '(ef, r) := Fire web s a in fan l' (acc.1 ++ ef, keep_first acc.2 r)
         end) l ([], Ok tt)
  end.

(** ** The fan-out, flattened *)

Fixpoint leaves (s : Sink) : list Sink :=
  match s with
  | MultiSink l => (fix go l := match l with [] => [] | s :: l' => leaves s ++ go l' end) l
  | _ => [s]
  end.

(** The first failure of a list of results. *)
Definition first_err (rs : list (res unit)) : res unit := foldl keep_first (Ok tt) rs.

(** Sinks have no induction principle for the nested list: this is it. *)
Fixpoint Sink_rect' (P : Sink -> Prop) (Hw : forall u, P (WebhookSink u)) (He : P StderrSink)
    (Hm : forall l, Forall P l -> P (MultiSink l)) (s : Sink) : P s :=
  match s with
  | WebhookSink u => Hw u
  | StderrSink => He
  | MultiSink l => Hm l ((fix go l : Forall P l :=
      match l with
      | [] => Forall_nil_2 P
      | s :: l' => Forall_cons_2 P s l' (Sink_rect' P Hw He Hm s) (go l')
      end) l)
  end.

Lemma keep_first_ok r : keep_first (Ok tt) r = r.
Proof. by destruct r as [[]|]. Qed.
Lemma keep_first_assoc a b c : keep_first (keep_first a b) c = keep_first a (keep_first b c).
Proof. by destruct a as [[]|], b as [[]|], c as [[]|]. Qed.
Lemma first_err_from rs : forall r, foldl keep_first r rs = keep_first r (first_err rs).
Proof.
  unfold first_err. induction rs as [|x rs IH]; intros r; [by destruct r as [[]|]|]. cbn [foldl].
  rewrite IH, (IH (keep_first (Ok tt) x)), keep_first_ok. apply keep_first_assoc.
Qed.
Lemma first_err_app rs rs' : first_err (rs ++ rs') = keep_first (first_err rs) (first_err rs').
Proof. unfold first_err. rewrite foldl_app. apply first_err_from. Qed.

Lemma Fire_leaves web a s :
  Fire web s a = (concat (map (fun x => (Fire web x a).1) (leaves s)), first_err (map (fun x => (Fire web x a).2) (leaves s))).
Proof.
  induction s as [u| |l IH] using Sink_rect'.
  - cbn. rewrite app_nil_r. by destruct (webhook web u a) as [ef [[]|]].
  - done.
  - cbn [Fire leaves].
    enough (forall ef r, (fix fan (l : list Sink) (acc : list effect * res unit) :=
         match l with
         | [] => acc
         | s :: l' => let '(ef, r) := Fire web s a in fan l' (acc.1 ++ ef, keep_first acc.2 r)
         end) l (ef, r) =
      let ls := (fix go l := match l with [] => [] | s :: l' => leaves s ++ go l' end) l in
      (ef ++ concat (map (fun x => (Fire web x a).1) ls), keep_first r (first_err (map (fun x => (Fire web x a).2) ls)))) as X.
    { rewrite X. cbn zeta. f_equal. apply keep_first_ok. }
    induction IH as [|s l Hs _ IHl]; intros ef r; [cbn; rewrite app_nil_r; by destruct r as [[]|]|].
    rewrite Hs. cbn [fst snd]. rewrite IHl. cbn zeta.
    by rewrite !map_app, concat_app, first_err_app, app_assoc, keep_first_assoc.
Qed.
End Honeylog.

(** ** Properties *)

(** One failing sink does not silence the others: firing any tree of fan-outs
    delivers to every sink in it, in order, exactly as if each were fired
    alone, and reports the first failure. *)
Theorem honey_fanout web s a :
  Honeylog.Fire web s a =
  (concat (map (fun x => (Honeylog.Fire web x a).1) (Honeylog.leaves s)),
   Honeylog.first_err (map (fun x => (Honeylog.Fire web x a).2) (Honeylog.leaves s))).
Proof. apply Honeylog.Fire_leaves. Qed.

Example honey_fanout_run :
  let a := mk_alert [] 0 [] [] [] [] 0 [] in
  Honeylog.Fire (fun _ => NoAnswer ["refused"%string])
    (Honeylog.MultiSink [Honeylog.WebhookSink []; Honeylog.MultiSink [Honeylog.WebhookSink (str "u"); Honeylog.StderrSink]]) a
  = ([Honeylog.Posted (str "u") a; Honeylog.Printed a], Err ["honeylog: empty webhook URL"%string]).
Proof. reflexivity. Qed.
