(* ===== verification/WitnessApi.v ===== *)
(** * The witness's HTTP API and its gossip client (pkg/witness/api.go, gossip.go)

    Every handler makes one call of the server, under its lock; the gossip
    round asks every peer about every watched operator. *)

From S2P Require Import Prelude Crypto GoText Threshold Fwdsec Checkpoint WitnessServer Auditor Api.
From stdpp Require Import base numbers list gmap strings sorting.
From Stdlib Require Import ZArith Lia.

#[local] Open Scope Z_scope.

(** The lists the server returns are in the runtime's map order, here that of
    [map_to_list]. *)
Module WitnessApi.

Record CosignRequest := mk_cosign {
  cq_Checkpoint : option Checkpoint.t;
  cq_Chain : option Chain.t;
  cq_Group : option Group.t;
}.
Record AddOperatorRequest := mk_add_op { ao_Operator : option WatchedOperator.t }.
Record AddPeerRequest := mk_add_peer { ap_Peer : option Peer.t }.

Inductive reply :=
| ErrorResponse (e : error)
| CosignResponse (sig : WitnessSig.t)
| OperatorsBody (l : list WatchedOperator.t) | OperatorBody (op : WatchedOperator.t)
| PeersBody (l : list Peer.t) | PeerBody (p : Peer.t)
| SeenResponse (origin : bytes) (seen : gmap Z bytes)
| SignedSeenResponse (s : SignedSeen.t)
| CrossAttestationsResponse (l : list CrossAttestation.t)
| PeerAttestationsResponse (l : list PeerAttestation.t)
| CheckpointResponse (c : Checkpoint.t)
| ForksBody (l : list ForkEvidence.t) | ClearedBody (origin : bytes)
| IdentityResponse (id public_key quantum_public_key key_id : bytes).

Record response := Reply { status : Z; content : reply }.
Definition writeJSON (st : Z) (b : reply) : response := Reply st b.
Definition writeErr (st : Z) (e : error) : response := writeJSON st (ErrorResponse e).

Section WitnessApi.
Context `{Crypto}.

Definition ListOperators (s : Server.t) : list WatchedOperator.t := map snd (map_to_list (Server.operators s)).
Definition ListPeers (s : Server.t) : list Peer.t := map snd (map_to_list (Server.peers s)).
Definition ListForks (s : Server.t) : list ForkEvidence.t := map snd (map_to_list (Server.forks s)).

(** Clock and write outcomes of one request. *)
Record input := mk_input { now : Z; wr_forks : bool; wr_seen : bool; wr_ckpt : bool; wr_file : bool }.

Definition handler : Type := input -> Server.t -> Server.t * response.

(** A read-only branch. *)
Definition answer (f : input -> Server.t -> response) : handler := fun i s => (s, f i s).
Definition refuse (st : Z) (m : string) : handler := answer (fun _ _ => writeErr st [m]).

(** [json.NewDecoder(r.Body).Decode(&req)] *)
Definition decode {T} (r : Request T) (k : T -> handler) : handler :=
  match Body r with
  | Decoded v => k v
  | TooLarge => refuse 400 "http: request body too large"
  | Malformed e => answer (fun _ _ => writeErr 400 e)
  end.
Definition only {T} (m : method) (r : Request T) (msg : string) (k : handler) : handler :=
  if bool_decide (Method r = m) then k else refuse 405 msg.

Definition cosign (r : Request CosignRequest) : handler :=
  only POST r "POST required" (decode r (fun req =>
  match cq_Checkpoint req, cq_Chain req with
  | Some c, Some chain => fun i s =>
      match Server.Cosign (now i) (wr_forks i) (wr_seen i) (wr_ckpt i) c (Some chain) (cq_Group req) s with
      | (s, Err e) => (s, writeErr 400 e)
      | (s, Ok sig) => (s, writeJSON 200 (CosignResponse sig))
      end
  | _, _ => refuse 400 "checkpoint and chain required"
  end)).

Definition operators (r : Request AddOperatorRequest) : handler :=
  match Method r with
  | GET => answer (fun _ s => writeJSON 200 (OperatorsBody (ListOperators s)))
  | POST => decode r (fun req i s =>
      match Server.AddOperator (wr_file i) (ao_Operator req) s, ao_Operator req with
      | (s, Err e), _ => (s, writeErr 400 e)
      | (s, Ok _), Some op => (s, writeJSON 200 (OperatorBody op))
      | (s, Ok _), None => (s, writeErr 400 [])  (* [AddOperator] refuses nil *)
      end)
  | _ => refuse 405 "GET or POST"
  end.

(** [AddPeer] stamps the request's own peer, so the reply shows the stamp. *)
Definition stamped (nw : Z) (p : Peer.t) : Peer.t :=
  if Peer.AddedAt p =? 0 then Peer.mk (Peer.ID p) (Peer.URL p) (Peer.PublicKey p) (Peer.Description p) nw else p.
Definition peers (r : Request AddPeerRequest) : handler :=
  match Method r with
  | GET => answer (fun _ s => writeJSON 200 (PeersBody (ListPeers s)))
  | POST => decode r (fun req i s =>
      match Server.AddPeer (now i) (wr_file i) (ap_Peer req) s, ap_Peer req with
      | (s, Err e), _ => (s, writeErr 400 e)
      | (s, Ok _), Some p => (s, writeJSON 200 (PeerBody (stamped (now i) p)))
      | (s, Ok _), None => (s, writeErr 400 [])  (* [AddPeer] refuses nil *)
      end)
  | _ => refuse 405 "GET or POST"
  end.

Definition get_origin {T} (r : Request T) (k : bytes -> handler) : handler :=
  let origin := query_get (Query r) (str "origin") in
  if bool_decide (origin = []) then refuse 400 "origin required" else k origin.

Definition seen (r : Request unit) : handler :=
  only GET r "GET required" (get_origin r (fun origin =>
  answer (fun _ s => writeJSON 200 (SeenResponse origin (Server.SeenFor s origin))))).
Definition seen_signed (r : Request unit) : handler :=
  only GET r "GET required" (get_origin r (fun origin =>
  answer (fun i s => writeJSON 200 (SignedSeenResponse (Server.IssueSignedSeen (now i) origin s))))).
Definition cross_attestations (r : Request unit) : handler :=
  only GET r "GET required" (answer (fun _ s =>
  writeJSON 200 (CrossAttestationsResponse (Server.CrossAttestationsAbout (query_get (Query r) (str "peer_id")) s)))).
Definition peer_attestations (r : Request unit) : handler :=
  only GET r "GET required" (answer (fun _ s =>
  writeJSON 200 (PeerAttestationsResponse (Server.PeerAttestations (query_get (Query r) (str "peer_id")) s)))).

Definition checkpoint (r : Request unit) : handler :=
  only GET r "GET required" (
  let origin := query_get (Query r) (str "origin") in
  let sizeStr := query_get (Query r) (str "size") in
  if bool_decide (origin = []) || bool_decide (sizeStr = []) then refuse 400 "origin and size required"
  else match ParseUint sizeStr with
  | Err e => answer (fun _ _ => writeErr 400 e)
  | Ok size => answer (fun _ s =>
      match Server.CheckpointAt s origin size with
      | None => writeErr 404 ["not seen"%string]
      | Some c => writeJSON 200 (CheckpointResponse c)
      end)
  end).

Definition forks (r : Request unit) : handler :=
  match Method r with
  | GET => answer (fun _ s => writeJSON 200 (ForksBody (ListForks s)))
  | DELETE => get_origin r (fun origin i s =>
      (Server.ClearFork (wr_forks i) origin s, writeJSON 200 (ClearedBody origin)))
  | _ => refuse 405 "GET or DELETE"
  end.

Definition pubkey (r : Request unit) : handler :=
  answer (fun _ s => writeJSON 200 (IdentityResponse (Server.id s) (Server.pub s) (Server.qPub s) (Server.keyID s))).

(** The routes of [NewMux]. *)
Inductive call_to :=
| ToCosign (r : Request CosignRequest)
| ToOperators (r : Request AddOperatorRequest) | ToPeers (r : Request AddPeerRequest)
| ToSeen (r : Request unit) | ToSeenSigned (r : Request unit)
| ToCrossAttestations (r : Request unit) | ToPeerAttestations (r : Request unit)
| ToCheckpoint (r : Request unit) | ToForks (r : Request unit) | ToPubkey (r : Request unit).

Definition NewMux (c : call_to) : handler :=
  match c with
  | ToCosign r => cosign r
  | ToOperators r => operators r
  | ToPeers r => peers r
  | ToSeen r => seen r
  | ToSeenSigned r => seen_signed r
  | ToCrossAttestations r => cross_attestations r
  | ToPeerAttestations r => peer_attestations r
  | ToCheckpoint r => checkpoint r
  | ToForks r => forks r
  | ToPubkey r => pubkey r
  end.

(** ** Gossip *)

(** The decoders of the gossip client, as in [Wire]. *)
Record gossip_wire (body : Type) := mk_gwire {
  decode_signed_seen : body -> option SignedSeen.t * res unit;
  decode_checkpoint : body -> option Checkpoint.t * res unit;
}.
Arguments decode_signed_seen {_}.
Arguments decode_checkpoint {_}.

Context {body : Type} (gw : gossip_wire body).

(** A fetch: the error of [http.NewRequestWithContext] is dropped, so a URL it
    does not parse leaves a nil request, on which [c.Do] panics ([None]). *)
Definition get_json {T} (dec : body -> option T * res unit) (w : bytes -> http body) (url : bytes) : option (res (option T)) :=
  match w url with
  | BadURL _ => None
  | NoAnswer e => Some (Err e)
  | Answer st b =>
      if negb (Z.quot st 100 =? 2) then Some (Err ["HTTP error status"%string])
      else Some (match dec b with (x, Ok _) => Ok x | (_, Err e) => Err e end)
  end.

Definition seen_url (peerURL origin : bytes) : bytes := peerURL ++ str "/witness/v0/seen-signed?origin=" ++ origin.
Definition fetchSignedSeen (w : bytes -> http body) (peerURL origin : bytes) : option (res SignedSeen.t) :=
  match get_json (decode_signed_seen gw) w (seen_url peerURL origin) with
  | None => None
  | Some (Err e) => Some (Err e)
  | Some (Ok None) => Some (Err ["empty statement"%string])
  | Some (Ok (Some stmt)) => Some (Ok stmt)
  end.

Definition checkpoint_url (peerURL origin : bytes) (size : Z) : bytes :=
  peerURL ++ str "/witness/v0/checkpoint?origin=" ++ origin ++ str "&size=" ++ fmt_d size.
Definition fetchCheckpoint (w : bytes -> http body) (peerURL origin : bytes) (size : Z) : option (res (option Checkpoint.t)) :=
  get_json (decode_checkpoint gw) w (checkpoint_url peerURL origin size).

(** One exchange of a round: clock, writes and the two iteration orders are
    drawn from [io]; [None] is the panic of the goroutine, which ends the
    process. *)
Definition exchange (w : bytes -> http body) (io : Server.gossip_io) (peer : Peer.t) (op : WatchedOperator.t) (s : Server.t)
    : option (Server.t * option ForkEvidence.t) :=
  match fetchSignedSeen w (Peer.URL peer) (WatchedOperator.Origin op) with
  | None => None
  | Some fetched =>
      let fetch size := match fetchCheckpoint w (Peer.URL peer) (WatchedOperator.Origin op) size with
                        | Some r => r
                        | None => Err ["panic"%string]  (* not reached: the statement's URL, with the same host, parsed *)
                        end in
      Some (Server.gossipOne (Server.mk_gio (Server.g_now io) (Server.g_prev io) (Server.g_seen io) fetch (Server.g_wr io))
              peer op fetched s)
  end.

(** The exchanges of a round in the order they get the lock; each event goes
    to [EventSink]. *)
Fixpoint exchanges (w : bytes -> http body) (l : list (Server.gossip_io * (Peer.t * WatchedOperator.t))) (s : Server.t)
    : option (Server.t * list ForkEvidence.t) :=
  match l with
  | [] => Some (s, [])
  | (io, (p, op)) :: l' =>
      match exchange w io p op s with
      | None => None
      | Some (s, ev) =>
          match exchanges w l' s with
          | None => None
          | Some (s, evs) => Some (s, match ev with Some e => e :: evs | None => evs end)
          end
      end
  end.

(** The pairs [gossipRound] starts a goroutine for. *)
Definition round_pairs (s : Server.t) : list (Peer.t * WatchedOperator.t) :=
  flat_map (fun p => map (pair p) (ListOperators s)) (ListPeers s).
Definition gossipRound (w : bytes -> http body) (l : list (Server.gossip_io * (Peer.t * WatchedOperator.t))) (s : Server.t)
    : option (Server.t * list ForkEvidence.t) :=
  if (len (ListPeers s) =? 0) || (len (ListOperators s) =? 0) then Some (s, [])
  else exchanges w l s.

(** ** The life of a served witness *)

(** Requests with their replies, gossip rounds and restarts, in any order and
    with any outcome of the writes. *)
Inductive life : Server.t -> list (call_to * response) -> Prop :=
| life_start sid d hyb io s :
    Server.seen_file d = Server.Missing -> Server.newServer sid d hyb io = (s, Ok tt) -> life s []
| life_request s h c i s' r : life s h -> NewMux c i s = (s', r) -> life s' (h ++ [(c, r)])
| life_gossip s h w l s' evs : life s h -> gossipRound w l s = Some (s', evs) -> life s' h
| life_restart s h sid hyb io s' : life s h -> Server.newServer sid (Server.dir s) hyb io = (s', Ok tt) -> life s' h.

(** The checkpoint a cosign request asked to have signed, and what was given. *)
Definition given (x : call_to * response) : option (Checkpoint.t * WitnessSig.t) :=
  match x with
  | (ToCosign r, Reply _ (CosignResponse sig)) =>
      match Body r with Decoded q => match cq_Checkpoint q with Some c => Some (c, sig) | None => None end | _ => None end
  | _ => None
  end.

Lemma decode_cases {T} (r : Request T) k i s s' x :
  decode r k i s = (s', x) -> (exists v, Body r = Decoded v /\ k v i s = (s', x)) \/ (s' = s /\ exists e, x = writeErr 400 e).
Proof.
  unfold decode, refuse, answer. destruct (Body r) as [v| |e]; [by intros; left; exists v|..]; intros [= <- <-]; right; eauto.
Qed.

(** A request that is not a signed cosign gives out nothing. *)
Lemma given_none c x : (forall sig, content x <> CosignResponse sig) -> given (c, x) = None.
Proof.
  intros N. destruct c, x as [st b]; try done. destruct b; try done. by destruct (N sig).
Qed.

(** One request is one step of the server. *)
Lemma request_reach s issued c i s' x :
  Server.reach s issued -> NewMux c i s = (s', x) ->
  Server.reach s' (issued ++ option_list (given (c, x))).
Proof.
  intros R. assert (forall y, (forall sig, content y <> CosignResponse sig) -> Server.reach s (issued ++ option_list (given (c, y)))) as Q.
  { intros y N. rewrite given_none by done. by rewrite app_nil_r. }
  destruct c as [r|r|r|r|r|r|r|r|r|r]; cbn [NewMux].
  - unfold cosign, only, refuse, answer. case_bool_decide; [|by intros [= <- <-]; apply Q].
    intros [(q & Eb & E)|(-> & e & ->)]%decode_cases; [|by apply Q].
    destruct (cq_Checkpoint q) as [cp|] eqn:Ec; [|by injection E as <- <-; apply Q].
    destruct (cq_Chain q) as [ch|]; [|by injection E as <- <-; apply Q].
    destruct (Server.Cosign _ _ _ _ _ _ _ _) as [s1 [sig|e]] eqn:K; injection E as <- <-.
    + cbn. rewrite Eb, Ec. exact (Server.reach_cosign _ _ _ _ _ _ _ _ _ _ _ R K).
    + cbn. rewrite app_nil_r. exact (Server.reach_cosign _ _ _ _ _ _ _ _ _ _ _ R K).
  - unfold operators, answer, refuse. destruct (Method r); try (by intros [= <- <-]; apply Q).
    intros [(q & Eb & E)|(-> & e & ->)]%decode_cases; [|by apply Q]. cbn. rewrite app_nil_r.
    destruct (Server.AddOperator _ _ _) as [s1 [[]|e]] eqn:K; [destruct (ao_Operator q)|];
      injection E as <- <-; by eapply Server.reach_operator.
  - unfold peers, answer, refuse. destruct (Method r); try (by intros [= <- <-]; apply Q).
    intros [(q & Eb & E)|(-> & e & ->)]%decode_cases; [|by apply Q]. cbn. rewrite app_nil_r.
    destruct (Server.AddPeer _ _ _ _) as [s1 [[]|e]] eqn:K; [destruct (ap_Peer q)|];
      injection E as <- <-; by eapply Server.reach_peer.
  - unfold seen, only, get_origin, answer, refuse. repeat case_bool_decide; intros [= <- <-]; by apply Q.
  - unfold seen_signed, only, get_origin, answer, refuse. repeat case_bool_decide; intros [= <- <-]; by apply Q.
  - unfold cross_attestations, only, answer, refuse. case_bool_decide; intros [= <- <-]; by apply Q.
  - unfold peer_attestations, only, answer, refuse. case_bool_decide; intros [= <- <-]; by apply Q.
  - unfold checkpoint, only, answer, refuse. case_bool_decide; [|by intros [= <- <-]; apply Q].
    destruct (_ || _); [by intros [= <- <-]; apply Q|]. destruct (ParseUint _); [|by intros [= <- <-]; apply Q].
    destruct (Server.CheckpointAt _ _ _); intros [= <- <-]; by apply Q.
  - unfold forks, get_origin, answer, refuse. destruct (Method r); try (by intros [= <- <-]; apply Q).
    case_bool_decide; [by intros [= <- <-]; apply Q|]. intros [= <- <-]. cbn. rewrite app_nil_r. by apply Server.reach_clear.
  - unfold pubkey, answer. intros [= <- <-]. by apply Q.
Qed.

Lemma exchanges_reach w l : forall s issued s' evs,
  Server.reach s issued -> exchanges w l s = Some (s', evs) -> Server.reach s' issued.
Proof.
  induction l as [|[io [p op]] l IH]; intros s issued s' evs R; cbn [exchanges]; [by intros [= <- _]|].
  unfold exchange. destruct (fetchSignedSeen _ _ _) as [f|]; [|done].
  destruct (Server.gossipOne _ _ _ _ _) as [s1 ev] eqn:G. destruct (exchanges w l s1) as [[s2 evs2]|] eqn:X; [|done].
  intros [= <- _]. eapply IH; [|exact X]. by eapply Server.reach_gossip.
Qed.

Lemma life_reach s h : life s h -> Server.reach s (omap given h).
Proof.
  induction 1 as [sid d hyb io s M E|s h c i s' r L IH E|s h w l s' evs L IH E|s h sid hyb io s' L IH E].
  - by eapply Server.reach_start.
  - rewrite omap_app. pose proof (request_reach _ _ _ _ _ _ IH E) as R.
    replace (omap given [(c, r)]) with (option_list (given (c, r))); [done|]. simpl. by destruct (given (c, r)).
  - unfold gossipRound in E. destruct (_ || _); [by injection E as <- _|]. by eapply exchanges_reach.
  - by eapply Server.reach_restart.
Qed.
End WitnessApi.
End WitnessApi.

(** Two countersignatures a witness gave for one log and size are over the same
    root, which its view of that log names. *)
Lemma life_one_root `{C : Crypto, !CryptoLaws C} {body} (gw : WitnessApi.gossip_wire body) s h x1 x2 c1 w1 c2 w2 :
  WitnessApi.life gw s h -> x1 ∈ h -> x2 ∈ h ->
  WitnessApi.given x1 = Some (c1, w1) -> WitnessApi.given x2 = Some (c2, w2) ->
  Checkpoint.Origin c1 = Checkpoint.Origin c2 -> Checkpoint.Size c1 = Checkpoint.Size c2 ->
  Checkpoint.RootHash c1 = Checkpoint.RootHash c2 /\
  Server.SeenFor s (Checkpoint.Origin c1) !! Checkpoint.Size c1 = Some (hex (Checkpoint.RootHash c1)).
Proof.
  intros [D I _]%WitnessApi.life_reach%Server.reach_inv H1 H2 G1 G2 Ho Hn.
  assert (forall x c w, x ∈ h -> WitnessApi.given x = Some (c, w) -> (c, w) ∈ omap WitnessApi.given h) as M.
  { intros x c w Hx Hg. apply list_elem_of_omap. by exists x. }
  destruct (I c1 w1 (M _ _ _ H1 G1)) as [D1 _], (I c2 w2 (M _ _ _ H2 G2)) as [D2 _]. split.
  - rewrite Ho, Hn, D2 in D1. injection D1 as E. by apply hex_inj in E.
  - apply D in D1. unfold Server.at2 in D1. unfold Server.SeenFor. by destruct (Server.seen s !! _).
Qed.

(** ** Properties *)

(** C15. No equivocation over HTTP: whatever requests of whatever callers a witness
    has served - operators and peers added, forks flagged and cleared, gossip,
    failed writes, restarts in between - two countersignatures it replied with
    for the same log and size are over the same root, and what it publishes at
    /seen today names that root. *)
Theorem witness_http_no_equivocation `{C : Crypto, !CryptoLaws C} {body} (gw : WitnessApi.gossip_wire body) s h x1 x2 c1 w1 c2 w2 :
  WitnessApi.life gw s h -> x1 ∈ h -> x2 ∈ h ->
  WitnessApi.given x1 = Some (c1, w1) -> WitnessApi.given x2 = Some (c2, w2) ->
  Checkpoint.Origin c1 = Checkpoint.Origin c2 -> Checkpoint.Size c1 = Checkpoint.Size c2 ->
  Checkpoint.RootHash c1 = Checkpoint.RootHash c2 /\
  Server.SeenFor s (Checkpoint.Origin c1) !! Checkpoint.Size c1 = Some (hex (Checkpoint.RootHash c1)).
Proof. apply life_one_root. Qed.

(** *** A served witness *)

Definition wreq {T} (m : method) (q : list (bytes * bytes)) (b : T) : Request T :=
  mk_request m None [] [] [] [] q (Decoded b).
Definition in_fine (n : Z) : WitnessApi.input := WitnessApi.mk_input n true true true true.
Definition cosign_req (c : Checkpoint.t) : WitnessApi.call_to :=
  WitnessApi.ToCosign (wreq POST [] (WitnessApi.mk_cosign (Some c) chain1 None)).
Definition clear_req (origin : bytes) : WitnessApi.call_to := WitnessApi.ToForks (wreq DELETE [(str "origin", origin)] tt).
Definition add_op_req : WitnessApi.call_to :=
  WitnessApi.ToOperators (wreq POST [] (WitnessApi.mk_add_op (Some op1))).
Definition no_wire : WitnessApi.gossip_wire unit :=
  WitnessApi.mk_gwire unit (fun _ => (None, Ok tt)) (fun _ => (None, Ok tt)).

Definition signed_reply : WitnessApi.response := WitnessApi.writeJSON 200 (WitnessApi.CosignResponse wsig1).
Definition op_reply : WitnessApi.response := WitnessApi.writeJSON 200 (WitnessApi.OperatorBody op1).

Lemma served_life : WitnessApi.life no_wire wserver2 [(add_op_req, op_reply); (cosign_req cp1, signed_reply)].
Proof.
  eapply (WitnessApi.life_request no_wire wserver1 [(add_op_req, op_reply)] (cosign_req cp1) (in_fine 70)).
  - eapply (WitnessApi.life_request no_wire wserver0 [] add_op_req (in_fine 1)).
    + destruct (run_ok (Server.NewHybridServer (str "w1") no_files start_fine)) as [[] E]; [vm_compute; reflexivity|].
      eapply WitnessApi.life_start; [|exact E]. reflexivity.
    + vm_compute. reflexivity.
  - vm_compute. reflexivity.
Qed.

Lemma witness_http_no_equivocation_witness :
  Checkpoint.RootHash cp1 = Checkpoint.RootHash cp1 /\
  Server.SeenFor wserver2 (Checkpoint.Origin cp1) !! Checkpoint.Size cp1 = Some (hex (Checkpoint.RootHash cp1)).
Proof.
  apply (witness_http_no_equivocation no_wire wserver2 [(add_op_req, op_reply); (cosign_req cp1, signed_reply)]
    (cosign_req cp1, signed_reply) (cosign_req cp1, signed_reply) cp1 wsig1 cp1 wsig1 served_life);
    [right; left|right; left|reflexivity..].
Defined.

(** *** Where the code departs from its comments *)

(** The witness after it has caught the fork. *)
Definition wserver_forked : Server.t := (WitnessApi.NewMux (cosign_req cp_fork) (in_fine 95) wserver2).1.
Definition wserver_cleared : Server.t := (WitnessApi.NewMux (clear_req (str "log.example")) (in_fine 96) wserver_forked).1.
Definition cosigns (s : Server.t) (c : Checkpoint.t) : bool :=
  match WitnessApi.given (cosign_req c, (WitnessApi.NewMux (cosign_req c) (in_fine 97) s).2) with Some _ => true | None => false end.

(** A flagged operator needs no investigation to be signed for again: the flag
    is lifted by a DELETE request, which any caller can send, and the witness
    goes on. *)
Theorem fork_flag_lifted_by_anyone :
  cosigns wserver_forked cp1 = false /\ cosigns wserver_cleared cp1 = true.
Proof. split; vm_compute; reflexivity. Qed.

(** A peer whose URL does not parse is accepted, and the next gossip round
    panics on its nil request, ending the witness. *)
Definition bad_peer : Peer.t := Peer.mk (str "w2") (str ":") (ed_public (str "k2")) [] 1.
Definition wserver_bad : Server.t :=
  (WitnessApi.NewMux (WitnessApi.ToPeers (wreq POST [] (WitnessApi.mk_add_peer (Some bad_peer)))) (in_fine 98) wserver1).1.
Definition bad_web (u : bytes) : http unit :=
  if starts_with (str ":") u then BadURL ["missing protocol scheme"%string] else NoAnswer ["refused"%string].
Theorem bad_peer_url_panics :
  Server.peers wserver_bad !! str "w2" = Some bad_peer /\
  WitnessApi.gossipRound no_wire bad_web
    (map (pair (Server.mk_gio 99 [] [] (fun _ => Ok None) (true, true, true, true))) (WitnessApi.round_pairs wserver_bad))
    wserver_bad = None.
Proof. split; vm_compute; reflexivity. Qed.

(** The sink is called in every round, not once per fork: an exchange that
    reported a fork reports it again when it is repeated. *)
Theorem gossip_event_repeats `{Crypto} io io' peer op f s s' ev :
  Server.g_seen io' = Server.g_seen io ->
  Server.gossipOne io peer op f s = (s', Some ev) ->
  exists s'' ev', Server.gossipOne io' peer op f s' = (s'', Some ev').
Proof.
  intros Eo G. pose proof (Server.gossipOne_same _ _ _ _ _ _ _ G) as (Es & _). unfold Server.gossipOne in *.
  destruct (Server.g_wr io) as [[[w1 w2] w3] w4], (Server.g_wr io') as [[[v1 v2] v3] v4].
  destruct f as [stmt|]; [|done]. destruct (SignedSeen.Verify stmt) as [[]|]; [|done].
  destruct (negb (bytesEqual _ _)); [done|]. destruct (negb (bool_decide _)); [done|].
  set (s1 := (Server.recordAttestationLocked _ _ _ _ _ _ s).1) in G.
  set (s1' := (Server.recordAttestationLocked _ _ _ _ _ _ s').1).
  assert (Server.seen s1 = Server.seen s) as E1 by apply (Server.recordAttestation_same (Server.g_now io) w1 w2 (Server.g_prev io) (Peer.ID peer) stmt s).
  assert (Server.seen s1' = Server.seen s') as E2 by apply (Server.recordAttestation_same (Server.g_now io') v1 v2 (Server.g_prev io') (Peer.ID peer) stmt s').
  unfold Server.CompareWithPeer in *. rewrite E1 in G. rewrite E2, Es, Eo.
  destruct (Server.first_conflict _ _) as [size|]; [|by destruct (Server.issueCrossAttestation _ _ _ _)].
  set (s2 := Server.recordForkLocked _ _ _ _ _ _ _ s1'). exists s2.
  assert (is_Some (Server.forks s2 !! WatchedOperator.Origin op)) as [ev' ->].
  { unfold s2, Server.recordForkLocked, Server.saveForks, Server.save. destruct v3; cbn; rewrite lookup_insert_eq; eauto. }
  by exists ev'.
Qed.

Definition gio : Server.gossip_io :=
  Server.mk_gio 90 (map_to_list their_seen) (map_to_list their_seen) (fun _ => Ok None) (true, true, true, true).
Definition their_statement : SignedSeen.t :=
  let u := SignedSeen.mk (str "w2") (ed_public (str "k2")) [] (str "log.example") their_seen 85 in
  u (ed_sign (str "k2") (SignedSeen.Canonical (u []))).
Lemma gossip_event_repeats_witness : exists s' ev s'' ev',
  Server.gossipOne gio peer2 op1 (Ok their_statement) wserver2 = (s', Some ev) /\
  Server.gossipOne gio peer2 op1 (Ok their_statement) s' = (s'', Some ev').
Proof.
  destruct (Server.gossipOne gio peer2 op1 (Ok their_statement) wserver2) as [s' [ev|]] eqn:G.
  - destruct (gossip_event_repeats gio gio peer2 op1 (Ok their_statement) wserver2 s' ev eq_refl G) as (s'' & ev' & E).
    exists s', ev, s'', ev'. split; [reflexivity|exact E].
  - exfalso. apply (f_equal (fun x => bool_decide (x.2 = None))) in G. vm_compute in G. discriminate G.
Defined.
