(* ===== verification/Wire.v ===== *)
(** * Request bodies on the wire (encoding/json, pkg/httpx, pkg/api/types.go)

    What becomes of a value that is marshalled, posted and decoded on the other
    side: strings that are not UTF-8 are repaired on the way, and the operator's
    routes refuse a body longer than their limit.  [text] functions give the
    bytes [json.Marshal] writes (they decide what fits), [value] functions what
    the decoder then returns; [Payload] is the interface the clients use. *)

From stdpp Require Import base numbers list gmap strings.
From Stdlib Require Import ZArith Lia.
From S2P Require Import Prelude Utf8 GoText Codec Crypto Attest Threshold Fwdsec Checkpoint Anchor Storage WitnessServer Api WitnessApi.

#[local] Open Scope Z_scope.

(** ** Limits *)

Record Limits := mk_limits { AppendBodyBytes : Z; AdminBodyBytes : Z }.
Definition DefaultLimits : Limits := mk_limits (64 * 1024) (256 * 1024).

(** [NewMux] puts the default where a limit is zero. *)
Definition append_cap (lim : Limits) : Z :=
  if AppendBodyBytes lim =? 0 then AppendBodyBytes DefaultLimits else AppendBodyBytes lim.
Definition admin_cap (lim : Limits) : Z :=
  if AdminBodyBytes lim =? 0 then AdminBodyBytes DefaultLimits else AdminBodyBytes lim.

(** A value of a request type: how it arrives, and whether its text is within
    the limit of the route it is posted to. *)
Class Payload (T : Type) := {
  wire_value : T -> T;
  wire_fits : Limits -> T -> bool;
}.

(** The body as the handler's decoder sees it: [http.MaxBytesReader] passes a
    text of exactly the limit. *)
Definition posted {T} `{Payload T} (lim : Limits) (v : T) : decoded T :=
  if wire_fits lim v then Decoded (wire_value v) else TooLarge.

(** ** Texts *)

Definition omitempty (empty : bool) (f : bytes * scalar) : list (bytes * scalar) := if empty then [] else [f].
Definition string_ne (k : string) (s : bytes) : list (bytes * scalar) := omitempty (bool_decide (s = [])) (str k, JStr s).
Definition bytes_ne (k : string) (b : bytes) : list (bytes * scalar) := omitempty (bool_decide (b = [])) (str k, JBytes b).
Definition int_ne (k : string) (z : Z) : list (bytes * scalar) := omitempty (z =? 0) (str k, JNum z).

(** The data of an envelope a client sends is never nil. *)
Definition envelope_text (e : Envelope.t) : bytes :=
  json_object (
    [(str "producer_id", JStr (Envelope.ProducerID e)); (str "time_ns", JNum (Envelope.TimeNanos e));
     (str "source", JStr (Envelope.Source e)); (str "data", JStr (base64 (Envelope.Data e)));
     (str "public_key", JBytes (Envelope.PublicKey e)); (str "attestation_type", JStr (Envelope.Type_ e))] ++
    bytes_ne "evidence_hash" (Envelope.EvidenceHash e) ++ bytes_ne "evidence" (Envelope.Evidence e) ++
    [(str "signature", JBytes (Envelope.Signature e))] ++
    bytes_ne "quantum_public_key" (Envelope.QuantumPublicKey e) ++ bytes_ne "quantum_signature" (Envelope.QuantumSignature e)).

Definition append_text (r : AppendRequest) : bytes :=
  json_map ((str "envelope", match ar_Envelope r with Some e => envelope_text e | None => str "null" end) ::
    if ar_Honeypot r then [(str "honeypot", str "true")] else []).

Definition producer_text (p : Producer.t) : bytes :=
  json_object (
    [(str "id", JStr (Producer.ID p)); (str "public_key", JBytes (Producer.PublicKey p))] ++
    bytes_ne "quantum_public_key" (Producer.QuantumPublicKey p) ++
    [(str "attestation_type", JStr (Producer.AttestationType p))] ++ string_ne "description" (Producer.Description p) ++
    [(str "registered_at", JNum (Producer.RegisteredAt p))] ++ string_ne "scope" (Producer.Scope p) ++
    int_ne "issued_at" (Producer.IssuedAt p) ++ int_ne "expires_at" (Producer.ExpiresAt p) ++
    int_ne "operator_epoch" (Producer.OperatorEpoch p) ++ bytes_ne "signature" (Producer.Signature p) ++
    bytes_ne "quantum_operator_pub_key" (Producer.QuantumOperatorPubKey p) ++ bytes_ne "quantum_signature" (Producer.QuantumSignature p) ++
    [(str "revoked", JBool (Producer.Revoked p))] ++ int_ne "revoked_at" (Producer.RevokedAt p) ++
    string_ne "revoke_reason" (Producer.RevokeReason p) ++ bytes_ne "challenge_nonce" (Producer.ChallengeNonce p) ++
    bytes_ne "challenge_signature" (Producer.ChallengeSignature p) ++
    bytes_ne "quantum_challenge_signature" (Producer.QuantumChallengeSignature p)).

Definition register_text (r : RegisterProducerRequest) : bytes :=
  json_map [(str "producer", match rp_Producer r with Some p => producer_text p | None => str "null" end)].

Definition enrollment_text (r : EnrollmentRequest) : bytes :=
  json_object (
    [(str "id", JStr (er_ID r)); (str "public_key", JBytes (er_PublicKey r))] ++
    bytes_ne "quantum_public_key" (er_QuantumPublicKey r) ++
    [(str "attestation_type", JStr (er_AttestationType r))] ++ string_ne "description" (er_Description r) ++
    string_ne "scope" (er_Scope r) ++ int_ne "validity_seconds" (er_ValiditySeconds r)).

Definition confirm_text (r : ConfirmEnrollmentRequest) : bytes :=
  json_object (
    [(str "challenge_id", JStr (cr_ChallengeID r)); (str "signature", JBytes (cr_Signature r))] ++
    bytes_ne "quantum_signature" (cr_QuantumSignature r)).

Definition revoke_text (r : RevokeProducerRequest) : bytes :=
  json_object [(str "id", JStr (rr_ID r)); (str "reason", JStr (rr_Reason r))].

Definition witness_text (w : Witness.t) : bytes :=
  json_object (
    [(str "id", JStr (Witness.ID w)); (str "url", JStr (Witness.URL w)); (str "public_key", JBytes (Witness.PublicKey w))] ++
    bytes_ne "quantum_public_key" (Witness.QuantumPublicKey w) ++ string_ne "description" (Witness.Description w) ++
    [(str "added_at", JNum (Witness.AddedAt w))]).

Definition add_witness_text (r : RegisterWitnessRequest) : bytes :=
  json_map [(str "witness", match rw_Witness r with Some w => witness_text w | None => str "null" end)].

(** ** Values *)

Definition envelope_value (e : Envelope.t) : Envelope.t :=
  Envelope.mk (json_string (Envelope.ProducerID e)) (Envelope.TimeNanos e) (json_string (Envelope.Source e)) (Envelope.Data e)
    (Envelope.PublicKey e) (json_string (Envelope.Type_ e)) (Envelope.EvidenceHash e) (Envelope.Evidence e) (Envelope.Signature e)
    (Envelope.QuantumPublicKey e) (Envelope.QuantumSignature e).

Definition producer_value (p : Producer.t) : Producer.t :=
  Producer.mk (json_string (Producer.ID p)) (Producer.PublicKey p) (Producer.QuantumPublicKey p) (json_string (Producer.AttestationType p))
    (json_string (Producer.Description p)) (Producer.RegisteredAt p) (json_string (Producer.Scope p)) (Producer.IssuedAt p)
    (Producer.ExpiresAt p) (Producer.OperatorEpoch p) (Producer.Signature p) (Producer.QuantumOperatorPubKey p) (Producer.QuantumSignature p)
    (Producer.Revoked p) (Producer.RevokedAt p) (json_string (Producer.RevokeReason p)) (Producer.ChallengeNonce p)
    (Producer.ChallengeSignature p) (Producer.QuantumChallengeSignature p).

Definition enrollment_value (r : EnrollmentRequest) : EnrollmentRequest :=
  mk_enr (json_string (er_ID r)) (er_PublicKey r) (er_QuantumPublicKey r) (json_string (er_AttestationType r))
    (json_string (er_Description r)) (json_string (er_Scope r)) (er_ValiditySeconds r).

Definition witness_value (w : Witness.t) : Witness.t :=
  Witness.mk (json_string (Witness.ID w)) (json_string (Witness.URL w)) (Witness.PublicKey w) (Witness.QuantumPublicKey w)
    (json_string (Witness.Description w)) (Witness.AddedAt w).

Definition operator_value (o : WatchedOperator.t) : WatchedOperator.t :=
  WatchedOperator.mk (json_string (WatchedOperator.Origin o)) (WatchedOperator.RootPublicKey o) (json_string (WatchedOperator.Description o)).

Definition peer_value (p : Peer.t) : Peer.t :=
  Peer.mk (json_string (Peer.ID p)) (json_string (Peer.URL p)) (Peer.PublicKey p) (json_string (Peer.Description p)) (Peer.AddedAt p).

Definition member_sig_value (s : MemberSig.t) : MemberSig.t :=
  MemberSig.mk (json_string (MemberSig.MemberID s)) (MemberSig.PublicKey s) (MemberSig.Signature s) (MemberSig.SignedAt s)
    (MemberSig.QuantumPublicKey s) (MemberSig.QuantumSignature s).

Definition witness_sig_value (s : WitnessSig.t) : WitnessSig.t :=
  WitnessSig.mk (json_string (WitnessSig.WitnessID s)) (WitnessSig.PublicKey s) (json_string (WitnessSig.KeyID s)) (WitnessSig.Signature s)
    (WitnessSig.SignedAt s) (WitnessSig.QuantumPublicKey s) (WitnessSig.QuantumSignature s).

Definition beacon_value (b : Beacon.t) : Beacon.t :=
  Beacon.mk (json_string (Beacon.Source b)) (Beacon.Round b) (Beacon.Value b) (Beacon.Signature b) (Beacon.ChainHash b).

Definition checkpoint_value (c : Checkpoint.t) : Checkpoint.t :=
  Checkpoint.mk (json_string (Checkpoint.Origin c)) (Checkpoint.Size c) (Checkpoint.RootHash c) (Checkpoint.HeadHash c)
    (Checkpoint.TimeNanos c) (Checkpoint.EpochIdx c) (json_string (Checkpoint.KeyID c)) (beacon_value <$> Checkpoint.Beacon c)
    (Checkpoint.Signature c) (Checkpoint.QuantumSignature c) (json_string (Checkpoint.ThresholdGroupDigest c))
    (map (fmap (M := option) member_sig_value) (Checkpoint.MemberSigs c)) (map witness_sig_value (Checkpoint.Witnesses c)).

Definition cert_value (c : RotationCert.t) : RotationCert.t :=
  RotationCert.mk (RotationCert.Epoch c) (RotationCert.PublicKey c) (RotationCert.StartedAt c) (RotationCert.SignedBy c)
    (RotationCert.Signature c) (RotationCert.QuantumPublicKey c) (RotationCert.QuantumSignedBy c) (RotationCert.QuantumSignature c)
    (json_string (RotationCert.ThresholdGroupDigest c)) (map (fmap (M := option) member_sig_value) (RotationCert.MemberSigs c)).

Definition chain_value (c : Chain.t) : Chain.t :=
  Chain.mk (json_string (Chain.Origin c)) (map cert_value (Chain.Certs c)) (json_string (Chain.ActiveLocator c)).

Definition member_value (m : Member.t) : Member.t :=
  Member.mk (json_string (Member.ID m)) (Member.PublicKey m) (Member.QuantumPublicKey m) (json_string (Member.Endpoint m))
    (json_string (Member.Description m)).

Definition group_value (g : Group.t) : Group.t :=
  Group.mk (Group.Version g) (json_string (Group.Origin g)) (map member_value (Group.Members g)) (Group.Threshold g) (Group.CreatedAt g).

(** ** The request types *)

Definition fits (cap : Z) (text : bytes) : bool := len text <=? cap.

#[export] Instance wire_append : Payload AppendRequest := {
  wire_value r := mk_append (envelope_value <$> ar_Envelope r) (ar_Honeypot r);
  wire_fits lim r := fits (append_cap lim) (append_text r) }.
#[export] Instance wire_register : Payload RegisterProducerRequest := {
  wire_value r := mk_rprod (producer_value <$> rp_Producer r) (rp_quantum r);
  wire_fits lim r := fits (admin_cap lim) (register_text r) }.
#[export] Instance wire_enrollment : Payload EnrollmentRequest := {
  wire_value := enrollment_value;
  wire_fits lim r := fits (admin_cap lim) (enrollment_text r) }.
#[export] Instance wire_confirm : Payload ConfirmEnrollmentRequest := {
  wire_value r := mk_conf (json_string (cr_ChallengeID r)) (cr_Signature r) (cr_QuantumSignature r);
  wire_fits lim r := fits (admin_cap lim) (confirm_text r) }.
#[export] Instance wire_revoke : Payload RevokeProducerRequest := {
  wire_value r := mk_rev (json_string (rr_ID r)) (json_string (rr_Reason r));
  wire_fits lim r := fits (admin_cap lim) (revoke_text r) }.
#[export] Instance wire_witness : Payload RegisterWitnessRequest := {
  wire_value r := mk_rwit (witness_value <$> rw_Witness r);
  wire_fits lim r := fits (admin_cap lim) (add_witness_text r) }.
(** A POST without a body: nothing is read. *)
#[export] Instance wire_unit : Payload unit := { wire_value v := v; wire_fits _ _ := true }.
(** The witness server caps nothing. *)
#[export] Instance wire_add_operator : Payload WitnessApi.AddOperatorRequest := {
  wire_value r := WitnessApi.mk_add_op (operator_value <$> WitnessApi.ao_Operator r);
  wire_fits _ _ := true }.
#[export] Instance wire_add_peer : Payload WitnessApi.AddPeerRequest := {
  wire_value r := WitnessApi.mk_add_peer (peer_value <$> WitnessApi.ap_Peer r);
  wire_fits _ _ := true }.
#[export] Instance wire_cosign : Payload WitnessApi.CosignRequest := {
  wire_value r := WitnessApi.mk_cosign (checkpoint_value <$> WitnessApi.cq_Checkpoint r) (chain_value <$> WitnessApi.cq_Chain r)
    (group_value <$> WitnessApi.cq_Group r);
  wire_fits _ _ := true }.

(** ** What arrives unchanged *)

Lemma json_string_graphic s : is_graphic s -> json_string s = s.
Proof.
  intros G. apply json_string_id. unfold valid_utf8. induction G as [|b s Gb _ IH]; [done|]. cbn [length valid_loop].
  rewrite (rune_width_graphic b s Gb). cbn [drop]. by rewrite drop_0.
Qed.

Lemma json_string_hex b : json_string (hex b) = hex b.
Proof. apply json_string_graphic, hex_graphic. Qed.

Lemma envelope_value_id e : valid_utf8 (Envelope.ProducerID e) = true -> valid_utf8 (Envelope.Source e) = true ->
  valid_utf8 (Envelope.Type_ e) = true -> envelope_value e = e.
Proof.
  intros P S T. unfold envelope_value. rewrite !json_string_id by done. by destruct e.
Qed.

(** ** What fits *)

Lemma base64_length b : Z.of_nat (length (base64 b)) = 4 * ((len b + 2) / 3).
Proof.
  unfold len. induction b as [|x|x y|x y z b IH] using list_ind3; [done|done|done|]. cbn [base64 length app]. rewrite !Nat2Z.inj_succ, IH.
  replace (Z.succ (Z.succ (Z.succ (Z.of_nat (length b)))) + 2) with (Z.of_nat (length b) + 2 + 1 * 3) by lia. rewrite Z.div_add by lia. lia.
Qed.

Lemma json_bytes_length b : b <> [] -> len (json_scalar (JBytes b)) = 4 * ((len b + 2) / 3) + 2.
Proof.
  intros N. destruct b as [|x b]; [done|]. unfold json_scalar. rewrite <- base64_length. unfold len. cbn [length]. rewrite length_app. cbn [length]. lia.
Qed.

Lemma json_hex_length b : len (json_scalar (JStr (hex b))) = 2 * len b + 2.
Proof. cbn [json_scalar]. rewrite RekorSink.quote_plain by apply RekorSink.hex_plain. unfold len. cbn [length]. rewrite length_app, hex_length. cbn [length]. lia. Qed.

Lemma len_app {A} (a b : list A) : len (a ++ b) = len a + len b.
Proof. unfold len. rewrite length_app. lia. Qed.

(** Each member takes its key, its value, a colon and at most a comma. *)
Fixpoint members_room (l : list (bytes * scalar)) : Z :=
  match l with [] => 0 | (k, v) :: l => len (json_quote k) + len (json_scalar v) + 2 + members_room l end.

Lemma json_members_room l : len (json_members l) <= members_room l.
Proof.
  induction l as [|[k v] [|kv l] IH]; [done| |].
  - cbn [json_members members_room]. rewrite !len_app. change (len (str ":")) with 1. lia.
  - change (json_members ((k, v) :: kv :: l)) with (json_quote k ++ str ":" ++ json_scalar v ++ str "," ++ json_members (kv :: l)).
    change (members_room ((k, v) :: kv :: l)) with (len (json_quote k) + len (json_scalar v) + 2 + members_room (kv :: l)).
    rewrite !len_app. change (len (str ":")) with 1. change (len (str ",")) with 1. lia.
Qed.

Lemma json_object_room l : len (json_object l) <= members_room l + 2.
Proof.
  unfold json_object. rewrite !len_app. change (len (str "{")) with 1. change (len (str "}")) with 1. pose proof (json_members_room l). lia.
Qed.

(** The answer to a challenge is a few kilobytes long. *)
Lemma confirm_short id sig qs : len id = 16 -> len sig = SignatureSize -> (qs = [] \/ len qs = d3_SignatureSize) ->
  len (confirm_text (mk_conf (hex id) sig qs)) <= 8192.
Proof.
  intros Hi Hs Hq. assert (len (json_scalar (JBytes sig)) = 90) as L1.
  { rewrite json_bytes_length; [by rewrite Hs|]. intros ->. discriminate Hs. }
  pose proof (json_hex_length id) as L2. rewrite Hi in L2. unfold confirm_text. etrans; [apply json_object_room|].
  cbn [cr_ChallengeID cr_Signature cr_QuantumSignature members_room app].
  change (len (json_quote (str "challenge_id"))) with 14. change (len (json_quote (str "signature"))) with 11. rewrite L1, L2.
  unfold bytes_ne, omitempty. destruct Hq as [->|Hq]; [cbn; lia|]. rewrite bool_decide_eq_false_2 by (intros ->; discriminate Hq).
  cbn [members_room]. change (len (json_quote (str "quantum_signature"))) with 19.
  rewrite json_bytes_length by (intros ->; discriminate Hq). rewrite Hq. vm_compute. discriminate.
Qed.

(** ** Examples *)

Example revoke_body : revoke_text (mk_rev (str "p1") (str "a<b")) = str "{" ++ json_quote (str "id") ++ str ":" ++ json_quote (str "p1") ++
  str "," ++ json_quote (str "reason") ++ str ":" ++ [quote] ++ str "a" ++ [backslash] ++ str "u003cb" ++ [quote] ++ str "}".
Proof. reflexivity. Qed.
(** A byte that is no UTF-8 arrives as the replacement character. *)
Example bad_id_repaired : posted DefaultLimits (mk_rev [Byte.xff] []) = Decoded (mk_rev replacement []).
Proof. reflexivity. Qed.
(** The limit itself still fits. *)
Example at_the_limit : let r := mk_rev (str "p1") [] in let n := len (revoke_text r) in
  posted (mk_limits 0 n) r = Decoded r /\ posted (mk_limits 0 (n - 1)) r = TooLarge.
Proof. split; reflexivity. Qed.
