(* ===== verification/Cosigning.v ===== *)
(** * The operator and its witnesses together

    One checkpoint of the operator, sent to every registered witness over HTTP
    and countersigned there ([requestCosign] and the fan-out of pkg/core's
    GatherWitnessSignatures on one side, the cosign route of [WitnessApi] on the
    other), up to what an auditor accepts; and what the countersignatures of a
    cohort are worth when the operator shows two views. *)

From stdpp Require Import base numbers list gmap strings.
From Stdlib Require Import ZArith Lia.
From S2P Require Import Prelude Utf8 Crypto GoText Attest Rfc6962 Merkle RefMerkle MerkleProps LogEntry Threshold Fwdsec Checkpoint Badger Storage Core CoreProps.
From S2P Require Import WitnessServer Verify Auditor Ingest Api WitnessApi Wire.

#[local] Open Scope Z_scope.

Module Cosigning.

(** ** The request *)

(** What [json.Unmarshal] makes of a body: an error, or the signature field. *)
Definition document : Type := res (option WitnessSig.t).

Definition requestCosign (a : http document) : res WitnessSig.t :=
  match a with
  | BadURL e => Err e
  | NoAnswer e => Err ("network"%string :: e)
  | Answer st b =>
      if negb (Z.quot st 100 =? 2) then Err ["HTTP"%string]
      else match b with
           | Err e => Err e
           | Ok None => Err ["empty signature in response"%string]
           | Ok (Some sig) => Ok sig
           end
  end.

(** The request as it reaches the witness, whose route has no body limit. *)
Definition cosign_call (c : Checkpoint.t) (chain : Chain.t) (group : option Group.t) : WitnessApi.call_to :=
  WitnessApi.ToCosign (mk_request POST None [] [] [] (str "/witness/v0/cosign") []
    (posted DefaultLimits (WitnessApi.mk_cosign (Some c) (Some chain) group))).

(** The answer as it comes back, its strings through JSON too. *)
Definition answer_of (r : WitnessApi.response) : http document :=
  Answer (WitnessApi.status r)
    (match WitnessApi.content r with WitnessApi.CosignResponse sig => Ok (Some (witness_sig_value sig)) | _ => Ok None end).

(** ** The cohort *)

Section Cohort.
Context {B : Badger value} {CR : CompactRange} {PL : ProofLib} {C : Crypto}.

(** The witnesses that run, by URL. *)
Abbreviation world := (gmap bytes Server.t).

Definition ask (inp : bytes -> WitnessApi.input) (c : Checkpoint.t) (chain : Chain.t) (group : option Group.t) (w : Witness.t) (net : world)
  : world * (bytes * res WitnessSig.t) :=
  match net !! Witness.URL w with
  | None => (net, (Witness.ID w, requestCosign (NoAnswer ["connection refused"%string])))
  | Some s =>
      let '(s', r) := WitnessApi.NewMux (cosign_call c chain group) (inp (Witness.URL w)) s in
      (<[Witness.URL w := s']> net, (Witness.ID w, requestCosign (answer_of r)))
  end.

(** The goroutines, in the order their results arrive. *)
Fixpoint ask_all (inp : bytes -> WitnessApi.input) (c : Checkpoint.t) (chain : Chain.t) (group : option Group.t) (order : list Witness.t) (net : world)
  : world * list (bytes * res WitnessSig.t) :=
  match order with
  | [] => (net, [])
  | w :: order =>
      let '(net, r) := ask inp c chain group w net in
      let '(net, rs) := ask_all inp c chain group order net in
      (net, r :: rs)
  end.

(** The first half of [CheckpointCtx]: the checkpoint that is sent out. *)
Definition signed_checkpoint (l : Log.t) (io : Log.checkpoint_io) : res Checkpoint.t :=
  match Tree.Root (Log.tree l) with
  | None => Err ["panic: merkle root"%string]
  | Some root =>
      let! head := Store.HeadHash (Log.store l) in
      fail_if Log.clock_refused (Log.fetched io) (Log.nowSec io)
        with "core: refusing to checkpoint: operator clock disagrees with drand round" ;;
      CheckpointSigner.Sign (Log.signer l) (Log.signTime io) (Tree.Size (Log.tree l)) root head (Log.fetched io) (Log.arrivals io)
  end.

Definition set_results (io : Log.checkpoint_io) (rs : list (bytes * res WitnessSig.t)) : Log.checkpoint_io :=
  Log.mk_cio (Log.beacon_fetch io) (Log.nowSec io) (Log.signTime io) (Log.arrivals io) rs.

(** A checkpoint of the operator among its witnesses. *)
Definition checkpoint_round (l : Log.t) (io : Log.checkpoint_io) (inp : bytes -> WitnessApi.input) (order : list Witness.t) (net : world)
  : world * (Log.t * res Checkpoint.t) :=
  match signed_checkpoint l io with
  | Err e => (net, (l, Err e))
  | Ok c =>
      let f := CheckpointSigner.fws (Log.signer l) in
      let '(net, rs) := ask_all inp c (Signer.chain f) (CheckpointSigner.threshGroup (Log.signer l)) order net in
      (net, Log.CheckpointCtx l (set_results io rs))
  end.

(** The two halves make the operation of the log. *)
Lemma CheckpointCtx_split l io : Log.CheckpointCtx l io =
  match signed_checkpoint l io with
  | Err e => (l, Err e)
  | Ok c =>
      let '(c, _) := Log.GatherWitnessSignatures l c (Log.results io) in
      match Store.SaveCheckpoint (Log.store l) (Checkpoint.Size c) (VCheckpoint c) with
      | (s, Err e) => (Log.set_store l s, Err e)
      | (s, Ok _) => (Log.set_store l s, Ok c)
      end
  end.
Proof.
  unfold Log.CheckpointCtx, signed_checkpoint. destruct (Tree.Root _); [|done]. destruct (Store.HeadHash _); [|done]. cbn [res_bind].
  destruct (Log.clock_refused _ _); [done|]. by destruct (CheckpointSigner.Sign _ _ _ _ _ _ _).
Qed.

Context {BL : BadgerLaws B} {CRL : CompactRangeLaws CR} {PLL : ProofLibLaws PL} {CL : CryptoLaws C}.

(** *** Every witness that can sign does *)

(** The witness at [Witness.URL w] is the one registered, under a name that is
    valid UTF-8, its writes succeed, it watches the operator under its root key,
    has no fork on record and has seen no other root of that size. *)
Definition ready (inp : bytes -> WitnessApi.input) (c : Checkpoint.t) (root : bytes) (net : world) (w : Witness.t) : Prop :=
  exists s op, net !! Witness.URL w = Some s /\ Server.id s = Witness.ID w /\ valid_utf8 (Witness.ID w) = true /\ Server.pub s = Witness.PublicKey w /\
    WitnessApi.wr_seen (inp (Witness.URL w)) = true /\ WitnessApi.wr_ckpt (inp (Witness.URL w)) = true /\
    Server.forks s !! Checkpoint.Origin c = None /\ Server.operators s !! Checkpoint.Origin c = Some op /\ WatchedOperator.RootPublicKey op = root /\
    (forall r, Server.at2 (Server.seen s) (Checkpoint.Origin c) (Checkpoint.Size c) = Some r -> r = hex (Checkpoint.RootHash c)).

(** The texts of the request are valid UTF-8: JSON leaves them alone. *)
Definition plain_texts (c : Checkpoint.t) (chain : Chain.t) (group : option Group.t) : Prop :=
  checkpoint_value c = c /\ chain_value chain = chain /\ group_value <$> group = group.

(** A good countersignature of [w]. *)
Definition good (c : Checkpoint.t) (w : Witness.t) (sig : WitnessSig.t) : Prop :=
  WitnessSig.WitnessID sig = Witness.ID w /\ WitnessSig.PublicKey sig = Witness.PublicKey w /\ len (Witness.PublicKey w) = PublicKeySize /\
  ed_verify (Witness.PublicKey w) (Checkpoint.CanonicalForWitness c) (WitnessSig.Signature sig) = true.

Lemma ask_ready inp c chain group root w net :
  Checkpoint.Verify c (Some chain) root group = Ok tt -> plain_texts c chain group -> ready inp c root net w ->
  exists s' sig, ask inp c chain group w net = (<[Witness.URL w := s']> net, (Witness.ID w, Ok sig)) /\ good c w sig.
Proof.
  intros V (Pc & Ph & Pg) (s & op & Ns & Hid & Hu & Hp & W1 & W2 & F & O & Hr & Sn).
  destruct (Server.Cosign_ok (WitnessApi.now (inp (Witness.URL w))) (WitnessApi.wr_forks (inp (Witness.URL w))) c (Some chain) group s) as (s' & E).
  { split_and!; [done| |done]. exists op. by rewrite Hr. }
  exists s', (witness_sig_value (Server.countersign (WitnessApi.now (inp (Witness.URL w))) c s)). split.
  - unfold ask. rewrite Ns. unfold cosign_call. cbn [WitnessApi.NewMux]. unfold WitnessApi.cosign, WitnessApi.only, WitnessApi.decode, posted.
    cbn [wire_fits wire_cosign wire_value Method Body WitnessApi.cq_Checkpoint WitnessApi.cq_Chain WitnessApi.cq_Group].
    change (chain_value <$> Some chain) with (Some (chain_value chain)). change (checkpoint_value <$> Some c) with (Some (checkpoint_value c)).
    rewrite Pc, Ph, Pg, bool_decide_eq_true_2 by done. cbn [WitnessApi.cq_Checkpoint WitnessApi.cq_Chain WitnessApi.cq_Group]. rewrite W1, W2, E. done.
  - unfold good, witness_sig_value, Server.countersign. cbn [WitnessSig.WitnessID WitnessSig.PublicKey WitnessSig.Signature]. split_and!; [by rewrite Hid, json_string_id|done| |].
    + rewrite <- Hp. unfold Server.pub. apply ed_public_length.
    + rewrite <- Hp. unfold Server.pub. apply ed_sign_verify.
Qed.

Lemma ready_other inp c root net w u s : Witness.URL w <> u -> ready inp c root net w -> ready inp c root (<[u := s]> net) w.
Proof. intros N (s0 & op & Ns & H). exists s0, op. split; [|done]. by rewrite lookup_insert_ne. Qed.

Lemma ask_all_ready inp c chain group root order : forall net,
  Checkpoint.Verify c (Some chain) root group = Ok tt -> plain_texts c chain group -> NoDup (map Witness.URL order) -> Forall (ready inp c root net) order ->
  exists net' sigs, ask_all inp c chain group order net = (net', zip_with (fun w sig => (Witness.ID w, Ok sig)) order sigs) /\ Forall2 (good c) order sigs.
Proof.
  induction order as [|w order IH]; intros net V Pt N F; [by exists net, []|]. apply NoDup_cons in N as [Nw N]. apply Forall_cons in F as [Fw F].
  destruct (ask_ready inp c chain group root w net V Pt Fw) as (s' & sig & E & G).
  destruct (IH (<[Witness.URL w := s']> net) V Pt N) as (net' & sigs & E' & G').
  { apply Forall_forall. intros x X. apply ready_other; [|by apply (proj1 (Forall_forall _ _) F)].
    intros U. apply Nw. apply list_elem_of_fmap. by exists x. }
  exists net', (sig :: sigs). cbn [ask_all]. rewrite E, E'. split; [done|]. by constructor.
Qed.

Lemma trusted_key_of ws w : NoDup (map Witness.ID ws) -> w ∈ ws -> Log.trusted_key ws (Witness.ID w) = Witness.PublicKey w.
Proof.
  induction ws as [|x ws IH]; intros N I; [by apply elem_of_nil in I|]. apply NoDup_cons in N as [Nx N]. cbn [Log.trusted_key].
  apply elem_of_cons in I as [->|I]; [by rewrite bool_decide_eq_true_2|].
  rewrite bool_decide_eq_false_2; [by apply IH|]. intros E. apply Nx. rewrite E. apply list_elem_of_fmap. by exists w.
Qed.

Lemma good_validated c ws w sig : NoDup (map Witness.ID ws) -> w ∈ ws -> good c w sig -> Log.validateWitnessSig c sig ws = Ok tt.
Proof.
  intros N I (Hid & Hp & Hl & V). unfold Log.validateWitnessSig. rewrite Hid, (trusted_key_of ws w N I), Hp, bytesEqual_refl, V.
  rewrite bool_decide_eq_false_2; [done|]. intros E. rewrite E in Hl. discriminate Hl.
Qed.

Lemma collect_all ws order sigs : NoDup (map Witness.ID ws) -> (forall w, w ∈ order -> w ∈ ws) -> forall c st, Forall2 (good c) order sigs ->
  (Log.collect c ws st (zip_with (fun w sig => (Witness.ID w, Ok sig)) order sigs)).1 = Log.add_witnesses c sigs.
Proof.
  intros N Sub c st F. revert c st Sub F. revert sigs. induction order as [|w order IH]; intros sigs c st Sub F; inversion F as [|? sig ? sigs' G F']; subst; [done|].
  cbn [zip_with Log.collect]. rewrite (good_validated c ws w sig N) by (done || (apply Sub; left)).
  rewrite IH; [done|intros x X; apply Sub; by right|]. exact F'.
Qed.

(** What an auditor who trusts the registered witnesses knows. *)
Definition registered_trust (ws : list Witness.t) (id : bytes) : option bytes :=
  if bool_decide (id ∈ map Witness.ID ws) then Some (Log.trusted_key ws id) else None.

Lemma good_counts c ws w sig : NoDup (map Witness.ID ws) -> w ∈ ws -> good c w sig ->
  Checkpoint.witness_counts (Checkpoint.CanonicalForWitness c) (fun id => (fun ed => (ed, [])) <$> registered_trust ws id) sig = true.
Proof.
  intros N I (Hid & Hp & Hl & V). apply Checkpoint.witness_counts_iff. exists (Witness.PublicKey w), []. unfold registered_trust. rewrite Hid, (trusted_key_of ws w N I).
  rewrite bool_decide_eq_true_2 by (apply list_elem_of_fmap; by exists w). by split_and!.
Qed.

Lemma signed_single l es f io : Log.ok l es -> Log.signer l = CheckpointSigner.NewSigner f -> Signer.ok None f ->
  len (Chain.Certs (Signer.chain f)) <= 2 ^ 64 -> Log.clock_refused (Log.fetched io) (Log.nowSec io) = false ->
  exists c, signed_checkpoint l io = Ok c /\ Checkpoint.Verify c (Some (Signer.chain f)) (Signer.RootPublicKey f) None = Ok tt /\
    Checkpoint.Size c = len es /\ Checkpoint.RootHash c = MTH (map Entry.LeafHash es) /\ Checkpoint.Witnesses c = [].
Proof.
  intros O Hs Of Hc Hclock. unfold signed_checkpoint, Store.HeadHash.
  rewrite (Tree.Root_ok _ _ (Log.ok_tree _ _ O)), (Store.readHead_ok _ _ (Log.ok_readable _ _ O) (Log.ok_stores _ _ O)), (Log.log_size l es O), Hclock, Hs. cbn [res_bind].
  destruct (CheckpointSigner.single_signed f (Log.signTime io) (len es) (MTH (map Entry.LeafHash es)) (Store.head_of es) (Log.fetched io) Of Hc)
    as (c0 & Es & V & Hsz & Hr & Hh).
  exists c0. split; [exact Es|]. split; [apply Checkpoint.checkpoint_Verify_iff; by left|]. split_and!; [done..|]. by eapply Log.signed_unwitnessed.
Qed.

Lemma signed_states l es io c : Log.ok l es -> signed_checkpoint l io = Ok c ->
  Log.clock_refused (Log.fetched io) (Log.nowSec io) = false /\
  CheckpointSigner.Sign (Log.signer l) (Log.signTime io) (len es) (MTH (map Entry.LeafHash es)) (Store.head_of es)
    (Log.fetched io) (Log.arrivals io) = Ok c.
Proof.
  intros O. unfold signed_checkpoint, Store.HeadHash.
  rewrite (Tree.Root_ok _ _ (Log.ok_tree _ _ O)), (Store.readHead_ok _ _ (Log.ok_readable _ _ O) (Log.ok_stores _ _ O)), (Log.log_size l es O). cbn [res_bind].
  by destruct (Log.clock_refused _ _).
Qed.

(** What the operator signed holds up: a single-key signer is in step with its
    chain, or - for any signer, a threshold group included - the checkpoint
    verifies against the operator's own chain and group. *)
Definition sound_signature (l : Log.t) (c : Checkpoint.t) : Prop :=
  let f := CheckpointSigner.fws (Log.signer l) in
  (Log.signer l = CheckpointSigner.NewSigner f /\ Signer.ok None f /\ len (Chain.Certs (Signer.chain f)) <= 2 ^ 64) \/
  Checkpoint.Verify c (Some (Signer.chain f)) (Signer.RootPublicKey f) (CheckpointSigner.threshGroup (Log.signer l)) = Ok tt.

Lemma sound_verifies l es io c : Log.ok l es -> signed_checkpoint l io = Ok c -> sound_signature l c ->
  Checkpoint.Verify c (Some (Signer.chain (CheckpointSigner.fws (Log.signer l)))) (Signer.RootPublicKey (CheckpointSigner.fws (Log.signer l)))
    (CheckpointSigner.threshGroup (Log.signer l)) = Ok tt.
Proof.
  intros O S [(Hs & Of & Hc)|V]; [|done]. destruct (signed_states l es io c O S) as [Hk _].
  destruct (signed_single l es _ io O Hs Of Hc Hk) as (c1 & S1 & V & _). rewrite S in S1. injection S1 as <-. by rewrite Hs.
Qed.

(** What the fan-out adds when every witness signs. *)
Lemma gather_all l c ws order sigs : Log.ListWitnesses l = Ok ws -> NoDup (map Witness.ID ws) -> Permutation order ws -> Forall2 (good c) order sigs ->
  (Log.GatherWitnessSignatures l c (zip_with (fun w sig => (Witness.ID w, Ok sig)) order sigs)).1 = Log.add_witnesses c sigs.
Proof.
  intros Lw N P G. unfold Log.GatherWitnessSignatures. rewrite Lw.
  pose proof (collect_all ws order sigs N (fun w X => proj1 (elem_of_Permutation_proper w _ _ P) X) c ∅ G) as Cl. destruct (Z.eqb_spec (len ws) 0) as [Z0|_].
  - destruct ws; [|unfold len in Z0; cbn in Z0; lia]. apply Permutation_nil_r in P as ->. by inversion G; subst.
  - by destruct (Log.collect _ _ _ _) as [c2 st].
Qed.

(** An auditor who asks for all of them counts all of them. *)
Lemma cohort_verifies c ws order sigs chain root group : NoDup (map Witness.ID ws) -> Permutation order ws -> Forall2 (good c) order sigs ->
  Checkpoint.Witnesses c = [] -> Checkpoint.Verify c (Some chain) root group = Ok tt ->
  Verifier.Checkpoint (Verifier.mk (Checkpoint.Origin c) root (Some chain) group (len ws) (Some (registered_trust ws))) (Log.add_witnesses c sigs) = Ok tt.
Proof.
  intros N P G Hw V. destruct (Log.add_witnesses_verify c sigs (Some chain) root group) as (Ev & Ef & Ew). injection Ef as Eo _ _ _ _ _ _ _.
  unfold Verifier.Checkpoint. cbn [Verifier.Origin Verifier.Chain Verifier.RootPublicKey Verifier.ThresholdGroup Verifier.MinWitnesses Verifier.WitnessTrust].
  rewrite Eo, bytesEqual_refl, Ev, V. cbn [negb res_bind]. destruct (0 <? len ws); [|done].
  assert (Checkpoint.VerifyWitnesses (Log.add_witnesses c sigs) (registered_trust ws) = len ws) as ->; [|by rewrite Z.ltb_irrefl].
  unfold Checkpoint.VerifyWitnesses, Checkpoint.VerifyWitnessesHybrid. rewrite Checkpoint.count_witnesses_spec, Ew, Hw, Log.add_witnesses_canonical. cbn [app].
  rewrite filter_all.
  - unfold len. rewrite <- (Forall2_length _ _ _ G), (Permutation_length P). lia.
  - apply Forall_forall. intros sig Hsig. apply list_elem_of_lookup_1 in Hsig as [k Hk]. destruct (Forall2_lookup_r _ _ _ _ _ G Hk) as (w & Hw' & Gw).
    eapply good_counts; [done| |exact Gw]. rewrite <- P. by eapply list_elem_of_lookup_2.
Qed.

(** C39. The cohort delivers.  An operator whose signer - a single key, hybrid or
    not, in step with its chain; or a threshold group - has signed a checkpoint
    that holds up, whose database takes writes and whose texts are valid UTF-8,
    with witnesses registered under distinct names and URLs, each of them running
    with a disk that takes its writes, watching the operator's root key and with
    nothing against it on record, gets - in whatever order the replies arrive - a
    checkpoint of its whole log that an auditor who requires the countersignature
    of every registered witness accepts. *)
Theorem cohort_checkpoint_accepted l es io inp ws order net c0 :
  let f := CheckpointSigner.fws (Log.signer l) in let group := CheckpointSigner.threshGroup (Log.signer l) in
  reachable l -> Log.observes l es -> writable (Store.db (Log.store l)) ->
  signed_checkpoint l io = Ok c0 -> sound_signature l c0 -> plain_texts c0 (Signer.chain f) group ->
  Log.ListWitnesses l = Ok ws -> NoDup (map Witness.ID ws) -> NoDup (map Witness.URL ws) -> Permutation order ws ->
  Forall (ready inp c0 (Signer.RootPublicKey f) net) ws ->
  exists net' l' c, checkpoint_round l io inp order net = (net', (l', Ok c)) /\
    Checkpoint.Size c = len es /\ Checkpoint.RootHash c = MTH (map Entry.LeafHash es) /\
    Verifier.Checkpoint (Verifier.mk (Checkpoint.Origin c0) (Signer.RootPublicKey f) (Some (Signer.chain f)) group (len ws) (Some (registered_trust ws))) c = Ok tt.
Proof.
  intros f group R Ob W S Sv Pt Lw N Nu P F. destruct (reachable_ok l R) as (es' & O). pose proof (Log.observes_unique _ _ _ O Ob) as ->.
  pose proof (sound_verifies l es io c0 O S Sv) as V. destruct (signed_states l es io c0 O S) as [Hk Sg].
  destruct (ask_all_ready inp c0 (Signer.chain f) group (Signer.RootPublicKey f) order net) as (net' & sigs & E & G); [done|done|by rewrite P|by rewrite P|].
  unfold checkpoint_round. rewrite S. fold f group. rewrite E. set (rs := zip_with _ _ _).
  destruct (Log.checkpoint_goes l es (set_results io rs) c0 O W Hk Sg) as (l' & sigs' & Ec & Eg).
  cbn [Log.results set_results] in Eg. unfold rs in Eg. rewrite (gather_all l c0 ws order sigs Lw N P G) in Eg. rewrite <- Eg in Ec.
  destruct (Log.add_witnesses_verify c0 sigs None [] None) as (_ & Ef & _). injection Ef as _ Esz Er _ _ _ _ _.
  destruct (Log.sign_states _ _ _ _ _ _ _ _ Sg) as (Hsz & Hr & _).
  exists net', l', (Log.add_witnesses c0 sigs). rewrite Ec, Esz, Er. split_and!; [done|done|done|].
  eapply cohort_verifies; [done|exact P|exact G| |exact V]. by eapply Log.signed_unwitnessed.
Qed.

(** *** Two views of one log *)

(** The trusted witnesses whose countersignature on [c] counts. *)
Definition signers (c : Checkpoint.t) (trust : bytes -> option bytes) : gset bytes :=
  list_to_set (map WitnessSig.WitnessID
    (filter (fun w => Checkpoint.witness_counts (Checkpoint.CanonicalForWitness c) (fun id => (fun ed => (ed, [])) <$> trust id) w = true)
      (Checkpoint.Witnesses c))).

Lemma size_signers c trust : NoDup (map WitnessSig.WitnessID (Checkpoint.Witnesses c)) ->
  Checkpoint.VerifyWitnesses c trust = Z.of_nat (size (signers c trust)).
Proof.
  intros N. unfold signers. rewrite size_list_to_set.
  - unfold Checkpoint.VerifyWitnesses, Checkpoint.VerifyWitnessesHybrid. rewrite Checkpoint.count_witnesses_spec. unfold len. by rewrite length_map.
  - eapply sublist_NoDup; [exact N|]. apply fmap_sublist, sublist_filter.
Qed.

Lemma elem_signers c trust id : id ∈ signers c trust -> exists pub sig, trust id = Some pub /\
  sig ∈ Checkpoint.Witnesses c /\ WitnessSig.PublicKey sig = pub /\ ed_verify pub (Checkpoint.CanonicalForWitness c) (WitnessSig.Signature sig) = true.
Proof.
  unfold signers. rewrite elem_of_list_to_set. intros (sig & -> & [(pub & q & T & _ & Hp & V & _)%Checkpoint.witness_counts_iff I]%list_elem_of_filter)%list_elem_of_fmap.
  destruct (trust _) as [ed|]; [|done]. injection T as <- _. by exists ed, sig.
Qed.

(** Two large subsets of a set meet outside a small one. *)
Lemma quorums_meet (ids bad s1 s2 : gset bytes) : s1 ⊆ ids -> s2 ⊆ ids -> (size ids + size bad < size s1 + size s2)%nat ->
  exists id, id ∈ s1 /\ id ∈ s2 /\ id ∉ bad.
Proof.
  intros H1 H2 L. assert (size s1 + size s2 <= size ids + size (s1 ∩ s2))%nat as M.
  { pose proof (subseteq_size (s1 ∪ s2) ids ltac:(set_solver)) as U. rewrite size_union_alt in U.
    pose proof (size_difference_alt s2 s1) as D. rewrite (intersection_comm_L s1 s2). lia. }
  destruct (decide (s1 ∩ s2 ⊆ bad)) as [K%subseteq_size|K]; [lia|].
  destruct (set_choose_or_empty ((s1 ∩ s2) ∖ bad)) as [[id I]|E]; [exists id; set_solver|]. exfalso. apply K. set_solver.
Qed.

Context {body : Type} (gw : WitnessApi.gossip_wire body).

(** A countersignature on [c] that verifies under [pub] was given out by the
    server with history [h], for that text. *)
Definition unforged (h : list (WitnessApi.call_to * WitnessApi.response)) (pub : bytes) (c : Checkpoint.t) : Prop :=
  forall sig, sig ∈ Checkpoint.Witnesses c -> WitnessSig.PublicKey sig = pub ->
    ed_verify pub (Checkpoint.CanonicalForWitness c) (WitnessSig.Signature sig) = true ->
    exists x c' w, x ∈ h /\ WitnessApi.given x = Some (c', w) /\ Checkpoint.CanonicalForWitness c' = Checkpoint.CanonicalForWitness c.

(** The server countersigned for origins without a line break only. *)
Definition one_line_origins (h : list (WitnessApi.call_to * WitnessApi.response)) : Prop :=
  forall x c w, x ∈ h -> WitnessApi.given x = Some (c, w) -> one_line (Checkpoint.Origin c).

(** [id] is a witness that runs this code, keeps its key and watches no operator
    with a line break in its name. *)
Definition honest (trust : bytes -> option bytes) (c1 c2 : Checkpoint.t) (id : bytes) : Prop :=
  exists s h, WitnessApi.life gw s h /\ one_line_origins h /\ forall pub, trust id = Some pub -> unforged h pub c1 /\ unforged h pub c2.

Lemma honest_one_root trust c1 c2 id : honest trust c1 c2 id -> one_line (Checkpoint.Origin c1) ->
  id ∈ signers c1 trust -> id ∈ signers c2 trust -> Checkpoint.Origin c1 = Checkpoint.Origin c2 -> Checkpoint.Size c1 = Checkpoint.Size c2 ->
  Checkpoint.RootHash c1 = Checkpoint.RootHash c2.
Proof.
  intros (s & h & L & Ol & U) W1 (p1 & g1 & T1 & I1 & P1 & V1)%elem_signers (p2 & g2 & T2 & I2 & P2 & V2)%elem_signers Ho Hn.
  assert (one_line (Checkpoint.Origin c2)) as W2 by by rewrite <- Ho.
  rewrite T1 in T2. injection T2 as <-. destruct (U p1 T1) as [U1 U2].
  destruct (U1 g1 I1 P1 V1) as (x1 & d1 & w1 & X1 & G1 & E1), (U2 g2 I2 P2 V2) as (x2 & d2 & w2 & X2 & G2 & E2).
  destruct (Checkpoint.witness_text_states d1 c1 (Ol _ _ _ X1 G1) W1 E1) as (O1 & S1 & R1).
  destruct (Checkpoint.witness_text_states d2 c2 (Ol _ _ _ X2 G2) W2 E2) as (O2 & S2 & R2).
  rewrite <- R1, <- R2. apply (life_one_root gw s h x1 x2 d1 w1 d2 w2 L X1 X2 G1 G2); congruence.
Qed.

Lemma accepted_size v c trust : Verifier.WitnessTrust v = Some trust -> Verifier.Checkpoint v c = Ok tt ->
  NoDup (map WitnessSig.WitnessID (Checkpoint.Witnesses c)) ->
  Checkpoint.Origin c = Verifier.Origin v /\ Verifier.MinWitnesses v <= Z.of_nat (size (signers c trust)).
Proof.
  intros Ht E N. unfold Verifier.Checkpoint in E. destruct (bytesEqual _ _) eqn:O; [|done]. apply bytesEqual_spec in O. cbn [negb] in E.
  destruct (Checkpoint.Verify _ _ _ _); [|done]. cbn [res_bind] in E. split; [done|]. rewrite Ht in E.
  destruct (Z.ltb_spec 0 (Verifier.MinWitnesses v)); [|lia]. rewrite <- size_signers by done.
  destruct (Z.ltb_spec (Checkpoint.VerifyWitnesses c trust) (Verifier.MinWitnesses v)); [done|lia].
Qed.

(** C38. No split view.  Two auditors who trust the same cohort of [n] witnesses,
    [f] of them corrupt, and require [m1] and [m2] countersignatures with
    [m1 + m2 > n + f], never accept checkpoints of one log and one size with
    different roots - whatever the operator signs, whichever requests the
    honest witnesses served, with gossip, failed writes and restarts in
    between.  This needs four things: the name of the log has no line break, no
    honest witness ever countersigned for an operator whose name has one (the
    witness server takes such names, and then the statement is false, see
    [split_view_by_line_break]), each checkpoint carries at most one
    countersignature per witness, and no countersignature of an honest witness is
    forged: what verifies under its key is a text it signed. *)
Theorem no_split_view (trust : bytes -> option bytes) (ids bad : gset bytes) v1 v2 c1 c2 :
  (forall id pub, trust id = Some pub -> id ∈ ids) -> (forall id, id ∈ ids -> id ∉ bad -> honest trust c1 c2 id) ->
  one_line (Verifier.Origin v1) ->
  NoDup (map WitnessSig.WitnessID (Checkpoint.Witnesses c1)) -> NoDup (map WitnessSig.WitnessID (Checkpoint.Witnesses c2)) ->
  Verifier.WitnessTrust v1 = Some trust -> Verifier.WitnessTrust v2 = Some trust -> Verifier.Origin v1 = Verifier.Origin v2 ->
  Z.of_nat (size ids) + Z.of_nat (size bad) < Verifier.MinWitnesses v1 + Verifier.MinWitnesses v2 ->
  Verifier.Checkpoint v1 c1 = Ok tt -> Verifier.Checkpoint v2 c2 = Ok tt -> Checkpoint.Size c1 = Checkpoint.Size c2 ->
  Checkpoint.RootHash c1 = Checkpoint.RootHash c2.
Proof.
  intros Hd Hh W1 N1 N2 T1 T2 Ho Hm A1 A2 Hs.
  destruct (accepted_size v1 c1 trust T1 A1 N1) as [O1 M1], (accepted_size v2 c2 trust T2 A2 N2) as [O2 M2].
  assert (forall c, signers c trust ⊆ ids) as Sub by (intros c id (pub & _ & T & _)%elem_signers; eauto).
  destruct (quorums_meet ids bad (signers c1 trust) (signers c2 trust)) as (id & I1 & I2 & Nb); [apply Sub|apply Sub|lia|].
  apply (honest_one_root trust c1 c2 id (Hh id (Sub c1 id I1) Nb)); congruence.
Qed.
End Cohort.
End Cosigning.

(** ** A cohort of one *)

Definition reg_w1 : Witness.t := Witness.mk (str "w1") (str "https://w1") (Server.pub wserver1) [] (str "first") 3.
Definition log_w : Log.t := (Log.RegisterWitness log2 (Some reg_w1)).1.

Lemma log_w_reachable : reachable log_w.
Proof.
  destruct log2_reachable as (l0 & S & R). exists l0. split; [done|]. etrans; [exact R|]. apply rtc_once. eapply Log.step_witness. unfold log_w. apply surjective_pairing.
Qed.

Definition in_fine_at (_ : bytes) : WitnessApi.input := in_fine 70.
Definition round_io : Log.checkpoint_io := Cosigning.set_results demo_io [].

Definition net_w : gmap bytes Server.t := {[str "https://w1" := wserver1]}.

Lemma cohort_checkpoint_accepted_witness : exists es net' l' c, Log.observes log_w es /\
  Cosigning.checkpoint_round log_w round_io in_fine_at [reg_w1] net_w = (net', (l', Ok c)) /\ Checkpoint.Size c = len es /\
  Verifier.Checkpoint (Verifier.mk (str "log.example") (Signer.RootPublicKey (signer1 true)) (Some (Signer.chain (signer1 true))) None 1
    (Some (Cosigning.registered_trust [reg_w1]))) c = Ok tt.
Proof.
  destruct (reachable_ok log_w log_w_reachable) as [es O%Log.ok_observes].
  destruct (Cosigning.signed_checkpoint log_w round_io) as [c0|e] eqn:E; [|vm_compute in E; discriminate E].
  assert (Checkpoint.Origin c0 = str "log.example") as Ho by (vm_compute in E; injection E as <-; reflexivity).
  assert (Log.signer log_w = CheckpointSigner.NewSigner (signer1 true)) as Sg by reflexivity.
  destruct (Cosigning.cohort_checkpoint_accepted log_w es round_io in_fine_at [reg_w1] [reg_w1] net_w c0
    log_w_reachable O I E) as (net' & l' & c & Hr & Hs & _ & V).
  - left. rewrite Sg. split; [reflexivity|]. split; [apply Signer.signer_reach_ok, signer1_reach|vm_compute; discriminate].
  - rewrite Sg. vm_compute in E. injection E as <-. split; [vm_compute; reflexivity|]. split; vm_compute; reflexivity.
  - reflexivity.
  - apply NoDup_singleton.
  - apply NoDup_singleton.
  - reflexivity.
  - rewrite Sg. apply Forall_singleton. exists wserver1, op1. rewrite Ho. split_and!; try reflexivity. intros r Hr. vm_compute in Hr. discriminate Hr.
  - exists es, net', l', c. rewrite Sg, Ho in V. split; [exact O|]. split; [exact Hr|]. split; [exact Hs|exact V].
Defined.

Definition trust_w1 (id : bytes) : option bytes := if bool_decide (id = str "w1") then Some (Server.pub wserver2) else None.
Definition auditor_w1 : Verifier.t :=
  Verifier.mk (str "log.example") (Signer.RootPublicKey (signer1 true)) chain1 None 1 (Some trust_w1).
Definition cp1_signed : Checkpoint.t := Checkpoint.add_witness cp1 wsig1.

Lemma no_break s : forallb (fun b => negb (bool_decide (b = nl))) s = true -> one_line s.
Proof. unfold one_line. induction s as [|b s IH]; [intros _; apply not_elem_of_nil|]. cbn. rewrite andb_true_iff, negb_true_iff, bool_decide_eq_false. set_solver. Qed.

Lemma w1_origins : Cosigning.one_line_origins [(add_op_req, op_reply); (cosign_req cp1, signed_reply)].
Proof.
  intros x c w X G. apply elem_of_cons in X as [->|[->|[]%elem_of_nil]%elem_of_cons]; [discriminate G|]. vm_compute in G. injection G as <- _. apply no_break. reflexivity.
Qed.

Lemma w1_unforged pub : Cosigning.unforged [(add_op_req, op_reply); (cosign_req cp1, signed_reply)] pub cp1_signed.
Proof.
  intros sig _ _ _. exists (cosign_req cp1, signed_reply), cp1, wsig1. split; [right; left|]. split; [reflexivity|]. symmetry. exact (Log.add_witnesses_canonical cp1 [wsig1]).
Qed.

Lemma no_split_view_witness : Checkpoint.RootHash cp1_signed = Checkpoint.RootHash cp1_signed.
Proof.
  apply (Cosigning.no_split_view no_wire trust_w1 {[str "w1"]} ∅ auditor_w1 auditor_w1 cp1_signed cp1_signed).
  - intros id pub. unfold trust_w1. case_bool_decide as E; [|discriminate]. intros _. rewrite E. apply elem_of_singleton. reflexivity.
  - intros id _ _. exists wserver2, [(add_op_req, op_reply); (cosign_req cp1, signed_reply)]. split; [apply served_life|]. split; [apply w1_origins|]. intros pub _. split; apply w1_unforged.
  - apply no_break. reflexivity.
  - apply NoDup_singleton.
  - apply NoDup_singleton.
  - reflexivity.
  - reflexivity.
  - reflexivity.
  - reflexivity.
  - vm_compute. reflexivity.
  - vm_compute. reflexivity.
  - reflexivity.
Defined.

(** ** A split view by line breaks *)

(** An operator that signs what it likes. *)
Definition signed_as_is (c : Checkpoint.t) : Checkpoint.t :=
  match Signer.Sign (signer1 true) (Checkpoint.Canonical c), Signer.QuantumSign (signer1 true) (Checkpoint.Canonical c) with
  | Ok (_, sig), Ok qsig => Checkpoint.set_sigs c sig qsig []
  | _, _ => c
  end.

(** The second view of the log, and the same text as a checkpoint of a log whose
    name runs over several lines. *)
Definition second_view : Checkpoint.t :=
  signed_as_is (Checkpoint.named_by_source cp1 (str "log.example") (str "x") (str "y") (Checkpoint.Size cp1) 8 (Checkpoint.EpochIdx cp1)
    1 9 (Checkpoint.EpochIdx cp1) (str "other root") (str "h") (str "r") (str "h") 7 (str "v")).
Definition long_name : Checkpoint.t :=
  signed_as_is (Checkpoint.named_by_origin cp1 (str "log.example") (str "x") (str "y") (Checkpoint.Size cp1) 8 (Checkpoint.EpochIdx cp1)
    1 9 (Checkpoint.EpochIdx cp1) (str "other root") (str "h") (str "r") (str "h") 7 (str "v")).

(** The operator registers itself under that name at the witness that has
    already countersigned its first view, and asks again. *)
Definition long_op : WatchedOperator.t := WatchedOperator.mk (Checkpoint.Origin long_name) (Signer.RootPublicKey (signer1 true)) [].
Definition long_op_req : WitnessApi.call_to := WitnessApi.ToOperators (wreq POST [] (WitnessApi.mk_add_op (Some long_op))).
Definition wserver3 : Server.t := (WitnessApi.NewMux long_op_req (in_fine 80) wserver2).1.
Definition wserver4 : Server.t := (WitnessApi.NewMux (cosign_req long_name) (in_fine 81) wserver3).1.
Definition wsig2 : WitnessSig.t := Server.countersign 81 long_name wserver3.
Definition split_history : list (WitnessApi.call_to * WitnessApi.response) :=
  [(add_op_req, op_reply); (cosign_req cp1, signed_reply); (long_op_req, WitnessApi.writeJSON 200 (WitnessApi.OperatorBody long_op));
   (cosign_req long_name, WitnessApi.writeJSON 200 (WitnessApi.CosignResponse wsig2))].

Lemma split_life : WitnessApi.life no_wire wserver4 split_history.
Proof.
  eapply (WitnessApi.life_request no_wire wserver3 [_; _; _] (cosign_req long_name) (in_fine 81)); [|vm_compute; reflexivity].
  eapply (WitnessApi.life_request no_wire wserver2 [_; _] long_op_req (in_fine 80)); [apply served_life|vm_compute; reflexivity].
Qed.

(** Names are not checked for line breaks, and the text a witness signs is made
    of lines: a witness that runs this code, and has forged nothing, countersigned
    for two checkpoints that an auditor who asks for its countersignature accepts,
    of one log and one size with different roots. *)
Theorem split_view_by_line_break :
  let c1 := cp1_signed in let c2 := Checkpoint.add_witness second_view wsig2 in
  WitnessApi.life no_wire wserver4 split_history /\
  (exists x, x ∈ split_history /\ WitnessApi.given x = Some (cp1, wsig1)) /\
  (exists x c, x ∈ split_history /\ WitnessApi.given x = Some (c, wsig2) /\ Checkpoint.CanonicalForWitness c = Checkpoint.CanonicalForWitness c2) /\
  Verifier.Checkpoint auditor_w1 c1 = Ok tt /\ Verifier.Checkpoint auditor_w1 c2 = Ok tt /\
  Checkpoint.Origin c1 = Checkpoint.Origin c2 /\ Checkpoint.Size c1 = Checkpoint.Size c2 /\ Checkpoint.RootHash c1 <> Checkpoint.RootHash c2.
Proof.
  cbv zeta. split; [exact split_life|]. split; [exists (cosign_req cp1, signed_reply); split; [right; left|reflexivity]|]. split.
  { eexists (_, _), long_name. split; [right; right; right; left|]. split; [reflexivity|]. vm_compute. reflexivity. }
  split; [vm_compute; reflexivity|]. split; [vm_compute; reflexivity|]. split; [vm_compute; reflexivity|]. split; [vm_compute; reflexivity|].
  vm_compute. discriminate.
Qed.
