(* ===== verification/Tools.v ===== *)
(** * The small programs

    The commands that are a few calls of the packages: the demonstration
    attacker stele-tamper, the command of the watcher, the export of the key
    chain, and the daemons of the cosigner, the witness and the mirror. *)

From stdpp Require Import base numbers list gmap strings.
From Stdlib Require Import ZArith Lia.
From S2P Require Import Prelude GoText Codec Crypto Attest Rfc6962 Merkle RefMerkle MerkleProps LogEntry Threshold Fwdsec KeyFiles Checkpoint Badger Storage Core CoreProps.
From S2P Require Import StoreOpen WitnessServer Watcher Mirror WitnessApi.

#[local] Open Scope Z_scope.
#[local] Existing Instance rfc6962_hasher.

(** How a program ends: by [os.Exit], or it goes on to serve. *)
Inductive ending (A : Type) := Exit (code : Z) | Serving (a : A).
Arguments Exit {A} _.
Arguments Serving {A} _.

(** [obs.Fatal] *)
Definition Fatal {A} : ending A := Exit 1.

(** [for _, x := range strings.Split(s, ",")], keeping the trimmed parts that
    are not empty. *)
Definition comma_list (s : bytes) : list bytes :=
  filter (fun x => x <> []) (map TrimSpace (Split Byte.x2c s)).

(** ** stele-tamper *)
Module Tamper.
Section Tamper.
Context {B : Badger value}.

Definition set_data (e : Envelope.t) (data : bytes) : Envelope.t :=
  Envelope.mk (Envelope.ProducerID e) (Envelope.TimeNanos e) (Envelope.Source e) data (Envelope.PublicKey e) (Envelope.Type_ e)
    (Envelope.EvidenceHash e) (Envelope.Evidence e) (Envelope.Signature e) (Envelope.QuantumPublicKey e) (Envelope.QuantumSignature e).
Definition set_envelope (e : Entry.t) (env : Envelope.t) : Entry.t :=
  Entry.mk (Entry.Index e) (Entry.TimeNanos e) (Entry.PrevHash e) (Some env) (Entry.Honeypot e) (Entry.EntryHash e) (Entry.LeafHash e).

(** The transaction: no hash and no signature is recomputed.  [json.Unmarshal]
    does not look for the hashes as [logentry.Unmarshal] does. *)
Definition rewrite_entry (s : Store.t) (idx : Z) (newData : bytes) : Store.t * res unit :=
  match db_get (Store.db s) (entryKey idx) with
  | Err e => (s, Err e)
  | Ok None => (s, errorf "Key not found")
  | Ok (Some (VEntry e)) =>
      match Entry.Envelope e with
      | None => (s, errorf "panic: nil pointer dereference")
      | Some env => Store.commit s [set_key (entryKey idx) (VEntry (set_envelope e (set_data env newData)))]
      end
  | Ok (Some _) => (s, errorf "json")
  end.

(** [stat]: the data directory has a database; [open]: what opening it gave. *)
Definition main (dir : bytes) (idx : Z) (newData : bytes) (stat : bool) (open : res Store.t) : ending (Store.t) :=
  if bool_decide (dir = []) || bool_decide (newData = []) then Exit 2
  else if negb stat then Fatal
  else match open with
  | Err _ => Fatal
  | Ok s => match rewrite_entry s idx newData with (_, Err _) => Fatal | (s, Ok _) => Serving s end
  end.

Context {BL : BadgerLaws B} `{C : Crypto} {CR : CompactRange} {CRL : CompactRangeLaws CR}.

(** A record under an entry key is among those start-up reads. *)
Lemma entry_scanned (s : Store.t) i e : is_u64 i -> view (Store.db s) !! entryKey i = Some (VEntry e) ->
  VEntry e ∈ (while_prefix prefixEntry (db_scan (Store.db s) (entryKey 0))).*2.
Proof.
  intros Hi V. apply list_elem_of_fmap. exists (entryKey i, VEntry e). split; [done|].
  apply (while_prefix_elem prefixEntry (put_u64 0)); [apply scan_sorted| | |apply Store.entryKey_prefix].
  - intros [k v] [_ L]%scan_elem. done.
  - apply scan_elem. split; [done|]. unfold bytes_le. rewrite Store.entryKey_cmp; [|done|done]. apply Z.compare_le_iff. apply Hi.
Qed.

Lemma chain_verified prev es e : Entry.chain prev es -> e ∈ es -> Entry.Verify e = Ok tt.
Proof.
  revert prev. induction es as [|x es IH]; intros prev; [by intros _ ?%elem_of_nil|].
  intros (V & _ & Ch) [->|Hin]%elem_of_cons; [done|by eapply IH].
Qed.

(** The entry's hash commits to the data. *)
Lemma set_data_hash e env data : Entry.Envelope e = Some env -> Envelope.wf env -> fits32 data ->
  sha256 (Entry.Canonical e) = sha256 (Entry.Canonical (set_envelope e (set_data env data))) ->
  data = Envelope.Data env \/
  collision (Entry.Canonical e) (Entry.Canonical (set_envelope e (set_data env data))) \/
  collision (Envelope.Canonical env) (Envelope.Canonical (set_data env data)).
Proof.
  intros Ee W F [E|Co]%sha256_eq_or_collision; [|by right; left].
  unfold Entry.Canonical in E. cbn [set_envelope Entry.Index Entry.TimeNanos Entry.Honeypot] in E. do 2 apply app_inv_head in E. change (Entry.prev_or_zero (set_envelope e (set_data env data))) with (Entry.prev_or_zero e) in E.
  apply app_inv_head in E. apply put_inj in E as [E _]; try apply Entry.env_hash_fits.
  unfold Entry.env_hash in E. cbn [set_envelope Entry.Envelope] in E. rewrite Ee in E. apply sha256_eq_or_collision in E as [E|Co]; [left|by right; right].
  apply Envelope.Canonical_fields in E; [|done|].
  - unfold Envelope.signed_fields in E. by injection E.
  - destruct W as (?&?&?&?&?&?&?&?). unfold Envelope.wf. cbn. by split_and!.
Qed.

(** C31. What the demonstration is for: after stele-tamper has given a stored
    entry other data, the daemon refuses to start, whatever its configuration
    and whatever else is in the database - or the new entry and the old are a
    SHA-256 collision. *)
Theorem tampered_log_refuses_to_start dir idx newData s s' ctx sg enr mi ml e env :
  is_u64 idx -> fits32 newData -> view (Store.db s) !! entryKey idx = Some (VEntry e) ->
  Entry.Verify e = Ok tt -> Entry.Envelope e = Some env -> Envelope.wf env ->
  main dir idx newData true (Ok s) = Serving s' -> newData <> Envelope.Data env ->
  ~ collision (Entry.Canonical e) (Entry.Canonical (set_envelope e (set_data env newData))) ->
  ~ collision (Envelope.Canonical env) (Envelope.Canonical (set_data env newData)) ->
  exists l x, Log.New ctx (Some s') (Some sg) enr mi ml = Ok (l, Err x).
Proof.
  intros Hi F V Ve Ee W M Nd N1 N2.
  destruct (Log.replay ctx (Log.fresh s' sg enr mi ml)) as [l [[]|x]] eqn:N; [exfalso|exists l, x; unfold Log.New; by rewrite <- N].
  assert (Log.New ctx (Some s') (Some sg) enr mi ml = Ok (l, Ok tt)) as N' by (unfold Log.New; by rewrite <- N).
  unfold main in M. destruct (_ || _); [done|]. cbn [negb] in M.
  destruct (rewrite_entry s idx newData) as [s1 [[]|]] eqn:R; [|done]. injection M as ->.
  unfold rewrite_entry in R. destruct (db_get (Store.db s) (entryKey idx)) as [x|] eqn:G; [|done]. apply get_view in G. rewrite V in G. subst x.
  rewrite Ee in R. apply Store.commit_cases in R as [_ [[_ Vw]|[? _]]]; [|naive_solver].
  destruct (new_chain _ _ _ _ _ _ _ N') as (es & Es & Ch & _).
  assert (VEntry (set_envelope e (set_data env newData)) ∈ VEntry <$> es) as In.
  { rewrite <- Es. apply (entry_scanned _ idx); [done|]. rewrite Vw. apply lookup_insert_eq. }
  apply list_elem_of_fmap in In as (x & [= <-] & In). apply (chain_verified _ _ _ Ch), Entry.entry_Verify_iff in In as (_ & H1 & _).
  apply Entry.entry_Verify_iff in Ve as (_ & H2 & _). cbn [set_envelope Entry.EntryHash] in H1. rewrite H2 in H1.
  by destruct (set_data_hash _ _ _ Ee W F H1) as [?|[?|?]].
Qed.
End Tamper.
End Tamper.

(** ** stele-watcher *)
Module WatcherCmd.
Section WatcherCmd.
Context `{Crypto}.

(** The flags that matter for what is compared; [once] and [interval] for how
    often. *)
Record flags := mk_flags { f_origin : bytes; f_operator : bytes; f_witnesses : bytes; f_once : bool; f_interval : Z }.

(** The report and the exit code of one pass.  A report is there whenever there
    is no error. *)
Definition runOnceAndPrint (now : Z) (w : Watcher.web) (cfg : Watcher.Config) : option Watcher.Report * Z :=
  match Watcher.Run now w cfg with
  | (_, _, Err _) => (None, 3)
  | (rep, Watcher.OutcomeConsistent, Ok _) => (rep, 0)
  | (rep, Watcher.OutcomeDiverged, Ok _) => (rep, 1)
  | (rep, Watcher.OutcomeErrored, Ok _) => (rep, 2)
  end.

Definition config (f : flags) : Watcher.Config := Watcher.mk_config (f_origin f) (f_operator f) (comma_list (f_witnesses f)).

(** The exit code: of the single pass, or of the daemon whose passes are at
    [first] and at the ticks until it is signalled.  A ticker cannot be made of
    an interval that is not positive. *)
Definition run (f : flags) (first : Z * Watcher.web) (ticks : list (Z * Watcher.web)) : res (Z * list (option Watcher.Report)) :=
  fail_if bool_decide (f_origin f = []) || bool_decide (f_operator f = []) with "stele-watcher: --origin and --operator are required" ;;
  let pass x := runOnceAndPrint x.1 x.2 (config f) in
  if f_once f then Ok ((pass first).2, [(pass first).1])
  else if f_interval f <=? 0 then Ok (2, [])  (* panic *)
  else Ok (0, map (fun x => (pass x).1) (first :: ticks)).

Definition main (f : flags) (first : Z * Watcher.web) (ticks : list (Z * Watcher.web)) : Z :=
  match run f first ticks with
  | Err _ => 1  (* obs.Fatal *)
  | Ok (code, _) => code
  end.

Lemma exit_codes f now w ticks size root :
  f_origin f <> [] -> f_operator f <> [] -> f_once f = true ->
  Watcher.fetchOperatorCheckpoint w (f_operator f) = Ok (size, root) ->
  let urls := comma_list (f_witnesses f) in
  let diverged := exists u r, u ∈ urls /\ Watcher.claims w (f_origin f) u size r /\ r <> hex root in
  let silent := urls <> [] /\ forall u, u ∈ urls -> is_ok (Watcher.fetchSignedSeen w u (f_origin f)) = false in
  (main f (now, w) ticks = 1 <-> diverged) /\ (main f (now, w) ticks = 2 <-> silent) /\
  (main f (now, w) ticks = 0 <-> ~ diverged /\ ~ silent).
Proof.
  intros No Np On F urls diverged silent.
  destruct (watcher_verdict_exact now w (config f) size root No Np F) as (rep & out & R & D & E & _).
  change (out = Watcher.OutcomeDiverged <-> diverged) in D. change (out = Watcher.OutcomeErrored <-> silent) in E.
  unfold main, run. rewrite !bool_decide_eq_false_2, On by done. cbn [orb fst snd]. unfold runOnceAndPrint. rewrite R.
  clearbody diverged silent. clear - D E. destruct out; cbn [snd]; split_and!;
    (split; [intros X; try discriminate X|intros X]); try done; try (by apply D); try (by apply E); try (by apply D in X); try (by apply E in X).
  - by split; [intros ?%D|intros ?%E].
  - destruct X as [X _]. by destruct (X (proj1 D eq_refl)).
  - destruct X as [_ X]. by destruct (X (proj1 E eq_refl)).
Qed.


(** One witness that answers is enough for a 0: whatever number of the others
    cannot be reached, when no statement that did arrive records another root the
    pass ends as if all had agreed - also when the one that answers has not seen
    that size. *)
Theorem unreachable_witness_exits_zero f now w ticks size root u :
  f_origin f <> [] -> f_operator f <> [] -> f_once f = true ->
  Watcher.fetchOperatorCheckpoint w (f_operator f) = Ok (size, root) ->
  u ∈ comma_list (f_witnesses f) -> is_ok (Watcher.fetchSignedSeen w u (f_origin f)) = true ->
  (forall v r, v ∈ comma_list (f_witnesses f) -> Watcher.claims w (f_origin f) v size r -> r = hex root) ->
  main f (now, w) ticks = 0.
Proof.
  intros No Np On F U A Ag. apply (exit_codes f now w ticks size root No Np On F). split.
  - intros (v & r & V & Cl & N). by apply N, (Ag v r V Cl).
  - intros [_ S]. by rewrite (S u U) in A.
Qed.

(** Without its required arguments the program ends with the code that means
    a fork, and no arguments make it end with the code for bad arguments. *)
Lemma bad_arguments_exit_as_fork f first ticks :
  (f_origin f = [] \/ f_operator f = [] -> main f first ticks = 1) /\ main f first ticks <> 3.
Proof.
  unfold main, run. split.
  - intros [->| ->]; [done|]. by rewrite orb_true_r.
  - destruct (bool_decide (f_origin f = []) || bool_decide (f_operator f = [])) eqn:A; [done|]. apply orb_false_iff in A as [N1%bool_decide_eq_false N2%bool_decide_eq_false].
    destruct (f_once f); [|by destruct (f_interval f <=? 0)]. cbn. unfold runOnceAndPrint, Watcher.Run. rewrite !bool_decide_eq_false_2 by done.
    destruct (Watcher.fetchOperatorCheckpoint _ _) as [[size root]|]; [|done]. by repeat case_match.
Qed.
End WatcherCmd.
End WatcherCmd.

(** ** stele-export-chain *)
Module ExportChain.

(** The line breaks of a long text; [n] bounds the lines. *)
Fixpoint wrap_lines (n : nat) (s : bytes) (width : nat) : bytes :=
  match n with
  | O => s
  | S n => if bool_decide (width < length s)%nat then take width s ++ nl :: wrap_lines n (drop width s) width else s
  end.
Definition wrap (s : bytes) (width : nat) : bytes := wrap_lines (length s) s width.

Section Export.
(** [json.Marshal] and [json.MarshalIndent] of a chain, [json.Unmarshal] into
    one, and the layout of a time. *)
Variables (marshal marshal_indent : Chain.t -> bytes) (unmarshal : bytes -> res Chain.t) (rfc3339 : Z -> bytes).

Definition readChain (buf : res bytes) : res Chain.t :=
  let! buf := wrap_err "read" buf in wrap_err "parse" (unmarshal buf).

Definition chain_digest (body : bytes) : bytes := hex (sha256 body).
Definition last_epoch (c : Chain.t) : Z := match last (Chain.Certs c) with Some x => RotationCert.Epoch x | None => 0 end.

(** The texts printed, one per call. *)
Definition paper (c : Chain.t) (root : RotationCert.t) : list bytes :=
  [str "==== STELE LOG ROOT IDENTITY — SEAL AND STORE PHYSICALLY ====";
   str "origin       : " ++ Chain.Origin c;
   str "created_at   : " ++ rfc3339 (RotationCert.StartedAt root);
   str "root_keyid   : " ++ KeyID (RotationCert.PublicKey root);
   str "root_pubkey  : (base64 Ed25519, 32 bytes)";
   wrap (base64 (RotationCert.PublicKey root)) 64] ++
  (if 0 <? len (RotationCert.QuantumPublicKey root)
   then [str "root_qpubkey : (base64 Dilithium3, 1952 bytes)"; wrap (base64 (RotationCert.QuantumPublicKey root)) 64] else []) ++
  [str "chain_digest : " ++ chain_digest (marshal c);
   str "epoch        : " ++ fmt_d (last_epoch c) ++ str " (most recent in this export)";
   [];
   str "VERIFICATION: an auditor can later confirm any signed checkpoint";
   str "against this root_pubkey using:";
   str "    stele audit --server <url> --root <base64 above>";
   [];
   str "This page IS the trust anchor. Treat it like a master";
   str "password — lose it and the entire log becomes unverifiable.";
   str "=============================================================="].

Definition json (c : Chain.t) (root : RotationCert.t) : list (bytes * bytes) :=
  [(str "origin", Chain.Origin c); (str "created_at", rfc3339 (RotationCert.StartedAt root));
   (str "root_keyid", KeyID (RotationCert.PublicKey root)); (str "root_pubkey", base64 (RotationCert.PublicKey root));
   (str "chain_digest", chain_digest (marshal c)); (str "epoch", fmt_d (last_epoch c))] ++
  (if 0 <? len (RotationCert.QuantumPublicKey root) then [(str "root_qpubkey", base64 (RotationCert.QuantumPublicKey root))] else []).

Definition identity (dir format : bytes) (buf : res bytes) : res (list bytes + list (bytes * bytes)) :=
  fail_if bool_decide (dir = []) with "--dir is required" ;;
  let! c := readChain buf in
  match Chain.Certs c with
  | [] => errorf "chain has no certs (corrupt or uninitialised)"
  | root :: _ =>
      if bool_decide (format = str "paper") then Ok (inl (paper c root))
      else if bool_decide (format = str "json") then Ok (inr (json c root))
      else errorf "unknown --format"
  end.

(** What is printed or written, and the digest that is logged. *)
Inductive exported := Stdout (text : bytes) | File (contents digest : bytes).

Definition full (dir out : bytes) (buf : res bytes) (write_ok : bool) : res exported :=
  fail_if bool_decide (dir = []) || bool_decide (out = []) with "--dir and --out are required" ;;
  let! c := readChain buf in
  let body := marshal_indent c in
  if bool_decide (out = str "-") then Ok (Stdout (body ++ [nl]))
  else
    fail_if negb write_ok with "write" ;;
    Ok (File (body ++ [nl]) (chain_digest body)).

(** *** What the exports keep *)

Lemma filter_wrap n s width : is_graphic s -> filter (fun b => is_line_end b = false) (wrap_lines n s width) = s.
Proof.
  revert s. induction n as [|n IH]; intros s G; cbn [wrap_lines]; [by apply filter_graphic|].
  case_bool_decide; [|by apply filter_graphic]. rewrite filter_app, filter_cons_False by done.
  assert (is_graphic (take width s)) as Gt by (by apply Forall_take). assert (is_graphic (drop width s)) as Gd by (by apply Forall_drop).
  rewrite (filter_graphic _ Gt), (IH _ Gd). apply take_drop.
Qed.

Lemma base64_wrapped k width : base64_decode (wrap (base64 k) width) = Ok k.
Proof. unfold base64_decode, wrap. rewrite filter_wrap by apply base64_graphic. apply decode_quanta_encode. Qed.

(** The page kept in the safe is the trust anchor: from the text printed by
    the identity export, line breaks and all, the decoder that reads --root
    gives back exactly the root key of the chain file, and the quantum root key
    when there is one, whatever their length; the JSON form holds the same. *)
Theorem paper_keeps_root dir buf c root rest page :
  readChain buf = Ok c -> Chain.Certs c = root :: rest -> identity dir (str "paper") buf = Ok (inl page) ->
  base64_decode (nth 5 page []) = Ok (RotationCert.PublicKey root) /\
  (RotationCert.QuantumPublicKey root <> [] -> base64_decode (nth 7 page []) = Ok (RotationCert.QuantumPublicKey root)) /\
  exists fields, identity dir (str "json") buf = Ok (inr fields) /\
    (str "root_pubkey", base64 (RotationCert.PublicKey root)) ∈ fields /\
    (forall k v, (k, v) ∈ fields -> k = str "root_pubkey" -> base64_decode v = Ok (RotationCert.PublicKey root)).
Proof.
  intros R C I. unfold identity in *. destruct (bool_decide (dir = [])); [done|]. rewrite R in *. cbn [res_bind] in *. rewrite C in *.
  rewrite bool_decide_eq_true_2 in I by done. injection I as <-. split; [apply base64_wrapped|]. split.
  - intros N. unfold paper. rewrite (proj2 (Z.ltb_lt _ _)) by (destruct (RotationCert.QuantumPublicKey root); [done|unfold len; simpl; lia]). apply base64_wrapped.
  - rewrite bool_decide_eq_false_2, bool_decide_eq_true_2 by done. eexists. split; [done|]. unfold json. split; [do 3 right; left|].
    intros k v. rewrite elem_of_app. intros In ->.
    assert (v = base64 (RotationCert.PublicKey root)) as ->.
    { destruct In as [In|In].
      - repeat (apply elem_of_cons in In as [In|In]; [by inversion In|]). by apply elem_of_nil in In.
      - destruct (0 <? _); [apply list_elem_of_singleton in In; by inversion In|by apply elem_of_nil in In]. }
    rewrite <- (base64_wrapped (RotationCert.PublicKey root) (length (base64 (RotationCert.PublicKey root)))) at 1. f_equal.
    unfold wrap. destruct (length (base64 (RotationCert.PublicKey root))) eqn:L at 1; cbn [wrap_lines]; [done|]. by rewrite bool_decide_eq_false_2 by lia.
Qed.

(** Indentation breaks lines and strings never do. *)
Hypothesis indent_breaks : forall c, nl ∈ marshal_indent c.
Hypothesis marshal_one_line : forall c, nl ∉ marshal c.

(** The two exports of one chain print different digests under the same name,
    and the digest of the full export is not that of the file it names. *)
Lemma digests_disagree dir out buf c page file d :
  readChain buf = Ok c -> identity dir (str "json") buf = Ok (inr page) -> full dir out buf true = Ok (File file d) ->
  (exists d', (str "chain_digest", d') ∈ page /\ (d' = d -> collision (marshal c) (marshal_indent c))) /\
  (chain_digest file = d -> collision file (marshal_indent c)).
Proof.
  assert (forall a b, hex a = hex b -> a = b) as hex_eq.
  { intros a b E. pose proof (hex_decode_encode a) as Ea. rewrite E, hex_decode_encode in Ea. by injection Ea. }
  intros R I F. unfold identity, full in *. rewrite R in *. destruct (bool_decide (dir = [])); [done|].
  destruct (bool_decide (out = [])); [done|]. cbn [res_bind negb orb] in *. destruct (bool_decide (out = str "-")); [done|]. injection F as <- <-.
  destruct (Chain.Certs c) as [|root rest]; [done|]. rewrite bool_decide_eq_false_2, bool_decide_eq_true_2 in I by done. injection I as <-. split.
  - exists (chain_digest (marshal c)). split; [apply elem_of_app; left; do 4 right; left|]. intros E%hex_eq. split; [|done].
    intros Eq. apply (marshal_one_line c). rewrite Eq. apply indent_breaks.
  - intros E%hex_eq. split; [|done]. intros Eq%(f_equal length). rewrite length_app in Eq. simpl in Eq. lia.
Qed.
End Export.
End ExportChain.

(** ** The daemons of the cosigner, the witness and the mirror

    Up to the point where the server listens; [--addr] and the timeouts are the
    HTTP server's. *)
Module Daemons.
Section Daemons.
Context `{Crypto} `{!D3Keys}.

Definition pq_mode_ok (m : bytes) : bool := bool_decide (m = str "classical") || bool_decide (m = str "hybrid").

Record member_flags := mk_member { f_dir : bytes; f_id : bytes; f_callers : bytes; f_pq_mode : bytes }.

Definition cosigner_main (f : member_flags) (e : CosignerFiles.env) (fs : Files) : Files * ending Cosigner.t :=
  if bool_decide (f_dir f = []) || bool_decide (f_id f = []) then (fs, Exit 2)
  else if negb (pq_mode_ok (f_pq_mode f)) then (fs, Fatal)
  else
    let trusted := comma_list (f_callers f) in
    match (if bool_decide (f_pq_mode f = str "hybrid") then CosignerFiles.NewHybridCosigner (f_id f) trusted e fs
           else CosignerFiles.NewCosigner (f_id f) trusted e fs) with
    | (fs, Err _) => (fs, Fatal)
    | (fs, Ok c) => (fs, Serving c)
    end.

(** The server and whether it gossips. *)
Definition witness_main (f : member_flags) (gossipEvery : Z) (d : Server.files) (io : Server.start_io) : ending (Server.t * bool) :=
  if bool_decide (f_dir f = []) || bool_decide (f_id f = []) then Exit 2
  else if negb (pq_mode_ok (f_pq_mode f)) then Fatal
  else match (if bool_decide (f_pq_mode f = str "hybrid") then Server.NewHybridServer (f_id f) d io
              else Server.NewServer (f_id f) d io) with
  | (_, Err _) => Fatal
  | (s, Ok _) => Serving (s, 0 <? gossipEvery)
  end.

(** *** Who may ask a cosigner to sign *)

Lemma started_cosigner f e fs fs' c : cosigner_main f e fs = (fs', Serving c) ->
  Cosigner.id c = f_id f /\ Cosigner.trustedCallers c = list_to_set (comma_list (f_callers f)).
Proof.
  unfold cosigner_main, CosignerFiles.NewHybridCosigner, CosignerFiles.NewCosigner. destruct (_ || _); [done|].
  destruct (negb (pq_mode_ok (f_pq_mode f))); [done|].
  assert (forall h fs1 c1, CosignerFiles.newCosigner (f_id f) (comma_list (f_callers f)) h e fs = (fs1, Ok c1) ->
    Cosigner.id c1 = f_id f /\ Cosigner.trustedCallers c1 = list_to_set (comma_list (f_callers f))) as X.
  { intros h fs1 c1. unfold CosignerFiles.newCosigner. destruct (bool_decide _); [done|]. destruct (negb _); [done|].
    destruct (CosignerFiles.loadOrCreateClassical e fs) as [fs2 [[k p]|]]; [|done].
    destruct (CosignerFiles.loadOrCreateQuantum e h fs2) as [fs3 [[q qp]|]]; [|done]. by intros [= <- <-]. }
  case_bool_decide; destruct (CosignerFiles.newCosigner _ _ _ e fs) as [fs1 [c1|]] eqn:N; try done; intros [= <- <-]; by eapply X.
Qed.

Lemma comma_list_nonempty s x : x ∈ comma_list s -> x <> [].
Proof. by intros [N _]%list_elem_of_filter. Qed.

(** The cosigner daemon signs for exactly the callers its flag names: a
    request is answered with a signature if and only if it is a POST with a
    message, and its caller token is one of the tokens of --trusted-caller,
    separated by commas and trimmed, or that flag names no token at all. *)
Theorem cosigner_signs_for_named f e fs fs' c now r sig :
  cosigner_main f e fs = (fs', Serving c) ->
  Cosigner.handle_sign c now r = (200, Ok sig) <->
  exists msg, Cosigner.Method r = str "POST" /\ Cosigner.Message r = Some msg /\ msg <> [] /\ sig = Cosigner.Sign c now msg /\
    (comma_list (f_callers f) = [] \/ Cosigner.Caller r ∈ comma_list (f_callers f)).
Proof.
  intros (_ & T)%started_cosigner. unfold Cosigner.handle_sign.
  assert (Cosigner.authoriseRequest c r = true <-> comma_list (f_callers f) = [] \/ Cosigner.Caller r ∈ comma_list (f_callers f)) as A.
  { unfold Cosigner.authoriseRequest. rewrite T. case_bool_decide as E.
    - split; [|done]. intros _. left. destruct (comma_list (f_callers f)) as [|x l]; [done|]. exfalso. apply (not_elem_of_empty x (C := gset bytes)). rewrite <- E. set_solver.
    - assert (comma_list (f_callers f) <> []) as N by (intros X; by rewrite X in E). case_bool_decide as E2.
      + split; [done|]. intros [?|Hin]; [done|]. by apply comma_list_nonempty in Hin.
      + rewrite bool_decide_eq_true, elem_of_list_to_set. naive_solver. }
  case_bool_decide as P; cbn [negb]; [|split; [done|naive_solver]].
  destruct (Cosigner.authoriseRequest c r); cbn [negb]; [|split; [done|]; intros (msg & _ & _ & _ & _ & X%A); done].
  destruct (Cosigner.Message r) as [msg|]; [|split; [done|naive_solver]]. destruct (Z.eqb_spec (len msg) 0) as [L|L].
  - destruct msg; [|unfold len in L; simpl in L; lia]. split; [done|naive_solver].
  - split; [intros [= <-]; exists msg; split_and!; try done; [by intros ->|by apply A]|]. intros (m & _ & [= <-] & _ & -> & _). done.
Qed.

(** A flag of separators alone is as if it were absent: every caller is
    served. *)
Lemma separators_trust_everyone f e fs fs' c now r msg :
  f_callers f = str " , " -> cosigner_main f e fs = (fs', Serving c) ->
  Cosigner.Method r = str "POST" -> Cosigner.Message r = Some msg -> msg <> [] ->
  Cosigner.handle_sign c now r = (200, Ok (Cosigner.Sign c now msg)).
Proof.
  intros F (_ & T)%started_cosigner P M N. unfold Cosigner.handle_sign. rewrite P, bool_decide_eq_true_2 by done. cbn [negb].
  unfold Cosigner.authoriseRequest. rewrite T, F. change (comma_list (str " , ")) with ([] : list bytes). cbn [list_to_set].
  rewrite bool_decide_eq_true_2 by done. cbn [negb]. rewrite M. destruct msg; [done|]. reflexivity.
Qed.
End Daemons.

Section MirrorDaemon.
Context {B : Badger value}.

Record mirror_flags := mk_mirror { f_data : bytes; f_upstream : bytes; f_chunk : Z; f_poll : Z; f_ca : bytes; f_skipVerify : bool }.

(** [buildClient]: a plain client, or the version floor, whether certificates
    are checked, and whether against the given roots.  [ca] is what reading the
    file gave and whether it held a certificate. *)
Definition VersionTLS13 : Z := 0x0304.
Record client_tls := mk_client { MinVersion : Z; InsecureSkipVerify : bool; RootCAs : bool }.

Definition buildClient (caPath : bytes) (skipVerify : bool) (ca : res bool) : res (option client_tls) :=
  if bool_decide (caPath = []) && negb skipVerify then Ok None
  else if bool_decide (caPath = []) then Ok (Some (mk_client VersionTLS13 skipVerify false))
  else
    let! found := ca in
    fail_if negb found with "CA file contained no certs" ;;
    Ok (Some (mk_client VersionTLS13 skipVerify true)).

(** [storeDir]: [filepath.Join(dir, "db")]. *)
Definition mirror_start (f : mirror_flags) (storeDir : bytes) (mkdir : bool) (open : StoreOptions.bopts -> res (DB B)) (ca : res bool) : res (Mirror.t * option client_tls) :=
  fail_if negb mkdir with "mkdir" ;;
  let! st := StoreOptions.Open open storeDir [] in
  let! client := buildClient (f_ca f) (f_skipVerify f) ca in
  let! m := Mirror.New (f_upstream f) (f_chunk f) st in
  Ok (m, client).

Definition mirror_main (f : mirror_flags) (storeDir : bytes) (mkdir : bool) (open : StoreOptions.bopts -> res (DB B)) (ca : res bool) : ending (Mirror.t * option client_tls) :=
  if bool_decide (f_data f = []) || bool_decide (f_upstream f = []) then Exit 2
  else match mirror_start f storeDir mkdir open ca with
  | Err _ => Fatal
  | Ok x => Serving x
  end.
End MirrorDaemon.
End Daemons.

(** ** Witnesses *)

Definition watch_flags : WatcherCmd.flags := WatcherCmd.mk_flags (str "o") (str "https://log") (str "https://w1, ,https://w2 ") true 0.


(** Two witnesses: one has seen nothing yet, the other cannot be reached. *)
Definition blank_view : SignedSeen.t :=
  let unsigned := SignedSeen.mk (str "w1") (ed_public (str "k1")) [] (str "o") ∅ 1 [] in
  SignedSeen.mk (str "w1") (ed_public (str "k1")) [] (str "o") ∅ 1 (ed_sign (str "k1") (SignedSeen.Canonical unsigned)).
Definition half_web : Watcher.web :=
  Watcher.mk_web (Watcher.get_checkpoint demo_web)
    (fun u _ => if bool_decide (u = str "https://w1") then Ok (Some blank_view) else errorf "connection refused").

Lemma unreachable_witness_exits_zero_witness : WatcherCmd.main watch_flags (9, half_web) [] = 0.
Proof.
  apply (WatcherCmd.unreachable_witness_exits_zero watch_flags 9 half_web [] 3 (str "root") (str "https://w1"));
    [discriminate|discriminate|reflexivity|reflexivity|vm_compute; left|vm_compute; reflexivity|].
  intros v r V (ss & F & S & _). assert (ss = blank_view) as ->; [|vm_compute in S; discriminate S].
  apply elem_of_cons in V as [->|[->|[]%elem_of_nil]%elem_of_cons]; vm_compute in F; [|discriminate F]. injection F as <-. vm_compute. reflexivity.
Defined.

Definition demo_root : RotationCert.t := RotationCert.mk 0 (replicate 32 Byte.x07) 5 [] [] (replicate 100 Byte.x08) [] [] [] [].
Definition demo_chain : Chain.t := Chain.mk (str "o") [demo_root] (str "k").

Lemma paper_keeps_root_witness : exists page,
  ExportChain.identity (fun _ => str "{}") (fun _ => Ok demo_chain) (fun _ => str "2024") (str "data") (str "paper") (Ok []) = Ok (inl page) /\
  base64_decode (nth 5 page []) = Ok (replicate 32 Byte.x07) /\ base64_decode (nth 7 page []) = Ok (replicate 100 Byte.x08).
Proof.
  destruct (ExportChain.paper_keeps_root (fun _ => str "{}") (fun _ => Ok demo_chain) (fun _ => str "2024") (str "data") (Ok [])
    demo_chain demo_root [] _ eq_refl eq_refl eq_refl) as (R & Q & _).
  eexists. split; [reflexivity|]. split; [exact R|]. apply Q. discriminate.
Defined.

Definition demo_member : Daemons.member_flags := Daemons.mk_member (str "d") (str "m1") (str "op , backup") (str "hybrid").

Lemma cosigner_signs_for_named_witness : exists fs c,
  Daemons.cosigner_main demo_member (demo_env demo_ed demo_d3) ∅ = (fs, Serving c) /\
  Cosigner.handle_sign c 9 (Cosigner.mk_request (str "POST") (str "op") (Some (str "m"))) = (200, Ok (Cosigner.Sign c 9 (str "m"))).
Proof.
  assert (exists fs c, Daemons.cosigner_main demo_member (demo_env demo_ed demo_d3) ∅ = (fs, Serving c)) as (fs & c & M) by (eexists _, _; reflexivity).
  exists fs, c. split; [done|]. apply (Daemons.cosigner_signs_for_named demo_member _ _ _ _ _ _ _ M). exists (str "m"). repeat split; [discriminate|].
  right. vm_compute. left.
Defined.

Definition new_data : bytes := str "row 2".

Definition tampered : Store.t := (Tamper.rewrite_entry store1 0 new_data).1.

Lemma tampered_log_refuses_to_start_witness :
  Tamper.main (str "data") 0 new_data true (Ok store1) = Serving tampered /\
  exists l x, Log.New (fun _ => None) (Some tampered) (Some sg0) false 0 0 = Ok (l, Err x).
Proof.
  split; [reflexivity|].
  apply (Tamper.tampered_log_refuses_to_start (str "data") 0 new_data store1 tampered (fun _ => None) sg0 false 0 0 entry0 plain_env);
    [done|done|reflexivity|vm_compute; reflexivity|reflexivity|apply plain_env_wf|reflexivity|discriminate|..];
    intros [_ E]; vm_compute in E; discriminate E.
Defined.
