(* ===== verification/Watchdog.v ===== *)
(** * The rotation watchdog (pkg/watchdog)

    Goroutines that rotate the operator key: on a schedule, when the key
    directory is touched, and when the append rate looks wrong.  Each decides
    alone and asks [trigger], whose critical section debounces them all; the
    rotation itself runs outside the lock. *)

From S2P Require Import Prelude Crypto Attest Rfc6962 Merkle RefMerkle MerkleProps LogEntry Threshold Fwdsec Checkpoint Badger Storage Core CoreProps.
From stdpp Require Import base numbers list gmap strings relations.
From Stdlib Require Import ZArith Lia SpecFloat.

#[local] Open Scope Z_scope.

(** The interface the watchdog needs of the log. *)
Class Rotator := {
  rotator : Type;
  rotation_input : Type;  (* clock, randomness and I/O outcomes of one call *)
  Rotate : rotation_input -> rotator -> rotator * res unit;
}.

#[export] Instance log_rotator {B : Badger value} {CR : CompactRange} {PL : ProofLib} {C : Crypto} : Rotator := {|
  rotator := Log.t;
  rotation_input := Z * res KeyStore.fresh * bool * KeyStore.destroy_io * KeyStore.destroy_io;
  Rotate i l := let '(now, gen, wr, io_new, io_prev) := i in Log.Rotate l now gen wr io_new io_prev;
|}.

Module Watchdog.

Inductive Reason := ReasonScheduled | ReasonKeyTamper | ReasonRateSurge | ReasonRateDrop | ReasonManual.
#[export] Instance Reason_eq_dec : EqDecision Reason.
Proof. solve_decision. Defined.

(** The operations an fsnotify event reports. *)
Record fs_op := mk_op { op_create : bool; op_write : bool; op_remove : bool; op_rename : bool; op_chmod : bool }.

(** What the detail string is formatted from. *)
Inductive Detail := DInterval (d : Z) | DEvent (op : fs_op) (path : bytes) | DRate (last : Z) (baseline : spec_float).

Record Event := mk_event { At : Z; EvReason : Reason; EvDetail : Detail; Success : bool; EvErr : option error }.

Record Config := mk_config {
  Interval : Z;
  KeyDir : bytes;
  MinDebounce : Z;
  EnableRateMonitor : bool;
  RateWindow : Z;
  EventSink : bool;  (* set *)
}.

(** [end_] is [None] for the zero time. *)
Record rateBucket := mk_bucket { end_ : option Z; count : Z }.

Definition second : Z := 1000000000.
Definition nbuckets : Z := 30.

(** [time.Since(t)], saturating; the zero time is further back than any
    duration reaches. *)
Definition since (now : Z) (t : option Z) : Z :=
  match t with
  | None => 2 ^ 63 - 1
  | Some t => Z.max (- 2 ^ 63) (Z.min (2 ^ 63 - 1) (now - t))
  end.

(** float64 of an integer, and the constant 0.1. *)
Definition float_of_Z (z : Z) : spec_float := binary_normalize 53 1024 z 0 false.
Definition float_tenth : spec_float := S754_finite false 7205759403792794 (-56).

Section Watchdog.
Context {R : Rotator}.

Record t := mk {
  cfg : Config;
  rot : rotator;
  lastRot : option Z;
  rateBuckets : list rateBucket;
  bucketDur : Z;
  events : list Event;  (* what EventSink received *)
}.

Definition set_rot (w : t) r : t := mk (cfg w) r (lastRot w) (rateBuckets w) (bucketDur w) (events w).
Definition set_lastRot (w : t) l : t := mk (cfg w) (rot w) l (rateBuckets w) (bucketDur w) (events w).
Definition set_buckets (w : t) b : t := mk (cfg w) (rot w) (lastRot w) b (bucketDur w) (events w).
Definition emit (w : t) ev : t :=
  if EventSink (cfg w) then mk (cfg w) (rot w) (lastRot w) (rateBuckets w) (bucketDur w) (events w ++ [ev]) else w.

Definition defaults (c : Config) : Config :=
  mk_config (Interval c) (KeyDir c) (if MinDebounce c =? 0 then 30 * second else MinDebounce c)
    (EnableRateMonitor c) (if RateWindow c =? 0 then 5 * 60 * second else RateWindow c) (EventSink c).

(** The goroutines [Start] launches; [fs]: what installing the watch on
    [KeyDir] returned.  Left out: a [RateWindow] under 30ns, on whose ticker
    the rate monitor panics. *)
Definition Start (r : option rotator) (c : Config) (fs : res unit) : res (t * (bool * bool * bool)) :=
  match r with
  | None => Err ["watchdog: nil Rotator"%string]
  | Some r =>
      let c := defaults c in
      let w := mk c r None (replicate (Z.to_nat nbuckets) (mk_bucket None 0)) (Z.quot (RateWindow c) nbuckets) [] in
      let watch := negb (bool_decide (KeyDir c = [])) in
      let! _ := if watch then wrap_err "watchdog" fs else Ok tt in
      Ok (w, (0 <? Interval c, watch, EnableRateMonitor c))
  end.

(** [b.end.Before(now)] *)
Definition ended (now : Z) (b : rateBucket) : bool := match end_ b with None => true | Some e => e <? now end.

(** On a nil watchdog the method returns at once. *)
Definition ObserveAppend (now : Z) (w : t) : t :=
  if negb (EnableRateMonitor (cfg w)) then w
  else match last (rateBuckets w) with
  | None => w  (* index out of range; [Start] makes 30 buckets *)
  | Some b =>
      let older := take (length (rateBuckets w) - 1) (rateBuckets w) in
      if ended now b
      then set_buckets w (drop 1 (rateBuckets w) ++ [mk_bucket (Some (now + bucketDur w)) 1])
      else set_buckets w (older ++ [mk_bucket (end_ b) (wrap64 (count b + 1))])
  end.

(** *** [trigger] *)

(** The critical section: clock reads at the test and at the update. *)
Definition claim (now1 now2 : Z) (w : t) : t * bool :=
  if since now1 (lastRot w) <? MinDebounce (cfg w) then (w, false)
  else (set_lastRot w (Some now2), true).

(** After the lock: rotate and report. *)
Definition fire (at_ : Z) (i : rotation_input) (reason : Reason) (detail : Detail) (w : t) : t :=
  let '(r, e) := Rotate i (rot w) in
  emit (set_rot w r) (mk_event at_ reason detail (is_ok e) (match e with Ok _ => None | Err e => Some e end)).

Definition trigger (now1 now2 at_ : Z) (i : rotation_input) (reason : Reason) (detail : Detail) (w : t) : t :=
  let '(w, ok) := claim now1 now2 w in if ok then fire at_ i reason detail w else w.

(** *** The goroutines *)

Definition relevant (op : fs_op) : bool := op_write op || op_create op || op_remove op || op_rename op.

(** One fsnotify event against the counter of events to skip. *)
Definition fs_event (ignored : Z) (op : fs_op) : Z * bool :=
  if negb (relevant op) then (ignored, false)
  else if 0 <? ignored then (ignored - 1, false)
  else (ignored, true).
Definition startup_ignored : Z := 2.

Definition detectRateAnomaly (w : t) : option (Reason * Detail) :=
  if len (rateBuckets w) <? 2 then None
  else match last (rateBuckets w) with
  | None => None
  | Some b =>
      let older := take (length (rateBuckets w) - 1) (rateBuckets w) in
      let baseline := foldl (fun acc b => wrap64 (acc + count b)) 0 older in
      let baselineRate := SFdiv 53 1024 (float_of_Z baseline) (float_of_Z (len (rateBuckets w) - 1)) in
      let lastRate := float_of_Z (count b) in
      if SFltb (float_of_Z 0) baselineRate && SFltb (SFmul 53 1024 baselineRate (float_of_Z 10)) lastRate
      then Some (ReasonRateSurge, DRate (count b) baselineRate)
      else if SFltb (float_of_Z 5) baselineRate && SFltb lastRate (SFmul 53 1024 baselineRate float_tenth)
      then Some (ReasonRateDrop, DRate (count b) baselineRate)
      else None
  end.

(** One tick of the monitor, started at [startedAt]; [None]: nothing to do. *)
Definition rate_tick (startedAt now : Z) (w : t) : option (Reason * Detail) :=
  if since now (Some startedAt) <? RateWindow (cfg w) then None else detectRateAnomaly w.

(** ** The running watchdog

    [pending]: triggers past the lock whose rotation has not run yet; [claims]:
    the times at which the lock was passed, newest first; [fired]: rotations
    run. *)
Record sys := mk_sys {
  wd : t;
  ignored : Z;
  startedAt : Z;
  pending : list (Reason * Detail);
  clock : Z;
  claims : list Z;
  fired : nat;
}.

(** A goroutine calls [trigger] and takes the lock. *)
Definition attempt (now1 now2 : Z) (x : Reason * Detail) (s : sys) : sys :=
  let '(w, ok) := claim now1 now2 (wd s) in
  mk_sys w (ignored s) (startedAt s) (if ok then pending s ++ [x] else pending s) now2
    (if ok then now2 :: claims s else claims s) (fired s).

Definition set_ignored (s : sys) n : sys := mk_sys (wd s) n (startedAt s) (pending s) (clock s) (claims s) (fired s).

(** The first argument tells whether the step observes an append. *)
Inductive step : bool -> sys -> sys -> Prop :=
| step_schedule s now1 now2 :
    clock s <= now1 <= now2 -> 0 < Interval (cfg (wd s)) ->
    step false s (attempt now1 now2 (ReasonScheduled, DInterval (Interval (cfg (wd s)))) s)
| step_fs_skip s op n :
    KeyDir (cfg (wd s)) <> [] -> fs_event (ignored s) op = (n, false) -> step false s (set_ignored s n)
| step_fs s op path n now1 now2 :
    clock s <= now1 <= now2 -> KeyDir (cfg (wd s)) <> [] -> fs_event (ignored s) op = (n, true) ->
    step false s (attempt now1 now2 (ReasonKeyTamper, DEvent op path) (set_ignored s n))
| step_rate s now x now1 now2 :
    now <= now1 -> clock s <= now1 <= now2 -> EnableRateMonitor (cfg (wd s)) = true -> rate_tick (startedAt s) now (wd s) = Some x ->
    step false s (attempt now1 now2 x s)
| step_fire s l1 reason detail l2 at_ i :
    pending s = l1 ++ (reason, detail) :: l2 ->
    step false s (mk_sys (fire at_ i reason detail (wd s)) (ignored s) (startedAt s) (l1 ++ l2) (clock s) (claims s) (S (fired s)))
| step_append s now :
    step true s (mk_sys (ObserveAppend now (wd s)) (ignored s) (startedAt s) (pending s) (clock s) (claims s) (fired s)).

Definition started (r : option rotator) (c : Config) (s : sys) : Prop :=
  exists fs now gs w, Start r c fs = Ok (w, gs) /\ s = mk_sys w startup_ignored now [] now [] 0.
Definition reach (r : option rotator) (c : Config) (s : sys) : Prop := exists s0, started r c s0 /\ rtc (fun x y => exists b, step b x y) s0 s.

(** *** The invariant *)

(** Times, newest first, each at least [d] after the one before. *)
Fixpoint apart (d : Z) (l : list Z) : Prop :=
  match l with
  | x :: (y :: _) as l' => y + d <= x /\ apart d l'
  | _ => True
  end.

Record inv (c : Config) (s : sys) : Prop := {
  inv_cfg : cfg (wd s) = c;
  inv_last : lastRot (wd s) = head (claims s);
  inv_apart : 0 <= MinDebounce c -> apart (MinDebounce c) (claims s);
  inv_clock : Forall (fun x => x <= clock s) (claims s);
  inv_fired : (fired s + length (pending s) = length (claims s))%nat;
  inv_buckets : len (rateBuckets (wd s)) = nbuckets;
  inv_ignored : 0 <= ignored s <= startup_ignored;
}.

Lemma since_lower now t d : 0 <= d -> ~ since now (Some t) < d -> t + d <= now.
Proof. unfold since. lia. Qed.

Lemma attempt_inv c now1 now2 x s : clock s <= now1 <= now2 -> inv c s -> inv c (attempt now1 now2 x s).
Proof.
  intros T I. unfold attempt, claim. destruct (Z.ltb_spec (since now1 (lastRot (wd s))) (MinDebounce (cfg (wd s)))) as [L|L].
  - split; cbn; try apply I. eapply Forall_impl; [apply I|]. cbn. lia.
  - split; cbn; try apply I; [done| | |].
    + intros D. pose proof (inv_last _ _ I) as E. pose proof (inv_apart _ _ I D) as A. rewrite (inv_cfg _ _ I), E in L.
      destruct (claims s) as [|y l]; [done|]. split; [|done]. cbn in L.
      pose proof (since_lower now1 y (MinDebounce c)). lia.
    + constructor; [lia|]. eapply Forall_impl; [apply I|]. cbn. lia.
    + rewrite length_app. cbn. pose proof (inv_fired _ _ I). lia.
Qed.

Lemma fire_cfg at_ i reason detail w : cfg (fire at_ i reason detail w) = cfg w /\
  lastRot (fire at_ i reason detail w) = lastRot w /\ rateBuckets (fire at_ i reason detail w) = rateBuckets w.
Proof. unfold fire, emit. destruct (Rotate i (rot w)). cbn. by destruct (EventSink _). Qed.

Lemma ObserveAppend_kept now w : cfg (ObserveAppend now w) = cfg w /\
  lastRot (ObserveAppend now w) = lastRot w /\ len (rateBuckets (ObserveAppend now w)) = len (rateBuckets w).
Proof.
  unfold ObserveAppend. destruct (negb _); [done|]. destruct (last (rateBuckets w)) as [b|] eqn:E; [|done].
  assert (rateBuckets w <> []) as N by (intros X; by rewrite X in E).
  assert (0 < length (rateBuckets w))%nat by (destruct (rateBuckets w); [done|cbn; lia]).
  destruct (ended now b); cbn; split_and!; try done; unfold len; rewrite length_app; cbn;
    rewrite ?length_drop, ?length_take; lia.
Qed.

Lemma fs_event_range n op m ok : fs_event n op = (m, ok) -> 0 <= n <= startup_ignored -> 0 <= m <= startup_ignored.
Proof. unfold fs_event. destruct (negb _); [by intros [= <- _]|]. destruct (Z.ltb_spec 0 n); intros [= <- _]; lia. Qed.

Lemma set_ignored_inv c s n : 0 <= n <= startup_ignored -> inv c s -> inv c (set_ignored s n).
Proof. intros H I. by split; try apply I. Qed.

Lemma step_inv c b s s' : step b s s' -> inv c s -> inv c s'.
Proof.
  intros St I. destruct St.
  - by apply attempt_inv.
  - apply set_ignored_inv; [|done]. by eapply fs_event_range; [|apply I].
  - apply attempt_inv; [done|]. apply set_ignored_inv; [|done]. by eapply fs_event_range; [|apply I].
  - by apply attempt_inv.
  - destruct (fire_cfg at_ i reason detail (wd s)) as (E1 & E2 & E3).
    split; cbn; rewrite ?E1, ?E2, ?E3; try apply I.
    pose proof (inv_fired _ _ I) as F. rewrite H, length_app in F. cbn in F. rewrite length_app. lia.
  - destruct (ObserveAppend_kept now (wd s)) as (E1 & E2 & E3). split; cbn; rewrite ?E1, ?E2, ?E3; apply I.
Qed.

Lemma started_inv r c s : started r c s -> inv (defaults c) s.
Proof.
  intros (fs & now & gs & w & E & ->). unfold Start in E. destruct r as [r|]; [|done].
  destruct (if negb _ then _ else _); cbn [res_bind] in E; [|done]. injection E as <- <-.
  by split.
Qed.

Lemma watchdog_reach_inv r c s : reach r c s -> inv (defaults c) s.
Proof.
  intros (s0 & S%started_inv & St). induction St as [s|s s1 s2 [b E] _ IH]; [done|]. apply IH. by eapply step_inv.
Qed.

(** How many of the claims fall in a window. *)
Definition within (a T : Z) (l : list Z) : list Z := filter (fun x => a <= x < a + T) l.

Lemma apart_tail d x l : apart d (x :: l) -> apart d l.
Proof. destruct l; [done|]. by intros [_ ?]. Qed.

Lemma apart_le d x l : 0 <= d -> apart d (x :: l) -> Forall (fun y => y + d <= x) l.
Proof.
  intros Hd. revert x. induction l as [|y l IH]; intros x; [done|]. intros [L A]. constructor; [done|].
  eapply Forall_impl; [by apply IH|]. cbn. lia.
Qed.

Lemma within_sum d a T l : 0 <= d -> apart d l ->
  match within a T l with [] => True | x :: l' => a + d * len l' <= x end.
Proof.
  intros Hd A. induction l as [|x l IH]; [done|]. unfold within in *. specialize (IH (apart_tail _ _ _ A)).
  rewrite filter_cons. case_decide as D; [|done]. apply apart_le in A; [|done].
  destruct (filter _ l) as [|y l'] eqn:E; [unfold len; cbn; lia|].
  assert (y ∈ filter (fun x => a <= x < a + T) l) as Hy by (rewrite E; left).
  apply list_elem_of_filter in Hy as [_ Hy]. rewrite Forall_forall in A. specialize (A y Hy).
  unfold len in *. cbn [length]. lia.
Qed.

(** The buckets change with appends only. *)
Lemma quiet_buckets s s' : rtc (step false) s s' -> rateBuckets (wd s') = rateBuckets (wd s).
Proof.
  induction 1 as [s|s s1 s2 E _ IH]; [done|]. rewrite IH. clear IH. inversion E; subst; cbn; try done;
    try (unfold attempt, claim; cbn; by destruct (_ <? _)).
  apply fire_cfg.
Qed.

Lemma detect_buckets w w' : rateBuckets w' = rateBuckets w -> detectRateAnomaly w' = detectRateAnomaly w.
Proof. intros E. unfold detectRateAnomaly. by rewrite E. Qed.

(** *** The buckets as a history *)

(** The same bookkeeping without a bound on the number of buckets. *)
Definition observe (dur now : Z) (h : list rateBucket) : list rateBucket :=
  match last h with
  | Some b =>
      if ended now b then h ++ [mk_bucket (Some (now + dur)) 1]
      else take (length h - 1) h ++ [mk_bucket (end_ b) (wrap64 (count b + 1))]
  | None => h
  end.

(** The newest [n] of a list. *)
Definition newest {A} (n : nat) (l : list A) : list A := drop (length l - n) l.

Lemma newest_last {A} n (l : list A) : (0 < n)%nat -> last (newest n l) = last l.
Proof.
  intros Hn. unfold newest. destruct l as [|x l _] using rev_ind; [by rewrite drop_nil|].
  rewrite drop_app_le by (rewrite length_app; cbn; lia). by rewrite !last_snoc.
Qed.

Lemma newest_snoc {A} n (l : list A) x : (0 < n)%nat -> (n <= length l)%nat ->
  newest n (l ++ [x]) = drop 1 (newest n l) ++ [x].
Proof.
  intros Hn Hl. unfold newest. rewrite length_app, drop_drop. cbn [length]. rewrite drop_app_le by lia.
  f_equal. f_equal. lia.
Qed.

Lemma newest_update {A} n (l : list A) x : (0 < n)%nat -> (n <= length l)%nat ->
  newest n (take (length l - 1) l ++ [x]) = take (length (newest n l) - 1) (newest n l) ++ [x].
Proof.
  intros Hn Hl. destruct l as [|y l _] using rev_ind; [cbn in Hl; lia|].
  rewrite length_app in *. cbn in *. rewrite take_app_le, take_ge by lia. unfold newest.
  rewrite !length_app. cbn. rewrite !drop_app_le by lia. f_equal.
  rewrite length_app, length_drop. cbn. rewrite take_app_le, take_ge; [done|rewrite length_drop; lia|rewrite length_drop; lia].
Qed.

Lemma observe_length dur now h : (length h <= length (observe dur now h))%nat.
Proof.
  unfold observe. destruct (last h) eqn:E; [|done]. destruct (ended now _); rewrite length_app; cbn [length]; [lia|].
  rewrite length_take. lia.
Qed.

Lemma ObserveAppend_newest w now h n :
  EnableRateMonitor (cfg w) = true -> (0 < n <= length h)%nat -> rateBuckets w = newest n h ->
  rateBuckets (ObserveAppend now w) = newest n (observe (bucketDur w) now h).
Proof.
  intros En Hn E. unfold ObserveAppend, observe. rewrite En. cbn [negb]. rewrite E, newest_last by lia.
  destruct (last h) as [b|] eqn:L; [|done]. destruct (ended now b); cbn [rateBuckets set_buckets].
  - by rewrite newest_snoc by lia.
  - by rewrite newest_update by lia.
Qed.

Lemma ObserveAppend_dur now w : bucketDur (ObserveAppend now w) = bucketDur w.
Proof. unfold ObserveAppend. destruct (negb _); [done|]. destruct (last _); [|done]. by destruct (ended _ _). Qed.

Lemma observe_all ts : forall w h n,
  EnableRateMonitor (cfg w) = true -> (0 < n <= length h)%nat -> rateBuckets w = newest n h ->
  rateBuckets (foldl (fun w now => ObserveAppend now w) w ts) =
  newest n (foldl (fun h now => observe (bucketDur w) now h) h ts).
Proof.
  induction ts as [|now ts IH]; intros w h n En Hn E; [done|]. cbn [foldl].
  rewrite <- (ObserveAppend_dur now w). apply IH.
  - by destruct (ObserveAppend_kept now w) as [-> _].
  - pose proof (observe_length (bucketDur w) now h). rewrite ObserveAppend_dur. lia.
  - rewrite ObserveAppend_dur. by apply ObserveAppend_newest.
Qed.
End Watchdog.
End Watchdog.

(** ** Properties *)

(** C23. Rotations cannot be forced in a storm: however the scheduler, the file
    watcher and the rate monitor interleave, in any window of length [T] at
    most [T / MinDebounce + 1] triggers get past the lock, and every one of
    them runs [Rotate] exactly once. *)
Theorem rotations_debounced {R : Rotator} r c s a T :
  Watchdog.reach r c s -> 0 < Watchdog.MinDebounce (Watchdog.defaults c) -> 0 <= T ->
  Watchdog.MinDebounce (Watchdog.defaults c) * (len (Watchdog.within a T (Watchdog.claims s)) - 1) <= T /\
  (Watchdog.fired s + length (Watchdog.pending s) = length (Watchdog.claims s))%nat.
Proof.
  intros I%Watchdog.watchdog_reach_inv D HT. split; [|apply I].
  pose proof (Watchdog.within_sum (Watchdog.MinDebounce (Watchdog.defaults c)) a T (Watchdog.claims s)) as W.
  specialize (W ltac:(lia) (Watchdog.inv_apart _ _ I ltac:(lia))).
  destruct (Watchdog.within a T (Watchdog.claims s)) as [|x l] eqn:E; [unfold len; cbn [length Z.of_nat]; lia|].
  assert (x ∈ Watchdog.within a T (Watchdog.claims s)) as Hx by (rewrite E; left).
  apply list_elem_of_filter in Hx as [Hx _]. unfold len in *. cbn [length]. lia.
Qed.

(** A touched key directory is answered: once the two start-up events are
    used up, handling a write, create, remove or rename leaves a rotation that
    was claimed less than [MinDebounce] before the event was handled. *)
Theorem tamper_answered {R : Rotator} r c s op path now1 now2 :
  Watchdog.reach r c s -> 0 < Watchdog.MinDebounce (Watchdog.defaults c) < 2 ^ 63 ->
  Watchdog.clock s <= now1 <= now2 ->
  Watchdog.relevant op = true -> Watchdog.ignored s = 0 ->
  let s' := Watchdog.attempt now1 now2 (Watchdog.ReasonKeyTamper, Watchdog.DEvent op path) (Watchdog.set_ignored s 0) in
  Watchdog.fs_event (Watchdog.ignored s) op = (0, true) /\
  exists t, head (Watchdog.claims s') = Some t /\ Watchdog.lastRot (Watchdog.wd s') = Some t /\
    t <= now2 /\ now1 - t < Watchdog.MinDebounce (Watchdog.defaults c).
Proof.
  intros I%Watchdog.watchdog_reach_inv D T Rl Ig s'. split; [unfold Watchdog.fs_event; by rewrite Rl, Ig|].
  assert (Watchdog.inv (Watchdog.defaults c) s') as I'.
  { apply Watchdog.attempt_inv; [done|]. by apply Watchdog.set_ignored_inv. }
  unfold s', Watchdog.attempt, Watchdog.claim in *. cbn [Watchdog.wd Watchdog.set_ignored Watchdog.claims] in *.
  rewrite (Watchdog.inv_cfg _ _ I) in *.
  destruct (Z.ltb_spec (Watchdog.since now1 (Watchdog.lastRot (Watchdog.wd s))) (Watchdog.MinDebounce (Watchdog.defaults c))) as [L|L].
  - cbn [fst snd]. pose proof (Watchdog.inv_last _ _ I) as E. unfold Watchdog.since in L.
    destruct (Watchdog.lastRot (Watchdog.wd s)) as [t|] eqn:Lr; [|lia].
    exists t. split_and!; [done|done| |lia]. symmetry in E. apply head_Some in E as [l E].
    pose proof (Watchdog.inv_clock _ _ I) as F. rewrite E in F. apply Forall_inv in F. lia.
  - exists now2. split_and!; [done|done|lia|lia].
Qed.

(** The fixed ring of buckets forgets nothing it should keep: after any
    sequence of appends it is the newest thirty buckets of the unbounded
    history. *)
Theorem rate_ring_exact {R : Rotator} r c fs w gs ts :
  Watchdog.Start r c fs = Ok (w, gs) -> Watchdog.EnableRateMonitor c = true ->
  Watchdog.rateBuckets (foldl (fun w now => Watchdog.ObserveAppend now w) w ts) =
  Watchdog.newest 30 (foldl (fun h now => Watchdog.observe (Watchdog.bucketDur w) now h)
                        (replicate 30 (Watchdog.mk_bucket None 0)) ts).
Proof.
  intros E En. unfold Watchdog.Start in E. destruct r as [r|]; [|done].
  destruct (if negb _ then _ else _); cbn [res_bind] in E; [|done]. injection E as <- <-.
  apply Watchdog.observe_all; [done|cbn; lia|done].
Qed.

(** *** The watchdog of a log *)

Section OfLog.
Context {B : Badger value} {CR : CompactRange} {PL : ProofLib} {C : Crypto}.
Context {BL : BadgerLaws B} {CRL : CompactRangeLaws CR} {PLL : ProofLibLaws PL} {CL : CryptoLaws C}.

Lemma fire_log at_ i reason detail (w : Watchdog.t (R := log_rotator)) :
  Log.step (Watchdog.rot w) (Watchdog.rot (Watchdog.fire at_ i reason detail w)).
Proof.
  destruct i as [[[[now gen] wr] io1] io2]. unfold Watchdog.fire, Watchdog.emit. cbn [Rotate log_rotator].
  destruct (Log.Rotate (Watchdog.rot w) now gen wr io1 io2) as [l r] eqn:E. cbn.
  destruct (Watchdog.EventSink _); cbn; by eapply Log.step_rotate.
Qed.

Lemma watchdog_log_step b (s s' : Watchdog.sys (R := log_rotator)) :
  Watchdog.step b s s' -> rtc Log.step (Watchdog.rot (Watchdog.wd s)) (Watchdog.rot (Watchdog.wd s')).
Proof.
  intros St. inversion St; subst; cbn; try done;
    try (unfold Watchdog.attempt, Watchdog.claim; cbn; by destruct (_ <? _)).
  - apply rtc_once, fire_log.
  - unfold Watchdog.ObserveAppend. destruct (negb _); [done|]. destruct (last _); [|done]. by destruct (Watchdog.ended _ _).
Qed.

(** The watchdog only ever rotates: wired to a log as in steled, whatever the
    goroutines do leaves the log reachable, so its entries, roots and proofs
    keep every guarantee of the log. *)
Theorem watchdog_keeps_log (s s' : Watchdog.sys (R := log_rotator)) :
  reachable (Watchdog.rot (Watchdog.wd s)) -> rtc (fun x y => exists b, Watchdog.step b x y) s s' ->
  reachable (Watchdog.rot (Watchdog.wd s')).
Proof.
  intros Re St. induction St as [s|s s1 s2 [b E] _ IH]; [done|]. apply IH.
  destruct Re as (l0 & S0 & S1). exists l0. split; [done|]. etrans; [exact S1|]. by eapply watchdog_log_step.
Qed.
End OfLog.

(** *** Concrete runs *)

#[local] Instance counting_rotator : Rotator := {|
  rotator := nat;
  rotation_input := bool;
  Rotate ok n := if ok then (S n, Ok tt) else (n, errorf "rotation failed");
|}.

Definition wd_config : Watchdog.Config := Watchdog.mk_config 0 (str "keys") 0 true 0 true.
Definition wd_start : Watchdog.t :=
  match Watchdog.Start (R := counting_rotator) (Some 0%nat) wd_config (Ok tt) with Ok (w, _) => w | Err _ => Watchdog.mk (R := counting_rotator) wd_config 0%nat None [] 0 [] end.
Definition wd_sys0 : Watchdog.sys := Watchdog.mk_sys wd_start Watchdog.startup_ignored 0 [] 0 [] 0.
Definition fs_write : Watchdog.fs_op := Watchdog.mk_op false true false false false.
Definition tampered (now : Z) (s : Watchdog.sys) : Watchdog.sys :=
  Watchdog.attempt now now (Watchdog.ReasonKeyTamper, Watchdog.DEvent fs_write (str "chain.json")) (Watchdog.set_ignored s 0).
Definition wd_sys2 : Watchdog.sys := Watchdog.set_ignored (Watchdog.set_ignored wd_sys0 1) 0.
Definition wd_sys3 : Watchdog.sys := tampered 5 wd_sys2.

Lemma wd_started : Watchdog.started (R := counting_rotator) (Some 0%nat) wd_config wd_sys0.
Proof. by exists (Ok tt), 0, (false, true, true), wd_start. Qed.

Lemma wd_reach2 : Watchdog.reach (R := counting_rotator) (Some 0%nat) wd_config wd_sys2.
Proof.
  exists wd_sys0. split; [apply wd_started|].
  eapply rtc_l; [exists false; by apply (Watchdog.step_fs_skip wd_sys0 fs_write 1)|].
  eapply rtc_l; [exists false; by apply (Watchdog.step_fs_skip (Watchdog.set_ignored wd_sys0 1) fs_write 0)|]. done.
Qed.

Lemma wd_reach3 : Watchdog.reach (R := counting_rotator) (Some 0%nat) wd_config wd_sys3.
Proof.
  destruct wd_reach2 as (s0 & S & St). exists s0. split; [done|]. eapply rtc_r; [exact St|]. exists false.
  by apply (Watchdog.step_fs wd_sys2 fs_write (str "chain.json") 0 5 5).
Qed.

Lemma rotations_debounced_witness :
  Watchdog.MinDebounce (Watchdog.defaults wd_config) * (len (Watchdog.within 0 10 (Watchdog.claims wd_sys3)) - 1) <= 10 /\
  (Watchdog.fired wd_sys3 + length (Watchdog.pending wd_sys3) = length (Watchdog.claims wd_sys3))%nat.
Proof. apply (rotations_debounced (R := counting_rotator) (Some 0%nat) wd_config wd_sys3 0 10 wd_reach3); [reflexivity|lia]. Defined.

Lemma tamper_answered_witness :
  Watchdog.fs_event 0 fs_write = (0, true) /\
  exists t, head (Watchdog.claims wd_sys3) = Some t /\ Watchdog.lastRot (Watchdog.wd wd_sys3) = Some t /\
    t <= 5 /\ 5 - t < Watchdog.MinDebounce (Watchdog.defaults wd_config).
Proof.
  apply (tamper_answered (R := counting_rotator) (Some 0%nat) wd_config wd_sys2 fs_write (str "chain.json") 5 5 wd_reach2);
    [split; reflexivity|split; discriminate|reflexivity|reflexivity].
Defined.

Lemma rate_ring_exact_witness :
  Watchdog.rateBuckets (foldl (fun w now => Watchdog.ObserveAppend now w) wd_start [1; 2; 3]) =
  Watchdog.newest 30 (foldl (fun h now => Watchdog.observe (Watchdog.bucketDur wd_start) now h)
                        (replicate 30 (Watchdog.mk_bucket None 0)) [1; 2; 3]).
Proof.
  apply (rate_ring_exact (R := counting_rotator) (Some 0%nat) wd_config (Ok tt) wd_start (false, true, true) [1; 2; 3]); reflexivity.
Defined.

(** A watchdog whose buckets hold the given counts. *)
Definition rated (counts : list Z) : Watchdog.t := Watchdog.set_buckets wd_start (map (Watchdog.mk_bucket (Some 0)) counts).
Definition reason_of (w : Watchdog.t) : option Watchdog.Reason :=
  match Watchdog.detectRateAnomaly w with Some (r, _) => Some r | None => None end.

(** The thresholds are strict, in float64: exactly ten times the baseline is no
    surge, exactly a tenth is no drop. *)
Example surge_at_eleven : reason_of (rated (replicate 29 1 ++ [11])) = Some Watchdog.ReasonRateSurge.
Proof. vm_compute. reflexivity. Qed.
Example no_surge_at_ten : reason_of (rated (replicate 29 1 ++ [10])) = None.
Proof. vm_compute. reflexivity. Qed.
Example drop_at_nine : reason_of (rated (replicate 29 100 ++ [9])) = Some Watchdog.ReasonRateDrop.
Proof. vm_compute. reflexivity. Qed.
Example no_drop_at_ten : reason_of (rated (replicate 29 100 ++ [10])) = None.
Proof. vm_compute. reflexivity. Qed.

(** *** Where the code departs from its comments *)

(** Suppressing every append is never noticed: the buckets roll only when an
    append arrives, so however long the silence lasts, the monitor's finding
    is the one it had when the last append came in. *)
Theorem silence_not_detected {R : Rotator} s s' :
  rtc (Watchdog.step false) s s' ->
  Watchdog.detectRateAnomaly (Watchdog.wd s') = Watchdog.detectRateAnomaly (Watchdog.wd s).
Proof. intros St. by apply Watchdog.detect_buckets, Watchdog.quiet_buckets. Qed.

Lemma silence_not_detected_witness : Watchdog.detectRateAnomaly (Watchdog.wd wd_sys3) = Watchdog.detectRateAnomaly (Watchdog.wd wd_sys2).
Proof.
  apply (silence_not_detected wd_sys2 wd_sys3). eapply rtc_once.
  exact (Watchdog.step_fs wd_sys2 fs_write (str "chain.json") 0 5 5 ltac:(split; discriminate) ltac:(discriminate) eq_refl).
Defined.

(** The first two changes of the key directory are ignored whoever makes them. *)
Theorem first_tampering_ignored op :
  Watchdog.relevant op = true ->
  Watchdog.fs_event Watchdog.startup_ignored op = (1, false) /\ Watchdog.fs_event 1 op = (0, false).
Proof. intros R. unfold Watchdog.fs_event. by rewrite R. Qed.

(** A rotation that fails holds off the next one, too: the time is recorded
    before [Rotate] runs. *)
Example failed_rotation_debounces :
  let w := Watchdog.trigger (R := counting_rotator) 5 5 5 false Watchdog.ReasonKeyTamper (Watchdog.DInterval 0) wd_start in
  Watchdog.rot w = 0%nat /\
  Watchdog.rot (Watchdog.trigger (R := counting_rotator) 6 6 6 true Watchdog.ReasonKeyTamper (Watchdog.DInterval 0) w) = 0%nat.
Proof. vm_compute. split; reflexivity. Qed.
