(* ===== verification/Steled.v ===== *)
(** * The daemon (cmd/steled)

    [run]: how the operator's daemon is put together from its flags and its
    data directory, and how it comes down.  The start-up is a program over the
    process ([proc]): the data directory and the resources that are open.
    Everything the outside contributes (files it reads, key generation, the
    outcome of every system call, the database behind the directory) is the
    record [world].  The HSM holds its keys by label the way the file store
    holds them by path, so one directory of keys stands for both.

    The shutdown is a system of goroutines, [Shutdown.step]: the one that waits
    for the signal, the one that serves, the requests in flight and the
    watchdog. *)

From stdpp Require Import base numbers list gmap sets strings relations.
From Stdlib Require Import ZArith Lia SpecFloat.
From S2P Require Import Prelude Utf8 GoText Codec Crypto Journal ReadLog AdminLog Attest Rfc6962 Merkle RefMerkle MerkleProps.
From S2P Require Import LogEntry Threshold Fwdsec KeyFiles Checkpoint Anchor Badger Storage Core CoreProps.
From S2P Require Import StoreOpen Ingest Api Watchdog Ops.

#[local] Open Scope Z_scope.

Module Steled.

(** ** Flags *)

(** The flags that reach a component; the port, the tracing endpoint and the
    memory limit are left to [Ops]. *)
Record flags := mk_flags {
  dir : bytes; origin : bytes; anchorPath : bytes; initialise : bool;
  ckptEvery : Z; anchorEvery : Z; beaconURL : bytes; honeyURL : bytes; rekorURL : bytes;
  hsmModule : bytes; hsmPIN : bytes; hsmPINEnv : bytes;
  rotateEvery : Z; watchKeyDir : bool; watchRate : bool; watchDebounce : Z;
  tlsCert : bytes; tlsKey : bytes; clientCA : bytes; tlsRequireCN : bool;
  thresholdPath : bytes; readLog : bool; pqMode : bytes;
  tripwireEvery : Z; requireEnrollment : bool;
  policy : IngestPolicy;
  badgerBlockCacheMB : Z; badgerIndexCacheMB : Z; badgerNumMemtables : Z; replayTTL : Z;
  badgerCompactors : Z; badgerVlogMB : Z;
  merkleCacheNodes : Z; merkleLeafCacheNodes : Z;
}.

Definition classical : bytes := str "classical".
Definition hybrid_mode : bytes := str "hybrid".
Definition is_hybrid (f : flags) : bool := bool_decide (pqMode f = hybrid_mode).

(** [resolveHSMPIN] *)
Definition resolveHSMPIN (getenv : bytes -> bytes) (flagVal envVar : bytes) : bytes :=
  if negb (bool_decide (flagVal = [])) then flagVal
  else if negb (bool_decide (envVar = [])) then getenv envVar
  else [].

(** ** TLS *)

Record tls_config := mk_tls { MinVersion : Z; ClientCAs : bool; RequireAndVerifyClientCert : bool }.
Definition VersionTLS13 : Z := 0x0304.

(** [pair]: loading the key pair; [ca]: reading the CA file and whether it held
    a certificate. *)
Definition buildTLSConfig (pair : res unit) (ca : res bool) (certPath keyPath clientCAPath : bytes) : res (option tls_config) :=
  if bool_decide (certPath = []) && bool_decide (keyPath = []) && bool_decide (clientCAPath = []) then Ok None
  else
    fail_if bool_decide (certPath = []) || bool_decide (keyPath = []) with "--tls-cert and --tls-key must both be set" ;;
    let! _ := wrap_err "load TLS keypair" pair in
    if negb (bool_decide (clientCAPath = [])) then
      let! certs := wrap_err "read client CA" ca in
      fail_if negb certs with "client CA PEM contained no usable certs" ;;
      Ok (Some (mk_tls VersionTLS13 true true))
    else Ok (Some (mk_tls VersionTLS13 false false)).

(** ** The threshold group *)

(** [threshold.Unmarshal]: [decoded] is what the JSON decoder makes of the file. *)
Definition Unmarshal (decoded : res Group.t) : res Group.t :=
  let! g := decoded in
  let! _ := Group.Validate (Some g) in
  Ok g.

Definition loadThresholdGroup (buf : res (res Group.t)) (origin : bytes) : res Group.t :=
  let! decoded := wrap_err "read threshold group" buf in
  let! g := wrap_err "parse threshold group" (Unmarshal decoded) in
  fail_if negb (bool_decide (Group.Origin g = origin)) with "threshold group origin does not match operator --origin" ;;
  Ok g.

(** What a run holds open. *)
Inductive resource := RHsm | RStore | RTracer.
#[global] Instance resource_eq_dec : EqDecision resource.
Proof. solve_decision. Defined.

Section Daemon.
Context {B : Badger value} {CR : CompactRange} {PL : ProofLib} {C : Crypto} {L : Limiter}.

(** ** The data directory and the world *)

Record disk := mk_disk {
  keys : gmap bytes (option (bytes * option bytes));  (* <dir>/keys, or the HSM *)
  chain_json : Signer.chain_file;
  root_pub : option bytes;
  db : DB B;
  read_log : Journal.disk ReadEvent.t;
  admin_log : Journal.disk AdminEvent.t;
}.

(** [opened]: what is open; [defers]: what the deferred calls will close. *)
Record proc := mk_proc { on_disk : disk; opened : list resource; defers : list resource }.

Record world := mk_world {
  getenv : bytes -> bytes;
  mkdir_dir : bool; mkdir_db : bool; mkdir_keys : bool;
  stat_fails : bool;                     (* Stat of chain.json fails though it is there *)
  hsm_open : res unit;
  now : Z; gen : res KeyStore.fresh; chain_write : bool; destroy : KeyStore.destroy_io;
  root_write : bool;
  group_file : res (res Group.t);
  coord_sign : bytes -> res (list (option MemberSig.t));
  badger_open : bool;
  sink_open : bool;
  tracing : res unit;
  ctx : nat -> option error;
  read_start : Journal.start_io; admin_start : Journal.start_io;
  watch_fs : res unit;
  key_pair : res unit; ca_file : res bool;
  num_cpu : Z;
}.

Definition set_keys (p : proc) d j : proc :=
  let k := on_disk p in mk_proc (mk_disk d j (root_pub k) (db k) (read_log k) (admin_log k)) (opened p) (defers p).
Definition set_root (p : proc) r : proc :=
  let k := on_disk p in mk_proc (mk_disk (keys k) (chain_json k) r (db k) (read_log k) (admin_log k)) (opened p) (defers p).
Definition set_db (p : proc) d : proc :=
  let k := on_disk p in mk_proc (mk_disk (keys k) (chain_json k) (root_pub k) d (read_log k) (admin_log k)) (opened p) (defers p).
Definition set_read (p : proc) j : proc :=
  let k := on_disk p in mk_proc (mk_disk (keys k) (chain_json k) (root_pub k) (db k) j (admin_log k)) (opened p) (defers p).
Definition set_admin (p : proc) j : proc :=
  let k := on_disk p in mk_proc (mk_disk (keys k) (chain_json k) (root_pub k) (db k) (read_log k) j) (opened p) (defers p).
Definition acquire (r : resource) (p : proc) : proc := mk_proc (on_disk p) (r :: opened p) (defers p).
Definition defer (r : resource) (p : proc) : proc := mk_proc (on_disk p) (opened p) (r :: defers p).
Definition close (r : resource) (p : proc) : proc :=
  mk_proc (on_disk p) (filter (fun x => x <> r) (opened p)) (defers p).

(** ** Start-up, in the order of [run] *)

(** The signer and whether its closer releases an HSM session. *)
Definition loadOrInitSigner (f : flags) (w : world) : stm proc (CheckpointSigner.t * bool) := fun p =>
  let missing := match chain_json (on_disk p) with Signer.Missing => negb (stat_fails w) | _ => false end in
  if missing && negb (initialise f) then (p, errorf "no key chain (use --init to generate one)")
  else
    let hsm := negb (bool_decide (hsmModule f = [])) in
    match (if hsm then wrap_err "open HSM" (hsm_open w) else if mkdir_keys w then Ok tt else errorf "mkdir") with
    | Err e => (p, Err e)
    | Ok _ =>
        let p := if hsm then acquire RHsm p else p in
        let release p := if hsm then close RHsm p else p in
        let k := on_disk p in
        let '(s, r) := Signer.NewSignerWithStore (origin f) (negb hsm && is_hybrid f) (keys k) (chain_json k) (now w) (gen w)
                         (chain_write w) (destroy w) in
        let p := set_keys p (Signer.dir s) (Signer.chain_json s) in
        match r with
        | Err e => (release p, Err e)
        | Ok _ =>
            if root_write w then
              (set_root p (Some (one_line_key (Signer.RootPublicKey s))), Ok (CheckpointSigner.NewSigner s, hsm))
            else (release p, errorf "write root.pub")
        end
    end.

(** With a group, checkpoints and rotations are signed by its members. *)
Definition use_threshold (f : flags) (w : world) (sg : CheckpointSigner.t) : res CheckpointSigner.t :=
  if bool_decide (thresholdPath f = []) then Ok sg
  else
    let! g := loadThresholdGroup (group_file w) (origin f) in
    let! t := CheckpointSigner.NewThresholdSigner (CheckpointSigner.fws sg) (Some g) in
    Ok (CheckpointSigner.mk
          (Signer.UseThresholdRotation (CheckpointSigner.fws t) (Some (Signer.mk_rotator (Some g) (coord_sign w))))
          (CheckpointSigner.threshGroup t)).

(** int64 shift left by 20. *)
Definition mib (z : Z) : Z := i64 (Z.shiftl z 20).

Definition store_options (f : flags) : list StoreOptions.option_ :=
  [StoreOptions.WithBlockCacheBytes (mib (badgerBlockCacheMB f)); StoreOptions.WithIndexCacheBytes (mib (badgerIndexCacheMB f));
   StoreOptions.WithNumMemtables (badgerNumMemtables f); StoreOptions.WithReplayTTL (replayTTL f);
   StoreOptions.WithNumCompactors (badgerCompactors f); StoreOptions.WithValueLogFileSizeBytes (mib (badgerVlogMB f))].

Definition open_store (f : flags) (w : world) : stm proc Store.t := fun p =>
  if negb (mkdir_db w) then (p, errorf "mkdir")
  else match StoreOptions.Open (fun _ => if badger_open w then Ok (db (on_disk p)) else errorf "badger") (dir f ++ str "/db") (store_options f) with
  | Err e => (p, Err e)
  | Ok s => (defer RStore (acquire RStore p), Ok s)
  end.

Inductive sink := FileSink_ (path : bytes) | RekorSink_ (s : RekorSink.t).

Definition anchor_sinks (f : flags) (w : world) : res (list sink) :=
  let path := if bool_decide (anchorPath f = []) then dir f ++ str "/anchors/anchor.log" else anchorPath f in
  fail_if negb (sink_open w) with "anchor file" ;;
  Ok (FileSink_ path ::
      if bool_decide (rekorURL f = []) then []
      else [RekorSink_ (RekorSink.NewRekorSink (rekorURL f) (dir f ++ str "/anchors/rekor-fallback.log"))]).

Definition init_tracing (w : world) : stm proc unit := fun p =>
  match wrap_err "tracing" (tracing w) with
  | Err e => (p, Err e)
  | Ok _ => (defer RTracer (acquire RTracer p), Ok tt)
  end.

(** [core.New] over the open store; the database it leaves is on disk. *)
Definition new_log (f : flags) (w : world) (s : Store.t) (sg : CheckpointSigner.t) : stm proc Log.t := fun p =>
  match Log.New (ctx w) (Some s) (Some sg) (requireEnrollment f) (merkleCacheNodes f) (merkleLeafCacheNodes f) with
  | Err e => (p, Err e)
  | Ok (l, r) =>
      (set_db p (Store.db (Log.store l)), match r with Ok _ => Ok l | Err e => Err e end)
  end.

Definition open_read_log (f : flags) (w : world) : stm proc (option (Journal.t ReadEvent.t)) := fun p =>
  if negb (readLog f) then (p, Ok None)
  else
    let '(j, r) := (if is_hybrid f then Journal.OpenHybrid else Journal.Open) (read_log (on_disk p)) (read_start w) in
    (set_read p (Journal.dir j), match wrap_err "read log" r with Ok _ => Ok (Some j) | Err e => Err e end).

Definition open_admin_log (f : flags) (w : world) : stm proc (Journal.t AdminEvent.t) := fun p =>
  let '(j, r) := (if is_hybrid f then AdminLog.OpenHybrid else AdminLog.Open) (admin_log (on_disk p)) (admin_start w) in
  (set_admin p (Journal.dir j), match wrap_err "admin log" r with Ok _ => Ok j | Err e => Err e end).

(** The watchdog, when any of its triggers is on. *)
Definition watchdog_config (f : flags) : Watchdog.Config :=
  Watchdog.mk_config (rotateEvery f) (if watchKeyDir f then dir f ++ str "/keys" else []) (watchDebounce f) (watchRate f) 0 true.

Definition start_watchdog (f : flags) (w : world) (l : Log.t) : res (option (Watchdog.t (R := log_rotator))) :=
  if (0 <? rotateEvery f) || watchKeyDir f || watchRate f then
    let! (wd, _) := wrap_err "watchdog start" (Watchdog.Start (R := log_rotator) (Some l) (watchdog_config f) (watch_fs w)) in
    Ok (Some wd)
  else Ok None.

(** A background goroutine of [schedule] or of a component, with its period. *)
Inductive loop := LoopCheckpoint (every : Z) | LoopAnchor (every : Z) | LoopTripwire (every : Z)
  | LoopJanitor (every idle : Z) | LoopEnrollment (every : Z).

Definition minute : Z := 60 * Httpx.second.

Definition loops (f : flags) : list loop :=
  (if 0 <? ckptEvery f then [LoopCheckpoint (ckptEvery f)] else []) ++
  (if 0 <? anchorEvery f then [LoopAnchor (anchorEvery f)] else []) ++
  [LoopJanitor (5 * minute) (60 * minute); LoopEnrollment minute] ++
  (if 0 <? tripwireEvery f then [LoopTripwire (tripwireEvery f)] else []).

(** The running daemon. *)
Record daemon := mk_daemon {
  signer : CheckpointSigner.t;
  sinks : list sink;
  beacon : option bytes;
  server : Api.t;
  webhook : option bytes;
  wd : option (Watchdog.t (R := log_rotator));
  tls : option tls_config;
  background : list loop;
}.

(** The checks before anything is opened. *)
Definition check_flags (f : flags) (w : world) : res unit :=
  fail_if bool_decide (dir f = []) with "--dir is required" ;;
  fail_if negb (mkdir_dir w) with "mkdir" ;;
  fail_if negb (bool_decide (pqMode f = classical)) && negb (is_hybrid f) with "invalid --pq-mode (expected classical|hybrid)" ;;
  fail_if is_hybrid f && negb (bool_decide (hsmModule f = [])) with "--pq-mode hybrid is incompatible with --hsm-module in v1" ;;
  Ok tt.

Definition lift {S A} (r : res A) : stm S A := fun s => (s, r).

(** [run] up to the point where it serves. *)
Definition setup (f : flags) (w : world) : stm proc daemon :=
  do! _ <- lift (check_flags f w);
  do! (sg, hsm) <- loadOrInitSigner f w;
  do! _ <- (fun p => (if hsm then defer RHsm p else p, Ok tt));
  do! sg <- lift (use_threshold f w sg);
  do! st <- open_store f w;
  do! sk <- lift (anchor_sinks f w);
  do! _ <- init_tracing w;
  do! l <- new_log f w st sg;
  do! rl <- open_read_log f w;
  do! al <- open_admin_log f w;
  do! watch <- lift (start_watchdog f w l);
  do! cfg <- lift (wrap_err "tls" (buildTLSConfig (key_pair w) (ca_file w) (tlsCert f) (tlsKey f) (clientCA f)));
  let cn := match cfg with Some _ => negb (bool_decide (clientCA f = [])) && tlsRequireCN f | None => false end in
  let api := Api.mk l (Some []) (match watch with Some _ => if watchRate f then Some 0 else None | None => None end)
               cn rl (Some al) (Gate.newIngestGate (policy f)) in
  st_ret (mk_daemon sg sk (if bool_decide (beaconURL f = []) then None else Some (beaconURL f))
    (Api.NewMux (num_cpu w) (policy f) api) (if bool_decide (honeyURL f = []) then None else Some (honeyURL f))
    watch cfg (loops f)).

(** The deferred calls, when [run] returns. *)
Definition unwind (p : proc) : proc := foldl (fun p r => close r p) p (defers p).

(** A run that does not get to serve: its error, and the process after it. *)
Definition run_fails (f : flags) (w : world) (d : disk) : option (proc * error) :=
  match setup f w (mk_proc d [] []) with
  | (p, Err e) => Some (unwind p, e)
  | (_, Ok _) => None
  end.

(** ** No run leaves anything open *)

(** Everything open has a deferred call that closes it. *)
Definition balanced (p : proc) : Prop := forall r, r ∈ opened p -> r ∈ defers p.

Lemma unwind_closes rs : forall p x, x ∈ opened (foldl (fun p r => close r p) p rs) -> x ∈ opened p /\ x ∉ rs.
Proof.
  induction rs as [|r rs IH]; intros p x I; cbn [foldl] in I; [split; [done|apply not_elem_of_nil]|].
  apply IH in I as [I N]. cbn [close opened] in I. apply list_elem_of_filter in I as [X I]. by rewrite not_elem_of_cons.
Qed.

Lemma unwind_balanced p : balanced p -> opened (unwind p) = [].
Proof.
  intros BP. apply elem_of_nil_inv. intros x I. apply unwind_closes in I as [I N]. by apply N, BP.
Qed.

(** A property of the process that every part of a sequence keeps. *)
Lemma proc_keeps_bind {X Y} (P : proc -> Prop) (m : stm proc X) (k : X -> stm proc Y) p :
  P (m p).1 -> (forall a q, m p = (q, Ok a) -> P (k a q).1) -> P (st_bind m k p).1.
Proof. intros M K. unfold st_bind. destruct (m p) as [q [a|e]] eqn:E; [by apply K|done]. Qed.

Lemma balanced_same (p q : proc) : opened q = opened p -> defers q = defers p -> balanced p -> balanced q.
Proof. intros O D BP r. rewrite O, D. apply BP. Qed.

Lemma balanced_defer r p : balanced p -> balanced (defer r (acquire r p)).
Proof. intros BP x I. cbn in *. apply elem_of_cons in I as [->|I]; [left|right; by apply BP]. Qed.

(** The signer's resources: an error leaves none open; success leaves exactly
    the session its closer releases. *)
Lemma signer_resources f w p q r : loadOrInitSigner f w p = (q, r) -> opened p = [] -> defers p = [] ->
  defers q = [] /\ opened q = match r with Ok (_, true) => [RHsm] | _ => [] end.
Proof.
  unfold loadOrInitSigner. intros E O D. destruct (_ && negb (initialise f)); [by injection E as <- <-|].
  destruct (negb (bool_decide (hsmModule f = []))).
  - destruct (hsm_open w); [|by injection E as <- <-]. cbn [wrap_err] in E. destruct (Signer.NewSignerWithStore _ _ _ _ _ _ _ _) as [s [u|e]].
    + destruct (root_write w); injection E as <- <-; cbn; by rewrite O, D.
    + injection E as <- <-. cbn. by rewrite O, D.
  - destruct (mkdir_keys w); [|by injection E as <- <-]. destruct (Signer.NewSignerWithStore _ _ _ _ _ _ _ _) as [s [u|e]].
    + destruct (root_write w); injection E as <- <-; cbn; by rewrite O, D.
    + injection E as <- <-. cbn. by rewrite O, D.
Qed.

Lemma balanced_lift {X} (r : res X) p : balanced p -> balanced (lift r p).1.
Proof. done. Qed.

Lemma balanced_store f w p : balanced p -> balanced (open_store f w p).1.
Proof.
  intros BP. unfold open_store. destruct (negb (mkdir_db w)); [done|].
  destruct (StoreOptions.Open _ _ _); [by apply balanced_defer|done].
Qed.
Lemma balanced_tracing w p : balanced p -> balanced (init_tracing w p).1.
Proof. intros BP. unfold init_tracing. destruct (wrap_err _ _); [by apply balanced_defer|done]. Qed.
Lemma balanced_log f w s sg p : balanced p -> balanced (new_log f w s sg p).1.
Proof. intros BP. unfold new_log. destruct (Log.New _ _ _ _ _ _) as [[l r]|e]; [by eapply balanced_same|done]. Qed.
Lemma balanced_read f w p : balanced p -> balanced (open_read_log f w p).1.
Proof.
  intros BP. unfold open_read_log. destruct (negb (readLog f)); [done|].
  destruct ((if is_hybrid f then _ else _) _ _) as [j r]. by eapply balanced_same.
Qed.
Lemma balanced_admin f w p : balanced p -> balanced (open_admin_log f w p).1.
Proof.
  intros BP. unfold open_admin_log. destruct ((if is_hybrid f then _ else _) _ _) as [j r]. by eapply balanced_same.
Qed.

#[local] Hint Resolve balanced_lift balanced_store balanced_tracing balanced_log balanced_read balanced_admin : core.

Lemma setup_balanced f w d : balanced (setup f w (mk_proc d [] [])).1.
Proof.
  unfold setup. apply proc_keeps_bind; [by intros r I|]. intros [] p [= <- _].
  unfold st_bind at 1. destruct (loadOrInitSigner f w (mk_proc d [] [])) as [q r] eqn:E.
  destruct (signer_resources f w _ _ _ E eq_refl eq_refl) as [DQ OQ].
  destruct r as [[sg hsm]|e]; [|intros x I; cbn [fst] in I; rewrite OQ in I; by apply elem_of_nil in I].
  unfold st_bind at 1.
  assert (balanced (if hsm then defer RHsm q else q)) as BQ.
  { destruct hsm; intros x I; [|rewrite OQ in I; by apply elem_of_nil in I].
    change (x ∈ opened q) in I. rewrite OQ in I. apply list_elem_of_singleton in I as ->. left. }
  revert BQ. generalize (if hsm then defer RHsm q else q). intros q' BQ.
  repeat (apply proc_keeps_bind; [by auto|intros ? ? X; match type of X with ?m ?p = (?q, _) =>
    assert (balanced q) by (replace q with (m p).1 by (by rewrite X); auto); clear X end]).
  done.
Qed.

(** C34. Start-up either serves or cleans up: when any step of [run] fails, the
    deferred calls have closed everything it had opened - the HSM session, the
    database, the tracer - whichever step it was. *)
Theorem failed_start_leaves_nothing_open f w d p e : run_fails f w d = Some (p, e) -> opened p = [].
Proof.
  unfold run_fails. intros E. pose proof (setup_balanced f w d) as BP.
  destruct (setup f w (mk_proc d [] [])) as [q [x|x]]; [done|]. injection E as <- _. by apply unwind_balanced.
Qed.

(** ** What a running daemon enforces *)

Lemma stm_bind_ok {S X Y} (m : stm S X) (k : X -> stm S Y) p q b :
  st_bind m k p = (q, Ok b) -> exists a p1, m p = (p1, Ok a) /\ k a p1 = (q, Ok b).
Proof. unfold st_bind. destruct (m p) as [p1 [a|e]]; [|done]. intros E. by exists a, p1. Qed.

Lemma NewSigner_origin org hyb d file t g wr io s r : Signer.NewSignerWithStore org hyb d file t g wr io = (s, r) -> Signer.origin s = org.
Proof.
  unfold Signer.NewSignerWithStore. destruct file as [| |c].
  - unfold Signer.createGenesis. destruct (KeyStore.Generate _ _ _) as [d1 [k|e]]; [|by intros [= <- _]].
    destruct (KeyStore.Sign k _) as [sig|e]; [|destruct (KeyStore.Destroy _ _ _) as [[? ?] ?]; by intros [= <- _]].
    destruct (if bool_decide _ then _ else _) as [qs|e]; [|destruct (KeyStore.Destroy _ _ _) as [[? ?] ?]; by intros [= <- _]].
    unfold Signer.writeChain. destruct wr; by intros [= <- _].
  - by intros [= <- _].
  - unfold Signer.loadActive. cbn [Signer.chain_json]. repeat case_match; intros E; try (by injection E as <- _).
Qed.

Lemma signer_loaded f w p q sg hsm : loadOrInitSigner f w p = (q, Ok (sg, hsm)) ->
  Signer.origin (CheckpointSigner.fws sg) = origin f /\ CheckpointSigner.threshGroup sg = None /\
  root_pub (on_disk q) = Some (one_line_key (Signer.RootPublicKey (CheckpointSigner.fws sg))).
Proof.
  unfold loadOrInitSigner. intros E. destruct (_ && negb (initialise f)); [done|].
  destruct (if negb _ then _ else _) as [u|]; [|done]. destruct (Signer.NewSignerWithStore _ _ _ _ _ _ _ _) as [s [v|]] eqn:N; [|done].
  destruct (root_write w); [|done]. injection E as <- <- _. cbn. split; [by eapply NewSigner_origin|done].
Qed.

(** The group a daemon signs with: a valid one of its own origin, for
    checkpoints and for rotations alike. *)
Lemma use_threshold_spec f w sg sg' : use_threshold f w sg = Ok sg' -> CheckpointSigner.threshGroup sg = None ->
  Signer.chain (CheckpointSigner.fws sg') = Signer.chain (CheckpointSigner.fws sg) /\
  Signer.origin (CheckpointSigner.fws sg') = Signer.origin (CheckpointSigner.fws sg) /\
  match CheckpointSigner.threshGroup sg' with
  | None => thresholdPath f = []
  | Some g => thresholdPath f <> [] /\ Group.valid g /\ Group.Origin g = origin f /\
      option_map Signer.rot_group (Signer.threshRotator (CheckpointSigner.fws sg')) = Some (Some g)
  end.
Proof.
  unfold use_threshold. intros E N. destruct (bool_decide (thresholdPath f = [])) eqn:T.
  - injection E as <-. rewrite N. by apply bool_decide_eq_true in T.
  - apply bool_decide_eq_false in T. destruct (loadThresholdGroup _ _) as [g|] eqn:G; [|done]. cbn [res_bind] in E.
    unfold CheckpointSigner.NewThresholdSigner in E. destruct (Group.Validate (Some g)) as [[]|] eqn:V; [|done]. injection E as <-.
    unfold loadThresholdGroup in G. res_inv G. subst. cbn. split_and!; try done.
    + by apply Group.Validate_iff.
    + destruct (bool_decide (Group.Origin g = origin f)) eqn:OR; [by apply bool_decide_eq_true in OR|done].
Qed.

Lemma replay_entry_keeps st e : Log.requireEnrollment (Log.replay_entry st e).1.1.1 = Log.requireEnrollment st.1.1 /\
  Log.signer (Log.replay_entry st e).1.1.1 = Log.signer st.1.1.
Proof.
  destruct st as [[l pr] n]. unfold Log.replay_entry, Log.backfill, Store.PutLeafHash, Log.on_store.
  repeat case_match; simplify_eq; done.
Qed.

Lemma visit_keeps cx items : forall n st,
  Log.requireEnrollment (Store.visit cx n items Log.replay_entry st).1.1.1 = Log.requireEnrollment st.1.1 /\
  Log.signer (Store.visit cx n items Log.replay_entry st).1.1.1 = Log.signer st.1.1.
Proof.
  induction items as [|[k v] items IH]; intros n st; cbn [Store.visit]; [done|].
  destruct (cx n); [done|]. destruct (Storage.Unmarshal v) as [e|]; [|done].
  pose proof (replay_entry_keeps st e) as [R S]. destruct (Log.replay_entry st e) as [st1 [y|y]]; [|done].
  destruct (IH (Datatypes.S n) st1) as [R' S']. cbn in R, S. by rewrite R', S', R, S.
Qed.

Lemma New_keeps cx st sg enr mi ml l r : Log.New cx (Some st) (Some sg) enr mi ml = Ok (l, r) ->
  Log.requireEnrollment l = enr /\ Log.signer l = sg.
Proof.
  unfold Log.New. intros [= E]. unfold Log.replay in E.
  match type of E with context [Store.IterateEntries ?s ?c ?i ?f ?x] => pose proof (visit_keeps c (while_prefix prefixEntry (db_scan (Store.db s) (entryKey i))) 0 x) as [R S] end.
  unfold Store.IterateEntries in E. cbn [Log.requireEnrollment Log.signer fst] in R, S.
  destruct (Store.visit _ _ _ _ _) as [[[l1 p1] c1] [u|x]]; cbn [fst] in R, S; [destruct (negb _)|]; injection E as <- _; done.
Qed.

Lemma buildTLS_spec pair ca c k a cfg : buildTLSConfig pair ca c k a = Ok cfg ->
  match cfg with
  | None => c = [] /\ k = [] /\ a = []
  | Some t => MinVersion t = VersionTLS13 /\ (RequireAndVerifyClientCert t = true <-> a <> [])
  end.
Proof.
  unfold buildTLSConfig. intros E. destruct (bool_decide (c = []) && _ && _) eqn:N.
  - injection E as <-. btauto_props. repeat match goal with H : bool_decide _ = true |- _ => apply bool_decide_eq_true in H end. done.
  - destruct (_ || _) in E; [done|]. destruct (wrap_err _ pair); [|done]. cbn [res_bind] in E.
    destruct (bool_decide (a = [])) eqn:A; cbn [negb] in E.
    + injection E as <-. apply bool_decide_eq_true in A. split; [done|]. split; [done|]. by intros.
    + apply bool_decide_eq_false in A. destruct (wrap_err _ ca) as [x|]; [|done]. cbn [res_bind] in E. destruct (negb x); [done|].
      by injection E as <-.
Qed.

(** C33. A daemon that serves enforces what its flags ask for.  It signs for its
    own origin, and with a threshold group it is a valid group of that origin
    that signs both checkpoints and rotations.  TLS, once any of its flags is
    set, is at least 1.3; with a client CA every client must present a
    certificate, and producers are bound to its name unless that was switched
    off - and never without verified certificates.  Enrollment is required as
    asked; administration is always on record; the watchdog runs exactly when one
    of its triggers is on; hybrid mode never runs on an HSM. *)
Theorem serving_enforces f w d p x : setup f w (mk_proc d [] []) = (p, Ok x) ->
  Signer.origin (CheckpointSigner.fws (signer x)) = origin f /\
  (thresholdPath f <> [] -> exists g, CheckpointSigner.threshGroup (signer x) = Some g /\ Group.valid g /\ Group.Origin g = origin f /\
     option_map Signer.rot_group (Signer.threshRotator (CheckpointSigner.fws (signer x))) = Some (Some g)) /\
  (tlsCert f <> [] \/ tlsKey f <> [] \/ clientCA f <> [] -> exists c, tls x = Some c /\ VersionTLS13 <= MinVersion c) /\
  (clientCA f <> [] -> exists c, tls x = Some c /\ RequireAndVerifyClientCert c = true /\ Api.RequireClientCertCN (server x) = tlsRequireCN f) /\
  (Api.RequireClientCertCN (server x) = true -> exists c, tls x = Some c /\ RequireAndVerifyClientCert c = true) /\
  Log.requireEnrollment (Api.Log (server x)) = requireEnrollment f /\
  Api.AdminLog (server x) <> None /\ (Api.ReadLog (server x) <> None <-> readLog f = true) /\
  (wd x <> None <-> 0 < rotateEvery f \/ watchKeyDir f = true \/ watchRate f = true) /\
  (pqMode f = hybrid_mode -> hsmModule f = []).
Proof.
  intros E. unfold setup in E.
  apply stm_bind_ok in E as ([] & p0 & E0 & E). injection E0 as <- F0.
  apply stm_bind_ok in E as ([sg hsm] & p1 & E1 & E). apply signer_loaded in E1 as (O1 & T1 & _).
  apply stm_bind_ok in E as ([] & p2 & _ & E).
  apply stm_bind_ok in E as (sg' & p3 & E3 & E). injection E3 as <- E3. apply use_threshold_spec in E3 as (_ & O3 & T3); [|done].
  apply stm_bind_ok in E as (st & p4 & _ & E). apply stm_bind_ok in E as (sk & p5 & _ & E). apply stm_bind_ok in E as ([] & p6 & _ & E).
  apply stm_bind_ok in E as (l & p7 & E7 & E). apply stm_bind_ok in E as (rl & p8 & E8 & E). apply stm_bind_ok in E as (al & p9 & _ & E).
  apply stm_bind_ok in E as (watch & p10 & E10 & E). apply stm_bind_ok in E as (cfg & p11 & E11 & E).
  injection E10 as <- E10. injection E11 as <- E11. injection E as _ <-.
  cbn [signer tls server wd Api.NewMux Api.set_gate Api.RequireClientCertCN Api.Log Api.AdminLog Api.ReadLog].
  apply wrap_err_ok, buildTLS_spec in E11.
  split; [by rewrite O3|]. split.
  { intros N. destruct (CheckpointSigner.threshGroup sg') as [g|]; [|done]. exists g. by destruct T3 as (_ & ? & ? & ?). }
  split. { intros N. destruct cfg as [c|]; [|naive_solver]. exists c. destruct E11 as [-> _]. done. }
  split.
  { intros N. destruct cfg as [c|]; [|naive_solver]. exists c. destruct E11 as [_ V]. rewrite bool_decide_false by done. by split; [|split; [apply V|]]. }
  split.
  { destruct cfg as [c|]; [|done]. intros N. exists c. split; [done|]. destruct E11 as [_ V]. apply V.
    intros Z. by rewrite Z in N. }
  split.
  { unfold new_log in E7. destruct (Log.New _ _ _ _ _ _) as [[l1 r]|] eqn:N; [|done]. apply New_keeps in N as [<- _]. destruct r; by simplify_eq. }
  split; [done|]. split.
  { unfold open_read_log in E8. destruct (readLog f); cbn [negb] in E8; [|by injection E8 as <- <-].
    destruct ((if is_hybrid f then _ else _) _ _) as [j r]. destruct (wrap_err _ r); [|done]. by injection E8 as _ <-. }
  split.
  { unfold start_watchdog in E10. destruct ((0 <? rotateEvery f) || watchKeyDir f || watchRate f) eqn:W.
    - destruct (wrap_err _ _) as [[w1 g]|]; [|done]. injection E10 as <-. split; [|done]. intros _.
      rewrite !orb_true_iff, Z.ltb_lt in W. tauto.
    - injection E10 as <-. split; [done|]. rewrite !orb_false_iff in W. destruct W as [[W1 W2] W3]. intros [H|[H|H]]; [lia|congruence|congruence]. }
  unfold check_flags in F0. intros HY. res_inv F0. unfold is_hybrid in *. rewrite bool_decide_true in * by done.
  cbn [andb] in E2. apply negb_false_iff, bool_decide_eq_true in E2. exact E2.
Qed.

(** ** Starting again *)

(** Without [--init] a missing key chain is an error, and nothing on disk is
    touched: no key is generated behind the operator's back. *)
Theorem no_init_no_keys f w d : initialise f = false -> chain_json d = Signer.Missing -> stat_fails w = false ->
  exists p e, run_fails f w d = Some (p, e) /\ on_disk p = d.
Proof.
  intros I M S. unfold run_fails, setup. unfold st_bind at 1. unfold lift at 1.
  destruct (check_flags f w) as [[]|e]; [|by eexists _, _].
  unfold st_bind at 1, loadOrInitSigner. cbn [on_disk]. rewrite M, S, I. by eexists _, _.
Qed.

(** The system calls of a start-up succeed. *)
Record fine (w : world) : Prop := {
  fine_mkdir : mkdir_dir w = true /\ mkdir_db w = true /\ mkdir_keys w = true;
  fine_write : root_write w = true;
  fine_open : badger_open w = true /\ sink_open w = true;
  fine_tracing : tracing w = Ok tt;
  fine_ctx : forall n, ctx w n = None;
  fine_watch : watch_fs w = Ok tt;
}.

Context {BL : BadgerLaws B} {CRL : CompactRangeLaws CR} {PLL : ProofLibLaws PL} {CL : CryptoLaws C}.

Lemma readable_log (l : Log.t) : reachable l -> readable (Store.db (Log.store l)).
Proof. intros [es O]%reachable_ok. apply O. Qed.

Lemma restart_signer f w d group s : fine w -> hsmModule f = [] -> Signer.reach group s ->
  Signer.origin s = origin f -> Signer.hybrid s = is_hybrid f ->
  keys d = Signer.dir s -> chain_json d = Signer.chain_json s ->
  exists p, loadOrInitSigner f w (mk_proc d [] []) =
    (p, Ok (CheckpointSigner.NewSigner (Signer.UseThresholdRotation s None), false)) /\
    on_disk p = mk_disk (Signer.dir s) (Signer.chain_json s) (Some (one_line_key (Signer.RootPublicKey s))) (db d) (read_log d) (admin_log d).
Proof.
  intros F HM R O HY K J. pose proof (Signer.signer_reach_ok group s R) as OK.
  unfold loadOrInitSigner. cbn [on_disk]. rewrite J, (Signer.ok_json _ _ OK). cbn [andb].
  rewrite (bool_decide_eq_true_2 (hsmModule f = [])) by done. cbn [negb andb]. destruct (fine_mkdir w F) as (_ & _ & ->).
  cbn [on_disk]. rewrite K, J, <- O, <- HY. rewrite (Signer.restart_ok group) by done. rewrite (fine_write w F). eexists. split; [reflexivity|]. cbn. by rewrite (Signer.ok_json _ _ OK).
Qed.

Lemma bind_run {S X Y} (m : stm S X) (k : X -> stm S Y) p p1 a : m p = (p1, Ok a) -> st_bind m k p = k a p1.
Proof. intros E. unfold st_bind. by rewrite E. Qed.

Lemma bind_lift {S X Y} (r : res X) (k : X -> stm S Y) p a : r = Ok a -> st_bind (lift r) k p = k a p.
Proof. by intros ->. Qed.

Lemma restart_store f w p : fine w -> exists ttl p', open_store f w p = (p', Ok (Store.mk (db (on_disk p)) ttl)) /\ on_disk p' = on_disk p.
Proof.
  intros F. unfold open_store, StoreOptions.Open. destruct (fine_mkdir w F) as (_ & -> & _). destruct (fine_open w F) as [-> _].
  eexists _, _. split; reflexivity.
Qed.

Lemma restart_tracing w p : fine w -> exists p', init_tracing w p = (p', Ok tt) /\ on_disk p' = on_disk p.
Proof. intros F. unfold init_tracing. rewrite (fine_tracing w F). by eexists. Qed.

Lemma restart_read f w p j : (if is_hybrid f then Journal.OpenHybrid else Journal.Open) (read_log (on_disk p)) (read_start w) = (j, Ok tt) ->
  exists p' rl, open_read_log f w p = (p', Ok rl) /\
    on_disk p' = let k := on_disk p in mk_disk (keys k) (chain_json k) (root_pub k) (db k) (read_log (on_disk p')) (admin_log k).
Proof.
  intros E. unfold open_read_log. destruct (negb (readLog f)); [eexists _, _; split; [done|by destruct p as [[]]]|].
  rewrite E. eexists _, _. by split.
Qed.

Lemma restart_admin f w p j : (if is_hybrid f then AdminLog.OpenHybrid else AdminLog.Open) (admin_log (on_disk p)) (admin_start w) = (j, Ok tt) ->
  exists p', open_admin_log f w p = (p', Ok j) /\
    on_disk p' = let k := on_disk p in mk_disk (keys k) (chain_json k) (root_pub k) (db k) (read_log k) (admin_log (on_disk p')).
Proof. intros E. unfold open_admin_log. rewrite E. eexists. by split. Qed.

Lemma restart_watchdog f w l : fine w -> exists watch, start_watchdog f w l = Ok watch.
Proof.
  intros F. unfold start_watchdog. destruct (_ || _); [|by eexists]. unfold Watchdog.Start. rewrite (fine_watch w F).
  destruct (negb _); by eexists.
Qed.

(** A daemon that is stopped and started again on its data directory is the
    same operator with the same log: whatever it did meanwhile - appends,
    checkpoints, rotations - the new run has the same key chain, publishes the
    same root key, and its log has the same size, root and entries.  It needs no
    [--init], and no key is drawn. *)
Theorem restart_same_operator f w d group s l jr ja cfg :
  check_flags f w = Ok tt -> fine w -> hsmModule f = [] -> thresholdPath f = [] ->
  Signer.reach group s -> Signer.origin s = origin f -> Signer.hybrid s = is_hybrid f -> reachable l ->
  keys d = Signer.dir s -> chain_json d = Signer.chain_json s -> db d = Store.db (Log.store l) ->
  (if is_hybrid f then Journal.OpenHybrid else Journal.Open) (read_log d) (read_start w) = (jr, Ok tt) ->
  (if is_hybrid f then AdminLog.OpenHybrid else AdminLog.Open) (admin_log d) (admin_start w) = (ja, Ok tt) ->
  buildTLSConfig (key_pair w) (ca_file w) (tlsCert f) (tlsKey f) (clientCA f) = Ok cfg ->
  exists p x es, setup f w (mk_proc d [] []) = (p, Ok x) /\
    Signer.chain (CheckpointSigner.fws (signer x)) = Signer.chain s /\
    root_pub (on_disk p) = Some (one_line_key (Signer.RootPublicKey s)) /\
    keys (on_disk p) = keys d /\
    Log.observes l es /\ Log.observes (Api.Log (server x)) es.
Proof.
  intros CF F HM TP R O HY RE K J D ER EA ET.
  destruct (restart_signer f w d group s F HM R O HY K J) as (p1 & E1 & P1).
  set (sg := CheckpointSigner.NewSigner (Signer.UseThresholdRotation s None)) in *.
  assert (use_threshold f w sg = Ok sg) as E2 by (unfold use_threshold; by rewrite bool_decide_true).
  destruct (restart_store f w p1 F) as (ttl & p2 & E3 & P2). rewrite P1 in E3, P2. cbn [db] in E3. rewrite D in E3.
  assert (exists sk, anchor_sinks f w = Ok sk) as [sk E4] by (unfold anchor_sinks; rewrite (proj2 (fine_open w F)); by eexists).
  destruct (restart_tracing w p2 F) as (p3 & E5 & P3).
  destruct (reopen_log l (Store.db (Log.store l)) ttl (ctx w) sg (requireEnrollment f) (merkleCacheNodes f) (merkleLeafCacheNodes f))
    as (l' & es & N & O1 & O2); [done|done|by apply readable_log|apply F|].
  assert (new_log f w (Store.mk (Store.db (Log.store l)) ttl) sg p3 = (set_db p3 (Store.db (Log.store l')), Ok l')) as E6
    by (unfold new_log; by rewrite N).
  set (p4 := set_db p3 _) in *. assert (on_disk p4 = mk_disk (Signer.dir s) (Signer.chain_json s)
    (Some (one_line_key (Signer.RootPublicKey s))) (Store.db (Log.store l')) (read_log d) (admin_log d)) as P4
    by (unfold p4; cbn; by rewrite P3, P2).
  destruct (restart_read f w p4 jr) as (p5 & rl & E7 & P5); [by rewrite P4|].
  destruct (restart_admin f w p5 ja) as (p6 & E8 & P6); [by rewrite P5, P4|].
  destruct (restart_watchdog f w l' F) as [watch E9].
  eexists _, _, es. split.
  { unfold setup. rewrite (bind_lift _ _ _ _ CF), (bind_run _ _ _ _ _ E1). unfold st_bind at 1.
    rewrite (bind_lift _ _ _ _ E2), (bind_run _ _ _ _ _ E3), (bind_lift _ _ _ _ E4), (bind_run _ _ _ _ _ E5), (bind_run _ _ _ _ _ E6),
      (bind_run _ _ _ _ _ E7), (bind_run _ _ _ _ _ E8), (bind_lift _ _ _ _ E9), ET. reflexivity. }
  cbn. rewrite P6, P5, P4, K. by split_and!.
Qed.
End Daemon.
End Steled.

(** ** Coming down *)
Module Shutdown.

(** The goroutine that waits for the signal. *)
Inductive coordinator :=
| Waiting          (* <-ctx.Done() *)
| Sleeping         (* draining is set; time.Sleep(lbDrain) *)
| ShuttingDown     (* inside srv.Shutdown *)
| Stopping         (* inside wd.Stop() *)
| Finished.

(** The main goroutine: [ListenAndServe], then the deferred calls in order (the
    tracer, the context, the store, the HSM session), then the end of the
    process. *)
Inductive main := Serving | Returned | StoreClosed | Exited.

Record sys := mk {
  coord : coordinator;
  proc : main;
  draining : bool;      (* what the readiness probe reads *)
  listening : bool;     (* the listener accepts connections *)
  inflight : nat;       (* handlers running *)
  stopped : bool;       (* wd.Stop has returned *)
}.

Definition start : sys := mk Waiting Serving false true 0 false.

Definition running (s : sys) : bool := match proc s with Exited => false | _ => true end.

(** One action of one goroutine.  net/http documents that [Shutdown] closes the
    listeners at once and waits for the handlers, and that [ListenAndServe]
    returns [ErrServerClosed] immediately when [Shutdown] is called. *)
Inductive step : sys -> sys -> Prop :=
| request c d i w : step (mk c Serving d true i w) (mk c Serving d true (S i) w)
| response c p d l i w : p <> Exited -> step (mk c p d l (S i) w) (mk c p d l i w)
| signal p l i w : p <> Exited -> step (mk Waiting p false l i w) (mk Sleeping p true l i w)
| shutdown p d l i w : p <> Exited -> step (mk Sleeping p d l i w) (mk ShuttingDown p d false i w)
| drained p d w : p <> Exited -> step (mk ShuttingDown p d false 0 w) (mk Stopping p d false 0 w)
| drain_timeout p d i w : p <> Exited -> step (mk ShuttingDown p d false i w) (mk Stopping p d false i w)
| stop p d l i : p <> Exited -> step (mk Stopping p d l i false) (mk Finished p d l i true)
| serve_returns d i c w : c <> Waiting -> c <> Sleeping -> step (mk c Serving d false i w) (mk c Returned d false i w)
| serve_error c d l i w : step (mk c Serving d l i w) (mk c Returned d l i w)
| close_store c d l i w : step (mk c Returned d l i w) (mk c StoreClosed d l i w)
| exit c d l i w : step (mk c StoreClosed d l i w) (mk c Exited d l i w).

(** The readiness endpoint's verdict, with the other probes healthy. *)
Definition probes (s : sys) : Health.t :=
  Health.Register (str "not_draining") (if draining s then errorf "draining for shutdown" else Ok tt)
    (Health.Register (str "store") (Ok tt) (Health.Register (str "chain") (Ok tt) ∅)).

Definition reach (s : sys) : Prop := rtc step start s.

Record inv (s : sys) : Prop := {
  inv_drain : coord s <> Waiting -> draining s = true;
  inv_close : listening s = false -> draining s = true;
  inv_stop : stopped s = true -> coord s = Finished;
}.

Lemma shutdown_step_inv s s' : inv s -> step s s' -> inv s'.
Proof.
  intros [I1 I2 I3] St. destruct St; split; cbn in *; intros; auto; try done; try (by apply I1); try (by apply I3 in H; congruence);
    try (by apply I3 in H0; congruence).
Qed.

Lemma shutdown_reach_inv s : reach s -> inv s.
Proof.
  intros R. unfold reach in R. assert (inv start) as I by (by split). revert I.
  induction R as [|s1 s2 s3 St _ IH]; intros I; [done|]. apply IH. by eapply shutdown_step_inv.
Qed.

(** Load balancers are told first: in every state a shutdown can pass
    through, once the listener is closed [/readyz] answers 503, in whatever order
    its probes run. *)
Theorem readiness_fails_first s order : reach s -> listening s = false -> order ≡ₚ map_to_list (probes s) ->
  fst (Health.handleReady order) = 503.
Proof.
  intros R L P. destruct (Health.ready_exact (probes s) order P) as (X & [Y|Y] & _); [|done].
  pose proof (proj1 X Y (str "not_draining") _ (lookup_insert_eq _ _ _)) as D. rewrite (inv_close s (shutdown_reach_inv s R) L) in D. done.
Qed.

Lemma requests n : reach (mk Waiting Serving false true n false).
Proof. induction n as [|n IH]; [apply rtc_refl|]. eapply rtc_r; [exact IH|apply request]. Qed.

Lemma closing n : reach (mk ShuttingDown StoreClosed true false n false).
Proof.
  eapply rtc_r; [|apply close_store]. eapply rtc_r; [|by apply serve_returns].
  eapply rtc_r; [|by apply shutdown]. eapply rtc_r; [|by apply signal]. apply requests.
Qed.

(** The comment on the shutdown promises that the listener waits for the
    handlers in flight before the store is closed, and that the watchdog is
    stopped before that as well.  Neither holds: [ListenAndServe] returns as soon
    as [Shutdown] is called, so with any number of handlers still running, the
    wait for them not over and the watchdog not stopped, the store can be closed
    and the process can end. *)
Theorem store_closed_under_handlers n :
  reach (mk ShuttingDown StoreClosed true false n false) /\ reach (mk ShuttingDown Exited true false n false).
Proof. split; [apply closing|]. eapply rtc_r; [apply closing|apply exit]. Qed.

(** Requests that were accepted before the listener closed can be cut off, but
    none is accepted after. *)
Lemma closed_for_good s s' : step s s' -> listening s = false -> listening s' = false /\ (inflight s' <= inflight s)%nat.
Proof. intros St. destruct St; cbn; intros; try done; split; auto; lia. Qed.
End Shutdown.

(** ** A concrete daemon *)

#[local] Instance still_limiter : Limiter := {| limiter := unit; NewLimiter _ _ := tt; Allow _ _ := (tt, true) |}.

(** The flags of a classical daemon with mTLS; everything else as by default. *)
Definition demo_flags : Steled.flags := {|
  Steled.dir := str "data"; Steled.origin := str "log.example"; Steled.anchorPath := []; Steled.initialise := false;
  Steled.ckptEvery := 30 * Httpx.second; Steled.anchorEvery := 30 * Httpx.second; Steled.beaconURL := Drand.DefaultEndpoint;
  Steled.honeyURL := []; Steled.rekorURL := []; Steled.hsmModule := []; Steled.hsmPIN := []; Steled.hsmPINEnv := str "STELE_HSM_PIN";
  Steled.rotateEvery := 0; Steled.watchKeyDir := true; Steled.watchRate := false; Steled.watchDebounce := 30 * Httpx.second;
  Steled.tlsCert := str "cert.pem"; Steled.tlsKey := str "key.pem"; Steled.clientCA := str "ca.pem"; Steled.tlsRequireCN := true;
  Steled.thresholdPath := []; Steled.readLog := true; Steled.pqMode := Steled.classical;
  Steled.tripwireEvery := 3600 * Httpx.second; Steled.requireEnrollment := false; Steled.policy := DefaultIngestPolicy 8;
  Steled.badgerBlockCacheMB := 64; Steled.badgerIndexCacheMB := 32; Steled.badgerNumMemtables := 2; Steled.replayTTL := 86400 * Httpx.second;
  Steled.badgerCompactors := 2; Steled.badgerVlogMB := 256; Steled.merkleCacheNodes := 1000000; Steled.merkleLeafCacheNodes := 500000;
|}.

Definition demo_world : Steled.world := {|
  Steled.getenv _ := []; Steled.mkdir_dir := true; Steled.mkdir_db := true; Steled.mkdir_keys := true; Steled.stat_fails := false;
  Steled.hsm_open := Ok tt; Steled.now := 30; Steled.gen := errorf "no entropy"; Steled.chain_write := true; Steled.destroy := KeyStore.io_fine;
  Steled.root_write := true; Steled.group_file := errorf "absent"; Steled.coord_sign _ := errorf "no cosigner";
  Steled.badger_open := true; Steled.sink_open := true; Steled.tracing := Ok tt; Steled.ctx _ := None;
  Steled.read_start := fresh_io key_a; Steled.admin_start := admin_io (admin_key Byte.x03); Steled.watch_fs := Ok tt;
  Steled.key_pair := Ok tt; Steled.ca_file := Ok true; Steled.num_cpu := 8;
|}.

(** The disk a daemon left that had rotated once and holds one entry. *)
Definition demo_disk : Steled.disk (B := map_badger value) :=
  Steled.mk_disk (Signer.dir (signer1 false)) (Signer.chain_json (signer1 false)) None (Store.db (Log.store log2)) no_journal no_admin_log.

Lemma demo_fine : Steled.fine demo_world.
Proof. by split. Qed.

Lemma restart_same_operator_witness :
  exists p x es, Steled.setup demo_flags demo_world (Steled.mk_proc demo_disk [] []) = (p, Ok x) /\
    Signer.chain (CheckpointSigner.fws (Steled.signer x)) = Signer.chain (signer1 false) /\
    Log.observes log2 es /\ Log.observes (Api.Log (Steled.server x)) es.
Proof.
  destruct (run_ok (Journal.Open (E := ReadEvent.t) no_journal (fresh_io key_a))) as [[] ER]; [vm_compute; reflexivity|].
  destruct (run_ok (AdminLog.Open no_admin_log (admin_io (admin_key Byte.x03)))) as [[] EA]; [vm_compute; reflexivity|].
  destruct (Steled.restart_same_operator demo_flags demo_world demo_disk None (signer1 false) log2 (Journal.Open no_journal (fresh_io key_a)).1 (AdminLog.Open no_admin_log (admin_io (admin_key Byte.x03))).1
    (Some (Steled.mk_tls Steled.VersionTLS13 true true)) eq_refl demo_fine eq_refl eq_refl (signer1_reach false))
    as (p & x & es & S & CH & _ & _ & O1 & O2);
    [vm_compute; reflexivity|vm_compute; reflexivity|exact log2_reachable|reflexivity|reflexivity|reflexivity|exact ER|exact EA|reflexivity|].
  exists p, x, es. by split_and!.
Defined.

Lemma serving_enforces_witness :
  exists p x, Steled.setup demo_flags demo_world (Steled.mk_proc demo_disk [] []) = (p, Ok x) /\
    exists c, Steled.tls x = Some c /\ Steled.RequireAndVerifyClientCert c = true /\ Api.RequireClientCertCN (Steled.server x) = true.
Proof.
  destruct (run_ok (Steled.setup demo_flags demo_world (Steled.mk_proc demo_disk [] []))) as [x S]; [vm_compute; reflexivity|].
  eexists _, x. split; [exact S|]. revert S. generalize (Steled.setup demo_flags demo_world (Steled.mk_proc demo_disk [] [])).1. intros p S.
  destruct (Steled.serving_enforces demo_flags demo_world demo_disk p x S) as (_ & _ & _ & CA & _). by apply CA.
Defined.

(** The admin journal cannot be opened: the database and the tracer are open by
    then, and are closed again. *)
Definition failing_disk : Steled.disk (B := map_badger value) :=
  Steled.mk_disk (Signer.dir (signer1 false)) (Signer.chain_json (signer1 false)) None (Store.db (Log.store log2)) no_journal
    (Journal.mk_disk Journal.Corrupt Journal.Missing None).

Lemma failing_start : exists p e, Steled.run_fails demo_flags demo_world failing_disk = Some (p, e).
Proof.
  unfold Steled.run_fails. destruct (Steled.setup demo_flags demo_world (Steled.mk_proc failing_disk [] [])) as [p [x|e]] eqn:E.
  - exfalso. assert (is_ok (Steled.setup demo_flags demo_world (Steled.mk_proc failing_disk [] [])).2 = false) as X by (vm_compute; reflexivity).
    rewrite E in X. discriminate X.
  - by eexists _, _.
Qed.

Lemma failed_start_leaves_nothing_open_witness :
  exists p e, Steled.run_fails demo_flags demo_world failing_disk = Some (p, e) /\ Steled.opened p = [].
Proof.
  destruct failing_start as (p & e & E). exists p, e. split; [exact E|].
  exact (Steled.failed_start_leaves_nothing_open demo_flags demo_world failing_disk p e E).
Defined.

Lemma no_init_no_keys_witness :
  exists p e, Steled.run_fails demo_flags demo_world
    (Steled.mk_disk (B := map_badger value) ∅ Signer.Missing None (∅ : gmap bytes value) no_journal no_admin_log) = Some (p, e).
Proof.
  destruct (Steled.no_init_no_keys demo_flags demo_world
    (Steled.mk_disk (B := map_badger value) ∅ Signer.Missing None (∅ : gmap bytes value) no_journal no_admin_log) eq_refl eq_refl eq_refl) as (p & e & E & _).
  by exists p, e.
Defined.

Lemma readiness_fails_first_witness :
  fst (Health.handleReady (map_to_list (Shutdown.probes (Shutdown.mk Shutdown.ShuttingDown Shutdown.StoreClosed true false 1 false)))) = 503.
Proof.
  apply (Shutdown.readiness_fails_first (Shutdown.mk Shutdown.ShuttingDown Shutdown.StoreClosed true false 1 false));
    [apply Shutdown.closing|reflexivity|reflexivity].
Defined.
