(* ===== verification/Serving.v ===== *)
(** * The daemon at work (cmd/steled, pkg/tripwire, pkg/witness)

    The goroutines that run beside the requests: the ticker loops of the
    operator and of a witness, and the tripwire's passes interleaved with
    everything that changes the log.  A pass reads the latest checkpoint first
    and the entries later, in a transaction of its own; whatever the log does in
    between, a log that is only changed through pkg/core raises no alarm. *)

From stdpp Require Import base numbers list gmap strings relations.
From Stdlib Require Import ZArith Lia.
From S2P Require Import Prelude Crypto GoText Attest Rfc6962 Merkle RefMerkle MerkleProps LogEntry Threshold Fwdsec Checkpoint Badger Storage Core CoreProps StoreTypes.
From S2P Require Import WitnessServer Tripwire Auditor WitnessApi.

#[local] Open Scope Z_scope.
#[local] Existing Instance rfc6962_hasher.

Module Serving.

(** ** Ticker loops *)

(** What a [select] on [ctx.Done()] and a ticker receives. *)
Inductive received (I : Type) := Done | Tick (i : I).
Arguments Done {I}.
Arguments Tick {I} _.

(** The loop: the body at every tick until the context is done. *)
Fixpoint ticks {S I O} (body : I -> S -> S * O) (evs : list (received I)) (s : S) : S * list O :=
  match evs with
  | [] | Done :: _ => (s, [])
  | Tick i :: evs => let '(s, o) := body i s in let '(s, os) := ticks body evs s in (s, o :: os)
  end.

(** [time.NewTicker] panics on an interval that is not positive. *)
Definition NewTicker (d : Z) : res unit := if 0 <? d then Ok tt else Err ["panic: non-positive interval for NewTicker"%string].

(** The state after [schedule], with the errors it logged. *)
Definition schedule {S I} (every : Z) (fn : I -> S -> S * res unit) (evs : list (received I)) (s : S) : S * res (list error) :=
  match NewTicker every with
  | Err e => (s, Err e)
  | Ok _ => let '(s, rs) := ticks fn evs s in (s, Ok (omap (fun r : res unit => match r with Err e => Some e | Ok _ => None end) rs))
  end.

Section Operator.
Context {B : Badger value} {CR : CompactRange} {PL : ProofLib} {C : Crypto}.

(** The two scheduled tasks of the operator. *)
Definition checkpoint_task (io : Log.checkpoint_io) (l : Log.t) : Log.t * res unit :=
  let '(l, r) := Log.CheckpointCtx l io in (l, let! _ := r in Ok tt).
Definition anchor_task (ps : list (bytes * res Anchor.Record_.t)) (l : Log.t) : Log.t * res unit :=
  let '(l, r) := Log.Anchor l ps in
  (l, match r with Err e => Err e | Ok (_, []) => Ok tt | Ok (_, errs) => Err (concat errs) end).

Context {BL : BadgerLaws B} {CRL : CompactRangeLaws CR} {PLL : ProofLibLaws PL} {CL : CryptoLaws C}.

(** Whatever fails, the next tick runs; every task is a step of the log. *)
Lemma schedule_steps {I} every (fn : I -> Log.t -> Log.t * res unit) evs : (forall i l, rtc Log.step l (fn i l).1) ->
  forall l, rtc Log.step l (schedule every fn evs l).1.
Proof.
  intros H l. unfold schedule. destruct (NewTicker every); [|done].
  assert (forall l, rtc Log.step l (ticks fn evs l).1) as X.
  { clear l. induction evs as [|[|i] evs IH]; intros l; cbn [ticks]; [done|done|]. specialize (H i l). destruct (fn i l) as [l1 r].
    specialize (IH l1). destruct (ticks fn evs l1) as [l2 rs]. by etrans. }
  specialize (X l). by destruct (ticks fn evs l).
Qed.

Lemma checkpoint_task_steps io l : rtc Log.step l (checkpoint_task io l).1.
Proof. unfold checkpoint_task. destruct (Log.CheckpointCtx l io) as [l' r] eqn:E. apply rtc_once. by eapply Log.step_checkpoint. Qed.
Lemma anchor_task_steps ps l : rtc Log.step l (anchor_task ps l).1.
Proof. unfold anchor_task. destruct (Log.Anchor l ps) as [l' r] eqn:E. apply rtc_once. by eapply Log.step_anchor. Qed.

Definition Start {S I} (interval : Z) (runOnce : I -> S -> S * Tripwire.report) (evs : list (received I)) (s : S) : S * list Tripwire.report :=
  if interval <=? 0 then (s, []) else ticks runOnce evs s.

(** ** The tripwire beside the log *)

(** The log, the checkpoint a pass under way has read, and what the passes
    reported, those that were left to finish and those a shutdown cut. *)
Record sys := mk { log : Log.t; reading : option (res (option Checkpoint.t)); finished : list Tripwire.report; cut : list Tripwire.report }.

Inductive step : sys -> sys -> Prop :=
| log_step l l' rd fs cs : Log.step l l' -> step (mk l rd fs cs) (mk l' rd fs cs)
| tick l fs cs : step (mk l None fs cs) (mk l (Some (Log.LatestCheckpoint l)) fs cs)
| pass l latest now fs cs :
    step (mk l (Some latest) fs cs) (mk l None (fs ++ [Tripwire.runOnce now (fun _ => None) (Log.store l) latest]) cs)
| cut_pass l latest now ctx fs cs :
    step (mk l (Some latest) fs cs) (mk l None fs (cs ++ [Tripwire.runOnce now ctx (Log.store l) latest])).

Definition begin (l : Log.t) : sys := mk l None [] [].

Definition quiet (r : Tripwire.report) : Prop := r = Tripwire.ReportOk \/ r = Tripwire.ReportSkipped.
Definition no_alarm (r : Tripwire.report) : Prop := forall x, r <> Tripwire.ReportTamper x.

(** What a pass may find: nothing, or a checkpoint of the log. *)
Definition honest_reading (es : list Entry.t) (latest : res (option Checkpoint.t)) : Prop :=
  latest = Ok None \/ exists c, latest = Ok (Some c) /\ Typing.commits es c.

Lemma honest_reading_prefix es es' latest : es `prefix_of` es' -> honest_reading es latest -> honest_reading es' latest.
Proof. intros P [->|(c & -> & H)]; [by left|]. right. exists c. split; [done|]. by eapply Typing.commits_prefix. Qed.

Lemma pass_quiet l es now latest : Log.ok l es -> honest_reading es latest -> quiet (Tripwire.runOnce now (fun _ => None) (Log.store l) latest).
Proof.
  intros O [->|(c & -> & Hs & Hr)]; [by right|]. left. eapply tripwire_no_false_alarm; [apply O|apply O|exact Hs|exact Hr].
Qed.

(** A pass that is cut has seen a part of what the whole pass sees. *)
Lemma visit_cut ctx size items : forall n tr prev l es x,
  Tree.ok (LSt := memLeafStore) tr l -> len l + len items < 2 ^ 63 -> Tripwire.walk size prev items = (es, x) -> (forall i, x <> Tripwire.Broken i) ->
  exists tr' p k r, Tree.ok (LSt := memLeafStore) tr' (l ++ map Entry.LeafHash (take k es)) /\
    Store.visit ctx n items (Tripwire.visit_entry size) (Tripwire.mk_scan tr prev false (-1)) = (Tripwire.mk_scan tr' p false (-1), r).
Proof.
  induction items as [|[k v] items IH]; intros n tr prev l es x O Bd W N; cbn [Tripwire.walk] in W; cbn [Store.visit].
  { exists tr, prev, 0%nat, (Ok tt). by rewrite app_nil_r. }
  assert (forall r, exists tr' p k r', Tree.ok (LSt := memLeafStore) tr' (l ++ map Entry.LeafHash (take k es)) /\
    (Tripwire.mk_scan tr prev false (-1), r : res unit) = (Tripwire.mk_scan tr' p false (-1), r')) as Stop.
  { intros r. exists tr, prev, 0%nat, r. by rewrite app_nil_r. }
  destruct (ctx n); [apply Stop|]. destruct (Unmarshal v) as [e|]; [|apply Stop].
  unfold Tripwire.visit_entry at 1. destruct (size <=? Entry.Index e); [apply Stop|]. cbn [Tripwire.s_prev Tripwire.s_tree Tripwire.s_tamper Tripwire.s_first].
  destruct (Entry.Verify e) as [[]|]; cbn [is_ok andb] in W; [|injection W as <- <-; by destruct (N (Entry.Index e))].
  destruct (Entry.VerifyChain e prev) as [[]|]; cbn [is_ok] in W; [|injection W as <- <-; by destruct (N (Entry.Index e))].
  destruct (Tripwire.walk size (Some e) items) as [es' x'] eqn:W'. injection W as <- <-. unfold len in Bd. cbn [length] in Bd.
  destruct (Tripwire.append_next tr l (Entry.LeafHash e) O ltac:(unfold len; lia)) as (tr1 & -> & O1).
  destruct (IH (Datatypes.S n) tr1 (Some e) (l ++ [Entry.LeafHash e]) es' x' O1) as (tr2 & p & j & r & O2 & E2);
    [unfold len; rewrite length_app; simpl; lia|done|done|].
  exists tr2, p, (Datatypes.S j), r. rewrite <- app_assoc in O2. by split.
Qed.

Lemma cut_no_alarm l es now ctx latest : Log.ok l es -> honest_reading es latest -> no_alarm (Tripwire.runOnce now ctx (Log.store l) latest).
Proof.
  intros O [->|(c & -> & [Hs Hl] & Hr)]; [by intros x|]. intros x. unfold Tripwire.runOnce, Tripwire.Run. set (size := Checkpoint.Size c) in *.
  destruct (Z.eqb_spec size 0) as [Z0|Nz]; [rewrite Hr, Z0; cbn [Z.to_nat take map Tripwire.Tamper]; by rewrite MTH_nil, bytesEqual_refl|].
  pose proof (Store.st_small _ _ (Log.ok_stores _ _ O)) as Bd. unfold Store.IterateEntries.
  assert (while_prefix prefixEntry (db_scan (Store.db (Log.store l)) (entryKey 0)) = Store.items_from 0 es) as ->
    by (by rewrite (Store.scan_entries (Log.store l) es 0 (Log.ok_stores _ _ O)) by (unfold len; lia)).
  pose proof (Tripwire.walk_intact size es 0 None (Store.st_sealed _ _ (Log.ok_stores _ _ O)) (Log.ok_chain _ _ O)
    (Tripwire.chain_positions es (Log.ok_chain _ _ O) Bd) ltac:(lia)) as W.
  destruct (visit_cut ctx size (Store.items_from 0 es) 0 Tree.NewTree None [] _ _ (Tree.New_ok _ _ _) ltac:(unfold len in *; rewrite Tripwire.items_from_length; simpl; lia) W
    ltac:(intros i; by case_decide)) as (tr & p & k & r & Ot & ->).
  cbn [Tripwire.s_tamper Tripwire.s_tree Tripwire.s_first app] in *. destruct (negb (Tripwire.stopped r)) eqn:Hst; [by destruct r|].
  rewrite (Tree.ok_size _ _ Ot), (Tree.Root_ok _ _ Ot), len_map.
  destruct (Z.eqb_spec (len (take k (take (Z.to_nat size - 0) es))) size) as [E|]; [|done]. cbn [negb].
  rewrite Nat.sub_0_r in *. replace (take k (take (Z.to_nat size) es)) with (take (Z.to_nat size) es); [by rewrite Hr, bytesEqual_refl|].
  symmetry. apply take_ge. unfold len in *. rewrite !length_take in *. lia.
Qed.

Record inv (s : sys) (es : list Entry.t) : Prop := {
  inv_log : Log.ok (log s) es;
  inv_typed : Typing.log_typed (Typing.commits es) (log s);
  inv_reading : forall latest, reading s = Some latest -> honest_reading es latest;
  inv_finished : Forall quiet (finished s);
  inv_cut : Forall no_alarm (cut s);
}.

Lemma serving_step_inv s s' es : inv s es -> step s s' -> exists es', inv s' es'.
Proof.
  intros [O T R Fs Cs]. destruct 1 as [l l' rd fs cs S|l fs cs|l latest now fs cs|l latest now ctx fs cs]; cbn in *.
  - destruct (Typing.steps_typed l l' (rtc_once _ _ S) es O T) as (es' & P & O' & T'). exists es'. constructor; [done|done| |done|done].
    intros x Hx. eapply honest_reading_prefix; [exact P|]. by apply R.
  - exists es. constructor; [done|done| |done|done]. intros x [= <-]. by apply Typing.LatestCheckpoint_commits.
  - exists es. constructor; [done|done|done| |done]. apply Forall_app. split; [done|]. apply Forall_singleton. eapply pass_quiet; [exact O|]. by apply R.
  - exists es. constructor; [done|done|done|done|]. apply Forall_app. split; [done|]. apply Forall_singleton. eapply cut_no_alarm; [exact O|]. by apply R.
Qed.

(** C40. No false alarm in service.  Let a log be started on an empty database and
    let appends, registrations, checkpoints, rotations, restarts and tripwire
    ticks interleave in any way - the log may grow, and be checkpointed again,
    between the moment a pass reads the latest checkpoint and the moment it reads
    the entries.  Every pass that is left to finish reports that all is well, or
    that there is no checkpoint yet, and a pass that a shutdown cuts never
    reports tampering: [OnTamper] is not called. *)
Theorem tripwire_silent_in_service l0 s : Log.start l0 -> rtc step (begin l0) s -> Forall quiet (finished s) /\ Forall no_alarm (cut s).
Proof.
  intros S R. assert (exists es, inv s es) as (es & [_ _ _ Fs Cs]); [|done].
  assert (exists es, inv (begin l0) es) as [es0 I0].
  { destruct (Typing.reachable_typed l0) as (es & O & T); [by exists l0|]. exists es. by constructor. }
  revert I0. generalize es0. induction R as [s|s1 s2 s3 S12 _ IH]; intros es I; [by exists es|].
  destruct (serving_step_inv s1 s2 es I S12) as [es' I']. by eapply IH.
Qed.
End Operator.

(** ** The gossip of a witness *)

Section Gossip.
Context `{Crypto} {body : Type} (gw : WitnessApi.gossip_wire body).

(** The rounds of [gossipLoop], with the exchanges of each in the order their
    goroutines took the lock; [None] when one of them panics. *)
Fixpoint gossipLoop (evs : list (received ((bytes -> http body) * list (Server.gossip_io * (Peer.t * WatchedOperator.t))))) (s : Server.t)
    : option (Server.t * list ForkEvidence.t) :=
  match evs with
  | [] | Done :: _ => Some (s, [])
  | Tick (w, l) :: evs =>
      match WitnessApi.gossipRound gw w l s with
      | None => None
      | Some (s, f1) => match gossipLoop evs s with None => None | Some (s, f2) => Some (s, f1 ++ f2) end
      end
  end.

(** The interval of [StartGossip]: zero means the default. *)
Definition gossip_interval (d : Z) : Z := if d =? 0 then 30 * 1000000000 else d.
Definition StartGossip (interval : Z) evs (s : Server.t) : option (Server.t * list ForkEvidence.t) :=
  match NewTicker (gossip_interval interval) with Err _ => None | Ok _ => gossipLoop evs s end.

(** Gossip is part of the life of the witness: it gives out nothing. *)
Lemma gossip_lives evs : forall s s' h fs, WitnessApi.life gw s h -> gossipLoop evs s = Some (s', fs) -> WitnessApi.life gw s' h.
Proof.
  induction evs as [|[|[w l]] evs IH]; intros s s' h fs L; cbn [gossipLoop]; [by intros [= <- _]..|].
  destruct (WitnessApi.gossipRound gw w l s) as [[s1 f1]|] eqn:G; [|done]. destruct (gossipLoop evs s1) as [[s2 f2]|] eqn:E; [|done].
  intros [= <- _]. eapply IH; [|exact E]. by eapply WitnessApi.life_gossip.
Qed.

(** A negative interval ends the witness. *)
Lemma negative_interval_panics interval evs s : interval < 0 -> StartGossip interval evs s = None.
Proof.
  intros N. unfold StartGossip, gossip_interval, NewTicker. destruct (Z.eqb_spec interval 0); [lia|].
  by destruct (Z.ltb_spec 0 interval); [lia|].
Qed.
End Gossip.
End Serving.

(** ** A pass under way while a request comes in *)

Definition log2_ckpt : Log.t := (Log.CheckpointCtx log2 demo_io).1.
Definition log2_asked : Log.t := (Log.AppendCtx log2_ckpt 70 71 (Some plain_env) true).1.

Lemma log_steps_served (l l' : Log.t) rd : rtc Log.step l l' -> rtc Serving.step (Serving.mk l rd [] []) (Serving.mk l' rd [] []).
Proof. induction 1; [done|]. eapply rtc_l; [by apply Serving.log_step|done]. Qed.

Lemma demo_service : exists s, rtc Serving.step (Serving.begin log0) s /\ length (Serving.finished s) = 1%nat.
Proof.
  eexists. split.
  - etrans; [apply (log_steps_served log0 log2_ckpt None)|].
    { etrans; [apply log1_steps|]. etrans; [apply log2_steps|]. apply rtc_once. eapply Log.step_checkpoint. unfold log2_ckpt. apply surjective_pairing. }
    eapply rtc_l; [apply Serving.tick|]. etrans; [apply (log_steps_served log2_ckpt log2_asked)|].
    { eapply append_steps; [|unfold log2_asked; apply surjective_pairing]. by vm_compute. }
    apply rtc_once, (Serving.pass _ _ 9).
  - done.
Qed.

Lemma tripwire_silent_in_service_witness : exists s, rtc Serving.step (Serving.begin log0) s /\ length (Serving.finished s) = 1%nat /\
  Forall Serving.quiet (Serving.finished s) /\ Forall Serving.no_alarm (Serving.cut s).
Proof.
  destruct demo_service as (s & R & L). exists s. split; [exact R|]. split; [exact L|].
  apply (Serving.tripwire_silent_in_service log0 s log0_start R).
Defined.
