(* ===== verification/Client.v ===== *)
(** * The client (cmd/stele/main.go)

    The commands that change something - at the operator, at a witness, in a
    file - or that others build on: producer keys, registration, the enrollment
    ceremony, logging, revocation, witnesses, cosigners, groups and the DNS
    record.  (The commands that verify are in [Cli].)

    A command is a program that asks hosts over HTTP and goes on with what
    comes back; the operator's side of a question is the request that reaches
    one of the routes of [Api].  Flags are parsed by the flag package; what a
    command prints is its result here. *)

From stdpp Require Import base numbers list gmap strings relations.
From Stdlib Require Import ZArith Lia SpecFloat.
From S2P Require Import Prelude Utf8 GoText Codec TrustDns Crypto Journal ReadLog AdminLog Attest Rfc6962 Merkle RefMerkle MerkleProps.
From S2P Require Import LogEntry Threshold Fwdsec KeyFiles Checkpoint Ops Anchor Badger Storage Core CoreProps WitnessServer Auditor Ingest Api ApiExec ApiProps WitnessApi Wire Steled.

Import Api(prog, Ret, Act, Acquire, Release).

#[local] Open Scope Z_scope.

Module Client.

(** ** Asking *)

Inductive ask :=
| AskOperator (server : bytes) (c : Api.call_to)
| AskWitness (url : bytes) (c : WitnessApi.call_to)
| AskCosigner (url : bytes).  (* GET /cosigner/v0/identity *)

(** The document of an answer: one of the hosts' bodies, a JSON document
    without the fields that were asked for, or something that is not JSON. *)
Inductive document :=
| DOperator (r : reply)
| DWitness (r : WitnessApi.reply)
| DIdentity (r : CosignerFiles.IdentityResponse)
| DOther
| DGarbage (e : error).

Inductive client (A : Type) :=
| Done (r : res A)
| Ask (q : ask) (k : http document -> client A).
Arguments Done {A} _. Arguments Ask {A} _ _.

Fixpoint bind {A D} (p : client A) (k : A -> client D) : client D :=
  match p with
  | Done (Ok a) => k a
  | Done (Err e) => Done (Err e)
  | Ask q k' => Ask q (fun a => bind (k' a) k)
  end.

#[local] Notation "'ask!' x '<-' p ';' k" := (bind p (fun x => k)) (at level 10, x pattern, p at level 100, k at level 200).
#[local] Notation "'have!' x ':=' r ';' k" := (bind (Done r) (fun x => k)) (at level 10, x pattern, r at level 100, k at level 200).

(** ** The HTTP client *)

Record clientTLSFlags := mk_client_tls { Cert : bytes; Key : bytes; CA : bytes; SkipVerify : bool }.

(** The TLS settings that differ from the default client's. *)
Record transport := mk_transport { MinVersion : Z; InsecureSkipVerify : bool; Certificates : bool; RootCAs : bool }.

(** [None]: the default client.  [pair]: the loaded key pair; [ca]: the CA file
    and whether it holds a certificate.  An error ends the program. *)
Definition httpClient (pair : res unit) (ca : res bool) (f : clientTLSFlags) : res (option transport) :=
  if bool_decide (Cert f = []) && bool_decide (CA f = []) && negb (SkipVerify f) then Ok None
  else
    let own := negb (bool_decide (Cert f = [])) && negb (bool_decide (Key f = [])) in
    let! _ := if own then wrap_err "stele: load client cert" pair else Ok tt in
    if bool_decide (CA f = []) then Ok (Some (mk_transport Steled.VersionTLS13 (SkipVerify f) own false))
    else
      let! found := wrap_err "stele: read CA" ca in
      fail_if negb found with "stele: CA file contains no certs" ;;
      Ok (Some (mk_transport Steled.VersionTLS13 (SkipVerify f) own true)).

(** The operator's certificate is verified unless the flag says otherwise, and
    against the given authorities when there are any. *)
Lemma httpClient_verifies pair ca f t : httpClient pair ca f = Ok (Some t) ->
  InsecureSkipVerify t = SkipVerify f /\ MinVersion t = Steled.VersionTLS13 /\ (RootCAs t = true <-> CA f <> []) /\
  (Certificates t = true <-> Cert f <> [] /\ Key f <> []).
Proof.
  unfold httpClient. destruct (_ && _) eqn:E0; [done|]. set (own := negb (bool_decide (Cert f = [])) && negb (bool_decide (Key f = []))).
  assert (own = true <-> Cert f <> [] /\ Key f <> []) as Ho by (unfold own; rewrite andb_true_iff, !negb_true_iff, !bool_decide_eq_false; done).
  clear E0. clearbody own. destruct (if own then _ else _) as [u|]; [|done]. cbn [res_bind]. case_bool_decide as K.
  - intros E. injection E as <-. by split_and!.
  - destruct (wrap_err _ ca) as [[]|]; [|done..]. cbn. intros E. injection E as <-. by split_and!.
Qed.

(** A certificate without a key is silently not presented. *)
Lemma lone_certificate_ignored pair ca f : Cert f <> [] -> Key f = [] -> CA f = [] ->
  httpClient pair ca f = Ok (Some (mk_transport Steled.VersionTLS13 (SkipVerify f) false false)).
Proof.
  intros C K A. unfold httpClient. rewrite (bool_decide_eq_false_2 _ C). cbn [andb negb]. rewrite (bool_decide_eq_true_2 _ K), (bool_decide_eq_true_2 _ A). done.
Qed.

(** The message of an error document. *)
Definition error_of (b : document) : error :=
  match b with
  | DOperator (ErrorResponse e) => e
  | DWitness (WitnessApi.ErrorResponse e) => e
  | _ => []
  end.

(** What [httpGet] and [httpPost] make of an answer: [pick] is what the decoder
    finds, and [zero] the target it leaves alone when it finds nothing. *)
Definition received {T} (zero : T) (pick : document -> option T) (a : http document) : res T :=
  match a with
  | BadURL e | NoAnswer e => Err e
  | Answer st b =>
      if negb (Z.quot st 100 =? 2) then Err ("HTTP"%string :: error_of b)
      else match b with
      | DGarbage e => Err e
      | _ => Ok (default zero (pick b))
      end
  end.

Definition fetch {T} (zero : T) (pick : document -> option T) (q : ask) : client T :=
  Ask q (fun a => Done (received zero pick a)).

(** [httpPost] with a nil target: the body is not decoded. *)
Definition post_only (q : ask) : client unit :=
  Ask q (fun a => Done (match a with
                        | BadURL e | NoAnswer e => Err e
                        | Answer st b => if negb (Z.quot st 100 =? 2) then Err ("HTTP"%string :: error_of b) else Ok tt
                        end)).

Definition wrap {A} (m : string) (p : client A) : client A :=
  let fix go p := match p with Done r => Done (wrap_err m r) | Ask q k => Ask q (fun a => go (k a)) end in go p.

Definition nil_panic {A} : res A := Err ["panic: nil pointer dereference"%string].
Definition slice_panic {A} : res A := Err ["panic: slice bounds out of range"%string].

(** The link to the hosts: the names on the caller's client certificate, its
    address and its agent string, and the operator's body limits. *)
Record caller := mk_caller { certs : option (list bytes); addr : bytes; agent : bytes; limits : Limits }.

(** A request as it arrives: [json.Marshal] on this side, the body limit and the
    decoder on the other. *)
Definition request {T} `{Payload T} (me : caller) (m : method) (path : bytes) (v : T) : Request T :=
  mk_request m (certs me) [] (addr me) (agent me) path [] (posted (limits me) v).
(** A GET has no body, and none is read. *)
Definition get_request {T} (me : caller) (path : bytes) (v : T) : Request T :=
  mk_request GET (certs me) [] (addr me) (agent me) path [] (Decoded v).

(** ** Flags *)

Record log_flags := mk_log_flags {
  l_server : bytes; l_source : bytes; l_producer : bytes; l_key : bytes; l_honey : bool }.

(** [enroll-producer] and [producer-register]. *)
Record enroll_flags := mk_enroll_flags {
  e_server : bytes; e_id : bytes; e_key : bytes; e_pub : bytes; e_desc : bytes; e_scope : bytes;
  e_validity : Z;  (* nanoseconds *)
  e_unverified : bool }.

(** [defaultSource]: the flag's default. *)
Definition defaultSource (user : bytes) (hostname : res bytes) : bytes :=
  (if bool_decide (user = []) then str "user" else user) ++ str "@" ++
  match hostname with Ok h => h | Err _ => str "host" end.

(** [time.Duration.Seconds], then [int64]. *)
Definition float_of_int (z : Z) : spec_float := binary_normalize 53 1024 z 0 false.
Definition Seconds (d : Z) : spec_float :=
  SFadd 53 1024 (float_of_int (Z.quot d 1000000000)) (SFdiv 53 1024 (float_of_int (Z.rem d 1000000000)) (float_of_int 1000000000)).
Definition validity_seconds (d : Z) : Z := Memlimit.int64_of_float (Seconds d).

Section Client.
Context `{D3Keys}.

(** ** Producers *)

Definition NewAttestor (hybrid : bool) (id : bytes) (edgen dgen : res bytes) : res SoftwareAttestor.t :=
  let! k := edgen in
  if hybrid then let! q := dgen in Ok (SoftwareAttestor.NewHybridSoftwareAttestor id k q)
  else Ok (SoftwareAttestor.NewSoftwareAttestor id k).

(** The files afterwards, and the attestor whose public keys are printed. *)
Definition cmdProducerInit (id out : bytes) (hybrid : bool) (edgen dgen : res bytes) (w : written) (fs : Files)
  : Files * res SoftwareAttestor.t :=
  if bool_decide (id = []) || bool_decide (out = []) then (fs, errorf "producer-init: --id and --out are required")
  else match NewAttestor hybrid id edgen dgen with
  | Err e => (fs, Err e)
  | Ok att =>
      match AttestorFiles.WriteKey att out w fs with
      | (fs, Err e) => (fs, Err e)
      | (fs, Ok _) =>
          (fs, if bool_decide (SoftwareAttestor.qPriv att = None) then Ok att
               else if len (base64 (SoftwareAttestor.qPub att)) <? 32 then slice_panic else Ok att)
      end
  end.

(** The file of [--pub]. *)
Definition public_key_file (path : bytes) (fs : Files) : res bytes :=
  match fs !! path with
  | None => errorf "read public key"
  | Some raw =>
      let! decoded := base64_decode (TrimSpace raw) in
      fail_if negb (len decoded =? PublicKeySize) with "public key wrong length" ;; Ok decoded
  end.

(** The public keys of [--key], or the one of [--pub]. *)
Definition public_keys (m : string) (id keyPath pubPath : bytes) (fs : Files) : res (bytes * bytes) :=
  if negb (bool_decide (keyPath = [])) then
    let! att := AttestorFiles.LoadSoftwareAttestor id keyPath fs in
    Ok (SoftwareAttestor.pub att, if bool_decide (SoftwareAttestor.qPriv att = None) then [] else SoftwareAttestor.qPub att)
  else if negb (bool_decide (pubPath = [])) then let! pub := public_key_file pubPath fs in Ok (pub, [])
  else errorf m.

Definition pick_producer (b : document) : option (option Producer.t) :=
  match b with DOperator (ProducerBody p) => Some (Some p) | _ => None end.

Definition record_of (f : enroll_flags) (keys : bytes * bytes) : Producer.t :=
  Producer.mk (e_id f) keys.1 keys.2 TypeSoftware (e_desc f) 0 [] 0 0 0 [] [] [] false 0 [] [] [] [].

(** The reply is decoded into a record: [None] when it was not one. *)
Definition cmdProducerRegister (me : caller) (f : enroll_flags) (fs : Files) : client (option Producer.t) :=
  have! _ := (if bool_decide (e_id f = []) then errorf "producer-register: --id is required" else Ok tt);
  have! keys := public_keys "producer-register: provide --key or --pub" (e_id f) (e_key f) (e_pub f) fs;
  fetch None pick_producer
    (AskOperator (e_server f)
       (Api.ToProducers (request me POST (str "/api/v0/producers")
          (mk_rprod (Some (record_of f keys)) (negb (bool_decide (keys.2 = []))))))).

Definition pick_begin (b : document) : option (bytes * bytes) :=
  match b with DOperator (BeginEnrollmentResponse i c _) => Some (i, c) | _ => None end.
Definition pick_enrolled (b : document) : option (option Producer.t) :=
  match b with DOperator (EnrollmentResponse p) => Some (Some p) | _ => None end.

Definition enrollment_of (f : enroll_flags) (keys : bytes * bytes) : EnrollmentRequest :=
  mk_enr (e_id f) keys.1 keys.2 TypeSoftware (e_desc f) (e_scope f) (validity_seconds (e_validity f)).

(** [printEnrolled] shows the first 24 characters of the signature. *)
Definition printEnrolled (p : option Producer.t) : res Producer.t :=
  match p with
  | None => errorf "enroll-producer: server returned no producer record"
  | Some p => if len (base64 (Producer.Signature p)) <? 24 then slice_panic else Ok p
  end.

Definition cmdEnrollProducerUnverified (me : caller) (f : enroll_flags) (fs : Files) : client Producer.t :=
  have! keys := public_keys "enroll-producer: provide --key or --pub" (e_id f) (e_key f) (e_pub f) fs;
  ask! out <- fetch None pick_enrolled
    (AskOperator (e_server f) (Api.ToEnrollments (request me POST (str "/api/v0/enrollments") (enrollment_of f keys))));
  Done (printEnrolled out).

(** Steps 2 and 3 of the ceremony. *)
Definition answer_challenge (me : caller) (f : enroll_flags) (att : SoftwareAttestor.t) (begin : bytes * bytes) : client Producer.t :=
  have! _ := (if bool_decide (begin.1 = []) || (len begin.2 =? 0)
              then errorf "enroll-producer: server returned an empty challenge" else Ok tt);
  have! (sig, qsig) := wrap_err "enroll-producer: sign challenge" (SoftwareAttestor.SignChallenge att begin.2);
  ask! out <- wrap "enroll-producer: confirm" (fetch None pick_enrolled
    (AskOperator (e_server f) (Api.ToEnrollmentsConfirm
       (request me POST (str "/api/v0/enrollments/confirm") (mk_conf begin.1 sig qsig)))));
  Done (printEnrolled out).

Definition cmdEnrollProducer (me : caller) (f : enroll_flags) (fs : Files) : client Producer.t :=
  have! _ := (if bool_decide (e_id f = []) then errorf "enroll-producer: --id is required" else Ok tt);
  if e_unverified f then cmdEnrollProducerUnverified me f fs
  else
    have! _ := (if bool_decide (e_key f = []) then errorf "enroll-producer: --key is required for the proof-of-possession flow" else Ok tt);
    have! att := AttestorFiles.LoadSoftwareAttestor (e_id f) (e_key f) fs;
    let keys := (SoftwareAttestor.pub att,
                 if bool_decide (SoftwareAttestor.qPriv att = None) then [] else SoftwareAttestor.qPub att) in
    ask! begin <- wrap "enroll-producer: begin" (fetch ([], []) pick_begin
      (AskOperator (e_server f) (Api.ToEnrollmentsBegin
         (request me POST (str "/api/v0/enrollments/begin") (enrollment_of f keys)))));
    answer_challenge me f att begin.

Definition cmdRevokeProducer (me : caller) (server id reason : bytes) : client unit :=
  have! _ := (if bool_decide (id = []) then errorf "revoke-producer: --id is required" else Ok tt);
  fetch tt (fun _ => Some tt)
    (AskOperator server (Api.ToRevoke (request me POST (str "/api/v0/producers/revoke") (mk_rev id reason)))).

(** ** Logging *)

Definition pick_entry (b : document) : option (option Entry.t) :=
  match b with DOperator (AppendResponse e) => Some (Some e) | _ => None end.

Definition log_data (rest : list bytes) (stdin : res bytes) : res bytes :=
  match rest with
  | [] => errorf "log: provide text to log (or pipe data via stdin)"
  | a :: _ => if bool_decide (a = str "-") then stdin else Ok (Join [Byte.x20] rest)
  end.

(** The entry that is printed. *)
Definition cmdLog (me : caller) (f : log_flags) (rest : list bytes) (stdin : res bytes) (now : Z) (fs : Files) : client Entry.t :=
  have! _ := (if bool_decide (rest = []) then errorf "log: provide text to log (or pipe data via stdin)" else Ok tt);
  have! _ := (if bool_decide (l_producer f = []) || bool_decide (l_key f = []) then errorf "log: --producer and --key are required" else Ok tt);
  have! data := log_data rest stdin;
  have! att := wrap_err "load producer key" (AttestorFiles.LoadSoftwareAttestor (l_producer f) (l_key f) fs);
  have! env := wrap_err "sign envelope" (SoftwareAttestor.Sign att now (l_source f) data);
  ask! e <- fetch None pick_entry
    (AskOperator (l_server f) (Api.ToAppend (request me POST (str "/api/v0/append") (mk_append (Some env) (l_honey f)))));
  Done (match e with
        | None => nil_panic
        | Some e => match Entry.Envelope e with None => nil_panic | Some _ => Ok e end
        end).

(** ** Witnesses *)

Definition pick_identity (b : document) : option (bytes * bytes * bytes) :=
  match b with DWitness (WitnessApi.IdentityResponse i k q _) => Some (i, k, q) | _ => None end.
Definition pick_witness (b : document) : option (option Witness.t) :=
  match b with DOperator (WitnessBody w) => Some (Some w) | _ => None end.
Definition pick_pubkey (b : document) : option (bytes * bytes) :=
  match b with DOperator (PubKeyResponse o r _ _) => Some (o, r) | _ => None end.

(** The operator's origin the witness now watches. *)
Definition cmdWitnessAdd (me : caller) (server id url desc : bytes) : client bytes :=
  have! _ := (if bool_decide (id = []) || bool_decide (url = []) then errorf "witness-add: --id and --url are required" else Ok tt);
  ask! (wid, pub, qpub) <- wrap "fetch witness identity"
    (fetch ([], [], []) pick_identity (AskWitness url (WitnessApi.ToPubkey (get_request me (str "/witness/v0/pubkey") tt))));
  have! _ := (if negb (bool_decide (wid = id)) then errorf "witness identifies as another id" else Ok tt);
  ask! out <- fetch None pick_witness
    (AskOperator server (Api.ToWitnesses (request me POST (str "/api/v0/witnesses")
       (mk_rwit (Some (Witness.mk id url pub qpub desc 0))))));
  have! _ := (if len (base64 (match out with Some w => Witness.PublicKey w | None => [] end)) <? 16 then slice_panic else Ok tt);
  ask! (origin, root) <- wrap "get operator pubkey"
    (fetch ([], []) pick_pubkey (AskOperator server (Api.ToPubKey (get_request me (str "/api/v0/pubkey") tt))));
  ask! _ <- wrap "teach witness about this operator"
    (post_only (AskWitness url (WitnessApi.ToOperators (request me POST (str "/witness/v0/operators")
       (WitnessApi.mk_add_op (Some (WatchedOperator.mk origin root (str "registered by stele CLI"))))))));
  Done (Ok origin).

Definition cmdWitnessPeerAdd (me : caller) (on peerURL desc : bytes) : client bytes :=
  have! _ := (if bool_decide (on = []) || bool_decide (peerURL = []) then errorf "witness-peer-add: --on and --peer are required" else Ok tt);
  ask! (wid, pub, _) <- wrap "fetch peer identity"
    (fetch ([], [], []) pick_identity (AskWitness peerURL (WitnessApi.ToPubkey (get_request me (str "/witness/v0/pubkey") tt))));
  ask! _ <- fetch tt (fun _ => Some tt)
    (AskWitness on (WitnessApi.ToPeers (request me POST (str "/witness/v0/peers")
       (WitnessApi.mk_add_peer (Some (Peer.mk wid peerURL pub desc 0))))));
  Done (Ok wid).

Definition pick_forks (b : document) : option (list ForkEvidence.t) :=
  match b with DWitness (WitnessApi.ForksBody l) => Some l | _ => None end.
Definition cmdWitnessForks (me : caller) (on : bytes) : client (list ForkEvidence.t) :=
  have! _ := (if bool_decide (on = []) then errorf "witness-forks: --on is required" else Ok tt);
  fetch [] pick_forks (AskWitness on (WitnessApi.ToForks (get_request me (str "/witness/v0/forks") tt))).

(** ** Cosigners and groups *)

Definition cmdCosignerInit (dir id : bytes) (e : CosignerFiles.env) (fs : Files) : Files * res Cosigner.t :=
  if bool_decide (dir = []) || bool_decide (id = []) then (fs, errorf "cosigner-init: --dir and --id are required")
  else CosignerFiles.NewCosigner id [] e fs.

Definition pick_cosigner (b : document) : option CosignerFiles.IdentityResponse :=
  match b with DIdentity i => Some i | _ => None end.
Definition no_identity : CosignerFiles.IdentityResponse := CosignerFiles.mk_identity [] [] [] [].

Definition member_of (u : bytes) (i : CosignerFiles.IdentityResponse) : Member.t :=
  Member.mk (CosignerFiles.i_ID i) (CosignerFiles.i_PublicKey i) (CosignerFiles.i_QuantumPublicKey i) u [].

(** The loop over the cosigner URLs. *)
Fixpoint fetch_members (urls : list bytes) (ms : list Member.t) : client (list Member.t) :=
  match urls with
  | [] => Done (Ok ms)
  | u :: urls' =>
      let u := TrimSpace u in
      ask! i <- wrap "fetch identity" (fetch no_identity pick_cosigner (AskCosigner u));
      fetch_members urls' (ms ++ [member_of u i])
  end.

(** The conversion of the flag to [uint32]. *)
Definition wrap32 (z : Z) : Z := z mod 2 ^ 32.

(** [w]: the outcome of the write of the group file. *)
Definition cmdGroupInit (origin : bytes) (thresholdN : Z) (cosigners : bytes) (now : Z) (w : bool) : client Group.t :=
  have! _ := (if bool_decide (origin = []) || (thresholdN =? 0) || bool_decide (cosigners = [])
              then errorf "group-init: --origin, --threshold, --cosigners required" else Ok tt);
  ask! ms <- fetch_members (Split Byte.x2c cosigners) [];
  let g := Group.mk 1 origin ms (wrap32 thresholdN) now in
  have! _ := Group.Validate (Some g);
  Done (if w then Ok g else errorf "write").

Definition pick_group (b : document) : option (option Group.t) :=
  match b with DOperator (ThresholdGroupResponse g) => Some g | _ => None end.
Definition cmdGroupShow (me : caller) (server : bytes) : client (option Group.t) :=
  fetch None pick_group (AskOperator server (Api.ToThresholdGroup (get_request me (str "/api/v0/threshold-group") tt))).

(** ** The DNS record *)

(** The quoted text of the zone line. *)
Definition cmdDNSRecord (me : caller) (server domain : bytes) : client bytes :=
  have! _ := (if bool_decide (domain = []) then errorf "dns-record: --domain is required" else Ok tt);
  ask! (_, root) <- fetch ([], []) pick_pubkey (AskOperator server (Api.ToPubKey (get_request me (str "/api/v0/pubkey") tt)));
  Done (Ok (TrustDns.FormatTXT (TrustDns.mkRecord [] root [] [] [] []))).

Definition cmdDNSSECFetch (Fqdn : bytes -> bytes) (exchange : TrustDns.question -> res TrustDns.reply) (origin resolver : bytes) (timeout : Z)
  : res TrustDns.Record_ :=
  fail_if bool_decide (origin = []) with "dnssec-fetch: --origin is required" ;;
  TrustDns.Fetch Fqdn exchange (TrustDns.mkConfig resolver timeout) origin.

(** ** Commands that show or trigger *)

Definition operator_get (me : caller) (server : bytes) (to : Request unit -> Api.call_to) (path : bytes) : ask :=
  AskOperator server (to (get_request me path tt)).
Definition operator_post (me : caller) (server : bytes) (to : Request unit -> Api.call_to) (path : bytes) : ask :=
  AskOperator server (to (request me POST path tt)).

Definition cmdWitnessList (me : caller) (server : bytes) : client (list Witness.t) :=
  fetch [] (fun b => match b with DOperator (ListWitnessesResponse l) => Some l | _ => None end)
    (AskOperator server (Api.ToWitnesses (get_request me (str "/api/v0/witnesses") (mk_rwit None)))).
Definition cmdProducerList (me : caller) (server : bytes) : client (list Producer.t) :=
  fetch [] (fun b => match b with DOperator (ListProducersResponse l) => Some l | _ => None end)
    (AskOperator server (Api.ToProducers (get_request me (str "/api/v0/producers") (mk_rprod None false)))).

Definition cmdGet (me : caller) (server : bytes) (args : list bytes) : client (option Entry.t) :=
  match args with
  | [a] =>
      have! idx := ParseUint a;
      fetch None (fun b => match b with DOperator (EntryResponse e) => Some (Some e) | _ => None end)
        (operator_get me server Api.ToGetEntry (str "/api/v0/entries/" ++ fmt_d idx))
  | _ => Done (errorf "get: requires <index>")
  end.

Definition cmdSize (me : caller) (server : bytes) : client (Z * bytes * bytes) :=
  fetch (0, [], []) (fun b => match b with DOperator (SizeResponse n r h) => Some (n, r, h) | _ => None end)
    (operator_get me server Api.ToSize (str "/api/v0/size")).

Definition pick_checkpoint (b : document) : option (option Checkpoint.t) :=
  match b with DOperator (CheckpointResponse c) => Some (Some c) | _ => None end.
Definition cmdCheckpoint (me : caller) (server : bytes) : client (option Checkpoint.t) :=
  fetch None pick_checkpoint (operator_get me server Api.ToCheckpoint (str "/api/v0/checkpoint")).
Definition cmdMintCheckpoint (me : caller) (server : bytes) : client Checkpoint.t :=
  ask! c <- fetch None pick_checkpoint (operator_post me server Api.ToCheckpoint (str "/api/v0/checkpoint"));
  Done (match c with Some c => Ok c | None => nil_panic end).

Definition cmdAnchor (me : caller) (server : bytes) : client (gmap bytes Record_.t) :=
  fetch ∅ (fun b => match b with DOperator (AnchorResponse r) => Some r | _ => None end)
    (operator_post me server Api.ToAnchor (str "/api/v0/anchor")).

Definition cmdPubkey (me : caller) (server : bytes) : client (bytes * bytes * Z * bytes) :=
  fetch ([], [], 0, []) (fun b => match b with DOperator (PubKeyResponse o r e k) => Some (o, r, e, k) | _ => None end)
    (operator_get me server Api.ToPubKey (str "/api/v0/pubkey")).

Definition pick_chain (b : document) : option (option Chain.t) :=
  match b with DOperator (KeyChainResponse c) => Some (Some c) | _ => None end.
Definition cmdKeyChain (me : caller) (server : bytes) : client (option Chain.t) :=
  fetch None pick_chain (operator_get me server Api.ToKeyChain (str "/api/v0/keychain")).
(** [ActiveEpoch] of a nil chain dereferences it. *)
Definition cmdRotate (me : caller) (server : bytes) : client (Z * bytes) :=
  ask! c <- fetch None pick_chain (operator_post me server Api.ToRotate (str "/api/v0/rotate"));
  Done (match c with Some c => Ok (Chain.ActiveEpoch c, Chain.ActivePublicKey c) | None => nil_panic end).
End Client.

(** ** Against an operator *)

Section Runs.
Context {B : Badger value} {CR : CompactRange} {PL : ProofLib} {C : Crypto} {D : D3Keys} {L : Limiter}.
Context {BL : BadgerLaws B} {CRL : CompactRangeLaws CR} {PLL : ProofLibLaws PL} {CL : CryptoLaws C} {DL : D3KeysLaws}.

Section Among.
Variable may : Api.input -> Prop.

(** [runs p s r s']: the command, run against the operator [s] among its other
    clients, can end with [r], the operator then in [s'].  A question that gets
    no answer may or may not have been served; what the other hosts say is
    arbitrary. *)
Fixpoint runs {A} (p : client A) (s : Api.t) (r : res A) (s' : Api.t) : Prop :=
  match p with
  | Done x => r = x /\ interferes s s'
  | Ask (AskOperator _ c) k =>
      (exists st ra b s1, exec may (Api.serve c) s (Reply st ra b) s1 /\ runs (k (Answer st (DOperator b))) s1 r s') \/
      (exists e s1, interferes s s1 /\ runs (k (NoAnswer e)) s1 r s')
  | Ask _ k => exists a s1, interferes s s1 /\ runs (k a) s1 r s'
  end.

Lemma runs_have {A X} (x : res X) (k : X -> client A) s a s' :
  runs (bind (Done x) k) s (Ok a) s' -> exists y, x = Ok y /\ runs (k y) s (Ok a) s'.
Proof. destruct x as [y|e]; cbn [bind runs]; [by eauto|intros [? _]; done]. Qed.

(** A question whose answer the command went on with. *)
Lemma runs_ask {A X} (zero : X) pick srv c (f : res X -> res X) (k : X -> client A) s a s' :
  (forall e, exists e', f (Err e) = Err e') -> (forall x, f (Ok x) = Ok x) ->
  runs (Ask (AskOperator srv c) (fun h => bind (Done (f (received zero pick h))) k)) s (Ok a) s' ->
  exists st ra b s1, exec may (Api.serve c) s (Reply st ra b) s1 /\ Z.quot st 100 = 2 /\
    runs (k (default zero (pick (DOperator b)))) s1 (Ok a) s'.
Proof.
  intros FE FO [(st & ra & b & s1 & E & R)|(e & s1 & _ & R)]; cbn [received] in R.
  - exists st, ra, b, s1. split; [done|]. destruct (Z.eqb_spec (Z.quot st 100) 2) as [Q|]; cbn [negb] in R.
    + rewrite FO in R. done.
    + destruct (FE ("HTTP"%string :: error_of (DOperator b))) as [e' Fe]. rewrite Fe in R. by destruct R.
  - destruct (FE e) as [e' Fe]. rewrite Fe in R. by destruct R.
Qed.

Lemma runs_fetch {A X} (zero : X) pick srv c (k : X -> client A) s a s' :
  runs (bind (fetch zero pick (AskOperator srv c)) k) s (Ok a) s' ->
  exists st ra b s1, exec may (Api.serve c) s (Reply st ra b) s1 /\ Z.quot st 100 = 2 /\
    runs (k (default zero (pick (DOperator b)))) s1 (Ok a) s'.
Proof. apply (runs_ask zero pick srv c (fun r => r)); by eauto. Qed.

Lemma runs_wrapped {A X} (zero : X) pick srv c m (k : X -> client A) s a s' :
  runs (bind (wrap m (fetch zero pick (AskOperator srv c))) k) s (Ok a) s' ->
  exists st ra b s1, exec may (Api.serve c) s (Reply st ra b) s1 /\ Z.quot st 100 = 2 /\
    runs (k (default zero (pick (DOperator b)))) s1 (Ok a) s'.
Proof. apply (runs_ask zero pick srv c (wrap_err m)); intros; cbn; by eauto. Qed.

(** Loaded attestors hold a matching pair. *)
Lemma loaded_keys id path fs att : AttestorFiles.LoadSoftwareAttestor id path fs = Ok att ->
  SoftwareAttestor.id att = id /\ SoftwareAttestor.keys_ok att.
Proof.
  unfold AttestorFiles.LoadSoftwareAttestor. destruct (fs !! path) as [buf|]; [|done]. destruct (starts_with _ _).
  - unfold AttestorFiles.loadHybridSoftwareAttestor. intros E.
    destruct (parse_two_lines _ _ _ _) as [[k q]|] eqn:P; [|done]. injection E as <-.
    split; [done|]. apply FileStore.parse_two_lines_len in P. split_and!; try done. cbn. by eapply key_nonempty.
  - intros E. res_inv E. subst. split; [done|]. btauto_props. split_and!; try done. cbn. by eapply key_nonempty.
Qed.

Lemma signed_keys att now source data env : SoftwareAttestor.Sign att now source data = Ok env ->
  Envelope.ProducerID env = SoftwareAttestor.id att /\ Envelope.PublicKey env = SoftwareAttestor.pub att /\
  Envelope.QuantumPublicKey env = SoftwareAttestor.qPub att.
Proof. unfold SoftwareAttestor.Sign. intros S. res_inv S. subst. by destruct (SoftwareAttestor.qPriv att). Qed.

Lemma signed_type att now source data env : SoftwareAttestor.Sign att now source data = Ok env -> valid_utf8 (Envelope.Type_ env) = true.
Proof. unfold SoftwareAttestor.Sign. intros S. res_inv S. subst. by destruct (SoftwareAttestor.qPriv att). Qed.

(** What was decoded is what was posted. *)
Lemma posted_decoded {T} `{Payload T} lim (v w : T) : posted lim v = Decoded w -> w = wire_value v.
Proof. unfold posted. destruct (wire_fits lim v); [by intros [= <-]|done]. Qed.

(** An entry on /append comes with status 200. *)
Lemma append_status r : replies (fun a => forall st ra e, a = Reply st ra (AppendResponse e) -> st = 200) (Api.handleAppend r).
Proof.
  unfold Api.handleAppend, Api.only, Api.body, Api.admission, Api.append_slot, Api.call, Api.read.
  repeat first [progress cbn [replies fst snd] | progress intros | case_match | progress simplify_eq | done].
  all: unfold writeJSON in *; congruence.
Qed.

Lemma reachable_later s s' : interferes s s' -> reachable (Api.Log s) -> reachable (Api.Log s').
Proof. intros I (l0 & St & R). exists l0. split; [done|]. etrans; [exact R|apply I]. Qed.

Lemma served_later c s a s' : exec may (Api.serve c) s a s' -> interferes s s'.
Proof. apply exec_later, serve_guar. Qed.

(** C26. What [stele log] reports is in the log: when the command prints an
    entry, whatever other clients the operator served meanwhile, the text given
    was signed with the key in the named file, the entry carries that envelope
    as JSON transports it - exactly that envelope, with this data, source and
    producer id, when source and id are valid UTF-8 - and the requested honeypot
    mark, it was made by a locked append run after the envelope had passed the
    authorisation checks while the request was served, and the log holds the
    entry at its index. *)
Theorem log_command_sound me f rest stdin now fs s e s' :
  reachable (Api.Log s) -> runs (cmdLog me f rest stdin now fs) s (Ok e) s' ->
  exists data att env, log_data rest stdin = Ok data /\
    AttestorFiles.LoadSoftwareAttestor (l_producer f) (l_key f) fs = Ok att /\
    SoftwareAttestor.Sign att now (l_source f) data = Ok env /\
    Envelope.ProducerID env = l_producer f /\ Envelope.Source env = l_source f /\ Envelope.Data env = data /\
    Envelope.PublicKey env = ed_public (SoftwareAttestor.priv att) /\ Envelope.valid env /\
    Entry.Envelope e = Some (envelope_value env) /\
    (valid_utf8 (l_producer f) = true -> valid_utf8 (l_source f) = true -> envelope_value env = env) /\
    Entry.Honeypot e = l_honey f /\
    authorised_append (Api.Log s) (envelope_value env) (l_honey f) e (Api.Log s') /\
    exists es, Log.observes (Api.Log s') es /\ es !! Z.to_nat (Entry.Index e) = Some e.
Proof.
  intros R E. unfold cmdLog in E. apply runs_have in E as (_ & _ & E). apply runs_have in E as (_ & _ & E).
  apply runs_have in E as (data & Dt & E). apply runs_have in E as (att & Ld & E). apply wrap_err_ok in Ld.
  apply runs_have in E as (env & Sg & E). apply wrap_err_ok in Sg.
  apply runs_fetch in E as (st & ra & b & s1 & X & _ & [Ok_ I]). cbn [default pick_entry] in Ok_.
  destruct b; try done. cbn in Ok_. destruct (Entry.Envelope e0) eqn:Ev; [|done]. injection Ok_ as ->.
  destruct (loaded_keys _ _ _ _ Ld) as [Hid Hk]. pose proof (exec_replies may _ _ _ _ _ (append_status _) X st ra e0 eq_refl) as ->.
  destruct (append_served may _ _ _ _ _ R X) as (rq & env' & ->%posted_decoded & [= <-] & Ev' & Hh & _ & Pm & es & Ob & Lk).
  destruct (SoftwareAttestor.Sign_valid att now (l_source f) data Hk) as (env2 & Sg' & V & So & Da). rewrite Sg in Sg'. injection Sg' as <-.
  destruct (reachable_ok _ (reachable_later _ _ (served_later _ _ _ _ X) R)) as (es1 & O1).
  pose proof (Log.observes_unique _ _ _ O1 Ob) as ->. destruct (ok_later s1 s' es I O1) as (es' & O' & P).
  destruct (signed_keys _ _ _ _ _ Sg) as (Si & Sp & _). exists data, att, env. split_and!; try done.
  - by rewrite Si.
  - rewrite Sp. apply Hk.
  - intros U1 U2. apply envelope_value_id; [by rewrite Si, Hid|by rewrite So|by eapply signed_type].
  - by eapply authorised_append_wider; [|exact Pm|apply I].
  - exists es'. split; [by apply Log.ok_observes|]. by eapply prefix_lookup_Some.
Qed.
End Among.

(** ** Alone with an operator *)

(** The command with no one else about; [ins n] are the inputs of the [n]-th
    request.  [None]: it asked another host, or a handler did not end. *)
Fixpoint session {A} (ins : nat -> nat -> Api.input) (p : client A) (s : Api.t) : Api.t * option (res A) :=
  match p with
  | Done r => (s, Some r)
  | Ask (AskOperator _ c) k =>
      match Api.run (ins 0%nat) (Api.serve c) s with
      | (s1, Some (Reply st _ b)) => session (fun n => ins (S n)) (k (Answer st (DOperator b))) s1
      | (s1, Some Aborted) => session (fun n => ins (S n)) (k (NoAnswer ["EOF"%string])) s1
      | (s1, None) => (s1, None)
      end
  | Ask _ _ => (s, None)
  end.

(** The operator does not limit its administrators. *)
Definition admin_unlimited (s : Api.t) : Prop := SFleb (PerAdminRPS (Gate.policy (Api.gate s))) float0 = true.

Lemma run_unlimited {T} ins (next : Request T -> prog response) r s :
  admin_unlimited s -> exists s1, Api.Log s1 = Api.Log s /\ Api.AdminLog s1 = Api.AdminLog s /\ Gate.policy (Api.gate s1) = Gate.policy (Api.gate s) /\
    Api.run ins (Api.rateLimitAdmin next r) s = Api.run (if Api.mutating (Method r) then fun n => ins (S n) else ins) (next r) s1.
Proof.
  intros U. unfold Api.rateLimitAdmin. destruct (Api.mutating (Method r)); cbn [negb]; [|by exists s].
  cbn [Api.run]. unfold Gate.allowAdmin, Gate.allow. rewrite U. cbn [fst snd negb].
  eexists. split; [|split; [|split; [|reflexivity]]]; reflexivity.
Qed.

Lemma received_200 {T} (zero : T) pick b : received zero pick (Answer 200 (DOperator b)) = Ok (default zero (pick (DOperator b))).
Proof. done. Qed.

Lemma run_begin ins me srv_path req req' s l b :
  admin_unlimited s -> posted (limits me) req = Decoded req' -> Api.incomplete req' = false ->
  Log.BeginEnrollment (Api.Log s) (Api.now (ins 1%nat)) (Api.now2 (ins 1%nat)) (Api.idRaw (ins 1%nat)) (Api.nonce (ins 1%nat)) (Api.core_request req') = (l, Ok b) ->
  exists s1, Api.run ins (Api.serve (Api.ToEnrollmentsBegin (request me POST srv_path req))) s =
    (s1, Some (writeJSON 200 (BeginEnrollmentResponse (Log.ChallengeID b) (Log.ChallengeBytes b) (Log.ExpiresAt b)))) /\
    Api.Log s1 = l /\ admin_unlimited s1.
Proof.
  intros U Po I E. cbn [Api.serve].
  destruct (run_unlimited ins Api.handleEnrollmentsBegin (request me POST srv_path req) s U) as (s0 & L0 & _ & P0 & ->).
  cbn [Api.mutating request Method]. unfold Api.handleEnrollmentsBegin, Api.only, Api.body. cbn [Method Body request].
  rewrite bool_decide_eq_true_2, Po by done. cbn [negb]. rewrite I. cbn [Api.call Api.run]. rewrite L0, E. cbn [fst snd Api.run].
  eexists. split; [done|]. split; [done|]. unfold admin_unlimited. cbn. by rewrite P0.
Qed.

Lemma run_confirm ins me srv_path req s l p :
  admin_unlimited s -> posted (limits me) req = Decoded req -> cr_ChallengeID req <> [] -> cr_Signature req <> [] ->
  Log.ConfirmEnrollment (Api.Log s) (Api.now (ins 1%nat)) (Api.now2 (ins 1%nat)) (cr_ChallengeID req) (cr_Signature req) (cr_QuantumSignature req) = (l, Ok p) ->
  exists s1, Api.run ins (Api.serve (Api.ToEnrollmentsConfirm (request me POST srv_path req))) s =
    (s1, Some (writeJSON 200 (EnrollmentResponse p))) /\ Api.Log s1 = l.
Proof.
  intros U Po I1 I2 E. cbn [Api.serve].
  destruct (run_unlimited ins Api.handleEnrollmentsConfirm (request me POST srv_path req) s U) as (s0 & L0 & _ & P0 & ->).
  cbn [Api.mutating request Method]. unfold Api.handleEnrollmentsConfirm, Api.only, Api.body. cbn [Method Body request].
  rewrite bool_decide_eq_true_2, Po by done. cbn [negb]. rewrite bool_decide_eq_false_2 by done.
  rewrite (proj2 (len_zero_eqb _) I2). cbn [orb Api.call Api.run]. rewrite L0, E. cbn [fst snd Api.recordAdmin Api.run].
  eexists. split; [done|]. unfold Api.note_admin. repeat case_match; by simplify_eq.
Qed.

Lemma begin_challenge l n1 n2 id no req l' b : Log.BeginEnrollment l n1 n2 (Ok id) (Ok no) req = (l', Ok b) ->
  Log.ChallengeID b = hex id /\ (len (Log.ChallengeBytes b) =? 0) = false.
Proof. unfold Log.BeginEnrollment. repeat case_match; intros [= <- <-]; done. Qed.

(** A classical producer's empty quantum signature is not looked at. *)
Lemma confirm_classical l n1 n2 id no req l1 b m1 m2 sig q1 q2 :
  Log.BeginEnrollment l n1 n2 (Ok id) (Ok no) req = (l1, Ok b) -> Log.r_QuantumPublicKey req = [] ->
  Log.ConfirmEnrollment l1 m1 m2 (Log.ChallengeID b) sig q1 = Log.ConfirmEnrollment l1 m1 m2 (Log.ChallengeID b) sig q2.
Proof.
  unfold Log.BeginEnrollment. repeat case_match; intros [= <- <-] Q; try done. unfold Log.ConfirmEnrollment. cbn [Log.pending Log.set_pending Log.ChallengeID].
  rewrite lookup_insert_eq. cbn [Log.prod Log.expiresAt]. unfold Log.consented. cbn [Log.requested Producer.QuantumPublicKey]. by rewrite Q.
Qed.

Lemma enrolled_fresh l n1 n2 id no req l1 b m1 m2 sig q l2 p :
  Log.BeginEnrollment l n1 n2 (Ok id) (Ok no) req = (l1, Ok b) ->
  Log.ConfirmEnrollment l1 m1 m2 (Log.ChallengeID b) sig q = (l2, Ok p) ->
  Producer.Revoked p = false /\ Log.signer l2 = Log.signer l.
Proof.
  unfold Log.BeginEnrollment. repeat case_match; intros [= <- <-]; try done. unfold Log.ConfirmEnrollment.
  cbn [Log.pending Log.set_pending Log.ChallengeID]. rewrite lookup_insert_eq. cbn [Log.prod Log.expiresAt]. destruct (_ <? _); [done|].
  destruct (Log.consented _ _ _) as [p1|] eqn:Cn; [|done]. destruct (Log.operator_sign _ _ _ _ _) as [p2|] eqn:Os; [|done].
  unfold Log.register. destruct (Store.RegisterProducer _ _ _) as [st [u|]]; intros [= <- <-]. split; [|done].
  unfold Log.consented in Cn. res_inv Cn. subst p1. unfold Log.operator_sign in Os.
  destruct (Signer.Sign _ _) as [[ep sg]|]; [|done]. cbn [wrap_err res_bind] in Os. destruct (negb _); [done|].
  match type of Os with (if ?c then _ else _) = _ => destruct c end; [|by injection Os as <-].
  destruct (Signer.QuantumSign _ _); [|done]. by injection Os as <-.
Qed.

Lemma got_producer s id p : Store.GetProducer s id = Ok p -> view (Store.db s) !! producerKey id = Some (VProducer p).
Proof.
  unfold Store.GetProducer. destruct (db_get _ _) as [[v|]|] eqn:G; try done. apply get_view in G.
  cbn. destruct v; intros [= ->]; done.
Qed.

Lemma base64_longer b : (length b <= length (base64 b))%nat.
Proof.
  induction b as [b IH] using (induction_ltof1 _ (@length _)). unfold ltof in IH. destruct b as [|x [|y [|z b]]]; cbn; try lia.
  specialize (IH b ltac:(cbn; lia)). lia.
Qed.

(** The keys [enroll-producer] sends for an attestor. *)
Definition sent_keys (att : SoftwareAttestor.t) : bytes * bytes :=
  (SoftwareAttestor.pub att, if bool_decide (SoftwareAttestor.qPriv att = None) then [] else SoftwareAttestor.qPub att).

(** The answer to the challenge is within the limit, and arrives as it is. *)
Lemma confirm_posted lim id sig qs : len id = 16 -> len sig = SignatureSize -> (qs = [] \/ len qs = d3_SignatureSize) -> 8192 <= admin_cap lim ->
  posted lim (mk_conf (hex id) sig qs) = Decoded (mk_conf (hex id) sig qs).
Proof.
  intros Hi Hs Hq Hl. unfold posted. cbn [wire_fits wire_confirm wire_value cr_ChallengeID cr_Signature cr_QuantumSignature].
  pose proof (confirm_short id sig qs Hi Hs Hq). unfold fits. rewrite (proj2 (Z.leb_le _ _)) by lia. by rewrite json_string_hex.
Qed.

(** The signatures [answer_challenge] sends. *)
Definition quantum_answer (att : SoftwareAttestor.t) (msg : bytes) : bytes :=
  match SoftwareAttestor.qPriv att with Some qk => d3_sign qk msg | None => [] end.

Lemma quantum_answer_length att msg : quantum_answer att msg = [] \/ len (quantum_answer att msg) = d3_SignatureSize.
Proof. unfold quantum_answer. destruct (SoftwareAttestor.qPriv att); [right; apply d3_sign_length|by left]. Qed.

(** C27. [stele enroll-producer] works: with a key file that loads and a producer
    id that is valid UTF-8, served alone by an operator that is not limiting
    administrators, whose body limit is at least 8 KiB (the default is 256) and
    not below the length of the first request, whose signer is in step with its
    chain (the chain verifies and its last certificate is for the key the signer
    holds), whose database accepts writes, whose random source works and whose
    clock does not read zero, the two requests of the ceremony go through before the challenge expires and the
    command prints the record that is then registered under the producer's id.
    The record carries the public keys of the file, the producer's own signature
    over the challenge and the operator's over the terms, both of which verify;
    and until the enrollment expires every envelope signed with that file is
    entitled to be appended, also when the operator requires enrollment. *)
Theorem enroll_command_completes me f fs att s ins idRaw nonce fws :
  e_unverified f = false -> e_id f <> [] -> valid_utf8 (e_id f) = true -> e_key f <> [] ->
  AttestorFiles.LoadSoftwareAttestor (e_id f) (e_key f) fs = Ok att ->
  reachable (Api.Log s) -> writable (Store.db (Log.store (Api.Log s))) ->
  CheckpointSigner.fws (Log.signer (Api.Log s)) = fws -> Signer.ok None fws -> len (Chain.Certs (Signer.chain fws)) <= 2 ^ 64 ->
  admin_unlimited s -> 8192 <= admin_cap (limits me) -> len (enrollment_text (enrollment_of f (sent_keys att))) <= admin_cap (limits me) ->
  Api.idRaw (ins 0%nat 1%nat) = Ok idRaw -> len idRaw = 16 -> Api.nonce (ins 0%nat 1%nat) = Ok nonce -> nonce <> [] ->
  Api.now (ins 0%nat 1%nat) <> 0 -> Api.now (ins 1%nat 1%nat) <= Api.now2 (ins 0%nat 1%nat) + Log.defaultChallengeTTL ->
  exists s' p, session ins (cmdEnrollProducer me f fs) s = (s', Some (Ok p)) /\
    Store.GetProducer (Log.store (Api.Log s')) (e_id f) = Ok p /\
    Producer.PublicKey p = SoftwareAttestor.pub att /\ Producer.QuantumPublicKey p = SoftwareAttestor.qPub att /\
    Producer.VerifyConsent p = Ok tt /\
    Producer.VerifyEnrollment p (Chain.PublicKeyAt (Signer.chain fws)) (Chain.QuantumPublicKeyAt (Signer.chain fws)) = Ok tt /\
    forall now source data env, SoftwareAttestor.Sign att now source data = Ok env -> Producer.IsExpired p now = false ->
      Log.permitted (Api.Log s') now env.
Proof.
  intros Un Hid Hutf Hkey Ld R W Hf So Hc U Hl Hfit EId HId ENo HNo Hnow Hdl. destruct (reachable_ok _ R) as [es O].
  destruct (loaded_keys _ _ _ _ Ld) as [Ai Ak]. pose proof Ak as (Ap & Apub & Aq).
  set (req := enrollment_value (enrollment_of f (sent_keys att))). set (qk := default [] (SoftwareAttestor.qPriv att)).
  assert (P0 : posted (limits me) (enrollment_of f (sent_keys att)) = Decoded req).
  { unfold posted. cbn [wire_fits wire_enrollment wire_value]. unfold fits. by rewrite (proj2 (Z.leb_le _ _)) by lia. }
  assert (Eid : er_ID req = e_id f) by (unfold req, enrollment_value; cbn [er_ID enrollment_of]; by rewrite json_string_id).
  assert (Q : Log.r_QuantumPublicKey (Api.core_request req) = SoftwareAttestor.qPub att).
  { change (Log.r_QuantumPublicKey (Api.core_request req)) with (sent_keys att).2. unfold sent_keys. cbn [snd]. rewrite Aq. by destruct (SoftwareAttestor.qPriv att). }
  destruct (Log.ceremony (lasting := False) (Api.Log s) es fws (Api.core_request req) idRaw nonce (Api.now (ins 0%nat 1%nat)) (Api.now2 (ins 0%nat 1%nat))
    (Api.now (ins 1%nat 1%nat)) (Api.now2 (ins 1%nat 1%nat)) (SoftwareAttestor.priv att) qk)
    as (l1 & b & l2 & p & E1 & E2 & G & Tm & Cv & Ev & _); try done.
  { change (Log.r_ID (Api.core_request req)) with (er_ID req). by rewrite Eid. }
  { rewrite Q, Aq. unfold qk. by destruct (SoftwareAttestor.qPriv att). }
  destruct (begin_challenge _ _ _ _ _ _ _ _ E1) as [Ci Ch]. destruct (enrolled_fresh _ _ _ _ _ _ _ _ _ _ _ _ _ _ E1 E2) as [Rv Sg].
  rewrite <- EId, <- ENo in E1.
  destruct (run_begin (ins 0%nat) me (str "/api/v0/enrollments/begin") _ req s l1 b U P0) as (s1 & R1 & L1 & U1); [|exact E1|].
  { unfold Api.incomplete. rewrite Eid. rewrite bool_decide_eq_false_2 by done. cbn. rewrite Apub, ed_public_length. done. }
  rewrite EId, ENo in E1. set (sig := ed_sign (SoftwareAttestor.priv att) (Log.ChallengeBytes b)) in *.
  set (qs := quantum_answer att (Log.ChallengeBytes b)).
  assert (E2' : Log.ConfirmEnrollment l1 (Api.now (ins 1%nat 1%nat)) (Api.now2 (ins 1%nat 1%nat)) (Log.ChallengeID b) sig qs = (l2, Ok p)).
  { rewrite <- E2. unfold qs, quantum_answer, qk. destruct (SoftwareAttestor.qPriv att) eqn:Eq; [done|]. eapply confirm_classical; [exact E1|]. by rewrite Q, Aq. }
  assert (N1 : Log.ChallengeID b <> []) by (rewrite Ci; intros X%(f_equal length); rewrite hex_length in X; by destruct idRaw).
  assert (N2 : sig <> []) by (intros X; pose proof (ed_sign_length (SoftwareAttestor.priv att) (Log.ChallengeBytes b)) as Y; fold sig in Y; by rewrite X in Y).
  assert (P1 : posted (limits me) (mk_conf (Log.ChallengeID b) sig qs) = Decoded (mk_conf (Log.ChallengeID b) sig qs)).
  { rewrite Ci. apply confirm_posted; [done|apply ed_sign_length|apply quantum_answer_length|done]. }
  rewrite <- L1 in E2'.
  destruct (run_confirm (ins 1%nat) me (str "/api/v0/enrollments/confirm") (mk_conf (Log.ChallengeID b) sig qs) s1 l2 p U1 P1 N1 N2 E2') as (s2 & R2 & L2).
  exists s2, p. split.
  - unfold cmdEnrollProducer. rewrite !(bool_decide_eq_false_2 (_ = [])), Un by done. cbn [bind]. rewrite Ld. cbn [bind wrap fetch session].
    fold (sent_keys att). rewrite R1. cbn [writeJSON]. rewrite received_200. cbn [wrap_err bind pick_begin default from_option id].
    unfold answer_challenge. cbn [fst snd bind]. rewrite (bool_decide_eq_false_2 _ N1), Ch. cbn [orb bind].
    unfold SoftwareAttestor.SignChallenge. rewrite bool_decide_eq_false_2 by done. cbn [wrap_err bind wrap fetch session].
    fold (quantum_answer att (Log.ChallengeBytes b)). fold sig qs.
    rewrite R2. cbn [writeJSON]. rewrite received_200. cbn [wrap_err bind session pick_enrolled default from_option id]. unfold printEnrolled.
    rewrite (proj2 (Z.ltb_ge _ _)); [done|]. pose proof (base64_longer (Producer.Signature p)). destruct Ev as (Sl & _). unfold len, SignatureSize in *. lia.
  - rewrite L2. injection Tm as T1 T2 T3 _ _ _ _ _. change (Log.r_ID (Api.core_request req)) with (er_ID req) in G. rewrite Eid in G.
    split_and!; [exact G|done|by etrans; [exact T3|exact Q]|by apply Producer.VerifyConsent_iff|by apply Producer.VerifyEnrollment_iff|].
    intros now source data env S X. destruct (signed_keys _ _ _ _ _ S) as (Si & Sp & Sq).
    destruct (SoftwareAttestor.Sign_valid att now source data Ak) as (env' & S' & V & _). rewrite S in S'. injection S' as <-.
    split; [done|]. exists p. rewrite Si, Ai, Sp, Sq, Sg, Hf. split_and!; [by apply got_producer|done|done| |].
    + intros _. by etrans; [exact T3|exact Q].
    + by intros _.
Qed.

(** The operator does not limit producers, asks for no certificate, and has a
    slot free. *)
Record open_for_appends (s : Api.t) : Prop := {
  op_rate : SFleb (PerProducerRPS (Gate.policy (Api.gate s))) float0 = true;
  op_cn : Api.RequireClientCertCN s = false;
  op_slot : match Gate.sem (Api.gate s) with None => True | Some x => 0 <= Gate.used x < Gate.cap x end;
}.

(** The slot that was taken is there to be given back. *)
Lemma slot_returned g : match Gate.sem g with None => True | Some x => 0 <= Gate.used x < Gate.cap x end ->
  exists g1, Gate.acquire g = (g1, true) /\ Gate.release g1 = Some g.
Proof.
  destruct g as [pol [[c u]|] pl al]; unfold Gate.acquire; cbn [Gate.sem Gate.used Gate.cap]; intros H; [|by eexists].
  rewrite (proj2 (Z.ltb_lt _ _)) by lia. eexists. split; [done|]. unfold Gate.release. cbn. rewrite (proj2 (Z.ltb_lt _ _)) by lia.
  unfold Gate.set_sem. cbn. by rewrite Z.add_simpl_r.
Qed.

Lemma run_append ins me path env hp s l e :
  open_for_appends s -> posted (limits me) (mk_append (Some env) hp) = Decoded (mk_append (Some env) hp) ->
  Log.authorise (Api.Log s) (Api.now (ins 3%nat)) (Some env) = Ok env ->
  Log.append_locked (Api.Log s) (Api.now (ins 4%nat)) env hp = (l, Ok e) ->
  exists s1, Api.run ins (Api.serve (Api.ToAppend (request me POST path (mk_append (Some env) hp)))) s =
    (s1, Some (writeJSON 200 (AppendResponse e))) /\ Api.Log s1 = l /\ Gate.sem (Api.gate s1) = Gate.sem (Api.gate s).
Proof.
  intros [O1 O2 O3] Po Au Ap. cbn [Api.serve]. unfold Api.handleAppend, Api.only, Api.body. cbn [Method Body request].
  rewrite bool_decide_eq_true_2, Po by done. cbn [ar_Envelope ar_Honeypot negb Api.read Api.run fst snd]. rewrite O2. unfold Api.admission. cbn [Api.run].
  unfold Gate.allowProducer, Gate.allow. rewrite O1. cbn [fst snd negb Api.run Api.gate Api.set_gate].
  set (g := Gate.mk _ _ _ _). destruct (slot_returned g O3) as (g1 & Aq & Rl). rewrite Aq. cbn [fst snd negb]. unfold Api.append_slot.
  cbn [Api.run Api.Log Api.set_gate fst snd]. rewrite Au. cbn [Api.run Api.call Api.Log Api.set_gate]. rewrite Ap.
  cbn [fst snd Api.run Api.gate Api.set_observer Api.set_log Api.set_gate]. rewrite Rl. cbn [Api.run].
  eexists. split; [done|]. split; done.
Qed.

(** [stele log] gets through: an operator that is open for appends and
    whose database accepts writes seals the text of a producer it knows.  When
    the key file loads, id and source are valid UTF-8, the request is within the
    body limit and the envelope made with it is permitted and new, the command prints the next entry of the chain over exactly that envelope, the
    operator's log is the old one with that entry added, and the slot it took is
    free again. *)
Theorem log_command_completes me f rest stdin now fs s ins data att env :
  log_data rest stdin = Ok data -> l_producer f <> [] -> l_key f <> [] ->
  AttestorFiles.LoadSoftwareAttestor (l_producer f) (l_key f) fs = Ok att ->
  SoftwareAttestor.Sign att now (l_source f) data = Ok env ->
  valid_utf8 (l_producer f) = true -> valid_utf8 (l_source f) = true -> wire_fits (limits me) (mk_append (Some env) (l_honey f)) = true ->
  reachable (Api.Log s) -> Log.Size (Api.Log s) + 1 < 2 ^ 63 -> writable (Store.db (Log.store (Api.Log s))) -> open_for_appends s ->
  Log.permitted (Api.Log s) (Api.now (ins 0%nat 3%nat)) env ->
  view (Store.db (Log.store (Api.Log s))) !! replayKey (Envelope.Hash env) = None ->
  exists s' es, Log.observes (Api.Log s) es /\
    let e := Log.next_entry (Api.now (ins 0%nat 4%nat)) es env (l_honey f) in
    session ins (cmdLog me f rest stdin now fs) s = (s', Some (Ok e)) /\ Log.observes (Api.Log s') (es ++ [e]) /\
    Gate.sem (Api.gate s') = Gate.sem (Api.gate s).
Proof.
  intros Dt Hp Hk Ld Sg U1 U2 Fi R Hs W Op Pm Nw. destruct (reachable_ok _ R) as [es O].
  pose proof (Log.log_size _ _ O) as Sz. unfold Log.Size in Hs. rewrite Sz in Hs.
  pose proof (Log.append_locked_healthy _ es (Api.now (ins 0%nat 4%nat)) env (l_honey f) O W (proj1 Pm) Hs Nw) as Ok_.
  destruct (Log.append_locked _ _ _ _) as [l r] eqn:Ap. cbn [snd] in Ok_. subst r.
  destruct (Log.append_locked_cases _ es _ env _ l _ O (proj1 Pm) Hs Ap) as [[_ O']|[[x ?] _]]; [|done].
  destruct (loaded_keys _ _ _ _ Ld) as [Hid Hkk]. destruct (signed_keys _ _ _ _ _ Sg) as (Si & _).
  destruct (SoftwareAttestor.Sign_valid att now (l_source f) data Hkk) as (env2 & Sg' & _ & So & _). rewrite Sg in Sg'. injection Sg' as <-.
  assert (posted (limits me) (mk_append (Some env) (l_honey f)) = Decoded (mk_append (Some env) (l_honey f))) as Po.
  { unfold posted. rewrite Fi. cbn [wire_value wire_append ar_Envelope ar_Honeypot fmap option_fmap option_map].
    by rewrite envelope_value_id; [|by rewrite Si, Hid|by rewrite So|by eapply signed_type]. }
  destruct (run_append (ins 0%nat) me (str "/api/v0/append") env (l_honey f) s l
    (Log.next_entry (Api.now (ins 0%nat 4%nat)) es env (l_honey f)) Op Po) as (s1 & Rn & L1 & G1);
    [by apply Log.authorise_iff; [apply O|]|exact Ap|].
  exists s1, es. split; [by apply Log.ok_observes|]. cbn zeta. split_and!; [|by rewrite L1; apply Log.ok_observes|exact G1].
  unfold cmdLog. assert (rest <> []) as Hr by (by destruct rest). rewrite !(bool_decide_eq_false_2 (_ = [])) by done. cbn [orb bind]. rewrite Dt. cbn [bind].
  rewrite Ld. cbn [wrap_err bind]. rewrite Sg. cbn [wrap_err bind fetch session]. rewrite Rn. cbn [writeJSON]. rewrite received_200.
  cbn [bind pick_entry default from_option id session]. done.
Qed.
End Runs.

(** ** Groups *)

(** The command, when the hosts answer as [w] says. *)
Fixpoint answered {A} (w : ask -> http document) (p : client A) : res A :=
  match p with Done r => r | Ask q k => answered w (k (w q)) end.

Lemma answered_bind {A X} w (p : client A) (k : A -> client X) :
  answered w (bind p k) = match answered w p with Ok a => answered w (k a) | Err e => Err e end.
Proof. induction p as [[a|e]|q k' IH]; cbn [bind answered]; [done|done|]. apply IH. Qed.

Section Groups.
Context {C : Crypto} {CL : CryptoLaws C}.

(** Every address is a running cosigner's. *)
Definition cosigners_at (w : ask -> http document) (serve : bytes -> Cosigner.t) : Prop :=
  forall u, w (AskCosigner u) = Answer (CosignerFiles.handle_identity (serve u)).1 (DIdentity (CosignerFiles.handle_identity (serve u)).2).

(** The member [group-init] lists for a URL. *)
Definition member_at (serve : bytes -> Cosigner.t) (u : bytes) : Member.t :=
  member_of (TrimSpace u) (CosignerFiles.handle_identity (serve (TrimSpace u))).2.

Lemma fetch_members_all w serve urls : cosigners_at w serve -> forall ms,
  answered w (fetch_members urls ms) = Ok (ms ++ map (member_at serve) urls).
Proof.
  intros W. induction urls as [|u urls IH]; intros ms; cbn [fetch_members map]; [by rewrite app_nil_r|].
  rewrite answered_bind. cbn [answered wrap fetch]. rewrite W. cbn [received CosignerFiles.handle_identity fst snd].
  change (negb (200 ÷ 100 =? 2)) with false. cbn iota. cbn [wrap_err pick_cosigner default from_option id]. rewrite IH, <- app_assoc. done.
Qed.

(** From running cosigners to a quorum: the group [stele group-init] writes
    is valid, has the origin and the threshold given (as a uint32), lists the
    cosigner at each URL in order with the keys it runs under, and is accepted by
    the daemon with that origin; and whenever as many of those cosigners as the
    threshold says sign a message, their signatures satisfy the group. *)
Theorem group_init_quorum w serve origin n cs now g :
  cosigners_at w serve -> (forall u, Cosigner.serves (serve u) (member_of u (CosignerFiles.handle_identity (serve u)).2)) ->
  answered w (cmdGroupInit origin n cs now true) = Ok g ->
  Group.Origin g = origin /\ Group.Threshold g = wrap32 n /\ Group.Members g = map (member_at serve) (Split Byte.x2c cs) /\
  Steled.loadThresholdGroup (Ok (Ok g)) origin = Ok g /\
  forall ms msg at_, NoDup ms -> ms ⊆ Group.Members g -> ms <> [] -> Group.Threshold g <= len ms ->
    VerifyMulti (Some g) msg (map (fun m => Some (Cosigner.Sign (serve (Member.Endpoint m)) at_ msg)) ms) = Ok tt.
Proof.
  intros W Sv E. unfold cmdGroupInit in E. rewrite answered_bind in E.
  destruct (_ || _ || _); [done|]. cbn [answered] in E. rewrite answered_bind, (fetch_members_all w serve _ W) in E. cbn [app] in E.
  rewrite answered_bind in E. cbn [answered] in E. set (g0 := Group.mk _ _ _ _ _) in E.
  destruct (Group.Validate (Some g0)) as [[]|] eqn:V; [|done]. injection E as <-.
  split_and!; [done|done|done| |].
  - unfold Steled.loadThresholdGroup, Steled.Unmarshal. cbn [wrap_err res_bind]. rewrite V. cbn [wrap_err res_bind].
    by rewrite bool_decide_eq_true_2.
  - intros ms msg at_ Nd Sub Ne Th. apply quorum_verifies; try done. intros m Hm.
    apply Sub, list_elem_of_fmap in Hm as (u & -> & _). apply Sv.
Qed.

(** The flag is an unsigned integer of the machine's size, the field has 32
    bits: thresholds that differ by 2^32 make the same group, so a threshold
    above any number of cosigners can come out as one. *)
Theorem group_threshold_truncated w origin n cs now wr : 0 < n ->
  answered w (cmdGroupInit origin (n + 2 ^ 32) cs now wr) = answered w (cmdGroupInit origin n cs now wr).
Proof.
  intros N. unfold cmdGroupInit. rewrite (proj2 (Z.eqb_neq (n + 2 ^ 32) 0)) by lia. rewrite (proj2 (Z.eqb_neq n 0)) by lia.
  assert (wrap32 (n + 2 ^ 32) = wrap32 n) as E by (unfold wrap32; zmod). by rewrite E.
Qed.
End Groups.

(** ** The trust anchor over DNS *)

Section Anchor.
Context {B : Badger value} {CR : CompactRange} {PL : ProofLib} {C : Crypto} {D : D3Keys} {L : Limiter}.

Definition root_key (s : Api.t) : bytes := Chain.RootPublicKey (Signer.chain (CheckpointSigner.fws (Log.signer (Api.Log s)))).

(** The anchor an auditor fetches is the operator's: the text
    [stele dns-record] prints for a running operator, published and served by a
    resolver that validated it - in however many character strings, and after
    whatever other records - is what [stele dnssec-fetch] turns back into the
    operator's genesis key. *)
Theorem dns_anchor_roundtrip me server domain s ins : domain <> [] -> root_key s <> [] ->
  exists s' txt, session ins (cmdDNSRecord me server domain) s = (s', Some (Ok txt)) /\ s' = s /\
  forall Fqdn exchange resolver timeout others parts more,
    Join [] parts = txt ->
    Forall (fun a => match a with TrustDns.TXT t => is_ok (TrustDns.ParseTXT (Join [] t)) = false | TrustDns.OtherRR => True end) others ->
    (forall q, exchange q = Ok (TrustDns.mkReply TrustDns.RcodeSuccess true (others ++ TrustDns.TXT parts :: more))) ->
    exists rec, cmdDNSSECFetch Fqdn exchange domain resolver timeout = Ok rec /\
      TrustDns.RootPublicKey rec = root_key s /\ TrustDns.Origin rec = domain.
Proof.
  intros Hd Hr. set (r := TrustDns.mkRecord [] (root_key s) [] [] [] []). exists s, (TrustDns.FormatTXT r). split_and!; [|done|].
  { unfold cmdDNSRecord. rewrite bool_decide_eq_false_2 by done. cbn [bind fetch session]. done. }
  intros Fqdn exchange resolver timeout others parts more J F X. unfold cmdDNSSECFetch. rewrite bool_decide_eq_false_2 by done.
  unfold TrustDns.Fetch. rewrite bool_decide_eq_false_2 by done. rewrite X. cbn [wrap_err res_bind TrustDns.Rcode TrustDns.AuthenticatedData TrustDns.Answer].
  pose proof (TrustDns.read_back r Hr (Forall_nil_2 _)) as P. rewrite <- J in P.
  assert (TrustDns.first_record domain (others ++ TrustDns.TXT parts :: more) = Some (TrustDns.set_origin domain (TrustDns.set_origin [] (TrustDns.set_version (str "stele/v1") r)))) as E.
  { apply TrustDns.first_record_spec. by exists others, parts, (TrustDns.set_origin [] (TrustDns.set_version (str "stele/v1") r)), more. }
  rewrite E. by eexists.
Qed.
End Anchor.

(** ** Enrollments that were meant to be short *)

(** The validity is sent in whole seconds, rounded towards zero, and zero means
    forever: an enrollment asked for with a validity of half a second is one
    that never expires. *)
Theorem short_validity_never_expires f keys now epoch nonce later :
  e_validity f = 500000000 ->
  Producer.ExpiresAt (Log.requested (Api.core_request (enrollment_of f keys)) now epoch nonce) = 0 /\
  Producer.IsExpired (Log.requested (Api.core_request (enrollment_of f keys)) now epoch nonce) later = false.
Proof.
  intros V. assert (validity_seconds (e_validity f) = 0) as Z by (rewrite V; vm_compute; reflexivity).
  unfold enrollment_of. rewrite Z. split; reflexivity.
Qed.

(** Whole seconds arrive as they were given. *)
Example validity_whole : map validity_seconds [0; 1000000000; 86400000000000; 31536000000000000] = [0; 1; 86400; 31536000].
Proof. vm_compute. reflexivity. Qed.
(** Near the top of a long duration the sum is rounded up to the next second. *)
Example validity_rounds_up : validity_seconds (31536000000000000 + 999999999) = 31536001.
Proof. vm_compute. reflexivity. Qed.

(** ** The subcommands *)

Definition subcommands : list string :=
  ["log"; "get"; "size"; "checkpoint"; "mint-checkpoint"; "anchor"; "pubkey"; "keychain"; "rotate"; "producer-init";
   "producer-register"; "producer-list"; "enroll-producer"; "revoke-producer"; "witness-add"; "witness-list"; "witness-peer-add";
   "witness-forks"; "cosigner-init"; "group-init"; "group-show"; "dns-record"; "dnssec-fetch"; "ca-init"; "ca-issue-server";
   "ca-issue-producer"; "verify-inclusion"; "verify-consistency"; "audit"; "help"; "-h"; "--help"]%string.

(** What [usage] lists. *)
Definition usage : list string :=
  ["log"; "get"; "size"; "checkpoint"; "mint-checkpoint"; "anchor"; "pubkey"; "producer-init"; "producer-register"; "producer-list";
   "enroll-producer"; "revoke-producer"; "ca-init"; "ca-issue-server"; "ca-issue-producer"; "dns-record"; "dnssec-fetch";
   "verify-inclusion"; "verify-consistency"; "audit"]%string.

(** The exit status of [main]: 2 for no or an unknown subcommand, 1 for one
    that failed. *)
Definition main (args : list bytes) (outcome : string -> res unit) : Z :=
  match args with
  | [] => 2
  | cmd :: _ =>
      match find (fun c => bool_decide (str c = cmd)) subcommands with
      | None => 2
      | Some c => if bool_decide (c ∈ ["help"; "-h"; "--help"]%string) then 0 else match outcome c with Ok _ => 0 | Err _ => 1 end
      end
  end.

(** Nine subcommands are not in the list [stele help] prints; and the
    [verify] that the backup tool tells its users to run is not one. *)
Example unlisted : filter (fun c => c ∉ usage) subcommands =
  ["keychain"; "rotate"; "witness-add"; "witness-list"; "witness-peer-add"; "witness-forks"; "cosigner-init"; "group-init"; "group-show";
   "help"; "-h"; "--help"]%string.
Proof. vm_compute. reflexivity. Qed.
Example no_verify ok : main [str "verify"] ok = 2.
Proof. vm_compute. reflexivity. Qed.
End Client.

(** ** Witnesses *)

Definition demo_caller : Client.caller := Client.mk_caller None (str "10.0.0.7:4711") (str "Go-http-client/1.1") DefaultLimits.
Definition demo_att : SoftwareAttestor.t := SoftwareAttestor.NewSoftwareAttestor (str "svc") demo_ed.
Definition key_files : Files := {[ str "p.key" := one_line_key demo_ed ]}.

Lemma key_files_load : AttestorFiles.LoadSoftwareAttestor (str "svc") (str "p.key") key_files = Ok demo_att.
Proof.
  unfold AttestorFiles.LoadSoftwareAttestor, key_files. rewrite lookup_singleton_eq, one_line_not_labelled, AttestorFiles.stripWS_one_line, dec_enc.
  cbn [wrap_err res_bind]. by rewrite demo_ed_length.
Qed.

Definition enroll_demo : Client.enroll_flags :=
  Client.mk_enroll_flags (str "http://op") (str "svc") (str "p.key") [] [] (str "ci") 0 false.
Definition log_demo : Client.log_flags := Client.mk_log_flags (str "http://op") (str "ci@host") (str "svc") (str "p.key") false.

(** An operator that limits nothing. *)
Definition open_server (l : Log.t) : Api.t :=
  Api.mk l (Some []) (Some 0) false (Some read0) (Some (admin0 Byte.x01)) (Gate.newIngestGate zero_policy).

(** Inputs with sixteen bytes of randomness for the challenge id. *)
Definition ins16 (_ : nat) : Api.input :=
  Api.mk_input (Api.now in0) (Api.now2 in0) (Api.jio in0) (Api.readable in0) (Ok (str "0123456789abcdef")) (Api.nonce in0) (Api.cio in0)
    (Api.published in0) (Api.gen in0) (Api.wr in0) (Api.io_new in0) (Api.io_prev in0).

Lemma log0_reachable : reachable log0.
Proof. exists log0. split; [apply log0_start|apply rtc_refl]. Qed.

Lemma enroll_command_completes_witness :
  exists s' p, Client.session (fun _ => ins16) (Client.cmdEnrollProducer demo_caller enroll_demo key_files) (open_server log0) = (s', Some (Ok p)) /\
    Producer.VerifyConsent p = Ok tt.
Proof.
  destruct (Client.enroll_command_completes demo_caller enroll_demo key_files demo_att (open_server log0) (fun _ => ins16) (str "0123456789abcdef") (str "nonce")
    (signer1 true)) as (s' & p & E & _ & _ & _ & V & _);
    [reflexivity|discriminate|reflexivity|discriminate|apply key_files_load|apply log0_reachable|exact I|reflexivity|apply Signer.signer_reach_ok, signer1_reach
    |vm_compute; discriminate|reflexivity|vm_compute; discriminate|vm_compute; discriminate|reflexivity|reflexivity|reflexivity|discriminate|discriminate
    |vm_compute; discriminate|].
  exists s', p. split; [exact E|exact V].
Defined.

(** The operator knows the producer. *)
Definition log_svc : Log.t := (Log.RegisterProducer log0 1 (Some (Client.record_of enroll_demo (Client.sent_keys demo_att)))).1.

Lemma log_svc_reachable : reachable log_svc.
Proof. exists log0. split; [apply log0_start|]. apply rtc_once. eapply Log.step_register. unfold log_svc. apply surjective_pairing. Qed.

Definition demo_signed : res Envelope.t := SoftwareAttestor.Sign demo_att 3 (str "ci@host") (str "hello world").

Lemma demo_permitted env : demo_signed = Ok env -> Log.permitted log_svc 5 env.
Proof.
  intros S. destruct (Client.signed_keys _ _ _ _ _ S) as (Si & Sp & Sq).
  destruct (SoftwareAttestor.Sign_valid demo_att 3 (str "ci@host") (str "hello world")) as (env' & S' & V & _); [by repeat split|].
  unfold demo_signed in S. rewrite S in S'. injection S' as <-. split; [exact V|].
  exists (Producer.set_registered (Client.record_of enroll_demo (Client.sent_keys demo_att)) 1). rewrite Si, Sp, Sq.
  split; [vm_compute; reflexivity|]. split_and!; [reflexivity|reflexivity|by intros []|]. intros X. vm_compute in X. discriminate X.
Qed.

Lemma log_command_completes_witness :
  exists s' e, Client.session (fun _ => ins0) (Client.cmdLog demo_caller log_demo [str "hello"; str "world"] (errorf "no stdin") 3 key_files)
      (open_server log_svc) = (s', Some (Ok e)) /\ Entry.Index e = 0.
Proof.
  assert (exists env, demo_signed = Ok env /\ view (Store.db (Log.store log_svc)) !! replayKey (Envelope.Hash env) = None) as (env & S & F).
  { eexists. split; [reflexivity|]. vm_compute. reflexivity. }
  destruct (Client.log_command_completes demo_caller log_demo [str "hello"; str "world"] (errorf "no stdin") 3 key_files (open_server log_svc)
    (fun _ => ins0) (str "hello world") demo_att env) as (s' & es & O & E & _ & _);
    [vm_compute; reflexivity|discriminate|discriminate|apply key_files_load|exact S|reflexivity|reflexivity|injection S as <-; vm_compute; reflexivity|apply log_svc_reachable|vm_compute; reflexivity|exact I
    |by split|by apply demo_permitted|exact F|].
  exists s'. eexists. split; [exact E|]. destruct O as (Sz & _). destruct es; [reflexivity|]. vm_compute in Sz. discriminate Sz.
Defined.

(** The same run, seen among other clients. *)
Definition svc_env : Envelope.t := match demo_signed with Ok e => e | Err _ => plain_env end.
Definition svc_request : Api.call_to :=
  Api.ToAppend (Client.request demo_caller POST (str "/api/v0/append") (mk_append (Some svc_env) false)).
Definition svc_served : Api.t * option response := Api.run ins0 (Api.serve svc_request) (open_server log_svc).

Lemma svc_answer : exists e s', svc_served = (s', Some (Reply 200 None (AppendResponse e))) /\ is_Some (Entry.Envelope e) /\
  exec writes_through (Api.serve svc_request) (open_server log_svc) (Reply 200 None (AppendResponse e)) s'.
Proof.
  assert (exists e, svc_served.2 = Some (Reply 200 None (AppendResponse e)) /\ is_Some (Entry.Envelope e)) as (e & R & Ev)
    by (eexists; split; [vm_compute; reflexivity|by eexists]).
  unfold svc_served in R. destruct (Api.run ins0 _ _) as [s' a] eqn:E. cbn [snd] in R. subst a. exists e, s'. split; [exact E|]. split; [exact Ev|].
  eapply run_exec; [apply ins0_write| |exact E]. vm_compute. reflexivity.
Qed.

Lemma log_command_sound_witness : exists e s' es,
  Log.observes (Api.Log s') es /\ es !! Z.to_nat (Entry.Index e) = Some e /\ Entry.Envelope e = Some svc_env.
Proof.
  destruct svc_answer as (e & s' & _ & [env Ev] & X).
  destruct (Client.log_command_sound writes_through demo_caller log_demo [str "hello"; str "world"] (errorf "no stdin") 3 key_files
    (open_server log_svc) e s' log_svc_reachable) as (data & att & env' & Dt & Ld & Sg & _ & _ & _ & _ & _ & Ev' & Id & _ & _ & es & Ob & Lk).
  - unfold Client.cmdLog. cbn [Client.l_producer Client.l_key Client.l_source Client.l_server Client.l_honey log_demo].
    rewrite !(bool_decide_eq_false_2 (_ = [])) by discriminate. cbn [Client.bind orb].
    assert (Client.log_data [str "hello"; str "world"] (errorf "no stdin") = Ok (str "hello world")) as -> by (vm_compute; reflexivity).
    cbn [Client.bind]. rewrite key_files_load. cbn [wrap_err Client.bind]. fold demo_signed. assert (demo_signed = Ok svc_env) as -> by reflexivity. cbn [wrap_err Client.bind Client.fetch Client.runs].
    left. exists 200, None, (AppendResponse e), s'. split; [exact X|]. rewrite Client.received_200. cbn. rewrite Ev. split; reflexivity.
  - exists e, s', es. split; [exact Ob|]. split; [exact Lk|]. rewrite Ev', Id by reflexivity.
    change (AttestorFiles.LoadSoftwareAttestor (str "svc") (str "p.key") key_files = Ok att) in Ld. rewrite key_files_load in Ld. injection Ld as <-.
    assert (Client.log_data [str "hello"; str "world"] (errorf "no stdin") = Ok (str "hello world")) as Dt' by (vm_compute; reflexivity).
    rewrite Dt' in Dt. injection Dt as <-. change (demo_signed = Ok env') in Sg. unfold svc_env. by rewrite Sg.
Defined.

Definition demo_cosigner (u : bytes) : Cosigner.t := Cosigner.mk u u (ed_public u) None [] ∅.
Definition cosigner_web (q : Client.ask) : http Client.document :=
  match q with
  | Client.AskCosigner u => Answer 200 (Client.DIdentity (CosignerFiles.handle_identity (demo_cosigner u)).2)
  | _ => NoAnswer []
  end.

Lemma group_init_quorum_witness : exists g,
  Client.answered cosigner_web (Client.cmdGroupInit (str "op") 2 (str "a, b,c") 1 true) = Ok g /\
  Group.Members g = map (Client.member_at demo_cosigner) [str "a"; str " b"; str "c"].
Proof.
  assert (exists g, Client.answered cosigner_web (Client.cmdGroupInit (str "op") 2 (str "a, b,c") 1 true) = Ok g) as [g E].
  { eexists. vm_compute. reflexivity. }
  exists g. split; [exact E|].
  destruct (Client.group_init_quorum cosigner_web demo_cosigner (str "op") 2 (str "a, b,c") 1 g) as (_ & _ & M & _).
  - by intros u.
  - intros u. unfold Cosigner.serves. split; [reflexivity|]. split; [reflexivity|]. split; [reflexivity|]. split; [reflexivity|]. by intros [].
  - exact E.
  - rewrite M. f_equal.
Defined.

Lemma dns_anchor_roundtrip_witness : exists rec,
  Client.cmdDNSSECFetch (fun n => n) (fun _ => Ok (TrustDns.mkReply 0 true [TrustDns.OtherRR;
    TrustDns.TXT [TrustDns.FormatTXT (TrustDns.mkRecord [] (Client.root_key (open_server log0)) [] [] [] [])]])) (str "log.example") [] 0 = Ok rec /\
  TrustDns.RootPublicKey rec = Client.root_key (open_server log0).
Proof.
  destruct (Client.dns_anchor_roundtrip demo_caller (str "http://op") (str "log.example") (open_server log0) (fun _ => ins0))
    as (s' & txt & E & _ & F); [discriminate|vm_compute; discriminate|].
  injection E as _ <-.
  destruct (F (fun n => n) (fun _ => Ok (TrustDns.mkReply 0 true [TrustDns.OtherRR;
    TrustDns.TXT [TrustDns.FormatTXT (TrustDns.mkRecord [] (Client.root_key (open_server log0)) [] [] [] [])]])) [] 0 [TrustDns.OtherRR]
    [TrustDns.FormatTXT (TrustDns.mkRecord [] (Client.root_key (open_server log0)) [] [] [] [])] []) as (rec & R & K & _).
  - reflexivity.
  - by repeat constructor.
  - reflexivity.
  - exists rec. split; [exact R|exact K].
Defined.
