(* ===== verification/Loadgen.v ===== *)
(** * The load generator (cmd/stele-loadgen)

    The rig of producers it registers, the requests it makes and how it sorts
    the answers, the pacing of its goroutines with their shared gate, and the
    statistics it reports.  Requests go to the operator's routes of [Api] as in
    [Client]; durations are nanoseconds, the percentiles float64. *)

From stdpp Require Import base numbers list gmap strings sorting.
From Stdlib Require Import ZArith Lia SpecFloat.
From S2P Require Import Prelude Utf8 GoText Calendar Codec Crypto Journal ReadLog AdminLog Attest Rfc6962 Merkle RefMerkle MerkleProps.
From S2P Require Import LogEntry Threshold Fwdsec KeyFiles Checkpoint Ops Float64 Badger Storage Core CoreProps WitnessServer Auditor Ingest Api ApiExec ApiProps WitnessApi Wire Steled Client.

Import Api(prog, Ret, Act, Acquire, Release).

#[local] Open Scope Z_scope.

Module Loadgen.
Import Client(caller, client, Done, Ask, AskOperator, bind, request, post_only).

#[local] Notation "'ask!' x '<-' p ';' k" := (bind p (fun x => k)) (at level 10, x pattern, p at level 100, k at level 200).
#[local] Notation "'have!' x ':=' r ';' k" := (bind (Done r) (fun x => k)) (at level 10, x pattern, r at level 100, k at level 200).

Definition Microsecond : Z := 1000.
Definition Millisecond : Z := 1000000.
Definition Second : Z := 1000000000.

(** ** Answers *)

Definition classifyHTTP (status : Z) : string :=
  if (status =? 200) || (status =? 201) then "ok"
  else if status =? 413 then "body_too_large"
  else if status =? 429 then "rate_limit"
  else if status =? 503 then "concurrency"
  else if bool_decide (status ∈ [400; 401; 403; 404; 405; 409; 422]) then "client_4xx"
  else if 500 <=? status then "server_5xx"
  else "other".

(** [deadline]: the error is the context's, expired or cancelled. *)
Definition classifyNetErr (deadline : bool) : string := if deadline then "timeout" else "network".

Section Requests.
Context `{D3Keys}.

Definition producer_id (prefix : bytes) (nanos i : Z) : bytes :=
  prefix ++ str "-" ++ fmt_d (Z.rem nanos 1000000) ++ str "-" ++ fmt_d i.

Definition registerProducer (me : caller) (server : bytes) (att : SoftwareAttestor.t) : client unit :=
  post_only (AskOperator server (Api.ToProducers (request me POST (str "/api/v0/producers")
    (mk_rprod (Some (Producer.mk (SoftwareAttestor.id att) (SoftwareAttestor.pub att) [] TypeSoftware [] 0 [] 0 0 0 [] [] [] false 0 [] [] [] [])) false)))).

(** The loop from [i]; [mints]: the key generated for each producer and the
    clock when it is named. *)
Fixpoint buildRig (me : caller) (server prefix : bytes) (mints : list (res bytes * Z)) (i : Z) : client (list SoftwareAttestor.t) :=
  match mints with
  | [] => Done (Ok [])
  | (key, nanos) :: mints =>
      have! k := wrap_err "attestor" key;
      let att := SoftwareAttestor.NewSoftwareAttestor (producer_id prefix nanos i) k in
      ask! _ <- Client.wrap "register" (registerProducer me server att);
      ask! rest <- buildRig me server prefix mints (i + 1);
      Done (Ok (att :: rest))
  end.

(** [d]: how long the exchange took; [deadline]: which errors are the
    context's. *)
Definition submitOne (me : caller) (server : bytes) (att : SoftwareAttestor.t) (now : Z) (payload : bytes) (d : Z) (deadline : error -> bool)
  : client (string * Z) :=
  match SoftwareAttestor.Sign att now (str "loadgen") payload with
  | Err _ => Done (Ok ("client-sign-error"%string, 0))
  | Ok env =>
      Ask (AskOperator server (Api.ToAppend (request me POST (str "/api/v0/append") (mk_append (Some env) false)))) (fun a =>
      Done (Ok (match a with
                | BadURL _ => ("client-req-error"%string, 0)
                | NoAnswer e => (classifyNetErr (deadline e), d)
                | Answer st _ => (classifyHTTP st, d)
                end)))
  end.
End Requests.

(** The payload of the next request: eight fresh bytes in front of the old
    ones.  Slicing fewer than eight panics. *)
Definition vary (payload fresh : bytes) : res bytes :=
  fail_if len payload <? 8 with "panic: slice bounds out of range" ;; Ok (take 8 fresh ++ drop 8 payload).

(** ** Statistics *)

Record stats := mk_stats { counts : gmap string Z; latencies : gmap string (list Z); totalReqs : Z }.
Definition newStats : stats := mk_stats ∅ ∅ 0.

Definition get (m : gmap string Z) (k : string) : Z := default 0 (m !! k).
Definition lats (s : stats) (k : string) : list Z := default [] (latencies s !! k).

Definition record (s : stats) (outcome : string) (d : Z) : stats :=
  mk_stats (<[outcome := get (counts s) outcome + 1]> (counts s))
    (if 0 <? d then <[outcome := lats s outcome ++ [d]]> (latencies s) else latencies s) (totalReqs s + 1).

(** [sort.Slice] of integers: which of equal ones comes first does not show. *)
Definition finalise (s : stats) : stats := mk_stats (counts s) (merge_sort Z.le <$> latencies s) (totalReqs s).

Definition percentile (sorted : list Z) (p : spec_float) : Z :=
  if bool_decide (sorted = []) then 0
  else
    let idx := Float64.scaled (len sorted - 1) p in
    let idx := if idx <? 0 then 0 else idx in
    let idx := if len sorted <=? idx then len sorted - 1 else idx in
    default 0 (sorted !! Z.to_nat idx).

Definition p50 : spec_float := S754_finite false 4503599627370496 (-53).
Definition p95 : spec_float := S754_finite false 8556839292003942 (-53).
Definition p99 : spec_float := S754_finite false 8917127262193582 (-53).
Definition p999 : spec_float := S754_finite false 8998192055486251 (-53).

(** [Duration.Round], half away from zero, of a duration that is not negative
    and does not overflow. *)
Definition Round (d m : Z) : Z := let r := d mod m in if r + r <? m then d - r else d + m - r.

(** [fmtFrac]: the last [prec] digits as a fraction without trailing zeros. *)
Fixpoint frac_digits (prec : nat) (v : Z) (print : bool) : bytes * Z :=
  match prec with
  | O => ([], v)
  | S prec =>
      let digit := v mod 10 in
      let print := print || negb (digit =? 0) in
      let '(front, rest) := frac_digits prec (v / 10) print in
      (front ++ (if print then fmt_d digit else []), rest)
  end.
Definition fmtFrac (v : Z) (prec : nat) : bytes :=
  let '(f, rest) := frac_digits prec v false in fmt_d rest ++ (if bool_decide (f = []) then [] else str "." ++ f).

(** [Duration.String] of a duration that is not negative. *)
Definition duration_string (d : Z) : bytes :=
  if d =? 0 then str "0s"
  else if d <? Microsecond then fmt_d d ++ str "ns"
  else if d <? Millisecond then fmtFrac d 3 ++ str "µs"
  else if d <? Second then fmtFrac d 6 ++ str "ms"
  else
    let m := d / (60 * Second) in
    (if 0 <? m then (if 0 <? m / 60 then fmt_d (m / 60) ++ str "h" else []) ++ fmt_d (m mod 60) ++ str "m" else []) ++
    fmtFrac (d mod (60 * Second)) 9 ++ str "s".

Definition fmtP (sorted : list Z) (p : spec_float) : bytes :=
  let v := percentile sorted p in
  if v =? 0 then str "-"
  else duration_string
    (if Second <=? v then Round v Millisecond else if Millisecond <=? v then Round v (10 * Microsecond) else Round v Microsecond).

Definition outcomes : list string :=
  ["ok"; "rate_limit"; "concurrency"; "body_too_large"; "client_4xx"; "server_5xx"; "timeout"; "network"; "other"].

Definition total (s : stats) : Z := map_fold (fun _ n t => n + t) 0 (counts s).

(** The lines of the table that is printed, with the total above them. *)
Definition summary (s : stats) : Z * list (string * Z * list bytes) :=
  (total s,
   omap (fun k => n ← counts s !! k; Some (k, n, map (fmtP (lats s k)) [p50; p95; p99; p999])) outcomes).

(** The object of the JSON document. *)
Record outcomeStat := mk_outcome { o_Count : Z; o_P50 : Z; o_P95 : Z; o_P99 : Z; o_P999 : Z; o_Min : Z; o_Max : Z }.
Definition outcome_stat (s : stats) (k : string) (n : Z) : outcomeStat :=
  let ls := lats s k in
  mk_outcome n (percentile ls p50) (percentile ls p95) (percentile ls p99) (percentile ls p999) (default 0 (head ls)) (default 0 (last ls)).
Definition writeJSON (s : stats) : gmap string outcomeStat := map_imap (fun k n => Some (outcome_stat s k n)) (counts s).

(** The rows of the CSV file after its header, in the order the map is
    iterated: outcome, count and percentiles in nanoseconds, before they are
    printed as microseconds. *)
Definition writeCSV (order : list string) (s : stats) : list (string * Z * list Z) :=
  omap (fun k => n ← counts s !! k; Some (k, n, map (percentile (lats s k)) [p50; p95; p99; p999])) order.

(** ** Pacing *)

Record flags := mk_flags { producers : Z; rps : spec_float; duration : Z; warmup : Z; payload_bytes : Z; concurrency : Z }.

Definition check_flags (f : flags) : res unit :=
  fail_if producers f <? 1 with "--producers must be >= 1" ;;
  fail_if SFleb (rps f) (S754_zero false) with "--rps must be > 0" ;;
  Ok tt.

(** How long a producer waits between requests. *)
Definition tickInterval (f : flags) : Z :=
  let perProducerRPS := SFdiv 53 1024 (rps f) (Float64.float_of (producers f)) in
  let t := Memlimit.int64_of_float (SFdiv 53 1024 (Float64.float_of Second) perProducerRPS) in
  if t <? Millisecond then Millisecond else t.

(** The goroutines: [loops] producers that may still send, [used] slots of the
    gate, one per request in flight; [closed]: the statistics are finalised. *)
Record sys := mk_sys { loops : nat; used : Z; kept : stats; closed : bool }.

Inductive event :=
| Send                                  (* a producer takes a slot and starts a request *)
| Stop                                  (* a producer sees the context end *)
| Answered (outcome : string) (d now : Z)  (* a request ends, its slot is free *)
| Finalise.                             (* after the WaitGroup of the producers *)

Definition step (cap startRecording : Z) (s : sys) (e : event) : option sys :=
  match e with
  | Send => if bool_decide (0 < loops s)%nat && (used s <? cap) then Some (mk_sys (loops s) (used s + 1) (kept s) (closed s)) else None
  | Stop => match loops s with O => None | S n => Some (mk_sys n (used s) (kept s) (closed s)) end
  | Answered o d now =>
      if 0 <? used s then
        Some (mk_sys (loops s) (used s - 1) (if startRecording <? now then record (kept s) o d else kept s) (closed s))
      else None
  | Finalise => if bool_decide (loops s = 0)%nat && negb (closed s) then Some (mk_sys O (used s) (finalise (kept s)) true) else None
  end.

Definition start (n : nat) : sys := mk_sys n 0 newStats false.
Definition run (cap startRecording : Z) (n : nat) (es : list event) : option sys :=
  foldl (fun s e => s ← s; step cap startRecording s e) (Some (start n)) es.

(** ** Percentiles *)

(** The positions the four percentiles pick in a list of [n + 1]. *)
Definition picks (n : Z) : list Z := map (Float64.scaled n) [p50; p95; p99; p999].
Definition ascending (lo : Z) (l : list Z) (hi : Z) : bool :=
  (fix go lo l := match l with [] => lo <=? hi | x :: l => (lo <=? x) && go x l end) lo l.

Lemma picks_small : Calendar.all_from (fun n => ascending 0 (picks n) n) 200 0 = true.
Proof. vm_compute. reflexivity. Qed.

(** The positions are in the list and in order, whatever the rounding does; so
    neither clamp of [percentile] is ever taken. *)
Lemma picks_ordered n : 0 <= n < 2 ^ 53 -> ascending 0 (picks n) n = true.
Proof.
  intros B. destruct (decide (n < 200)) as [S|S]; [apply (Calendar.all_from_spec _ 200 0 n picks_small); change (Z.of_nat 200) with 200; lia|].
  unfold picks, ascending, p50, p95, p99, p999. cbn [map].
  pose proof (Float64.scaled_near n 4503599627370496 53 ltac:(lia) ltac:(split; [by vm_compute|reflexivity]) ltac:(lia)) as H1.
  pose proof (Float64.scaled_near n 8556839292003942 53 ltac:(lia) ltac:(split; [by vm_compute|reflexivity]) ltac:(lia)) as H2.
  pose proof (Float64.scaled_near n 8917127262193582 53 ltac:(lia) ltac:(split; [by vm_compute|reflexivity]) ltac:(lia)) as H3.
  pose proof (Float64.scaled_near n 8998192055486251 53 ltac:(lia) ltac:(split; [by vm_compute|reflexivity]) ltac:(lia)) as H4.
  change (- (53)) with (-53) in *. change (2 ^ 53) with 9007199254740992 in *.
  rewrite !andb_true_iff, !Z.leb_le. zmod.
Qed.

Lemma sorted_lookup (l : list Z) : Sorted Z.le l -> forall i j x y, (i <= j)%nat -> l !! i = Some x -> l !! j = Some y -> x <= y.
Proof.
  intros S%Sorted_StronglySorted; [|intros ???; lia]. induction S as [|a l S IH F]; intros i j x y L X Y; [done|].
  destruct i as [|i], j as [|j]; cbn in X, Y; simplify_eq; [lia| |lia|by apply (IH i j); [lia|..]].
  apply (proj1 (Forall_forall _ _) F). by eapply list_elem_of_lookup_2.
Qed.

Lemma percentile_at (l : list Z) p i : Float64.scaled (len l - 1) p = i -> 0 <= i <= len l - 1 ->
  exists x, l !! Z.to_nat i = Some x /\ percentile l p = x.
Proof.
  intros E B. unfold percentile. rewrite bool_decide_eq_false_2 by (intros ->; change (len (@nil Z)) with 0 in B; lia). rewrite E.
  rewrite (proj2 (Z.ltb_ge _ _)), (proj2 (Z.leb_gt _ _)) by lia.
  destruct (lookup_lt_is_Some_2 l (Z.to_nat i)) as [x X]; [unfold len in *; lia|]. exists x. by rewrite X.
Qed.

(** The latencies reported are latencies that were measured, in order: for
    every sorted list of up to 2^53 of them, each percentile is one of its
    elements, and the shortest, the median, the 95th, 99th and 99.9th
    percentile and the longest ascend - although the positions are computed
    with rounded float64 products. *)
Lemma quantiles l : Sorted Z.le l -> l <> [] -> len l <= 2 ^ 53 ->
  percentile l p50 ∈ l /\ percentile l p95 ∈ l /\ percentile l p99 ∈ l /\ percentile l p999 ∈ l /\
  (forall x, x ∈ l -> default 0 (head l) <= x <= default 0 (last l)) /\
  percentile l p50 <= percentile l p95 <= percentile l p99 /\ percentile l p99 <= percentile l p999.
Proof.
  intros S N B. assert (0 < len l) as Ln by (unfold len; destruct l; [done|cbn; lia]).
  pose proof (picks_ordered (len l - 1) ltac:(lia)) as P. unfold picks, ascending in P. cbn [map] in P.
  apply andb_prop in P as [P1 P]. apply andb_prop in P as [P2 P]. apply andb_prop in P as [P3 P]. apply andb_prop in P as [P4 P5]. btauto_props.
  destruct (percentile_at l p50 _ eq_refl) as (x1 & L1 & ->); [lia|]. destruct (percentile_at l p95 _ eq_refl) as (x2 & L2 & ->); [lia|].
  destruct (percentile_at l p99 _ eq_refl) as (x3 & L3 & ->); [lia|]. destruct (percentile_at l p999 _ eq_refl) as (x4 & L4 & ->); [lia|].
  assert (forall i x, l !! i = Some x -> x ∈ l) as In by (intros; by eapply list_elem_of_lookup_2).
  split_and!; try (by eapply In); try (eapply (sorted_lookup l S); [|done|done]; lia).
  intros x [i X]%list_elem_of_lookup_1. pose proof (lookup_lt_Some _ _ _ X). split.
  - destruct (lookup_lt_is_Some_2 l 0) as [h Hh]; [lia|]. rewrite <- head_lookup in Hh. rewrite Hh. rewrite head_lookup in Hh.
    eapply (sorted_lookup l S); [|done|done]. lia.
  - destruct (lookup_lt_is_Some_2 l (pred (length l))) as [t Ht]; [lia|]. rewrite <- last_lookup in Ht. rewrite Ht. rewrite last_lookup in Ht.
    eapply (sorted_lookup l S); [|done|done]. lia.
Qed.

(** ** What is counted *)

(** The answers of a run that are recorded: those after the warm-up. *)
Definition recorded (startRecording : Z) (es : list event) : list (string * Z) :=
  omap (fun e => match e with Answered o d now => if startRecording <? now then Some (o, d) else None | _ => None end) es.
Definition count_of (k : string) (l : list (string * Z)) : Z := len (filter (fun x => x.1 = k) l).
Definition measured (k : string) (l : list (string * Z)) : list Z := omap (fun x => if bool_decide (x.1 = k) && (0 <? x.2) then Some x.2 else None) l.

(** The statistics after the records [l]: [sorted] once finalised. *)
Record tallies (l : list (string * Z)) (s : stats) : Prop := {
  t_counts : forall k, get (counts s) k = count_of k l;
  t_lats : forall k, Permutation (lats s k) (measured k l);
  t_total : totalReqs s = len l;
  t_sum : total s = len l;
}.

Lemma record_tallies l s o d : tallies l s -> tallies (l ++ [(o, d)]) (record s o d).
Proof.
  intros [Hc Hl Ht Hs]. split.
  - intros k. unfold record, count_of, get. cbn [counts]. rewrite filter_app. unfold len. rewrite length_app. destruct (decide (o = k)) as [->|N].
    + rewrite lookup_insert_eq, filter_cons_True by done. cbn. unfold get in Hc. rewrite Hc. unfold count_of, len. lia.
    + rewrite lookup_insert_ne, filter_cons_False by done. cbn. unfold get in Hc. rewrite Hc. unfold count_of, len. lia.
  - intros k. unfold record, lats, measured. cbn [latencies]. rewrite omap_app. cbn [omap list_omap fst snd]. destruct (0 <? d) eqn:D.
    + destruct (decide (o = k)) as [->|N].
      * rewrite lookup_insert_eq, bool_decide_eq_true_2 by done. cbn. apply Permutation_app_tail, Hl.
      * rewrite lookup_insert_ne, bool_decide_eq_false_2 by done. cbn. rewrite app_nil_r. apply Hl.
    + rewrite andb_false_r, app_nil_r. apply Hl.
  - unfold record, len. cbn [totalReqs]. rewrite length_app, Ht. unfold len. cbn. lia.
  - unfold record, total, len. cbn [counts]. rewrite length_app. unfold total, len in Hs. cbn.
    assert (forall (m : gmap string Z) k n, m !! k = None -> map_fold (fun _ n t => n + t) 0 (<[k := n]> m) = n + map_fold (fun _ n t => n + t) 0 m) as Fold
      by (intros m k n Nk; rewrite map_fold_insert_L; [done|intros; lia|done]).
    unfold get. destruct (counts s !! o) as [n|] eqn:E.
    + rewrite <- (insert_delete_id _ _ _ E), Fold in Hs by (by rewrite lookup_delete_eq).
      rewrite <- (insert_delete_eq (counts s)), Fold by (by rewrite lookup_delete_eq). cbn. lia.
    + rewrite Fold by done. cbn. lia.
Qed.

Lemma finalise_tallies l s : tallies l s -> tallies l (finalise s).
Proof.
  intros [Hc Hl Ht Hs]. split; [done| |done|done]. intros k. unfold finalise, lats. cbn [latencies]. rewrite lookup_fmap.
  etransitivity; [|apply Hl]. unfold lats. destruct (latencies s !! k); [|done]. cbn. apply merge_sort_Permutation.
Qed.

Lemma finalise_sorted s k : Sorted Z.le (lats (finalise s) k).
Proof.
  unfold finalise, lats. cbn [latencies]. rewrite lookup_fmap. destruct (latencies s !! k); cbn; [|constructor].
  apply Sorted_merge_sort. intros a b. lia.
Qed.

(** What holds in every run. *)
Definition run_inv (cap startRecording : Z) (es : list event) (s : sys) : Prop :=
  0 <= used s <= cap /\ tallies (recorded startRecording es) (kept s).

Lemma run_snoc cap t n es e : run cap t n (es ++ [e]) = (s ← run cap t n es; step cap t s e).
Proof. unfold run. by rewrite foldl_app. Qed.

Lemma run_inv_holds cap t n es : 0 <= cap -> forall s, run cap t n es = Some s -> run_inv cap t es s.
Proof.
  intros C. induction es as [|e es IH] using rev_ind; intros s E.
  - injection E as <-. split; [cbn; lia|]. split; intros; reflexivity.
  - rewrite run_snoc in E. destruct (run cap t n es) as [s0|] eqn:R; [|done]. destruct (IH s0 eq_refl) as [U T]. cbn in E.
    unfold run_inv, recorded. rewrite omap_app. fold (recorded t es). destruct e as [| |o d now|]; cbn [omap list_omap step] in *.
    + destruct (_ && _) eqn:G; [|done]. injection E as <-. btauto_props. rewrite app_nil_r. split; [cbn; lia|done].
    + destruct (loops s0); [done|]. injection E as <-. by rewrite app_nil_r.
    + destruct (0 <? used s0) eqn:G; [|done]. injection E as <-. btauto_props. split; [cbn; lia|]. cbn [kept].
      destruct (t <? now); [by apply record_tallies|by rewrite app_nil_r].
    + destruct (_ && _) eqn:G; [|done]. injection E as <-. rewrite app_nil_r. split; [done|]. by apply finalise_tallies.
Qed.

(** The report of a run is the run.  However the producers, the requests in
    flight and the end of the test interleave, no more than [concurrency]
    requests are ever open; and the statistics as they are finalised count
    every answer that came after the warm-up and before that, once, under its
    outcome, with its latency when it has one, the counts adding up to the
    total, and every outcome of the JSON report has its minimum, percentiles
    and maximum in order. *)
Theorem report_counts_run cap t n es s : 0 <= cap -> run cap t n (es ++ [Finalise]) = Some s ->
  0 <= used s <= cap /\ total (kept s) = len (recorded t es) /\ totalReqs (kept s) = len (recorded t es) /\
  forall k st, writeJSON (kept s) !! k = Some st ->
    o_Count st = count_of k (recorded t es) /\ Permutation (lats (kept s) k) (measured k (recorded t es)) /\
    (len (measured k (recorded t es)) <= 2 ^ 53 ->
     o_Min st <= o_P50 st <= o_P95 st /\ o_P95 st <= o_P99 st <= o_P999 st /\ o_P999 st <= o_Max st).
Proof.
  intros C E. pose proof (run_inv_holds cap t n _ C s E) as [U T]. unfold recorded in T. rewrite omap_app, app_nil_r in T. fold (recorded t es) in T.
  destruct T as [Hc Hl Ht Hs]. split_and!; try done; try lia. intros k st J. unfold writeJSON in J. rewrite map_lookup_imap in J.
  destruct (counts (kept s) !! k) as [c|] eqn:Ck; [|done]. injection J as <-. split; [|split; [apply Hl|]].
  - cbn [outcome_stat o_Count]. rewrite <- Hc. unfold get. by rewrite Ck.
  - intros B. rewrite run_snoc in E. destruct (run cap t n es) as [s0|]; [|done]. cbn in E. destruct (_ && _); [|done]. injection E as <-.
    cbn [kept] in *. pose proof (finalise_sorted (kept s0) k) as S. unfold outcome_stat. cbn [o_Min o_P50 o_P95 o_P99 o_P999 o_Max].
    set (l := lats (finalise (kept s0)) k) in *. destruct (decide (l = [])) as [->|N]; [cbn; lia|].
    assert (len l <= 2 ^ 53) as B' by (unfold len in *; pose proof (Permutation_length (Hl k)) as Pl; fold l in Pl; lia).
    destruct (quantiles l S N B') as (I1 & I2 & I3 & I4 & Ex & O1 & O2). pose proof (Ex _ I1). pose proof (Ex _ I4). lia.
Qed.

(** ** Against an operator *)

Section Runs.
Context {B : Badger value} {CR : CompactRange} {PL : ProofLib} {C : Crypto} {D : D3Keys} {L : Limiter}.
Context {BL : BadgerLaws B} {CRL : CompactRangeLaws CR} {PLL : ProofLibLaws PL} {CL : CryptoLaws C} {DL : D3KeysLaws}.
Variable may : Api.input -> Prop.

(** Only an entry is sent with a status that counts as a success. *)
Lemma append_success r : replies (fun a => forall st ra b, a = Reply st ra b -> classifyHTTP st = "ok"%string -> st = 200 /\ exists e, b = AppendResponse e) (Api.handleAppend r).
Proof.
  unfold Api.handleAppend, Api.only, Api.body, Api.admission, Api.append_slot, Api.call, Api.read.
  repeat first [progress cbn [replies fst snd] | progress intros | case_match | progress simplify_eq | done].
  all: match goal with X : _ = Reply _ _ _ |- _ => injection X; clear X; intros; subst end.
  all: first [discriminate | split; [reflexivity|eexists; reflexivity]].
Qed.

(** An "ok" of the load test is an entry of the log: when a request of a
    producer with a valid UTF-8 name ends as "ok", whatever other requests the operator served
    meanwhile, the payload was signed by that producer's key, the producer was
    entitled to append, and the log holds an entry with exactly that envelope. *)
Theorem ok_outcome_logged me server att now payload d deadline s d' s' :
  reachable (Api.Log s) -> SoftwareAttestor.keys_ok att -> valid_utf8 (SoftwareAttestor.id att) = true ->
  Client.runs may (submitOne me server att now payload d deadline) s (Ok ("ok"%string, d')) s' ->
  exists env e es, SoftwareAttestor.Sign att now (str "loadgen") payload = Ok env /\ Envelope.Data env = payload /\ Envelope.valid env /\
    authorised_append (Api.Log s) env false e (Api.Log s') /\
    Entry.Envelope e = Some env /\ Log.observes (Api.Log s') es /\ es !! Z.to_nat (Entry.Index e) = Some e.
Proof.
  intros R K U E. unfold submitOne in E.
  destruct (SoftwareAttestor.Sign_valid att now (str "loadgen") payload K) as (env & Sg & V & So & Da). rewrite Sg in E.
  cbn [Client.runs] in E. destruct E as [(st & ra & b & s1 & X & Eo & I)|(e & s1 & _ & Eo & _)].
  2: { unfold classifyNetErr in Eo. by destruct (deadline e). }
  injection Eo as Eo _. destruct (exec_replies may _ _ _ _ _ (append_success _) X st ra b eq_refl (eq_sym Eo)) as [-> [e ->]].
  destruct (append_served may _ _ _ _ _ R X) as (rq & env' & ->%Client.posted_decoded & [= <-] & Ev & _ & _ & Pm & es & Ob & Lk).
  rewrite envelope_value_id in Ev, Pm by (rewrite ?So; (by eapply Client.signed_type) || (by rewrite (proj1 (Client.signed_keys _ _ _ _ _ Sg))) || done).
  destruct (reachable_ok _ (Client.reachable_later _ _ (Client.served_later _ _ _ _ _ X) R)) as (es1 & O1).
  pose proof (Log.observes_unique _ _ _ O1 Ob) as ->. destruct (ok_later s1 s' es I O1) as (es' & O' & P).
  exists env, e, es'. split_and!; try done; [by eapply authorised_append_wider; [|exact Pm|apply I]|by apply Log.ok_observes|].
  by eapply prefix_lookup_Some.
Qed.
End Runs.

(** ** Where the tool does not do what it says *)

(** A payload of fewer than eight bytes stops the program at the first request. *)
Lemma short_payload_panics payload fresh : len payload < 8 -> vary payload fresh = Err ["panic: slice bounds out of range"%string].
Proof. intros S. unfold vary. by rewrite (proj2 (Z.ltb_lt _ _) S). Qed.

(** Only the producers are waited for: a request in flight may still be recorded
    after the latencies are sorted, and then the median of 1, 2 and 9 is 9. *)
Example late_answer_unsorts :
  (s ← run 8 0 1 [Send; Send; Send; Answered "ok" 1 1; Answered "ok" 9 1; Stop; Finalise; Answered "ok" 2 1];
   Some (lats (kept s) "ok", percentile (lats (kept s) "ok") p50, used s)) = Some ([1; 9; 2], 9, 0).
Proof. vm_compute. reflexivity. Qed.

(** Failures of the client itself are in the total but in no line of the
    summary. *)
Example client_errors_unlisted :
  summary (record (record newStats "ok" 5000) "client-sign-error" 0) = (2, [("ok"%string, 1, [str "5µs"; str "5µs"; str "5µs"; str "5µs"])]).
Proof. vm_compute. reflexivity. Qed.

Example fmtP_units : map (fun v => fmtP [v] p50) [999; 1500; 12345678; 1234567890; 61000000000]
  = [str "1µs"; str "2µs"; str "12.35ms"; str "1.235s"; str "1m1s"].
Proof. vm_compute. reflexivity. Qed.
End Loadgen.

(** ** Witnesses *)

Lemma report_counts_run_witness : exists s,
  Loadgen.run 2 0 2 [Loadgen.Send; Loadgen.Send; Loadgen.Answered "ok" 7 5; Loadgen.Send; Loadgen.Answered "rate_limit" 3 6; Loadgen.Stop; Loadgen.Stop;
    Loadgen.Finalise] = Some s /\ Loadgen.total (Loadgen.kept s) = 2.
Proof.
  eexists. split; [vm_compute; reflexivity|].
  refine (proj1 (proj2 (Loadgen.report_counts_run 2 0 2
    [Loadgen.Send; Loadgen.Send; Loadgen.Answered "ok" 7 5; Loadgen.Send; Loadgen.Answered "rate_limit" 3 6; Loadgen.Stop; Loadgen.Stop] _ _ _))).
  - lia.
  - vm_compute. reflexivity.
Defined.

Definition load_signed : res Envelope.t := SoftwareAttestor.Sign demo_att 3 (str "loadgen") (str "01234567").
Definition load_env : Envelope.t := match load_signed with Ok e => e | Err _ => plain_env end.
Definition load_request : Api.call_to :=
  Api.ToAppend (Client.request demo_caller POST (str "/api/v0/append") (mk_append (Some load_env) false)).

Lemma load_answer : exists e s', exec writes_through (Api.serve load_request) (open_server log_svc) (Reply 200 None (AppendResponse e)) s'.
Proof.
  destruct (Api.run ins0 (Api.serve load_request) (open_server log_svc)) as [s' a] eqn:E.
  assert (exists e, (Api.run ins0 (Api.serve load_request) (open_server log_svc)).2 = Some (Reply 200 None (AppendResponse e))) as (e & R)
    by (eexists; vm_compute; reflexivity).
  rewrite E in R. cbn [snd] in R. subst a. exists e, s'. eapply run_exec; [apply ins0_write| |exact E]. vm_compute. reflexivity.
Qed.

Lemma ok_outcome_logged_witness : exists e s' es,
  Log.observes (Api.Log s') es /\ es !! Z.to_nat (Entry.Index e) = Some e /\ Entry.Envelope e = Some load_env.
Proof.
  destruct load_answer as (e0 & s' & X).
  destruct (Loadgen.ok_outcome_logged writes_through demo_caller (str "http://op") demo_att 3 (str "01234567") 9 (fun _ => false)
    (open_server log_svc) 9 s' log_svc_reachable) as (env & e & es & Sg & _ & _ & _ & Ev & Ob & Lk).
  - split; [discriminate|]. split; reflexivity.
  - reflexivity.
  - unfold Loadgen.submitOne. fold load_signed. assert (load_signed = Ok load_env) as -> by reflexivity. cbn [Client.runs].
    left. exists 200, None, (AppendResponse e0), s'. split; [exact X|]. split; reflexivity.
  - exists e, s', es. split; [exact Ob|]. split; [exact Lk|]. rewrite Ev. change (load_signed = Ok env) in Sg. unfold load_env. by rewrite Sg.
Defined.
