(* ===== verification/Replica.v ===== *)
(** * A mirror of the operator

    The HTTP side of pkg/mirror - its routes, its polling loop, its requests to
    the operator - and the composition: a mirror that polls the API of the
    operator while that serves its other clients. *)

From stdpp Require Import base numbers list gmap strings.
From Stdlib Require Import ZArith Lia.
From S2P Require Import Prelude GoText Codec Crypto Attest Rfc6962 Merkle RefMerkle MerkleProps LogEntry Threshold Fwdsec KeyFiles.
From S2P Require Import Checkpoint Badger Storage Core CoreProps WitnessServer Mirror Journal Auditor Ingest Api ApiExec ApiProps WitnessApi Wire Client.

#[local] Open Scope Z_scope.
#[local] Existing Instance rfc6962_hasher.

Module Replica.
Section Serve.
Context {BM : Badger value} {C : Crypto}.

(** ** The routes *)

Record Status := mk_status { Upstream : bytes; MirroredSize : Z; TotalEntries : Z; LastSyncNs : Z; SyncErrors : Z }.

Inductive mirror_reply :=
| RSize (size : Z)
| REntry (e : Entry.t)
| REntries (es : list Entry.t) (from to : Z)
| RStatus (s : Status)
| RError (e : error).

Definition status (upstream : bytes) (m : Mirror.t) : Status :=
  mk_status upstream (Mirror.lastSize m) (Mirror.totalEntries m) (Mirror.lastSync m) (Mirror.syncErrors m).

Definition entry_path : bytes := str "/api/v0/entries/".

Inductive route := ToSize | ToEntry (path : bytes) | ToEntries (q : list (bytes * bytes)) | ToStatus.

(** Any method is served. *)
Definition NewMux (upstream : bytes) (m : Mirror.t) (r : route) : Z * mirror_reply :=
  match r with
  | ToSize => (200, RSize (Mirror.Size m))
  | ToEntry path =>
      match ParseUint (TrimPrefix path entry_path) with
      | Err e => (400, RError e)
      | Ok idx => match Mirror.GetEntry m idx with Err e => (404, RError e) | Ok e => (200, REntry e) end
      end
  | ToEntries q =>
      match ParseUint (query_get q (str "from")) with
      | Err e => (400, RError ("invalid from"%string :: e))
      | Ok from =>
          match ParseUint (query_get q (str "to")) with
          | Err e => (400, RError ("invalid to"%string :: e))
          | Ok to => match Mirror.serve_entries m from to with Err e => (400, RError e) | Ok es => (200, REntries es from to) end
          end
      end
  | ToStatus => (200, RStatus (status upstream m))
  end.

(** ** The polling loop *)

(** What one poll meets: the clock, the answer to [fetchUpstreamSize] and those
    to [fetchEntries].  For an operator as the upstream, [left_alone] below says
    that they are what its routes served; elsewhere the upstream may say what it
    likes. *)
Record pull := mk_pull { p_fuel : nat; p_now : Z; p_size : res Z; p_fetch : nat -> Z -> Z -> res (list (option Entry.t)) }.

Definition poll (p : pull) (m : Mirror.t) : option (Mirror.t * Mirror.outcome) := Mirror.poll (p_fuel p) (p_now p) (p_size p) (p_fetch p) m.

(** Whether the process still runs after the polls. *)
Fixpoint polls (l : list pull) (m : Mirror.t) : option (Mirror.t * bool) :=
  match l with
  | [] => Some (m, true)
  | p :: l =>
      match poll p m with
      | None => None
      | Some (m, Mirror.Panicked) => Some (m, false)
      | Some (m, Mirror.Returned _) => polls l m
      end
  end.

(** One poll at once, then the ticks; [time.NewTicker] panics on an interval
    that is not positive. *)
Definition loop (every : Z) (first : pull) (ticks : list pull) (m : Mirror.t) : option (Mirror.t * bool) :=
  match polls [first] m with
  | Some (m, true) => if every <=? 0 then Some (m, false) else polls ticks m
  | r => r
  end.
End Serve.

(** ** The operator as the upstream *)

Section Operator.
Context {B : Badger value} {CR : CompactRange} {PL : ProofLib} {C : Crypto} {LM : Limiter}.
Context {BL : BadgerLaws B} {CRL : CompactRangeLaws CR} {PLL : ProofLibLaws PL} {CL : CryptoLaws C}.
Variable may : Api.input -> Prop.

Definition size_request (me : Client.caller) : Request unit := Client.get_request me (str "/api/v0/size") tt.
Definition range_request (me : Client.caller) (from to : Z) : Request unit :=
  mk_request GET (Client.certs me) [] (Client.addr me) (Client.agent me) (str "/api/v0/entries")
    [(str "from", fmt_d from); (str "to", fmt_d to)] (Decoded tt).

(** [httpGet] into the two responses that are asked for. *)
Definition pick_size (d : Client.document) : option Z :=
  match d with Client.DOperator (SizeResponse n _ _) => Some n | _ => None end.
Definition pick_entries (d : Client.document) : option (list (option Entry.t)) :=
  match d with Client.DOperator (EntriesResponse es _ _) => Some (Some <$> es) | _ => None end.
Definition fetchUpstreamSize (a : http Client.document) : res Z := Client.received 0 pick_size a.
Definition fetchEntries (a : http Client.document) : res (list (option Entry.t)) := Client.received [] pick_entries a.

Definition answer_of (a : response) : http Client.document :=
  match a with Reply st _ b => Answer st (Client.DOperator b) | Aborted => NoAnswer ["EOF"%string] end.

(** The answers of the operator between two of its states: each from some
    moment in between, whatever its other clients do. *)
Definition from_operator (me : Client.caller) (s s' : Api.t) (fetch : nat -> Z -> Z -> res (list (option Entry.t))) : Prop :=
  forall k f t l, fetch k f t = Ok l -> exists s1 a s2,
    interferes s s1 /\ exec may (Api.serve (Api.ToEntries (range_request me f t))) s1 a s2 /\ interferes s2 s' /\
    fetchEntries (answer_of a) = Ok l.

(** *** Everything served is in the log *)

Definition in_log (es : list Entry.t) (x : option Entry.t) : Prop := exists e i, x = Some e /\ es !! i = Some e.

(** The notes taken of a read change nothing a mirror sees. *)
Lemma disclose_passes {T A} (r : Request T) e note op (k : Api.prog A) s a s' :
  exec may (Api.disclose r e note op k) s a s' -> exists s1, interferes s s1 /\ exec may k s1 a s'.
Proof.
  assert (forall s0, exec may (Api.recordRead r (Entry.Index e) (Entry.LeafHash e) op k) s0 a s' -> exists s1, interferes s0 s1 /\ exec may k s1 a s') as R.
  { intros s0 (i & s1 & _ & Sm & I & E). eexists. split; [|exact E]. etrans; [exact I|].
    exact (proj1 (guar_recordRead r (Entry.Index e) (Entry.LeafHash e) op (Api.Ret tt) Logic.I i s1 Sm)). }
  unfold Api.disclose. cbv zeta. destruct (Entry.Honeypot e); [|apply R].
  intros (i & s1 & _ & Sm & I & E). apply R in E as (s2 & I2 & E). exists s2. split; [|done]. etrans; [exact I|]. etrans; [|exact I2].
  exact (proj1 (guar_fireHoney r (Entry.Index e) (Entry.LeafHash e) note (Api.Ret tt) Logic.I i s1 Sm)).
Qed.

Lemma range_in_log {T} (r : Request T) n : forall i acc s es s' es0, 0 <= i -> i + Z.of_nat n < 2 ^ 64 ->
  Log.ok (Api.Log s) es0 -> Forall (fun e => e ∈ es0) acc -> exec may (Api.range_entries r n i acc) s es s' ->
  exists es', Log.ok (Api.Log s') es' /\ Forall (fun e => e ∈ es') es.
Proof.
  assert (forall acc es1 es2, es1 `prefix_of` es2 -> Forall (fun e => e ∈ es1) acc -> Forall (fun e : Entry.t => e ∈ es2) acc) as Later.
  { intros acc es1 es2 [k ->] F. eapply Forall_impl; [exact F|]. intros e He. apply elem_of_app. by left. }
  induction n as [|n IH]; intros i acc s es s' es0 Hi Bd O F E; cbn [Api.range_entries] in E.
  - destruct E as [-> I]. destruct (ok_later _ _ _ I O) as (es1 & O1 & P). exists es1. split; [done|]. by eapply Later.
  - destruct E as (inp & s1 & _ & _ & I1 & E). cbn [fst snd] in E. destruct (ok_later _ _ _ I1 O) as (es1 & O1 & P1). apply (Later _ _ _ P1) in F.
    destruct (Log.Get (Api.Log s1) i) as [e|] eqn:G.
    2:{ destruct E as [-> I]. destruct (ok_later _ _ _ I O1) as (es2 & O2 & P2). exists es2. split; [done|]. by eapply Later. }
    apply disclose_passes in E as (s2 & I2 & E). destruct (ok_later _ _ _ I2 O1) as (es2 & O2 & P2).
    eapply (IH (i + 1) _ _ _ _ es2); [lia|lia|exact O2| |exact E]. eapply Later; [exact P2|]. apply Forall_app. split; [done|]. constructor; [|done].
    destruct (Log.ok_observes _ _ O1) as (_ & _ & Gt & _). apply Gt in G; [|unfold is_u64; lia]. by eapply list_elem_of_lookup_2.
Qed.

Lemma answered_in_log me s s' es0 k f t l fetch : from_operator me s s' fetch -> Log.ok (Api.Log s) es0 -> fetch k f t = Ok l ->
  exists es', Log.ok (Api.Log s') es' /\ Forall (in_log es') l.
Proof.
  intros FO O F. destruct (FO _ _ _ _ F) as (s1 & a & s2 & I1 & E & I2 & A). destruct (ok_later _ _ _ I1 O) as (es1 & O1 & _).
  cbn [Api.serve] in E. apply exec_only in E as [->|[_ E]]; [done|].
  apply exec_parse in E as [[e ->]|(f' & Pf & E)]; [done|]. apply exec_parse in E as [[e ->]|(t' & Pt & E)]; [done|].
  destruct (Z.leb_spec t' f'); [by destruct E as [-> _]|]. destruct (10000 <? t' - f'); [by destruct E as [-> _]|].
  apply exec_bind in E as (xs & s3 & E & [-> I3]). injection A as <-. apply ParseUint_u64 in Pf, Pt. unfold is_u64 in *.
  destruct (range_in_log (range_request me f t) (Z.to_nat (t' - f')) f' [] s1 xs s3 es1) as (es3 & O3 & M); [lia|lia|done|constructor|done|].
  destruct (ok_later s3 s' es3 ltac:(etrans; [exact I3|exact I2]) O3) as (es' & O' & P). exists es'. split; [done|].
  apply Forall_fmap. eapply Forall_impl; [exact M|]. intros e [i Hi]%list_elem_of_lookup. exists e, i. split; [done|]. by eapply prefix_lookup_Some.
Qed.

(** *** A quiet operator *)

Lemma run_bind_ret {A D} (p : Api.prog A) (g : A -> D) : forall ins (s : @Api.t B CR LM) s' a,
  Api.run ins p s = (s', Some a) -> Api.run ins (Api.bind p (fun x => Api.Ret (g x))) s = (s', Some (g a)).
Proof.
  induction p as [b|X f k IH|k IH|k IH]; intros ins s s' a; cbn [Api.bind Api.run]; [by intros [= -> ->]|by apply IH..|].
  destruct (Gate.release (Api.gate s)); [by apply IH|done].
Qed.

(** Alone, a range of the log is answered with its entries. *)
Lemma run_range {T} (r : Request T) n : forall ins i acc (s : @Api.t B CR LM) es, Log.ok (Api.Log s) es -> 0 <= i -> i + Z.of_nat n <= len es ->
  exists s', Api.run ins (Api.range_entries r n i acc) s = (s', Some (acc ++ take n (drop (Z.to_nat i) es))) /\ Log.ok (Api.Log s') es.
Proof.
  induction n as [|n IH]; intros ins i acc s es O Hi Bd; cbn [Api.range_entries Api.run Api.read fst snd].
  { exists s. by rewrite take_0, app_nil_r. }
  pose proof (Store.st_small _ _ (Log.ok_stores _ _ O)) as Sm. pose proof (Log.ok_observes _ _ O) as (_ & _ & G & _).
  destruct (es !! Z.to_nat i) as [e|] eqn:He; [|apply lookup_ge_None in He; unfold len in *; lia].
  rewrite (proj2 (G i e ltac:(unfold is_u64; lia)) He).
  assert (forall ins' s', Api.Log s' = Api.Log s -> exists s'', Api.run ins' (Api.range_entries r n (i + 1) (acc ++ [e])) s' =
    (s'', Some (acc ++ take (S n) (drop (Z.to_nat i) es))) /\ Log.ok (Api.Log s'') es) as Next.
  { intros ins' s' Es. destruct (IH ins' (i + 1) (acc ++ [e]) s' es) as (s'' & R & O'); [by rewrite Es|lia|lia|]. exists s''. split; [|done].
    rewrite R, (drop_S es e (Z.to_nat i) He), firstn_cons, <- app_assoc. by replace (Z.to_nat (i + 1)) with (S (Z.to_nat i)) by lia. }
  unfold Api.disclose, Api.recordRead, Api.fireHoney. cbv zeta.
  destruct (Entry.Honeypot e); cbn [Api.run fst snd]; apply Next; repeat case_match; cbn; try done; simplify_eq; done.
Qed.

(** Every request for a range of the log that the API answers is served alone,
    by an operator with the log [es]. *)
Definition quiet (me : Client.caller) (es : list Entry.t) (fetch : nat -> Z -> Z -> res (list (option Entry.t))) : Prop :=
  forall k f t, 0 <= f < t -> t <= len es -> t - f <= 10000 -> exists ins (s : @Api.t B CR LM) a s', Log.ok (Api.Log s) es /\
    Api.run ins (Api.serve (Api.ToEntries (range_request me f t))) s = (s', Some a) /\ fetch k f t = fetchEntries (answer_of a).

Lemma quiet_honest me es fetch c : quiet me es fetch -> c <= 10000 -> Mirror.honest c es fetch.
Proof.
  intros Q Hc k f t Hf Ht Hl. destruct (Q k f t Hf Ht ltac:(lia)) as (ins & s & a & s' & O & R & ->). pose proof (Store.st_small _ _ (Log.ok_stores _ _ O)) as Sm.
  cbn [Api.serve] in R. unfold Api.handleEntriesRange, Api.only, Api.parse in R. cbn [Method range_request Query] in R. rewrite bool_decide_eq_true_2 in R by done. cbn [negb] in R.
  change (query_get _ (str "from")) with (fmt_d f) in R. change (query_get _ (str "to")) with (fmt_d t) in R.
  rewrite !ParseUint_fmt_d in R by (unfold is_u64; lia). rewrite (proj2 (Z.leb_gt _ _)), (proj2 (Z.ltb_ge _ _)) in R by lia.
  destruct (run_range (range_request me f t) (Z.to_nat (t - f)) ins f [] s es O) as (s2 & R2 & _); [lia|lia|].
  rewrite (run_bind_ret _ _ _ _ _ _ R2) in R. by injection R as _ <-.
Qed.

(** A poll of an operator that is left alone with the log [es]: its size is what
    the size route answers, its ranges what the entries route answers. *)
Definition left_alone (me : Client.caller) (es : list Entry.t) (p : pull) : Prop :=
  (exists ins (s : @Api.t B CR LM) a s', Log.ok (Api.Log s) es /\
    Api.run ins (Api.serve (Api.ToSize (size_request me))) s = (s', Some a) /\ p_size p = fetchUpstreamSize (answer_of a)) /\
  quiet me es (p_fetch p).

Lemma left_alone_size me es p : left_alone me es p -> p_size p = Ok (len es).
Proof.
  intros [(ins & s & a & s' & O & R & ->) _]. pose proof (Log.ok_observes _ _ O) as (Sz & Rt & _).
  cbn [Api.serve] in R. unfold Api.handleSize, Api.only in R. cbn [Method size_request Client.get_request] in R. rewrite bool_decide_eq_true_2 in R by done.
  cbn [negb Api.read Api.run fst snd] in R. rewrite Sz, Rt in R. cbn [Api.run Api.read fst snd] in R. by injection R as _ <-.
Qed.

(** A chunk the API refuses: with more than that to fetch, the request is
    answered with an error. *)
Lemma large_chunk_refused me f t (s : @Api.t B CR LM) a s' : is_u64 f -> is_u64 t -> 10000 < t - f ->
  exec may (Api.serve (Api.ToEntries (range_request me f t))) s a s' -> exists e, fetchEntries (answer_of a) = Err e.
Proof.
  intros Uf Ut L E. cbn [Api.serve] in E. unfold Api.handleEntriesRange, Api.only, Api.parse in E. cbn [Method range_request Query] in E. rewrite bool_decide_eq_true_2 in E by done. cbn [negb] in E.
  change (query_get _ (str "from")) with (fmt_d f) in E. change (query_get _ (str "to")) with (fmt_d t) in E.
  rewrite !ParseUint_fmt_d in E by done. rewrite (proj2 (Z.leb_gt _ _)), (proj2 (Z.ltb_lt _ _)) in E by lia. destruct E as [-> _]. by eexists.
Qed.

(** *** A mirror follows its operator *)

Context {BM : Badger value} {BML : BadgerLaws BM}.

Lemma log_entry_index es : Entry.chain None es -> len es < 2 ^ 63 -> forall i e, es !! i = Some e -> Entry.Index e = Z.of_nat i.
Proof.
  intros C0 Bd i e Hi. pose proof (lookup_lt_Some _ _ _ Hi) as L.
  rewrite <- (take_drop_middle es i e Hi), cons_middle, app_assoc in C0. apply Entry.entry_chain_app in C0 as [C0 _].
  rewrite (Entry.entry_chain_index _ _ C0); unfold len in *; rewrite length_take; lia.
Qed.

(** An entry of the log that a mirror of its first entries accepts is the next
    one. *)
Lemma accept_next_of_log es n (m : Mirror.t (B := BM)) x m' o : Entry.chain None es -> len es < 2 ^ 63 -> (n <= length es)%nat -> Mirror.ok m (take n es) ->
  in_log es x -> Mirror.acceptEntry m x = (m', o) -> exists n', (n <= n' <= length es)%nat /\ Mirror.ok m' (take n' es).
Proof.
  intros Ch Bd Hn O (e & i & -> & Hi) A. assert (forall m1, Mirror.ok m1 (take n es) -> exists n', (n <= n' <= length es)%nat /\ Mirror.ok m1 (take n' es)) as Stay by (intros m1 O1; exists n; split; [lia|done]).
  pose proof A as A0. unfold Mirror.acceptEntry in A0. destruct (Entry.Verify e) as [[]|]; [|injection A0 as <- _; by apply Stay].
  destruct (Entry.VerifyChain e (Mirror.prev m)) as [[]|] eqn:VC; [|injection A0 as <- _; by apply Stay]. clear A0.
  apply Entry.VerifyChain_iff in VC as [_ Ix]. rewrite (Mirror.ok_prev _ _ O), (log_entry_index _ Ch Bd _ _ Hi) in Ix. pose proof (lookup_lt_Some _ _ _ Hi) as Li.
  assert (i = n) as ->.
  { destruct n as [|n]; [rewrite take_0 in Ix; cbn in Ix; lia|]. rewrite last_lookup, length_take, Nat.min_l in Ix by lia. cbn [pred] in Ix.
    rewrite lookup_take_lt in Ix by lia. destruct (es !! n) as [p|] eqn:Hp; [|apply lookup_ge_None in Hp; lia].
    rewrite (log_entry_index _ Ch Bd _ _ Hp) in Ix. unfold wrap64, len in *. rewrite Z.mod_small in Ix by lia. lia. }
  destruct (Mirror.accept_ok m (take n es) (Some e) m' o O) as [_ [(y & [= <-] & _ & O')|[_ O']]];
    [unfold len in *; rewrite length_take; lia|exact A| |by apply Stay].
  exists (S n). split; [lia|]. by rewrite (take_S_r es n e Hi).
Qed.

Lemma accept_slice es l : Entry.chain None es -> len es < 2 ^ 63 -> Forall (in_log es) l ->
  forall n (m m' : Mirror.t (B := BM)) o, (n <= length es)%nat -> Mirror.ok m (take n es) -> Mirror.accept_all m l = (m', o) ->
  exists n', (n <= n' <= length es)%nat /\ Mirror.ok m' (take n' es).
Proof.
  intros Ch Bd F. induction F as [|x l Hx F IH]; intros n m m' o Hn O A; cbn [Mirror.accept_all] in A.
  - injection A as <- _. exists n. split; [lia|done].
  - destruct (Mirror.acceptEntry m x) as [m1 o1] eqn:A1. destruct (accept_next_of_log es n m x m1 o1 Ch Bd Hn O Hx A1) as (n1 & L1 & O1).
    destruct o1 as [[[]|]|]; [|injection A as <- _; by exists n1..]. destruct (IH n1 m1 m' o ltac:(lia) O1 A) as (n' & L & O'). exists n'. split; [lia|done].
Qed.

Lemma sync_follows es fetch up : Entry.chain None es -> len es < 2 ^ 63 -> (forall k f t l, fetch k f t = Ok l -> Forall (in_log es) l) ->
  forall fuel k from n (m m' : Mirror.t (B := BM)) o, (n <= length es)%nat -> Mirror.ok m (take n es) ->
  Mirror.sync_loop fuel k fetch up from m = Some (m', o) -> exists n', (n <= n' <= length es)%nat /\ Mirror.ok m' (take n' es).
Proof.
  intros Ch Bd FO fuel. induction fuel as [|fuel IH]; intros k from n m m' o Hn O S; cbn [Mirror.sync_loop] in S.
  { destruct (from <? up); [done|]. injection S as <- _. exists n. split; [lia|done]. }
  destruct (from <? up); [|injection S as <- _; exists n; split; [lia|done]].
  destruct (fetch k from _) as [l|] eqn:F; [|injection S as <- _; exists n; split; [lia|done]]. apply FO in F.
  destruct (Mirror.accept_all m l) as [m1 o1] eqn:A. destruct (accept_slice es l Ch Bd F n m m1 o1 Hn O A) as (n1 & L1 & O1).
  destruct o1 as [[[]|]|]; [|injection S as <- _; by exists n1..]. destruct (IH _ _ n1 m1 m' o ltac:(lia) O1 S) as (n' & L & O'). exists n'. split; [lia|done].
Qed.

Lemma poll_follows es p (m m' : Mirror.t (B := BM)) o n : Entry.chain None es -> len es < 2 ^ 63 ->
  (forall k f t l, p_fetch p k f t = Ok l -> Forall (in_log es) l) -> (n <= length es)%nat -> Mirror.ok m (take n es) ->
  poll p m = Some (m', o) -> exists n', (n <= n' <= length es)%nat /\ Mirror.ok m' (take n' es).
Proof.
  intros Ch Bd FO Hn O P. unfold poll, Mirror.poll in P.
  assert (forall m1 o1, Mirror.syncOnce (p_fuel p) (p_now p) (p_size p) (p_fetch p) m = Some (m1, o1) ->
    exists n', (n <= n' <= length es)%nat /\ Mirror.ok m1 (take n' es)) as X.
  { intros m1 o1 S. unfold Mirror.syncOnce in S. destruct (p_size p) as [up|]; [|injection S as <- _; exists n; split; [lia|done]].
    destruct (up <=? Mirror.lastSize m); [injection S as <- _; exists n; split; [lia|by eapply Mirror.ok_stats]|].
    destruct (Mirror.sync_loop _ 0 (p_fetch p) up (Mirror.lastSize m) m) as [[m2 o2]|] eqn:SL; [|done].
    destruct (sync_follows es _ _ Ch Bd FO _ _ _ n _ _ _ Hn O SL) as (n' & L & O'). exists n'. split; [done|].
    destruct o2 as [[[]|]|]; injection S as <- _; [by eapply Mirror.ok_stats|done|done]. }
  destruct (Mirror.syncOnce _ _ _ _ m) as [[m1 o1]|]; [|done]. destruct (X m1 o1 eq_refl) as (n' & L & O'). exists n'. split; [done|].
  destruct o1 as [[[]|]|]; injection P as <- _; [done|by eapply Mirror.ok_stats|done].
Qed.

(** The life of an operator and a mirror of it: the operator serves its
    clients, the mirror polls it while it does, either may restart. *)
Inductive together (me : Client.caller) : @Api.t B CR LM -> Mirror.t (B := BM) -> Prop :=
| together_start (s : @Api.t B CR LM) upstream chunk st m :
    reachable (Api.Log s) -> view (Store.db st) = ∅ -> readable (Store.db st) -> Mirror.New upstream chunk st = Ok m -> together me s m
| together_operator (s s' : @Api.t B CR LM) m : together me s m -> interferes s s' -> together me s' m
| together_poll (s s' : @Api.t B CR LM) m p m' o :
    together me s m -> interferes s s' -> from_operator me s s' (p_fetch p) -> poll p m = Some (m', o) -> together me s' m'
| together_restart (s : @Api.t B CR LM) m upstream chunk m' : together me s m -> Mirror.New upstream chunk (Mirror.store m) = Ok m' -> together me s m'.

Lemma together_ok me (s : @Api.t B CR LM) m : together me s m -> exists es n, Log.ok (Api.Log s) es /\ (n <= length es)%nat /\ Mirror.ok m (take n es).
Proof.
  induction 1 as [s up ch st m [es O]%reachable_ok V R N|s s' m _ (es & n & O & L & M) I|s s' m p m' o _ (es & n & O & L & M) I FO P|s m up ch m' _ (es & n & O & L & M) N].
  - exists es, 0%nat. split; [done|]. split; [lia|]. eapply Mirror.New_mirror_ok; [|done|done|exact N]. rewrite V. apply Store.empty_stores.
  - destruct (ok_later _ _ _ I O) as (es' & O' & [k ->]). exists (es ++ k), n. split; [done|]. split; [rewrite length_app; lia|]. by rewrite take_app_le by lia.
  - destruct (ok_later _ _ _ I O) as (es' & O' & [k' ->]). pose proof (Log.ok_observes _ _ O') as (_ & _ & _ & Ch).
    assert (len (es ++ k') < 2 ^ 63) as Bd by (apply (Store.st_small _ _ (Log.ok_stores _ _ O'))).
    destruct (poll_follows (es ++ k') p m m' o n) as (n' & L' & M'); try done.
    + intros k f t l F. destruct (answered_in_log _ _ _ _ _ _ _ _ _ FO O F) as (es2 & O2 & Fl).
      by rewrite (Log.observes_unique _ _ _ O2 (Log.ok_observes _ _ O')) in Fl.
    + rewrite length_app. lia.
    + by rewrite take_app_le by lia.
    + exists (es ++ k'), n'. split; [done|]. split; [lia|done].
  - exists es, n. split; [done|]. split; [done|]. by eapply Mirror.New_mirror_ok; [apply M|apply M|apply M|].
Qed.

(** C28. A mirror and its operator agree: however the operator's clients, the
    mirror's polls and restarts interleave, what the mirror serves is the
    beginning of the operator's log - the same entries under the same indices,
    none of its own. *)
Theorem mirror_follows_operator me (s : @Api.t B CR LM) m upstream : together me s m ->
  exists es n, Log.observes (Api.Log s) es /\ NewMux upstream m ToSize = (200, RSize (Z.of_nat n)) /\ Z.of_nat n <= Log.Size (Api.Log s) /\
    forall i, is_u64 i ->
      (forall e, NewMux upstream m (ToEntry (entry_path ++ fmt_d i)) = (200, REntry e) <-> i < Z.of_nat n /\ Log.Get (Api.Log s) i = Ok e).
Proof.
  intros (es & n & O & L & M)%together_ok. pose proof (Log.ok_observes _ _ O) as Ob. pose proof Ob as (Sz & _ & G & _). exists es, n. split; [done|].
  destruct (ok_serves _ _ M) as (_ & Ms & Mg). split; [unfold NewMux; rewrite Ms; unfold len; by rewrite length_take, Nat.min_l|].
  split; [rewrite Sz; unfold len; lia|]. intros i Hi e. unfold NewMux, TrimPrefix, starts_with.
  rewrite take_app_length, bool_decide_eq_true_2, drop_app_length, ParseUint_fmt_d by done. rewrite (G _ _ Hi).
  specialize (Mg i e Hi). destruct (Mirror.GetEntry m i) as [x|].
  - assert (Ok x = Ok e <-> x = e) as X by (split; [by intros [= ->]|by intros ->]). rewrite X in Mg.
    assert ((200, REntry x) = (200, REntry e) <-> x = e) as Y by (split; [by intros [= ->]|by intros ->]). rewrite Y, Mg.
    destruct (decide (i < Z.of_nat n)); [rewrite lookup_take_lt by (unfold is_u64 in *; lia)|rewrite lookup_take_ge by (unfold is_u64 in *; lia)]; naive_solver.
  - split; [done|]. intros [Ln He]. rewrite lookup_take_lt in Mg by (unfold is_u64 in *; lia). by apply Mg in He.
Qed.

(** C29. A mirror catches up with the operator's API: when the operator is left
    alone for one poll, a mirror of its first entries whose own database reads
    and takes writes, and which polls in chunks of at most 10000 - the most the
    API answers - asks the size route how long the log is and the entries route
    for the rest, then holds the whole log, and the poll returns without an
    error.  (For a log within the range of a signed index; the fuel is the number
    of chunks the poll may take.) *)
Theorem mirror_catches_up_with_operator me (m : Mirror.t (B := BM)) es n p :
  Mirror.ok m (take n es) -> healthy (Store.db (Mirror.store m)) -> (n <= length es)%nat -> Entry.chain None es -> left_alone me es p ->
  0 < Mirror.ChunkSize m <= 10000 -> len es + Mirror.ChunkSize m < 2 ^ 63 -> len es <= Z.of_nat n + Z.of_nat (p_fuel p) * Mirror.ChunkSize m ->
  exists m', poll p m = Some (m', Mirror.Returned (Ok tt)) /\ serves m' es.
Proof.
  intros O Hh Hn Ch Q Hc Bd Fu. unfold poll. rewrite (left_alone_size _ _ _ Q). destruct Q as [_ Q].
  apply (mirror_catches_up m es n (p_fuel p) (p_now p) (p_fetch p)); try done; [|lia]. eapply quiet_honest; [exact Q|lia].
Qed.

End Operator.
End Replica.

(** ** Witnesses: the log of one entry, mirrored *)

Definition demo_caller : Client.caller := Client.mk_caller (Some []) (str "10.0.0.9:1") (str "mirror") DefaultLimits.
Definition demo_size : Request unit := Replica.size_request demo_caller.
Definition size_answer : response := default Aborted (answer (Api.ToSize demo_size) log2).2.
Definition demo_range : Request unit := Replica.range_request demo_caller 0 1.
Definition demo_answer : response := default Aborted (answer (Api.ToEntries demo_range) log2).2.
Definition demo_pull : Replica.pull :=
  Replica.mk_pull 1 9 (Ok 1) (fun _ f t => if (f =? 0) && (t =? 1) then Replica.fetchEntries (Replica.answer_of demo_answer) else errorf "timeout").
Definition mirror1 : Mirror.t (B := map_badger value) := match Replica.poll demo_pull mirror0 with Some (m, _) => m | None => mirror0 end.

Definition is_entries (a : response) : bool := match a with Reply 200 _ (EntriesResponse [_] _ _) => true | _ => false end.

Lemma demo_polled : Replica.poll demo_pull mirror0 = Some (mirror1, Mirror.Returned (Ok tt)).
Proof.
  assert (match Replica.poll demo_pull mirror0 with Some (_, Mirror.Returned (Ok _)) => true | _ => false end = true) as P by (vm_compute; reflexivity).
  unfold mirror1. destruct (Replica.poll demo_pull mirror0) as [[m [[[]|]|]]|]; done.
Qed.

Lemma demo_together : Replica.together writes_through demo_caller (answer (Api.ToEntries demo_range) log2).1 mirror1.
Proof.
  destruct (answered_exec (Api.ToEntries demo_range) log2 is_entries) as (a & _ & R & E); [vm_compute; reflexivity|].
  assert (interferes (server log2) (answer (Api.ToEntries demo_range) log2).1) as I by (eapply exec_later; [apply serve_guar|exact E]).
  eapply (Replica.together_poll writes_through demo_caller (server log2) _ mirror0 demo_pull); [|exact I| |].
  - apply (Replica.together_start writes_through demo_caller (server log2) (str "https://log") 0 store0); [apply log2_reachable|done|done|reflexivity].
  - intros k f t l. cbn [Replica.p_fetch demo_pull]. destruct (Z.eqb_spec f 0) as [->|]; [|done]. destruct (Z.eqb_spec t 1) as [->|]; [|done]. cbn [andb]. intros F.
    exists (server log2), a, (answer (Api.ToEntries demo_range) log2).1. split; [reflexivity|]. split; [exact E|]. split; [reflexivity|].
    unfold demo_answer in F. by rewrite R in F.
  - exact demo_polled.
Qed.

Lemma mirror_follows_operator_witness :
  Mirror.Size mirror1 = 1 /\
  exists es n, Log.observes (Api.Log (answer (Api.ToEntries demo_range) log2).1) es /\
    Replica.NewMux (str "https://log") mirror1 Replica.ToSize = (200, Replica.RSize (Z.of_nat n)).
Proof.
  split; [vm_compute; reflexivity|].
  destruct (Replica.mirror_follows_operator writes_through demo_caller _ mirror1 (str "https://log") demo_together) as (es & n & O & S & _).
  exists es, n. split; [exact O|exact S].
Defined.

(** The poll of the demo, with every answer served by the operator. *)
Definition served_pull : Replica.pull :=
  Replica.mk_pull 1 9 (Replica.fetchUpstreamSize (Replica.answer_of size_answer)) (fun _ _ _ => Replica.fetchEntries (Replica.answer_of demo_answer)).

Definition is_size (a : response) : bool := match a with Reply 200 _ (SizeResponse 1 _ _) => true | _ => false end.

Lemma served_alone es : Log.ok log2 es -> len es = 1 -> Replica.left_alone demo_caller es served_pull.
Proof.
  intros O L. split.
  - destruct (answered_exec (Api.ToSize demo_size) log2 is_size) as (a & _ & R & _); [vm_compute; reflexivity|].
    exists ins0, (server log2), a, (answer (Api.ToSize demo_size) log2).1. split; [exact O|].
    split; [rewrite <- R; apply surjective_pairing|unfold served_pull, size_answer; cbn [Replica.p_size]; by rewrite R].
  - destruct (answered_exec (Api.ToEntries demo_range) log2 is_entries) as (a & _ & R & _); [vm_compute; reflexivity|].
    intros k f t Hf Ht _. assert (f = 0 /\ t = 1) as [-> ->] by lia. exists ins0, (server log2), a, (answer (Api.ToEntries demo_range) log2).1.
    split; [exact O|]. split; [rewrite <- R; apply surjective_pairing|unfold served_pull, demo_answer; cbn [Replica.p_fetch]; by rewrite R].
Qed.

Lemma mirror_catches_up_with_operator_witness :
  exists es m', Log.observes log2 es /\ len es = 1 /\ Replica.poll served_pull mirror0 = Some (m', Mirror.Returned (Ok tt)) /\ serves m' es.
Proof.
  destruct (reachable_ok log2 log2_reachable) as [es O]. pose proof (Log.ok_observes _ _ O) as Ob. pose proof Ob as (Sz & _ & _ & Ch).
  assert (len es = 1) as L by (rewrite <- Sz; vm_compute; reflexivity).
  destruct (Replica.mirror_catches_up_with_operator demo_caller mirror0 es 0 served_pull)
    as (m' & P & S); [rewrite take_0; exact mirror0_ok|apply store0_healthy|lia|exact Ch|by apply served_alone|cbn; lia|cbn; lia|cbn; lia|].
  exists es, m'. split; [exact Ob|]. split; [exact L|]. split; [exact P|exact S].
Defined.
